(** * Slot-Monte-Carlo: round simulation and statistics aggregation

    A shallow embedding of the round simulators (DeepDive.cpp and
    SS03Game.cpp), of Statistics.cpp and of the parts of
    MonteCarloSimulator.cpp that accumulate and analyse the results.

    Conventions of the embedding.
    - [int] and [long long] values are [Z].  Where the program multiplies or
      adds [long long] values that the input controls, the two's-complement
      wrap-around of the generated code is written out with [Int64.wrap]
      (the C++ standard leaves signed overflow undefined).  Per-round
      counters that are only incremented are left unwrapped: they would need
      2^63 loop iterations to overflow.
    - [double] values are exact rationals [Q]; scores, which are sums of
      [int] values stored in a [double], are kept as [Z] inside a round and
      injected into [Q] by the simulator.  Rounding is not modelled.
    - [std::mt19937] is a stream of raw outputs with a cursor; every
      distribution object reduces the next raw output into its range.
    - [std::vector] is [list]; the processing queue, which the program only
      touches at [back()], keeps its back at the head of the list.
    - A call either returns, throws, or is still running when the fuel of
      the model is exhausted. *)

From stdpp Require Import gmap.
From Stdlib Require Import ZArith QArith Qround Qminmax Qpower Lqa.
From Stdlib Require Import List Bool Lia String.
Import ListNotations.
Local Open Scope Z_scope.

(** ** Machine integers *)

Module Int64.

Definition modulus : Z := 2 ^ 64.
Definition half_modulus : Z := 2 ^ 63.
Definition max_signed : Z := half_modulus - 1.
Definition min_signed : Z := - half_modulus.

(** Two's-complement reduction of a mathematical integer to [long long]. *)
Definition wrap (x : Z) : Z :=
  (x + half_modulus) mod modulus - half_modulus.

Definition in_range (x : Z) : Prop := min_signed <= x <= max_signed.

Definition add (x y : Z) : Z := wrap (x + y).
Definition sub (x y : Z) : Z := wrap (x - y).
Definition mul (x y : Z) : Z := wrap (x * y).

(** [a / b] on integers truncates toward zero. *)
Definition div (x y : Z) : Z := wrap (Z.quot x y).

End Int64.

(** ** Outcomes of a call *)

Inductive Outcome (A : Type) : Type :=
| Returns (a : A)
| Throws (what : string)
| OutOfFuel.
Arguments Returns {A} a.
Arguments Throws {A} what.
Arguments OutOfFuel {A}.

(** ** Doubles as rationals *)

Module Dbl.

Local Open Scope Q_scope.

(** Conversion of an integer to [double]. *)
Definition ofZ (z : Z) : Q := inject_Z z.

(** Conversion of a [double] to an integer type: truncation toward zero. *)
Definition trunc (q : Q) : Z := Z.quot (Qnum q) (Zpos (Qden q)).

Definition ltb (x y : Q) : bool := negb (Qle_bool y x).
Definition leb (x y : Q) : bool := Qle_bool x y.
Definition eqb (x y : Q) : bool := Qeq_bool x y.

Definition sum (l : list Q) : Q := fold_left Qplus l 0.

(** A rational stand-in for [std::sqrt]: six Newton steps from 1. *)
Definition newton_sqrt (x : Q) : Q :=
  Nat.iter 6 (fun y => Qred ((y + x / y) / 2)) 1.

(** The result of a [double] operation is the exact result rounded.  Where
    the rounding is written out, this is all that is asked of it: it is
    monotone, it leaves the integers up to 2^53 as they are, and it leaves
    its own results as they are.  [binary64] below is such a rounding. *)
Definition rounding (rnd : Q -> Q) : Prop :=
  (forall x y, x <= y -> rnd x <= rnd y)
  /\ (forall n : Z, (Z.abs n <= 2 ^ 53)%Z -> rnd (inject_Z n) == inject_Z n)
  /\ (forall x, rnd (rnd x) == rnd x).

(** The product in [a + b * c]: rounded on its own, or, when the compiler
    contracts the expression into a fused multiply-add, not rounded before
    the sum is. *)
Definition product (rnd : Q -> Q) (fused : bool) (x : Q) : Q :=
  if fused then x else rnd x.

(** *** binary64 rounding to nearest

    The result is the nearest number with 53 significant bits, or the
    nearest multiple of 2^-1074 where those are sparser, ties going to the
    even significand.  Overflow to infinity is not modelled: a result of
    2^1024 or more is a number here. *)

(** The nearest integer, ties to the even one. *)
Definition nearest_even (x : Q) : Z :=
  let f := Qfloor x in
  match Qcompare (x - inject_Z f) (1 # 2) with
  | Lt => f
  | Gt => (f + 1)%Z
  | Eq => if Z.even f then f else (f + 1)%Z
  end.

(** [floor (log2 x)] of a positive [x]. *)
Definition exponent (x : Q) : Z :=
  let e := (Z.log2 (Qnum x) - Z.log2 (Zpos (Qden x)))%Z in
  if Qle_bool (2 ^ e) x then e else (e - 1)%Z.

(** The nearest multiple of [2 ^ q]. *)
Definition to_grid (q : Z) (x : Q) : Q :=
  inject_Z (nearest_even (x / 2 ^ q)) * 2 ^ q.

(** The spacing of the doubles around a positive [x]. *)
Definition spacing (x : Q) : Z := Z.max (exponent x - 52) (-1074).

Definition round_pos (x : Q) : Q := to_grid (spacing x) x.

Definition binary64 (x : Q) : Q :=
  match Qcompare x 0 with
  | Eq => 0
  | Gt => round_pos x
  | Lt => - round_pos (- x)
  end.

End Dbl.

(** ** Statistics.cpp *)

Module Statistics.

Local Open Scope Q_scope.

Definition calculateMean (data : list Q) : Q :=
  match data with
  | [] => 0
  | _ :: _ => Dbl.sum data / Dbl.ofZ (Z.of_nat (List.length data))
  end.

(** Population variance. *)
Definition calculateVariance (data : list Q) (mean : Q) : Q :=
  if (List.length data <? 2)%nat then 0
  else
    fold_left (fun acc val => acc + (val - mean) * (val - mean)) data 0
    / Dbl.ofZ (Z.of_nat (List.length data)).

(** [std::sort] on doubles. *)
Fixpoint insert (x : Q) (l : list Q) : list Q :=
  match l with
  | [] => [x]
  | y :: l' => if Dbl.leb x y then x :: l else y :: insert x l'
  end.

Definition sort (l : list Q) : list Q := fold_right insert [] l.

(** Returns the value together with the vector it has sorted in place. *)
Definition findValueAtPercentile (data : list Q) (percentile : Q)
  : Outcome (Q * list Q) :=
  match data with
  | [] => Throws "Data cannot be empty and percentile must be between 0 and 100."
  | _ :: _ =>
      if Dbl.ltb percentile 0 || Dbl.ltb 100 percentile then
        Throws "Data cannot be empty and percentile must be between 0 and 100."
      else
        let sorted := sort data in
        let n := Z.of_nat (List.length sorted) in
        if Dbl.eqb percentile 100 then Returns (last sorted 0, sorted)
        else
          let rank := (percentile / 100) * Dbl.ofZ (n - 1) in
          let lower_index := Dbl.trunc rank in
          let fraction := rank - Dbl.ofZ lower_index in
          if (lower_index + 1 >=? n)%Z then Returns (last sorted 0, sorted)
          else
            let lo := nth (Z.to_nat lower_index) sorted 0 in
            let hi := nth (Z.to_nat (lower_index + 1)) sorted 0 in
            Returns (lo + fraction * (hi - lo), sorted)
  end.

(** Rows of the two-tailed critical values: degrees of freedom, then the
    values for 90, 95 and 99 percent. *)
Definition t_table : list (Z * (Q * Q * Q)) :=
  [ (1%Z,  (6.314, 12.706, 63.657));
    (2%Z,  (2.920, 4.303,  9.925));
    (3%Z,  (2.353, 3.182,  5.841));
    (4%Z,  (2.132, 2.776,  4.604));
    (5%Z,  (2.015, 2.571,  4.032));
    (6%Z,  (1.943, 2.447,  3.707));
    (7%Z,  (1.895, 2.365,  3.499));
    (8%Z,  (1.860, 2.306,  3.355));
    (9%Z,  (1.833, 2.262,  3.250));
    (10%Z, (1.812, 2.228,  3.169));
    (15%Z, (1.753, 2.131,  2.947));
    (20%Z, (1.725, 2.086,  2.845));
    (25%Z, (1.708, 2.060,  2.787));
    (30%Z, (1.697, 2.042,  2.750));
    (40%Z, (1.684, 2.021,  2.704));
    (50%Z, (1.676, 2.009,  2.678));
    (60%Z, (1.671, 2.000,  2.660));
    (80%Z, (1.664, 1.990,  2.639));
    (100%Z,(1.660, 1.984,  2.626)) ].

(** [std::map::lower_bound]: the first row whose key is not below [df]. *)
Fixpoint lower_bound (table : list (Z * (Q * Q * Q))) (df : Z)
  : option (Z * (Q * Q * Q)) :=
  match table with
  | [] => None
  | row :: rest => if (df <=? fst row)%Z then Some row else lower_bound rest df
  end.

Definition pick (confidence_level : Q) (row : Q * Q * Q) : option Q :=
  let '(t90, t95, t99) := row in
  if Dbl.eqb confidence_level 90 then Some t90
  else if Dbl.eqb confidence_level 95 then Some t95
  else if Dbl.eqb confidence_level 99 then Some t99
  else None.

(** [None] stands for the NaN the function returns. *)
Definition findTValue (confidence_level : Q) (df : Z) : option Q :=
  if (df <? 1)%Z then None
  else
    let z_score :=
      if (df >? 100)%Z then pick confidence_level (1.645, 1.960, 2.576)
      else None in
    match z_score with
    | Some z => Some z
    | None =>
        let row :=
          match lower_bound t_table df with
          | Some r => r
          | None => last t_table (0%Z, (0, 0, 0))
          end in
        pick confidence_level (snd row)
    end.

(** [std::lower_bound(first, last, v) - first] on a vector of doubles: the
    position of the first element not less than [v]; as for
    [Histogram.upper_bound] below, this is the library's contract on a
    sorted range. *)
Fixpoint first_not_less (data : list Q) (v : Q) : nat :=
  match data with
  | [] => O
  | x :: rest => if Dbl.ltb x v then S (first_not_less rest v) else O
  end.

(** [std::upper_bound(first, last, v) - first]: the position of the first
    element greater than [v]. *)
Fixpoint first_greater (data : list Q) (v : Q) : nat :=
  match data with
  | [] => O
  | x :: rest => if Dbl.ltb v x then O else S (first_greater rest v)
  end.

Definition findPercentileOfValue (sortedData : list Q) (value : Q)
  : Outcome Q :=
  match sortedData with
  | [] => Throws "Data cannot be empty."
  | _ :: _ =>
      let it := first_not_less sortedData value in
      let count := Z.of_nat it in
      let count :=
        if (it <? List.length sortedData)%nat
           && Dbl.eqb (nth it sortedData 0) value
        then
          let upper_it := first_greater sortedData value in
          (count + Z.quot (Z.of_nat upper_it - Z.of_nat it) 2)%Z
        else count in
      Returns (Dbl.ofZ count / Dbl.ofZ (Z.of_nat (List.length sortedData))
               * 100)
  end.

End Statistics.

(** ** MonteCarloSimulator.cpp: the moment accumulator *)

Module OnlineStats.

Local Open Scope Q_scope.

Record t : Type := mk { count : Z; M1 : Q; M2 : Q; M3 : Q; M4 : Q }.

Definition empty : t := mk 0 0 0 0 0.

Definition update (s : t) (value : Q) : t :=
  let count' := Int64.add (count s) 1 in
  let delta := value - M1 s in
  let delta_n := delta / Dbl.ofZ count' in
  let delta_n2 := delta_n * delta_n in
  let term1 := delta * delta_n * Dbl.ofZ (Int64.sub count' 1) in
  let M1' := M1 s + delta_n in
  let M4' :=
    M4 s + (term1 * delta_n2
              * Dbl.ofZ (Int64.add
                           (Int64.sub (Int64.mul count' count')
                                      (Int64.mul 3 count')) 3)
            + 6 * delta_n2 * M2 s - 4 * delta_n * M3 s) in
  let M3' :=
    M3 s + (term1 * delta_n * Dbl.ofZ (Int64.sub count' 2)
            - 3 * delta_n * M2 s) in
  let M2' := M2 s + term1 in
  mk count' M1' M2' M3' M4'.

(** [a.combine(b)], returning the new value of [a]. *)
Definition combine (a other : t) : t :=
  if (count other =? 0)%Z then a
  else if (count a =? 0)%Z then other
  else
    let n := count a in
    let m := count other in
    let combined_count := Int64.add n m in
    let delta := M1 other - M1 a in
    let delta2 := delta * delta in
    let delta3 := delta * delta2 in
    let delta4 := delta2 * delta2 in
    let cc2 := Int64.mul combined_count combined_count in
    let cc3 := Int64.mul cc2 combined_count in
    let combined_M1 :=
      (Dbl.ofZ n * M1 a + Dbl.ofZ m * M1 other) / Dbl.ofZ combined_count in
    let combined_M2 :=
      M2 a + M2 other
      + delta2 * Dbl.ofZ n * Dbl.ofZ m / Dbl.ofZ combined_count in
    let combined_M3 :=
      M3 a + M3 other
      + delta3 * Dbl.ofZ n * Dbl.ofZ m * Dbl.ofZ (Int64.sub n m)
        / Dbl.ofZ cc2 in
    let combined_M3 :=
      combined_M3
      + 3 * delta * (Dbl.ofZ n * M2 other - Dbl.ofZ m * M2 a)
        / Dbl.ofZ combined_count in
    let combined_M4 :=
      M4 a + M4 other
      + delta4 * Dbl.ofZ n * Dbl.ofZ m
        * Dbl.ofZ (Int64.add
                     (Int64.sub (Int64.mul n n) (Int64.mul n m))
                     (Int64.mul m m))
        / Dbl.ofZ cc3 in
    let combined_M4 :=
      combined_M4
      + (6 * delta2
         * (Dbl.ofZ (Int64.mul n n) * M2 other
            + Dbl.ofZ (Int64.mul m m) * M2 a)
         / Dbl.ofZ cc2
         + 4 * delta * (Dbl.ofZ n * M3 other - Dbl.ofZ m * M3 a)
           / Dbl.ofZ combined_count) in
    mk combined_count combined_M1 combined_M2 combined_M3 combined_M4.

(** A fresh accumulator fed the observations in order. *)
Definition replay (values : list Q) : t := fold_left update values empty.

(** Field-wise equality of two accumulators, as numbers. *)
Definition same (a b : t) : Prop :=
  count a = count b /\ M1 a == M1 b /\ M2 a == M2 b
  /\ M3 a == M3 b /\ M4 a == M4 b.

(** An accumulator that has only seen zeros. *)
Definition zeroed (s : t) : Prop :=
  M1 s == 0 /\ M2 s == 0 /\ M3 s == 0 /\ M4 s == 0.

(** The sums of the first four powers of the observations, recovered
    from the count and the centred moments. *)
Definition N (s : t) : Q := Dbl.ofZ (count s).
Definition S1 (s : t) : Q := N s * M1 s.
Definition S2 (s : t) : Q := M2 s + N s * M1 s * M1 s.
Definition S3 (s : t) : Q :=
  M3 s + 3 * M1 s * M2 s + N s * M1 s * M1 s * M1 s.
Definition S4 (s : t) : Q :=
  M4 s + 4 * M1 s * M3 s + 6 * M1 s * M1 s * M2 s
  + N s * M1 s * M1 s * M1 s * M1 s.

(** Sums of powers of the observations. *)
Definition sum1 (xs : list Q) : Q := fold_right (fun x acc => x + acc) 0 xs.
Definition sum2 (xs : list Q) : Q := fold_right (fun x acc => x * x + acc) 0 xs.
Definition sum3 (xs : list Q) : Q :=
  fold_right (fun x acc => x * x * x + acc) 0 xs.
Definition sum4 (xs : list Q) : Q :=
  fold_right (fun x acc => x * x * x * x + acc) 0 xs.

End OnlineStats.

(** ** The random stream *)

Module Rng.

Record t : Type := mk { raw : nat -> Z; cursor : nat }.

Definition next (g : t) : Z * t :=
  (raw g (cursor g), mk (raw g) (S (cursor g))).

(** [std::uniform_int_distribution<size_t>(0, n - 1)]. *)
Definition uniform_int (n : Z) (g : t) : Z * t :=
  let (x, g') := next g in (x mod n, g').

(** [std::uniform_real_distribution<double>(0.0, 1.0)]: a value in [0, 1). *)
Definition uniform_real (g : t) : Q * t :=
  let (x, g') := next g in (Qmake (x mod 2 ^ 32) (2 ^ 32), g').

Definition of_list (l : list Z) : t := mk (fun i => nth i l 0) 0.

End Rng.

Inductive SimulationMode : Type := FULL_GAME | FG_ONLY | BG_ONLY.

(** The record returned by [simulateGameRound]; both game modules declare
    the same fields in the same order. *)
Record GameResult : Type := mkGameResult {
  bg_score : Z;
  fg_score : Z;
  fg_run_length : Z;
  fg_was_triggered : bool;
  fg_nonzero_picks : Z;
  max_bg_multiplier : Z;
  max_fg_multiplier : Z;
  bg_levels : Z;
  fg_levels : list Z
}.

(** What a finished round leaves behind besides its result. *)
Record Round : Type := mkRound {
  result : GameResult;
  rng_after : Rng.t;
  cap_warnings : nat;          (* warning lines written to std::cout *)
  unprocessed : nat            (* items still in the queue at loop exit *)
}.

(** One level entry per feature pick, and no more non-zero picks than picks. *)
Definition result_ok (r : GameResult) : Prop :=
  fg_run_length r = Z.of_nat (List.length (fg_levels r))
  /\ fg_nonzero_picks r <= fg_run_length r.

(** ** DeepDive.cpp: the pool-multiplier variant *)

Module DeepDive.

Record BG_Item : Type := mkBG {
  bg_index : Z; bg_value : Z; bg_flag : bool; bg_item_levels : Z }.

Record FG_Item : Type := mkFG {
  index : Z; value : Z; flag : bool; count : Z; levels : Z }.

Record DeepDiveData : Type := mkData {
  bg_items : list BG_Item;
  fg_items : list FG_Item;
  multiplier_pools : list (list Z);
  item_to_pool_map : gmap Z Z
}.

(** The file-local [gameData] with its [isInitialized] flag. *)
Record Global : Type := mkGlobal {
  gameData : DeepDiveData;
  isInitialized : bool
}.

Definition MAX_QUEUE_SIZE : Z := 1000.

Definition no_bg : BG_Item := mkBG 0 0 false 0.
Definition no_fg : FG_Item := mkFG 0 0 false 0 0.

Definition size {A} (l : list A) : Z := Z.of_nat (List.length l).

(** [v[i]] for an index drawn inside the vector. *)
Definition at_ {A} (d : A) (l : list A) (i : Z) : A := nth (Z.to_nat i) l d.

(** [for (i = 0; i < n; ++i) queue.push_back(fg_items[fg_dist(rng)])]. *)
Fixpoint push_draws (n : nat) (items : list FG_Item)
         (q : list FG_Item) (g : Rng.t) : list FG_Item * Rng.t :=
  match n with
  | O => (q, g)
  | S k =>
      let (i, g') := Rng.uniform_int (size items) g in
      push_draws k items (at_ no_fg items i :: q) g'
  end.

(** [for (i = 0; i < count; ++i) total_multiplier += pool[multi_dist(rng)]]. *)
Fixpoint draw_multipliers (n : nat) (pool : list Z)
         (total : Z) (g : Rng.t) : Z * Rng.t :=
  match n with
  | O => (total, g)
  | S k =>
      let (i, g') := Rng.uniform_int (size pool) g in
      draw_multipliers k pool (Int64.add total (at_ 0 pool i)) g'
  end.

Definition total_multiplier_of (d : DeepDiveData) (it : FG_Item)
           (g : Rng.t) : Z * Rng.t :=
  if count it =? 0 then (1, g)
  else
    match item_to_pool_map d !! index it with
    | Some pool_id =>
        if (0 <=? pool_id) && (pool_id <? size (multiplier_pools d)) then
          let pool := at_ [] (multiplier_pools d) pool_id in
          match pool with
          | [] => (0, g)
          | _ => draw_multipliers (Z.to_nat (count it)) pool 0 g
          end
        else (0, g)
    | None => (0, g)
    end.

(** The locals of [simulateGameRound] that the feature loop updates. *)
Record FgState : Type := mkState {
  queue : list FG_Item;
  rng : Rng.t;
  st_fg_score : Z;
  fg_items_processed : Z;
  st_fg_nonzero_picks : Z;
  st_max_fg_multiplier : Z;
  st_fg_levels : list Z;
  cap_warning_logged_this_run : bool;
  warnings : nat
}.

(** One iteration of [while (!fg_processing_queue.empty())]. *)
Definition fg_step (d : DeepDiveData) (s : FgState) : FgState :=
  match queue s with
  | [] => s
  | current_fg :: rest =>
      let (total_multiplier, g1) := total_multiplier_of d current_fg (rng s) in
      let item_contribution := Int64.mul (value current_fg) total_multiplier in
      let max' := if total_multiplier >=? st_max_fg_multiplier s
                  then total_multiplier else st_max_fg_multiplier s in
      let score' := st_fg_score s + item_contribution in
      let nonzero' := if item_contribution =? 0 then st_fg_nonzero_picks s
                      else st_fg_nonzero_picks s + 1 in
      let processed' := fg_items_processed s + 1 in
      let levels' := st_fg_levels s ++ [levels current_fg] in
      if flag current_fg then
        if size rest >? MAX_QUEUE_SIZE then
          (* memory protection cap: warn once, then [continue] *)
          mkState rest g1 score' processed' nonzero' max' levels' true
                  (if cap_warning_logged_this_run s
                   then warnings s else S (warnings s))
        else
          let (q', g2) := push_draws 10 (fg_items d) rest g1 in
          mkState q' g2 score' processed' nonzero' max' levels'
                  (cap_warning_logged_this_run s) (warnings s)
      else
        mkState rest g1 score' processed' nonzero' max' levels'
                (cap_warning_logged_this_run s) (warnings s)
  end.

Fixpoint fg_loop (fuel : nat) (d : DeepDiveData) (s : FgState)
  : Outcome FgState :=
  match queue s with
  | [] => Returns s
  | _ :: _ =>
      match fuel with
      | O => OutOfFuel
      | S fuel' => fg_loop fuel' d (fg_step d s)
      end
  end.

(** The state on entry to the loop: ten initial draws, warning flag reset. *)
Definition fg_start (d : DeepDiveData) (g : Rng.t) : FgState :=
  let (q, g') := push_draws 10 (fg_items d) [] g in
  mkState q g' 0 0 0 1 [] false O.

Definition plain (r : GameResult) (g : Rng.t) : Outcome Round :=
  Returns (mkRound r g O O).

Definition fg_stage (fuel : nat) (d : DeepDiveData) (g : Rng.t)
           (bg_score0 bg_levels0 : Z) : Outcome Round :=
  match fg_items d with
  | [] => plain (mkGameResult bg_score0 0 0 true 0 1 1 bg_levels0 []) g
  | _ :: _ =>
      match fg_loop fuel d (fg_start d g) with
      | Returns s =>
          Returns (mkRound
            (mkGameResult bg_score0 (st_fg_score s) (fg_items_processed s)
               true (st_fg_nonzero_picks s) 1 (st_max_fg_multiplier s)
               bg_levels0 (st_fg_levels s))
            (rng s) (warnings s) (List.length (queue s)))
      | Throws w => Throws w
      | OutOfFuel => OutOfFuel
      end
  end.

Definition simulateGameRound (fuel : nat) (G : Global) (g : Rng.t)
           (mode : SimulationMode) (second_chance_prob : Q) : Outcome Round :=
  if negb (isInitialized G) then
    Throws "FATAL: Game logic called before data was initialized."
  else
    let d := gameData G in
    match bg_items d with
    | [] => plain (mkGameResult 0 0 0 false 0 1 1 0 []) g
    | _ :: _ =>
        match mode with
        | BG_ONLY =>
            let (i, g1) := Rng.uniform_int (size (bg_items d)) g in
            let chosen_bg := at_ no_bg (bg_items d) i in
            plain (mkGameResult (bg_value chosen_bg) 0 0 false 0 1 1
                     (bg_item_levels chosen_bg) []) g1
        | FG_ONLY => fg_stage fuel d g 0 0
        | FULL_GAME =>
            let (i, g1) := Rng.uniform_int (size (bg_items d)) g in
            let chosen_bg := at_ no_bg (bg_items d) i in
            let bg_score0 := bg_value chosen_bg in
            let bg_levels0 := bg_item_levels chosen_bg in
            let (proceed_to_fg, g2) :=
              if bg_flag chosen_bg then (true, g1)
              else if Qlt_le_dec 0 second_chance_prob then
                let (u, g') := Rng.uniform_real g1 in
                (if Qlt_le_dec u second_chance_prob then true else false, g')
              else (false, g1) in
            if proceed_to_fg then fg_stage fuel d g2 bg_score0 bg_levels0
            else plain (mkGameResult bg_score0 0 0 false 0 1 1 bg_levels0 []) g2
        end
    end.

(** The hard-coded data of [initializeWithSampleData]. *)
Definition sampleData : Global :=
  mkGlobal
    (mkData
       [mkBG 101 10 true 1; mkBG 102 15 false 2; mkBG 103 5 true 1]
       [mkFG 201 100 true 3 1; mkFG 202 250 false 5 2;
        mkFG 203 500 true 1 3; mkFG 204 25 false 0 1;
        mkFG 205 50 true 4 2]
       [[1; 2; 3; 5; 10]; [1; 1; 1; 3; 10]]
       (list_to_map [(201, 0); (202, 1); (203, 1); (205, 0)]))
    true.

(** A configuration whose only feature item continues. *)
Definition endlessData : Global :=
  mkGlobal (mkData [mkBG 1 5 true 1] [mkFG 1 20 true 0 1] [] ∅) true.

(** *** Invariants of the feature loop *)

(** The counters of the feature loop agree with the recorded levels. *)
Definition counters_ok (s : FgState) : Prop :=
  fg_items_processed s = Z.of_nat (List.length (st_fg_levels s))
  /\ 0 <= st_fg_nonzero_picks s <= fg_items_processed s.

(** Every item of the list continues. *)
Definition all_continue (q : list FG_Item) : Prop :=
  Forall (fun it => flag it = true) q.

(** The warning is written only while the flag is still clear. *)
Definition warned_once (s : FgState) : Prop :=
  (warnings s <= 1)%nat
  /\ (cap_warning_logged_this_run s = false -> warnings s = O).

End DeepDive.

(** ** SS03Game.cpp: the trigger-count variant *)

Module SS03Game.

Record BG_Item : Type := mkBG {
  bg_index : Z; bg_value : Z; trigger_num : Z; bg_item_levels : Z }.

Record FG_Item : Type := mkFG {
  index : Z; value : Z; retrigger_num : Z; levels : Z }.

Record GameData : Type := mkData {
  bg_items : list BG_Item;
  fg_items : list FG_Item
}.

Record Global : Type := mkGlobal {
  gameData : GameData;
  isInitialized : bool
}.

Definition MAX_QUEUE_SIZE : Z := 2000.

Definition no_bg : BG_Item := mkBG 0 0 0 0.
Definition no_fg : FG_Item := mkFG 0 0 0 0.

Definition size {A} (l : list A) : Z := Z.of_nat (List.length l).
Definition at_ {A} (d : A) (l : list A) (i : Z) : A := nth (Z.to_nat i) l d.

(** Level to multiplier, base game: 1, 2, 3 map to themselves, 4 and more
    to 5, anything below 1 to 1. *)
Definition bg_multiplier_of (lv : Z) : Z :=
  if lv <=? 0 then 1
  else if lv =? 1 then 1
  else if lv =? 2 then 2
  else if lv =? 3 then 3
  else 5.

(** Level to multiplier, feature game. *)
Definition fg_multiplier_of (lv : Z) : Z :=
  if lv <=? 0 then 2
  else if lv =? 1 then 2
  else if lv =? 2 then 4
  else if lv =? 3 then 6
  else 10.

Fixpoint push_draws (n : nat) (items : list FG_Item)
         (q : list FG_Item) (g : Rng.t) : list FG_Item * Rng.t :=
  match n with
  | O => (q, g)
  | S k =>
      let (i, g') := Rng.uniform_int (size items) g in
      push_draws k items (at_ no_fg items i :: q) g'
  end.

(** The queue, the generator and the [result] under construction. *)
Record FgState : Type := mkState {
  queue : list FG_Item;
  rng : Rng.t;
  res : GameResult
}.

(** The body of the [while] loop below its size check. *)
Definition fg_step (d : GameData) (s : FgState) : FgState :=
  match queue s with
  | [] => s
  | current_fg :: rest =>
      let r := res s in
      let fg_multiplier := fg_multiplier_of (levels current_fg) in
      let r' :=
        mkGameResult
          (bg_score r)
          (fg_score r + value current_fg)
          (fg_run_length r + 1)
          (fg_was_triggered r)
          (if value current_fg =? 0 then fg_nonzero_picks r
           else fg_nonzero_picks r + 1)
          (max_bg_multiplier r)
          (if fg_multiplier >? max_fg_multiplier r
           then fg_multiplier else max_fg_multiplier r)
          (bg_levels r)
          (fg_levels r ++ [levels current_fg]) in
      if retrigger_num current_fg >? 0 then
        let (q', g') :=
          push_draws (Z.to_nat (retrigger_num current_fg))
                     (fg_items d) rest (rng s) in
        mkState q' g' r'
      else mkState rest (rng s) r'
  end.

(** [while (!queue.empty()) { if (queue.size() > MAX_QUEUE_SIZE) break; ... }] *)
Fixpoint fg_loop (fuel : nat) (d : GameData) (s : FgState)
  : Outcome FgState :=
  match queue s with
  | [] => Returns s
  | _ :: _ =>
      if size (queue s) >? MAX_QUEUE_SIZE then Returns s
      else
        match fuel with
        | O => OutOfFuel
        | S fuel' => fg_loop fuel' d (fg_step d s)
        end
  end.

Definition plain (r : GameResult) (g : Rng.t) : Outcome Round :=
  Returns (mkRound r g O O).

Definition with_bg (r : GameResult) (b : BG_Item) : GameResult :=
  mkGameResult (bg_value b) (fg_score r) (fg_run_length r)
    (fg_was_triggered r) (fg_nonzero_picks r)
    (bg_multiplier_of (bg_item_levels b)) (max_fg_multiplier r)
    (bg_item_levels b) (fg_levels r).

Definition triggered (r : GameResult) : GameResult :=
  mkGameResult (bg_score r) (fg_score r) (fg_run_length r) true
    (fg_nonzero_picks r) (max_bg_multiplier r) (max_fg_multiplier r)
    (bg_levels r) (fg_levels r).

Definition empty_result : GameResult := mkGameResult 0 0 0 false 0 1 1 0 [].

(** Step 2 of [simulateGameRound]. *)
Definition fg_sequence (fuel : nat) (d : GameData) (g : Rng.t)
           (r : GameResult) (initial_triggers : Z) : Outcome Round :=
  if initial_triggers >? 0 then
    let r1 := triggered r in
    match fg_items d with
    | [] => plain r1 g
    | _ :: _ =>
        let (q, g1) :=
          push_draws (Z.to_nat initial_triggers) (fg_items d) [] g in
        match fg_loop fuel d (mkState q g1 r1) with
        | Returns s =>
            Returns (mkRound (res s) (rng s) O (List.length (queue s)))
        | Throws w => Throws w
        | OutOfFuel => OutOfFuel
        end
    end
  else plain r g.

Definition simulateGameRound (fuel : nat) (G : Global) (g : Rng.t)
           (mode : SimulationMode) (second_chance_prob : Q) : Outcome Round :=
  if negb (isInitialized G) then
    Throws "FATAL: Game logic called before data was initialized."
  else
    let d := gameData G in
    match mode with
    | BG_ONLY =>
        match bg_items d with
        | [] => plain empty_result g
        | _ :: _ =>
            let (i, g1) := Rng.uniform_int (size (bg_items d)) g in
            plain (with_bg empty_result (at_ no_bg (bg_items d) i)) g1
        end
    | FG_ONLY => fg_sequence fuel d g (triggered empty_result) 10
    | FULL_GAME =>
        match bg_items d with
        | [] => plain empty_result g
        | _ :: _ =>
            let (i, g1) := Rng.uniform_int (size (bg_items d)) g in
            let chosen_bg := at_ no_bg (bg_items d) i in
            let r := with_bg empty_result chosen_bg in
            let (initial_triggers, g2) :=
              if (trigger_num chosen_bg =? 0) then
                if Qlt_le_dec 0 second_chance_prob then
                  let (u, g') := Rng.uniform_real g1 in
                  (if Qlt_le_dec u second_chance_prob
                   then 10 else trigger_num chosen_bg, g')
                else (trigger_num chosen_bg, g1)
              else (trigger_num chosen_bg, g1) in
            fg_sequence fuel d g2 r initial_triggers
        end
    end.

(** The hard-coded data of [initializeWithSampleData]. *)
Definition sampleData : Global :=
  mkGlobal
    (mkData
       [mkBG 1 10 0 2; mkBG 2 20 0 3; mkBG 3 5 0 1;
        mkBG 4 0 10 1; mkBG 5 0 12 1]
       [mkFG 101 100 0 2; mkFG 102 250 2 3; mkFG 103 50 0 1])
    true.

(** A configuration whose only feature item grants one more pick. *)
Definition endlessData : Global :=
  mkGlobal (mkData [mkBG 1 5 10 1] [mkFG 1 20 1 1]) true.

(** A configuration whose only feature item grants two more picks. *)
Definition growingData : Global :=
  mkGlobal (mkData [mkBG 1 5 10 1] [mkFG 1 20 2 1]) true.

(** *** Invariants of the feature loop *)

(** Every item of the list grants exactly one further pick. *)
Definition all_retrigger_once (q : list FG_Item) : Prop :=
  Forall (fun it => retrigger_num it = 1) q.

End SS03Game.

(** ** MonteCarloSimulator.cpp: runner, histogram and estimators *)

Inductive MemoryMode : Type := EFFICIENT | ACCURATE.

Record ConfidenceInterval : Type := mkCI {
  level : Q;
  lower_bound : option Q;      (* [None] is NaN *)
  upper_bound : option Q
}.

Module Histogram.

Local Open Scope Q_scope.

Record t : Type := mk {
  dividers : list Q;
  bins : list Z;
  underflow : Z;
  overflow : Z
}.

(** A default-constructed [Histogram]. *)
Definition empty : t := mk [] [] 0 0.

(** [bins.assign(dividers.size() - 1, 0)]. *)
Definition zero_bins (dividers : list Q) : list Z :=
  repeat 0%Z (List.length dividers - 1).

(** [std::upper_bound(first, last, v) - first]: the position of the first
    element greater than [v].  This is the library's contract on a
    non-decreasing range; on any other range the library leaves the result
    unspecified. *)
Fixpoint upper_bound (dividers : list Q) (v : Q) : nat :=
  match dividers with
  | [] => O
  | d :: rest => if Dbl.ltb v d then O else S (upper_bound rest v)
  end.

(** [bins[i]++].  An index outside the vector is undefined behaviour in
    the program; here it leaves the vector alone. *)
Fixpoint increment (bins : list Z) (i : nat) : list Z :=
  match bins, i with
  | [], _ => []
  | b :: rest, O => (b + 1)%Z :: rest
  | b :: rest, S i' => b :: increment rest i'
  end.

Definition increment_at (bins : list Z) (bin_index : Z) : list Z :=
  if (bin_index <? 0)%Z then bins else increment bins (Z.to_nat bin_index).

(** The histogram update of the runners: [dividers] are those of
    [m_histogram], [h] is the histogram that receives the count. *)
Definition observe (dividers : list Q) (h : t) (total_score : Q) : t :=
  if Dbl.ltb total_score 0 then
    mk (Histogram.dividers h) (bins h) (underflow h + 1) (overflow h)
  else if Dbl.leb (last dividers 0) total_score then
    mk (Histogram.dividers h) (bins h) (underflow h) (overflow h + 1)
  else
    let bin_index := (Z.of_nat (upper_bound dividers total_score) - 1)%Z in
    mk (Histogram.dividers h) (increment_at (bins h) bin_index)
       (underflow h) (overflow h).

(** [for j < bins.size(): bins[j] += other.bins[j]]. *)
Fixpoint add_bins (bins other : list Z) : list Z :=
  match bins, other with
  | b :: rest, o :: rest' => (b + o)%Z :: add_bins rest rest'
  | _, _ => bins
  end.

Definition absorb (h th : t) : t :=
  mk (dividers h) (add_bins (bins h) (bins th))
     (underflow h + underflow th) (overflow h + overflow th).

Definition total (h : t) : Z :=
  (fold_right Z.add 0 (bins h) + underflow h + overflow h)%Z.

Definition bin_sum (bins : list Z) : Z := fold_right Z.add 0%Z bins.

(** Edges as [setCustomHistogramBins] lays them out. *)
Definition edges_ok (ds : list Q) : Prop := exists rest, ds = 0 :: 1 :: rest.

(** One bin per pair of neighbouring edges. *)
Definition shaped (ds : list Q) (h : t) : Prop :=
  List.length (bins h) = (List.length ds - 1)%nat.

End Histogram.

Module MonteCarloSimulator.

Local Open Scope Q_scope.

(** The members of the simulator that the histogram depends on. *)
Record t : Type := mk {
  m_histogram : Histogram.t;
  m_histogram_configured : bool
}.

(** A freshly constructed simulator. *)
Definition fresh : t := mk Histogram.empty false.

Definition setCustomHistogramBins (sim : t) (dividers : list Q) : Outcome t :=
  match dividers with
  | [] => Throws "Custom dividers must not be empty and must start with a value >= 1."
  | front :: _ =>
      if Dbl.ltb front 1 then
        Throws "Custom dividers must not be empty and must start with a value >= 1."
      else
        let ds := 0 :: 1 :: dividers in
        Returns (mk (Histogram.mk ds (Histogram.zero_bins ds)
                       (Histogram.underflow (m_histogram sim))
                       (Histogram.overflow (m_histogram sim)))
                    true)
  end.

(** [for (val = from; val <= to; val += step) dividers.push_back(val)],
    with at most [n] iterations left. *)
Fixpoint steps (n : nat) (from to step : Q) : list Q :=
  match n with
  | O => []
  | S n' => if Dbl.leb from to then from :: steps n' (from + step) to step
            else []
  end.

Definition progressive_dividers : list Q :=
  steps 20 5 100 5 ++ steps 40 110 500 10
  ++ steps 15 600 2000 100 ++ steps 36 2500 20000 500.

Definition setProgressiveHistogramBins (sim : t) : Outcome t :=
  setCustomHistogramBins sim progressive_dividers.

Definition setFixedWidthHistogramBins (sim : t) (max_val : Q) (num_bins : Z)
  : Outcome t :=
  if Dbl.leb max_val 1 || (num_bins <? 1)%Z then
    Throws "Max value must be > 1 and num_bins must be > 0."
  else
    let bin_width := (max_val - 1) / Dbl.ofZ num_bins in
    setCustomHistogramBins sim
      (map (fun i => 1 + Dbl.ofZ (Z.of_nat i + 1) * bin_width)
           (seq 0 (Z.to_nat num_bins))).

(** [setFixedWidthHistogramBins] with the roundings of its [double]
    operations written out (the conversions of [int] to [double] are
    exact); with the identity for [rnd] this is the function above. *)
Definition setFixedWidthHistogramBins_rounded (rnd : Q -> Q) (fused : bool)
           (sim : t) (max_val : Q) (num_bins : Z) : Outcome t :=
  if Dbl.leb max_val 1 || (num_bins <? 1)%Z then
    Throws "Max value must be > 1 and num_bins must be > 0."
  else
    let bin_width := rnd (rnd (max_val - 1) / Dbl.ofZ num_bins) in
    setCustomHistogramBins sim
      (map (fun i => rnd (1 + Dbl.product rnd fused
                                (Dbl.ofZ (Z.of_nat i + 1) * bin_width)))
           (seq 0 (Z.to_nat num_bins))).

Definition reset_histogram (h : Histogram.t) : Histogram.t :=
  Histogram.mk (Histogram.dividers h)
               (Histogram.zero_bins (Histogram.dividers h)) 0 0.

Definition resetState (sim : t) : t :=
  if m_histogram_configured sim
  then mk (reset_histogram (m_histogram sim)) true
  else sim.

(** What [run] does to the histogram before it dispatches. *)
Definition prepare (sim : t) : Outcome t :=
  let sim1 := resetState sim in
  if m_histogram_configured sim1 then Returns sim1
  else setProgressiveHistogramBins sim1.

(** *** Number of rounds *)

(** Trips of [for (long long i = 0; i < n; ++i)]. *)
Definition trips (n : Z) : Z := Z.max 0 n.

(** [run(numSimulations, ...)]: the number of calls of
    [simulateGameRound] made by the runner it dispatches to; the four
    runners loop [numSimulations] times. *)
Definition run_rounds (numSimulations : Z) (sim_mode : SimulationMode) : Z :=
  let effective_simulations :=
    match sim_mode with
    | FG_ONLY =>
        let e := Int64.div numSimulations 10 in
        if (e =? 0)%Z && (numSimulations >? 0)%Z then 1%Z else e
    | _ => numSimulations
    end in
  trips effective_simulations.

(** [run(k, m, ...)]: every runner loops [k] times over [m] rounds. *)
Definition run_batched_rounds (k m : Z) (sim_mode : SimulationMode)
  : Outcome Z :=
  let numBatches := k in
  let numSimulations := Int64.mul k m in
  if (numSimulations <=? 0)%Z then
    Throws "Total number of simulations (k * m) must be positive."
  else
    let numRounds :=
      match sim_mode with
      | FG_ONLY =>
          let r := Int64.div m 10 in
          if (r =? 0)%Z && (numSimulations >? 0)%Z then 1%Z else r
      | _ => m
      end in
    Returns (trips numBatches * trips numRounds)%Z.

(** *** The histogram of a run *)

(** The streaming update of the single-threaded efficient runners. *)
Definition stream (h : Histogram.t) (totals : list Q) : Histogram.t :=
  fold_left (Histogram.observe (Histogram.dividers h)) totals h.

(** [thread_histograms[thread_id]] receives the count. *)
Fixpoint observe_at (dividers : list Q) (ths : list Histogram.t)
         (thread_id : nat) (total_score : Q) : list Histogram.t :=
  match ths, thread_id with
  | [], _ => []
  | th :: rest, O => Histogram.observe dividers th total_score :: rest
  | th :: rest, S i => th :: observe_at dividers rest i total_score
  end.

(** The parallel region followed by the merge loop: every round is run by
    some thread, in some order. *)
Definition parallel (h : Histogram.t) (num_threads : nat)
           (rounds : list (nat * Q)) : Histogram.t :=
  let ds := Histogram.dividers h in
  let fresh_thread := Histogram.mk [] (Histogram.zero_bins ds) 0 0 in
  let ths :=
    fold_left (fun ths r => observe_at ds ths (fst r) (snd r))
              rounds (repeat fresh_thread num_threads) in
  fold_left Histogram.absorb ths h.

(** The binning pass of [analyzeAccurateResults] over [m_results]. *)
Definition analyzeAccurate_histogram (h : Histogram.t) (m_results : list Q)
  : Histogram.t :=
  match m_results with
  | [] => h
  | _ :: _ => stream (reset_histogram h) (Statistics.sort m_results)
  end.

(** The histogram after [run]: [rounds] lists, for every executed round,
    the thread that ran it and its total score; [batched] tells the
    [run(k, m, ...)] overload from [run(numSimulations, ...)]. *)
Definition run_histogram (sim : t) (mem_mode : MemoryMode)
           (useParallel batched : bool) (num_threads : nat)
           (rounds : list (nat * Q)) : Outcome t :=
  match prepare sim with
  | Returns sim1 =>
      let h := m_histogram sim1 in
      let totals := map snd rounds in
      let h' :=
        match mem_mode, useParallel with
        | EFFICIENT, false => stream (reset_histogram h) totals
        | EFFICIENT, true =>
            (* the batched runner also clears the two outer buckets *)
            parallel (if batched then reset_histogram h
                      else Histogram.mk (Histogram.dividers h)
                             (Histogram.zero_bins (Histogram.dividers h))
                             (Histogram.underflow h) (Histogram.overflow h))
                     num_threads rounds
        | ACCURATE, _ => analyzeAccurate_histogram h totals
        end in
      Returns (mk h' true)
  | Throws w => Throws w
  | OutOfFuel => OutOfFuel
  end.

(** The simulators a program can hold: a fresh one, configured and run
    any number of times. *)
Inductive reachable : t -> Prop :=
| reach_fresh : reachable fresh
| reach_custom sim dividers sim' :
    reachable sim ->
    setCustomHistogramBins sim dividers = Returns sim' -> reachable sim'
| reach_progressive sim sim' :
    reachable sim ->
    setProgressiveHistogramBins sim = Returns sim' -> reachable sim'
| reach_fixed sim max_val num_bins sim' :
    reachable sim ->
    setFixedWidthHistogramBins sim max_val num_bins = Returns sim' ->
    reachable sim'
| reach_run sim mem_mode useParallel batched num_threads rounds sim' :
    reachable sim ->
    run_histogram sim mem_mode useParallel batched num_threads rounds
    = Returns sim' ->
    reachable sim'.

(** The counts held by all per-thread histograms together. *)
Definition threads_total (ths : list Histogram.t) : Z :=
  fold_right (fun th acc => (Histogram.total th + acc)%Z) 0%Z ths.

(** What [run] finds after [prepare]: laid-out edges and empty buckets. *)
Definition cleared (h : Histogram.t) : Prop :=
  Histogram.edges_ok (Histogram.dividers h)
  /\ Histogram.bins h = Histogram.zero_bins (Histogram.dividers h)
  /\ Histogram.underflow h = 0%Z /\ Histogram.overflow h = 0%Z.

(** What holds between calls. *)
Definition sim_ok (sim : t) : Prop :=
  if m_histogram_configured sim
  then Histogram.edges_ok (Histogram.dividers (m_histogram sim))
  else m_histogram sim = Histogram.empty.

(** The edges the percentile walk can still reach from bin [i]. *)
Definition fits (ds : list Q) (bins : list Z) (i : nat) : Prop :=
  List.length ds = (i + List.length bins + 1)%nat.

(** Bin counts are counts. *)
Definition counts (bins : list Z) : Prop := Forall (fun b => (0 <= b)%Z) bins.

(** *** Percentile from the histogram *)

(** The [for] loop of [getPercentileFromHistogram] from index [i] on,
    [bins] being the bins not yet visited. *)
Fixpoint percentile_walk (dividers : list Q) (bins : list Z) (i : nat)
         (current_count target_count : Z) : Q :=
  match bins with
  | [] => last dividers 0
  | b :: rest =>
      let current_count := (current_count + b)%Z in
      if (current_count >=? target_count)%Z then
        let prev_count := (current_count - b)%Z in
        let fraction :=
          if (b >? 0)%Z
          then Dbl.ofZ (target_count - prev_count) / Dbl.ofZ b
          else 0 in
        nth i dividers 0
        + fraction * (nth (S i) dividers 0 - nth i dividers 0)
      else percentile_walk dividers rest (S i) current_count target_count
  end.

Definition getPercentileFromHistogram (count : Z) (h : Histogram.t)
           (percentile : Q) : Q :=
  if (count =? 0)%Z then 0
  else
    let target_count := Dbl.trunc (Dbl.ofZ count * (percentile / 100)) in
    let current_count := Histogram.underflow h in
    if (target_count <=? current_count)%Z then hd 0 (Histogram.dividers h)
    else percentile_walk (Histogram.dividers h) (Histogram.bins h) O
                         current_count target_count.

(** [long long target_count = m_stats.count * (percentile / 100.0)] with
    its roundings written out: the count is converted to [double], the
    quotient and the product are rounded, and the conversion to
    [long long] truncates. *)
Definition target_count (rnd : Q -> Q) (count : Z) (percentile : Q) : Z :=
  Dbl.trunc (rnd (rnd (Dbl.ofZ count) * rnd (percentile / 100))).

(** The [for] loop with the roundings of the interpolation written out. *)
Fixpoint percentile_walk_rounded (rnd : Q -> Q) (fused : bool)
         (dividers : list Q) (bins : list Z) (i : nat)
         (current_count target_count : Z) : Q :=
  match bins with
  | [] => last dividers 0
  | b :: rest =>
      let current_count := (current_count + b)%Z in
      if (current_count >=? target_count)%Z then
        let prev_count := (current_count - b)%Z in
        let fraction :=
          if (b >? 0)%Z
          then rnd (rnd (Dbl.ofZ (target_count - prev_count))
                    / rnd (Dbl.ofZ b))
          else 0 in
        rnd (nth i dividers 0
             + Dbl.product rnd fused
                 (fraction * rnd (nth (S i) dividers 0 - nth i dividers 0)))
      else percentile_walk_rounded rnd fused dividers rest (S i)
                                   current_count target_count
  end.

(** [getPercentileFromHistogram] with every rounding written out; with
    the identity for [rnd] this is the function above. *)
Definition getPercentileFromHistogram_rounded (rnd : Q -> Q) (fused : bool)
           (count : Z) (h : Histogram.t) (percentile : Q) : Q :=
  if (count =? 0)%Z then 0
  else
    let target_count := target_count rnd count percentile in
    let current_count := Histogram.underflow h in
    if (target_count <=? current_count)%Z then hd 0 (Histogram.dividers h)
    else percentile_walk_rounded rnd fused (Histogram.dividers h)
                                 (Histogram.bins h) O
                                 current_count target_count.

(** *** Confidence intervals *)

Section BatchedMeans.

(** [std::sqrt]. *)
Variable sqrt : Q -> Q.

Definition interval (lvl mean std_error : Q) (t : option Q)
  : ConfidenceInterval :=
  mkCI lvl
       (option_map (fun t => mean - t * std_error) t)
       (option_map (fun t => mean + t * std_error) t).

(** The interval part of [analyzeEfficientResults(k)]: the new value of
    [m_stats.confidence_intervals], which [run] has emptied. *)
Definition batched_means_intervals (count : Z) (m_batch_means : list Q)
  : list ConfidenceInterval :=
  if (count =? 0)%Z then []
  else if (List.length m_batch_means <? 2)%nat then []
  else
    let size := Z.of_nat (List.length m_batch_means) in
    let mean_of_means := Statistics.calculateMean m_batch_means in
    let variance_of_means :=
      Statistics.calculateVariance m_batch_means mean_of_means in
    let std_error := sqrt (variance_of_means / Dbl.ofZ size) in
    let df := (size - 1)%Z in
    [ interval 90 mean_of_means std_error (Statistics.findTValue 90 df);
      interval 95 mean_of_means std_error (Statistics.findTValue 95 df);
      interval 99 mean_of_means std_error (Statistics.findTValue 99 df) ].

End BatchedMeans.

(** [m_bootstrap_means[i]]: the mean of [m] draws with replacement. *)
Fixpoint resample_sum (m : nat) (m_results : list Q) (sum : Q) (g : Rng.t)
  : Q * Rng.t :=
  match m with
  | O => (sum, g)
  | S m' =>
      let (random_index, g') :=
        Rng.uniform_int (Z.of_nat (List.length m_results)) g in
      resample_sum m' m_results
                   (sum + nth (Z.to_nat random_index) m_results 0) g'
  end.

Fixpoint bootstrap_means (k : nat) (m : Z) (m_results : list Q) (g : Rng.t)
  : list Q :=
  match k with
  | O => []
  | S k' =>
      let (current_sum, g') := resample_sum (Z.to_nat m) m_results 0 g in
      (current_sum / Dbl.ofZ m) :: bootstrap_means k' m m_results g'
  end.

Definition percentile_bound (means : list Q) (p : Q) : Outcome Q :=
  match Statistics.findValueAtPercentile means p with
  | Returns (v, _) => Returns v
  | Throws w => Throws w
  | OutOfFuel => OutOfFuel
  end.

Definition bootstrap_interval (lvl : Q) (means : list Q) (lo hi : Q)
  : Outcome ConfidenceInterval :=
  match percentile_bound means lo, percentile_bound means hi with
  | Returns l, Returns u => Returns (mkCI lvl (Some l) (Some u))
  | Throws w, _ => Throws w
  | _, Throws w => Throws w
  | _, _ => OutOfFuel
  end.

(** The last lines of [analyzeAccurateResults(k, m)]. *)
Definition bootstrap_intervals (m_bootstrap_means : list Q)
  : Outcome (list ConfidenceInterval) :=
  let means := Statistics.sort m_bootstrap_means in
  match bootstrap_interval 90 means 5 95,
        bootstrap_interval 95 means 2.5 97.5,
        bootstrap_interval 99 means 0.5 99.5 with
  | Returns c90, Returns c95, Returns c99 => Returns [c90; c95; c99]
  | Throws w, _, _ => Throws w
  | _, Throws w, _ => Throws w
  | _, _, Throws w => Throws w
  | _, _, _ => OutOfFuel
  end.

(** Smallest and largest element of a list of doubles. *)
Definition list_min (l : list Q) : Q := fold_right Qmin (hd 0 l) l.
Definition list_max (l : list Q) : Q := fold_right Qmax (hd 0 l) l.

(** Non-decreasing bin edges. *)
Fixpoint nondecreasing (l : list Q) : bool :=
  match l with
  | [] => true
  | x :: rest =>
      match rest with
      | [] => true
      | y :: _ => Dbl.leb x y && nondecreasing rest
      end
  end.

(** A histogram [getPercentileFromHistogram] can be asked about. *)
Definition well_formed (h : Histogram.t) : Prop :=
  nondecreasing (Histogram.dividers h) = true
  /\ List.length (Histogram.dividers h) = S (List.length (Histogram.bins h))
  /\ Forall (fun b => (0 <= b)%Z) (Histogram.bins h).

(** Edges that are doubles, and whose gaps are computed without error: an
    edge plus the distance to the next edge is the next edge. *)
Definition exact_edges (rnd : Q -> Q) (ds : list Q) : Prop :=
  Forall (fun d => rnd d == d) ds
  /\ forall i, (S i < List.length ds)%nat ->
               rnd (nth i ds 0 + rnd (nth (S i) ds 0 - nth i ds 0))
               == nth (S i) ds 0.

(** Edges that are integers between 0 and 2^53, as the default edges
    are. *)
Definition integer_edges (ds : list Q) : Prop :=
  Forall (fun d => exists z : Z, (0 <= z <= 2 ^ 53)%Z /\ d == inject_Z z) ds.

(** *** The largest values *)

(** [updateTopValues]; the runners call it with [k = 5].  With [k = 0] the
    program reads [top_values[0]] of an empty vector; here the vector is
    left alone. *)
Definition updateTopValues (top_values : list Q) (new_value : Q) (k : nat)
  : list Q :=
  if (List.length top_values <? k)%nat then
    Statistics.sort (top_values ++ [new_value])
  else
    match top_values with
    | [] => top_values
    | front :: rest =>
        if Dbl.ltb front new_value then Statistics.sort (new_value :: rest)
        else top_values
    end.

(** [m_top_values_tracker] after a single-threaded efficient runner has
    seen [totals]. *)
Definition track_top_values (totals : list Q) : list Q :=
  fold_left (fun top_values total_score =>
               updateTopValues top_values total_score 5) totals [].

(** The extraction loop of [analyzeAccurateResults] over the sorted
    [m_results]. *)
Definition accurate_top_values (m_results : list Q) : list Q :=
  map (fun i => nth (List.length m_results - 1 - i) m_results 0)
      (seq 0 (Nat.min 5 (List.length m_results))).

(** *** The merge of the per-thread accumulators *)

(** [m_final_online_stats = thread_stats[0]] followed by [combine] with the
    accumulators of the other threads; there is at least one thread. *)
Definition merge_thread_stats (thread_stats : list OnlineStats.t)
  : OnlineStats.t :=
  match thread_stats with
  | [] => OnlineStats.empty
  | first :: others => fold_left OnlineStats.combine others first
  end.

(** A thread whose accumulator has seen a round. *)
Definition played (s : OnlineStats.t) : bool :=
  negb (OnlineStats.count s =? 0)%Z.

(** *** Feature-game counters of the runners *)

Record Counters : Type := mkCounters {
  m_fg_triggered_count : Z;
  m_total_fg_runs : Z;
  m_total_fg_picks : Z;
  m_max_fg_length : Z;
  m_nonzero_fg_picks_count : Z
}.

(** The values [run] gives the counters before it dispatches. *)
Definition counters_reset : Counters := mkCounters 0 0 0 0 0.

(** The body of the round loop of the single-threaded runners. *)
Definition count_round (c : Counters) (result : GameResult) : Counters :=
  let nonzero_picks := (m_nonzero_fg_picks_count c + fg_nonzero_picks result)%Z in
  if fg_was_triggered result then
    let picks := (m_total_fg_picks c + fg_run_length result)%Z in
    let triggered := (m_fg_triggered_count c + 1)%Z in
    if (fg_run_length result >? 0)%Z then
      mkCounters triggered (m_total_fg_runs c + 1)%Z picks
                 (if (fg_run_length result >? m_max_fg_length c)%Z
                  then fg_run_length result else m_max_fg_length c)
                 nonzero_picks
    else
      mkCounters triggered (m_total_fg_runs c) picks (m_max_fg_length c)
                 nonzero_picks
  else
    mkCounters (m_fg_triggered_count c) (m_total_fg_runs c)
               (m_total_fg_picks c) (m_max_fg_length c) nonzero_picks.

Definition count_rounds (results : list GameResult) : Counters :=
  fold_left count_round results counters_reset.

(** The parallel accurate runners store the fields of every result and
    count afterwards, one pass per stored vector.  [fg_triggered] is what
    the vector of trigger flags holds after the parallel region: it is a
    bit-packed [std::vector<bool>] that all threads write without
    synchronisation, so it need not hold the flags the rounds returned. *)
Definition count_stored_flags (fg_triggered : list bool)
           (results : list GameResult) : Counters :=
  let fg_run_lengths := map fg_run_length results in
  let fg_nonzero_picks_v := map fg_nonzero_picks results in
  let '(picks, runs, longest) :=
    fold_left
      (fun '(picks, runs, longest) length =>
         if (length >? 0)%Z
         then ((picks + length)%Z, (runs + 1)%Z,
               if (length >? longest)%Z then length else longest)
         else ((picks + length)%Z, runs, longest))
      fg_run_lengths (0%Z, 0%Z, 0%Z) in
  let triggered :=
    fold_left (fun n (t : bool) => if t then (n + 1)%Z else n)
              fg_triggered 0%Z in
  let nonzero_picks :=
    fold_left (fun n x => (n + x)%Z) fg_nonzero_picks_v 0%Z in
  mkCounters triggered runs picks longest nonzero_picks.

(** The counters when every flag is stored as the round returned it. *)
Definition count_stored (results : list GameResult) : Counters :=
  count_stored_flags (map fg_was_triggered results) results.

(** *** Level statistics of the runners *)

(** The sums and counts of the three categories (base items, feature
    picks, whole runs); the maxima are left out. *)
Record LevelStats : Type := mkLevelStats {
  m_total_bg_levels : Z;
  m_bg_nonzero_levels_sum : Z;
  m_bg_nonzero_levels_count : Z;
  m_total_fg_levels : Z;
  m_fg_nonzero_levels_sum : Z;
  m_fg_nonzero_levels_count : Z;
  m_total_run_levels : Z;
  m_run_nonzero_levels_sum : Z;
  m_run_nonzero_levels_count : Z
}.

Definition levels_reset : LevelStats := mkLevelStats 0 0 0 0 0 0 0 0 0.

(** [total += level; if (level != 1) { sum += level; count++; }] *)
Definition add_level (acc : Z * Z * Z) (level : Z) : Z * Z * Z :=
  let '(total, nonzero_sum, nonzero_count) := acc in
  if (level =? 1)%Z then ((total + level)%Z, nonzero_sum, nonzero_count)
  else ((total + level)%Z, (nonzero_sum + level)%Z, (nonzero_count + 1)%Z).

(** The level bookkeeping in the round loop of the single-threaded
    runners and of the parallel efficient runners. *)
Definition level_round (st : LevelStats) (result : GameResult) : LevelStats :=
  let '(total_bg, bg_sum, bg_count) :=
    add_level (m_total_bg_levels st, m_bg_nonzero_levels_sum st,
               m_bg_nonzero_levels_count st) (bg_levels result) in
  let '(total_fg, fg_sum, fg_count) :=
    fold_left add_level (fg_levels result)
              (m_total_fg_levels st, m_fg_nonzero_levels_sum st,
               m_fg_nonzero_levels_count st) in
  let '(run_total_levels, run_nonzero_sum, run_nonzero_count) :=
    fold_left add_level (fg_levels result)
              (bg_levels result,
               if (bg_levels result =? 1)%Z then 0%Z else bg_levels result,
               if (bg_levels result =? 1)%Z then 0%Z else 1%Z) in
  mkLevelStats total_bg bg_sum bg_count total_fg fg_sum fg_count
               (m_total_run_levels st + run_total_levels)%Z
               (m_run_nonzero_levels_sum st + run_nonzero_sum)%Z
               (m_run_nonzero_levels_count st + run_nonzero_count)%Z.

Definition level_rounds (results : list GameResult) : LevelStats :=
  fold_left level_round results levels_reset.

(** What the parallel accurate runners keep of a round: [bg_levels[i]],
    [total_fg_levels_per_round[i]], [fg_nonzero_levels_count_per_round[i]]. *)
Definition store_levels (result : GameResult) : Z * Z * Z :=
  let '(run_total_fg_levels, run_fg_nonzero_count) :=
    fold_left (fun '(total, count) fg_level =>
                 ((total + fg_level)%Z,
                  if (fg_level =? 1)%Z then count else (count + 1)%Z))
              (fg_levels result) (0%Z, 0%Z) in
  (bg_levels result, run_total_fg_levels, run_fg_nonzero_count).

(** The aggregation passes of the parallel accurate runners;
    [total_fg_picks_val] and [stats_count] are the values of
    [m_total_fg_picks] and [m_stats.count] they read. *)
Definition levels_from_stored (stored : list (Z * Z * Z))
           (total_fg_picks_val stats_count : Z) : LevelStats :=
  let '(total_bg, bg_sum, bg_count) :=
    fold_left (fun acc '(level, _, _) => add_level acc level)
              stored (0%Z, 0%Z, 0%Z) in
  let '(total_fg, fg_count) :=
    fold_left (fun '(total, count) '(_, fg_total, fg_nonzero) =>
                 ((total + fg_total)%Z, (count + fg_nonzero)%Z))
              stored (0%Z, 0%Z) in
  let fg_ones_sum := (total_fg_picks_val - fg_count)%Z in
  let fg_sum := (total_fg - fg_ones_sum)%Z in
  let '(total_run, run_count) :=
    fold_left (fun '(total, count) '(level, fg_total, fg_nonzero) =>
                 ((total + (level + fg_total))%Z,
                  (count + ((if (level =? 1)%Z then 0 else 1) + fg_nonzero))%Z))
              stored (0%Z, 0%Z) in
  let total_items := (stats_count + total_fg_picks_val)%Z in
  let run_ones_sum := (total_items - run_count)%Z in
  let run_sum := (total_run - run_ones_sum)%Z in
  mkLevelStats total_bg bg_sum bg_count total_fg fg_sum fg_count
               total_run run_sum run_count.

(** The sum of a list of levels, and the sum and the number of its
    levels other than 1. *)
Definition levels_sum (l : list Z) : Z := fold_right Z.add 0%Z l.

Definition levels_nonone_sum (l : list Z) : Z :=
  fold_right (fun x acc => if (x =? 1)%Z then acc else (x + acc)%Z) 0%Z l.

Definition levels_nonone_count (l : list Z) : Z :=
  fold_right (fun x acc => if (x =? 1)%Z then acc else (1 + acc)%Z) 0%Z l.

(** The level statistics after a parallel accurate run: [m_total_fg_picks]
    has been counted from the stored run lengths, and [m_stats], which
    [run] has reset, still holds the count 0 (the analysis that sets it
    is called afterwards). *)
Definition accurate_parallel_levels (results : list GameResult) : LevelStats :=
  levels_from_stored (map store_levels results)
                     (m_total_fg_picks (count_stored results)) 0.

End MonteCarloSimulator.

(** ** The batched-means estimator as the specification words it

    The mean and the variance of the K batch means, the standard error
    [sqrt (variance / K)], [K - 1] degrees of freedom, and the interval
    [mean -/+ t * standard_error] at 90, 95 and 99 percent, [t] being read
    from the table up to 100 degrees of freedom and from the normal
    distribution above. *)

Module BatchedMeansSpec.

Local Open Scope Q_scope.

Definition normal_value (confidence : Q) : option Q :=
  if Dbl.eqb confidence 90 then Some 1.645
  else if Dbl.eqb confidence 95 then Some 1.960
  else if Dbl.eqb confidence 99 then Some 2.576
  else None.

(** The row of the smallest tabulated degrees of freedom not below [df].
    The specification names the table without listing it: the entries are
    those of the program. *)
Definition table_value (confidence : Q) (df : Z) : option Q :=
  match find (fun row => (df <=? fst row)%Z) Statistics.t_table with
  | Some (_, (t90, t95, t99)) =>
      if Dbl.eqb confidence 90 then Some t90
      else if Dbl.eqb confidence 95 then Some t95
      else if Dbl.eqb confidence 99 then Some t99
      else None
  | None => None
  end.

Definition t (confidence : Q) (df : Z) : option Q :=
  if (df <=? 100)%Z then table_value confidence df
  else normal_value confidence.

(** The sum of the observations. *)
Fixpoint total (xs : list Q) : Q :=
  match xs with
  | [] => 0
  | x :: rest => x + total rest
  end.

(** The mean of K observations: their sum over K. *)
Definition mean (xs : list Q) : Q :=
  total xs / inject_Z (Z.of_nat (List.length xs)).

(** The variance of K observations: the mean of their squared deviations
    from their mean. *)
Definition variance (xs : list Q) : Q :=
  total (map (fun x => (x - mean xs) * (x - mean xs)) xs)
  / inject_Z (Z.of_nat (List.length xs)).

Section Intervals.

Variable sqrt : Q -> Q.

Definition interval_at (means : list Q) (confidence : Q)
  : ConfidenceInterval :=
  let K := Z.of_nat (List.length means) in
  let mean_of_means := mean means in
  let variance_of_means := variance means in
  let standard_error := sqrt (variance_of_means / inject_Z K) in
  let df := (K - 1)%Z in
  mkCI confidence
       (option_map (fun t => mean_of_means - t * standard_error)
                   (t confidence df))
       (option_map (fun t => mean_of_means + t * standard_error)
                   (t confidence df)).

Definition intervals (means : list Q) : list ConfidenceInterval :=
  if (2 <=? List.length means)%nat
  then map (interval_at means) [90; 95; 99]
  else [].

End Intervals.

(** Two bounds are the same number, or both are missing. *)
Definition same_bound (a b : option Q) : Prop :=
  match a, b with
  | Some x, Some y => x == y
  | None, None => True
  | _, _ => False
  end.

(** Two intervals have the same level and the same bounds, as numbers. *)
Definition same_interval (a b : ConfidenceInterval) : Prop :=
  level a == level b
  /\ same_bound (lower_bound a) (lower_bound b)
  /\ same_bound (upper_bound a) (upper_bound b).

End BatchedMeansSpec.

(** * Properties *)

(** ** Machine integers: facts *)

Module Int64Props.
Import Int64.

Lemma wrap_small x : in_range x -> wrap x = x.
Proof.
  unfold in_range, wrap, min_signed, max_signed, half_modulus, modulus.
  intros H. rewrite Z.mod_small; lia.
Qed.

Lemma in_range_intro x : - 2 ^ 63 <= x < 2 ^ 63 -> in_range x.
Proof. unfold in_range, min_signed, max_signed, half_modulus. lia. Qed.

Lemma div_small x y : 0 <= x < 2 ^ 63 -> 0 < y -> div x y = x / y.
Proof.
  intros Hx Hy. unfold div. rewrite Z.quot_div_nonneg by lia.
  apply wrap_small, in_range_intro.
  pose proof (Z.div_pos x y ltac:(lia) Hy).
  assert (x / y <= x) by (apply Z.div_le_upper_bound; nia). lia.
Qed.

Lemma mul_small x y : - 2 ^ 63 <= x * y < 2 ^ 63 -> mul x y = x * y.
Proof. intros H. apply wrap_small, in_range_intro, H. Qed.

Lemma add_small x y : - 2 ^ 63 <= x + y < 2 ^ 63 -> add x y = x + y.
Proof. intros H. apply wrap_small, in_range_intro, H. Qed.

Lemma sub_small x y : - 2 ^ 63 <= x - y < 2 ^ 63 -> sub x y = x - y.
Proof. intros H. apply wrap_small, in_range_intro, H. Qed.

End Int64Props.

(** ** Facts shared by both game modules *)

Section IndexInRange.

Context {A : Type}.

Lemma drawn_index_in_range (x : Z) (l : list A) :
  l <> [] -> (Z.to_nat (x mod Z.of_nat (List.length l)) < List.length l)%nat.
Proof.
  intros Hl.
  assert (0 < Z.of_nat (List.length l)) by (destruct l; [congruence | simpl; lia]).
  pose proof (Z.mod_pos_bound x _ H). lia.
Qed.

Lemma drawn_item_in (x : Z) (d : A) (l : list A) :
  l <> [] -> In (nth (Z.to_nat (x mod Z.of_nat (List.length l))) l d) l.
Proof. intros Hl. apply nth_In, drawn_index_in_range, Hl. Qed.

End IndexInRange.

(** ** The pool-multiplier variant *)

Module DeepDiveProps.
Import DeepDive.

Lemma dd_fg_step_counters d s : counters_ok s -> counters_ok (fg_step d s).
Proof.
  unfold counters_ok, fg_step. intros [Hlen Hnz].
  destruct (queue s) as [|cur rest]; [tauto|].
  destruct (total_multiplier_of d cur (rng s)) as [tm g1].
  destruct (flag cur);
    [destruct (size rest >? MAX_QUEUE_SIZE);
     [|destruct (push_draws 10 (fg_items d) rest g1) as [q' g2]]|];
    cbn [fg_items_processed st_fg_levels st_fg_nonzero_picks];
    rewrite List.length_app; cbn [List.length];
    destruct (Int64.mul (value cur) tm =? 0); lia.
Qed.

Lemma dd_fg_loop_counters d fuel :
  forall s s', counters_ok s -> fg_loop fuel d s = Returns s' -> counters_ok s'.
Proof.
  induction fuel as [|fuel IH]; intros s s' Hs; cbn [fg_loop].
  - destruct (queue s); [intros [= <-]; exact Hs | discriminate].
  - destruct (queue s) eqn:Hq; [intros [= <-]; exact Hs|].
    intros Hrun. eapply IH; [|exact Hrun]. now apply dd_fg_step_counters.
Qed.

Lemma dd_fg_start_counters d g : counters_ok (fg_start d g).
Proof.
  unfold fg_start. destruct (push_draws 10 (fg_items d) [] g).
  unfold counters_ok; cbn. lia.
Qed.

Lemma dd_plain_ok r g rd :
  result_ok r -> plain r g = Returns rd -> result_ok (result rd).
Proof. intros Hr [= <-]. exact Hr. Qed.

Lemma dd_fg_stage_ok fuel d g b l rd :
  fg_stage fuel d g b l = Returns rd -> result_ok (result rd).
Proof.
  unfold fg_stage. destruct (fg_items d).
  - apply dd_plain_ok. split; cbn; lia.
  - destruct (fg_loop fuel d (fg_start d g)) as [s| |] eqn:Hrun; try discriminate.
    intros [= <-]. cbn.
    destruct (dd_fg_loop_counters _ _ _ _ (dd_fg_start_counters d g) Hrun) as [H1 H2].
    split; cbn; lia.
Qed.

Lemma dd_simulateGameRound_ok fuel G g mode p rd :
  simulateGameRound fuel G g mode p = Returns rd -> result_ok (result rd).
Proof.
  unfold simulateGameRound.
  destruct (isInitialized G); cbn [negb]; [|discriminate].
  destruct (bg_items (gameData G)) eqn:Hbg.
  - apply dd_plain_ok. split; cbn; lia.
  - destruct mode.
    + destruct (Rng.uniform_int _ g) as [i g1].
      destruct (bg_flag _).
      * apply dd_fg_stage_ok.
      * destruct (Qlt_le_dec 0 p).
        -- destruct (Rng.uniform_real g1) as [u g'].
           destruct (Qlt_le_dec u p).
           ++ apply dd_fg_stage_ok.
           ++ apply dd_plain_ok. split; cbn; lia.
        -- apply dd_plain_ok. split; cbn; lia.
    + apply dd_fg_stage_ok.
    + destruct (Rng.uniform_int _ g) as [i g1].
      apply dd_plain_ok. split; cbn; lia.
Qed.

(** *** Queues that can never drain *)

Lemma dd_push_draws_all_continue items :
  items <> [] -> all_continue items ->
  forall n q g, all_continue q ->
    all_continue (fst (push_draws n items q g))
    /\ List.length (fst (push_draws n items q g)) = (n + List.length q)%nat.
Proof.
  intros Hne Hall. induction n as [|n IH]; intros q g Hq; cbn [push_draws].
  - split; [exact Hq | reflexivity].
  - unfold Rng.uniform_int. destruct (Rng.next g) as [x g'].
    destruct (IH (at_ no_fg items (x mod size items) :: q) g') as [H1 H2].
    + constructor; [|exact Hq].
      unfold all_continue in Hall. rewrite Forall_forall in Hall.
      apply Hall. unfold at_, size. now apply drawn_item_in.
    + split; [exact H1|]. rewrite H2. cbn [List.length]. lia.
Qed.

(** When every feature item continues, an iteration leaves the queue
    populated: it either re-fills it or only removes one of more than a
    thousand entries. *)
Lemma dd_fg_step_keeps_queue d s :
  fg_items d <> [] -> all_continue (fg_items d) ->
  queue s <> [] -> all_continue (queue s) ->
  queue (fg_step d s) <> [] /\ all_continue (queue (fg_step d s)).
Proof.
  intros Hne Hall Hq Hqall. unfold fg_step.
  destruct (queue s) as [|cur rest]; [congruence|].
  inversion Hqall as [|? ? Hcur Hrest]; subst.
  destruct (total_multiplier_of d cur (rng s)) as [tm g1].
  rewrite Hcur.
  destruct (size rest >? MAX_QUEUE_SIZE) eqn:Hcap.
  - cbn [queue]. split; [|exact Hrest].
    unfold size, MAX_QUEUE_SIZE in Hcap. destruct rest; [cbn in Hcap; discriminate | congruence].
  - destruct (dd_push_draws_all_continue _ Hne Hall 10 rest g1 Hrest) as [H1 H2].
    destruct (push_draws 10 (fg_items d) rest g1) as [q' g2]. cbn [queue fst] in *.
    split; [|exact H1]. destruct q'; [cbn in H2; lia | congruence].
Qed.

Lemma dd_fg_loop_never_returns d :
  fg_items d <> [] -> all_continue (fg_items d) ->
  forall fuel s, queue s <> [] -> all_continue (queue s) ->
    fg_loop fuel d s = OutOfFuel.
Proof.
  intros Hne Hall. induction fuel as [|fuel IH]; intros s Hq Hqall; cbn [fg_loop].
  - destruct (queue s); [congruence | reflexivity].
  - destruct (queue s) eqn:E; [congruence|].
    destruct (dd_fg_step_keeps_queue d s Hne Hall) as [H1 H2];
      rewrite ?E; try congruence; try assumption.
    now apply IH.
Qed.

Lemma dd_fg_start_populated d g :
  fg_items d <> [] -> all_continue (fg_items d) ->
  queue (fg_start d g) <> [] /\ all_continue (queue (fg_start d g)).
Proof.
  intros Hne Hall. unfold fg_start.
  destruct (dd_push_draws_all_continue _ Hne Hall 10 [] g (Forall_nil _)) as [H1 H2].
  destruct (push_draws 10 (fg_items d) [] g) as [q g']. cbn [queue fst] in *.
  split; [|exact H1]. destruct q; [cbn in H2; lia | congruence].
Qed.

Lemma dd_fg_stage_never_returns fuel d g b l :
  fg_items d <> [] -> all_continue (fg_items d) ->
  fg_stage fuel d g b l = OutOfFuel.
Proof.
  intros Hne Hall. unfold fg_stage.
  destruct (fg_items d) eqn:E; [congruence|]. rewrite <- E in *.
  destruct (dd_fg_start_populated d g Hne Hall) as [H1 H2].
  now rewrite (dd_fg_loop_never_returns d Hne Hall fuel _ H1 H2).
Qed.

(** *** The queue cap *)

Lemma dd_push_draws_extends items :
  forall n q g, exists drawn,
    List.length drawn = n /\ fst (push_draws n items q g) = drawn ++ q.
Proof.
  induction n as [|n IH]; intros q g; cbn [push_draws].
  - exists []. split; reflexivity.
  - unfold Rng.uniform_int. destruct (Rng.next g) as [x g'].
    destruct (IH (at_ no_fg items (x mod size items) :: q) g') as (dr & Hl & He).
    exists (dr ++ [at_ no_fg items (x mod size items)]). split.
    + rewrite List.length_app, Hl. cbn. lia.
    + rewrite He, <- List.app_assoc. reflexivity.
Qed.

Lemma dd_fg_step_over_cap d s cur rest :
  queue s = cur :: rest -> flag cur = true ->
  size rest > MAX_QUEUE_SIZE ->
  queue (fg_step d s) = rest
  /\ cap_warning_logged_this_run (fg_step d s) = true
  /\ warnings (fg_step d s) =
     if cap_warning_logged_this_run s then warnings s else S (warnings s).
Proof.
  intros Hq Hflag Hsz. unfold fg_step. rewrite Hq.
  destruct (total_multiplier_of d cur (rng s)) as [tm g1]. rewrite Hflag.
  destruct (size rest >? MAX_QUEUE_SIZE) eqn:Hcap; [|lia].
  cbn. repeat split.
Qed.

Lemma dd_fg_step_under_cap d s cur rest :
  queue s = cur :: rest -> flag cur = true ->
  size rest <= MAX_QUEUE_SIZE ->
  exists drawn,
    List.length drawn = 10%nat
    /\ queue (fg_step d s) = drawn ++ rest
    /\ cap_warning_logged_this_run (fg_step d s) = cap_warning_logged_this_run s
    /\ warnings (fg_step d s) = warnings s.
Proof.
  intros Hq Hflag Hsz. unfold fg_step. rewrite Hq.
  destruct (total_multiplier_of d cur (rng s)) as [tm g1]. rewrite Hflag.
  destruct (size rest >? MAX_QUEUE_SIZE) eqn:Hcap; [lia|].
  destruct (dd_push_draws_extends (fg_items d) 10 rest g1) as (dr & Hl & He).
  destruct (push_draws 10 (fg_items d) rest g1) as [q' g2]. cbn [fst] in He.
  exists dr. cbn. repeat split; assumption.
Qed.

Lemma dd_fg_step_warned_once d s : warned_once s -> warned_once (fg_step d s).
Proof.
  unfold warned_once, fg_step. intros [H1 H0].
  destruct (queue s) as [|cur rest]; [tauto|].
  destruct (total_multiplier_of d cur (rng s)) as [tm g1].
  destruct (flag cur);
    [destruct (size rest >? MAX_QUEUE_SIZE);
     [|destruct (push_draws 10 (fg_items d) rest g1) as [q' g2]]|];
    cbn [warnings cap_warning_logged_this_run]; try tauto.
  destruct (cap_warning_logged_this_run s); [split; [lia | discriminate]|].
  rewrite H0 by reflexivity. split; [lia | discriminate].
Qed.

Lemma dd_fg_start_warned_once d g : warned_once (fg_start d g).
Proof.
  unfold fg_start. destruct (push_draws 10 _ [] g). split; cbn; auto.
Qed.

Lemma dd_iterated_warned_once d g n :
  warned_once (Nat.iter n (fg_step d) (fg_start d g)).
Proof.
  induction n as [|n IH]; cbn [Nat.iter].
  - apply dd_fg_start_warned_once.
  - now apply dd_fg_step_warned_once.
Qed.

Lemma dd_fg_loop_drains d fuel :
  forall s s', warned_once s -> fg_loop fuel d s = Returns s' ->
               warned_once s' /\ queue s' = [].
Proof.
  induction fuel as [|fuel IH]; intros s s' Hs; cbn [fg_loop].
  - destruct (queue s) eqn:E; [intros [= <-]; tauto | discriminate].
  - destruct (queue s) eqn:E; [intros [= <-]; tauto|].
    intros Hrun. eapply IH; [|exact Hrun]. now apply dd_fg_step_warned_once.
Qed.

Lemma dd_fg_loop_no_throw d fuel : forall s w, fg_loop fuel d s <> Throws w.
Proof.
  induction fuel as [|fuel IH]; intros s w; cbn [fg_loop];
    destruct (queue s); try discriminate. apply IH.
Qed.

Lemma dd_fg_stage_round fuel d g b l rd :
  fg_stage fuel d g b l = Returns rd ->
  (cap_warnings rd <= 1)%nat /\ unprocessed rd = O.
Proof.
  unfold fg_stage. destruct (fg_items d).
  - intros [= <-]. cbn. lia.
  - destruct (fg_loop fuel d (fg_start d g)) as [s| |] eqn:Hrun; try discriminate.
    intros [= <-]. cbn [cap_warnings unprocessed].
    assert (Hstart : warned_once (fg_start d g)).
    { unfold fg_start. destruct (push_draws 10 _ [] g). split; cbn; auto. }
    destruct (dd_fg_loop_drains _ _ _ _ Hstart Hrun) as [[H1 _] H2].
    rewrite H2. split; [exact H1 | reflexivity].
Qed.

Lemma dd_fg_stage_no_throw fuel d g b l w : fg_stage fuel d g b l <> Throws w.
Proof.
  unfold fg_stage. destruct (fg_items d); [discriminate|].
  destruct (fg_loop fuel d (fg_start d g)) eqn:Hrun; try discriminate.
  now apply dd_fg_loop_no_throw in Hrun.
Qed.

Lemma dd_simulateGameRound_round fuel G g mode p rd :
  simulateGameRound fuel G g mode p = Returns rd ->
  (cap_warnings rd <= 1)%nat /\ unprocessed rd = O.
Proof.
  unfold simulateGameRound, plain.
  destruct (isInitialized G); cbn [negb]; [|discriminate].
  destruct (bg_items (gameData G)); [intros [= <-]; cbn; lia|].
  destruct mode.
  - destruct (Rng.uniform_int _ g) as [i g1].
    destruct (bg_flag _); [apply dd_fg_stage_round|].
    destruct (Qlt_le_dec 0 p); [|intros [= <-]; cbn; lia].
    destruct (Rng.uniform_real g1) as [u g'].
    destruct (Qlt_le_dec u p); [apply dd_fg_stage_round | intros [= <-]; cbn; lia].
  - apply dd_fg_stage_round.
  - destruct (Rng.uniform_int _ g) as [i g1]. intros [= <-]; cbn; lia.
Qed.

Lemma dd_simulateGameRound_no_throw fuel G g mode p w :
  isInitialized G = true -> simulateGameRound fuel G g mode p <> Throws w.
Proof.
  intros Hinit. unfold simulateGameRound, plain. rewrite Hinit. cbn [negb].
  destruct (bg_items (gameData G)); [discriminate|].
  destruct mode.
  - destruct (Rng.uniform_int _ g) as [i g1].
    destruct (bg_flag _); [apply dd_fg_stage_no_throw|].
    destruct (Qlt_le_dec 0 p); [|discriminate].
    destruct (Rng.uniform_real g1) as [u g'].
    destruct (Qlt_le_dec u p); [apply dd_fg_stage_no_throw | discriminate].
  - apply dd_fg_stage_no_throw.
  - destruct (Rng.uniform_int _ g) as [i g1]. discriminate.
Qed.

End DeepDiveProps.

(** ** The trigger-count variant *)

Module SS03GameProps.
Import SS03Game.

Lemma ss_fg_step_ok d s : result_ok (res s) -> result_ok (res (fg_step d s)).
Proof.
  unfold result_ok, fg_step. intros [Hlen Hnz].
  destruct (queue s) as [|cur rest]; [tauto|].
  destruct (retrigger_num cur >? 0);
    [destruct (push_draws _ (fg_items d) rest (rng s)) as [q' g']|];
    cbn [res fg_run_length fg_levels fg_nonzero_picks];
    rewrite List.length_app; cbn [List.length];
    destruct (value cur =? 0); lia.
Qed.

Lemma ss_fg_loop_ok d fuel :
  forall s s', result_ok (res s) -> fg_loop fuel d s = Returns s' ->
               result_ok (res s').
Proof.
  induction fuel as [|fuel IH]; intros s s' Hs; cbn [fg_loop].
  - destruct (queue s); [intros [= <-]; exact Hs|].
    destruct (size _ >? MAX_QUEUE_SIZE); [intros [= <-]; exact Hs | discriminate].
  - destruct (queue s) eqn:Hq; [intros [= <-]; exact Hs|].
    destruct (size _ >? MAX_QUEUE_SIZE); [intros [= <-]; exact Hs|].
    intros Hrun. eapply IH; [|exact Hrun]. now apply ss_fg_step_ok.
Qed.

Lemma ss_plain_ok r g rd :
  result_ok r -> plain r g = Returns rd -> result_ok (result rd).
Proof. intros Hr [= <-]. exact Hr. Qed.

Lemma ss_fg_sequence_ok fuel d g r n rd :
  result_ok r -> fg_sequence fuel d g r n = Returns rd -> result_ok (result rd).
Proof.
  intros Hr. unfold fg_sequence.
  destruct (n >? 0); [|now apply ss_plain_ok].
  destruct (fg_items d); [now apply ss_plain_ok|].
  destruct (push_draws _ _ [] g) as [q g1].
  destruct (fg_loop fuel d _) as [s| |] eqn:Hrun; try discriminate.
  intros [= <-]. cbn [result].
  eapply ss_fg_loop_ok; [|exact Hrun]. exact Hr.
Qed.

Lemma ss_empty_result_ok : result_ok empty_result.
Proof. split; cbn; lia. Qed.

Lemma ss_with_bg_ok r b : result_ok r -> result_ok (with_bg r b).
Proof. intros H; exact H. Qed.

Lemma ss_triggered_ok r : result_ok r -> result_ok (triggered r).
Proof. intros H; exact H. Qed.

Lemma ss_simulateGameRound_ok fuel G g mode p rd :
  simulateGameRound fuel G g mode p = Returns rd -> result_ok (result rd).
Proof.
  unfold simulateGameRound.
  destruct (isInitialized G); cbn [negb]; [|discriminate].
  pose proof ss_empty_result_ok as He.
  destruct mode.
  - destruct (bg_items (gameData G)); [now apply ss_plain_ok|].
    destruct (Rng.uniform_int _ g) as [i g1].
    destruct (trigger_num _ =? 0);
      [destruct (Qlt_le_dec 0 p);
       [destruct (Rng.uniform_real g1) as [u g']; destruct (Qlt_le_dec u p)|]|];
      apply ss_fg_sequence_ok, ss_with_bg_ok, He.
  - apply ss_fg_sequence_ok, ss_triggered_ok, He.
  - destruct (bg_items (gameData G)); [now apply ss_plain_ok|].
    destruct (Rng.uniform_int _ g) as [i g1].
    apply ss_plain_ok, ss_with_bg_ok, He.
Qed.

(** *** Queues that neither drain nor reach the cap *)

Lemma ss_push_draws_length items :
  forall n q g,
    List.length (fst (push_draws n items q g)) = (n + List.length q)%nat.
Proof.
  induction n as [|n IH]; intros q g; cbn [push_draws]; [reflexivity|].
  unfold Rng.uniform_int. destruct (Rng.next g) as [x g'].
  rewrite IH. cbn [List.length]. lia.
Qed.

Lemma ss_push_draws_extends items :
  forall n q g, exists drawn,
    List.length drawn = n /\ fst (push_draws n items q g) = drawn ++ q.
Proof.
  induction n as [|n IH]; intros q g; cbn [push_draws].
  - exists []. split; reflexivity.
  - unfold Rng.uniform_int. destruct (Rng.next g) as [x g'].
    destruct (IH (at_ no_fg items (x mod size items) :: q) g') as (dr & Hl & He).
    exists (dr ++ [at_ no_fg items (x mod size items)]). split.
    + rewrite List.length_app, Hl. cbn. lia.
    + rewrite He, <- List.app_assoc. reflexivity.
Qed.

Lemma ss_push_draws_all_retrigger_once items :
  items <> [] -> all_retrigger_once items ->
  forall n q g, all_retrigger_once q ->
    all_retrigger_once (fst (push_draws n items q g)).
Proof.
  intros Hne Hall. induction n as [|n IH]; intros q g Hq; cbn [push_draws].
  - exact Hq.
  - unfold Rng.uniform_int. destruct (Rng.next g) as [x g'].
    apply IH. constructor; [|exact Hq].
    unfold all_retrigger_once in Hall. rewrite Forall_forall in Hall.
    apply Hall. unfold at_, size. now apply drawn_item_in.
Qed.

(** When every feature item grants exactly one more pick, an iteration
    replaces the popped item by one new draw. *)
Lemma ss_fg_step_keeps_length d s :
  fg_items d <> [] -> all_retrigger_once (fg_items d) ->
  all_retrigger_once (queue s) ->
  List.length (queue (fg_step d s)) = List.length (queue s)
  /\ all_retrigger_once (queue (fg_step d s)).
Proof.
  intros Hne Hall Hq. unfold fg_step.
  destruct (queue s) as [|cur rest] eqn:E;
    [rewrite E; split; [reflexivity | constructor]|].
  inversion Hq as [|? ? Hcur Hrest]; subst. rewrite Hcur.
  change (1 >? 0) with true. cbv iota.
  pose proof (ss_push_draws_length (fg_items d) (Z.to_nat 1) rest (rng s)) as Hl.
  pose proof (ss_push_draws_all_retrigger_once _ Hne Hall (Z.to_nat 1) rest (rng s) Hrest) as Ha.
  destruct (push_draws _ (fg_items d) rest (rng s)) as [q' g'].
  cbn [queue fst] in *. split; [|exact Ha].
  rewrite Hl. cbn. reflexivity.
Qed.

Lemma ss_fg_loop_never_returns d :
  fg_items d <> [] -> all_retrigger_once (fg_items d) ->
  forall fuel s,
    queue s <> [] -> size (queue s) <= MAX_QUEUE_SIZE ->
    all_retrigger_once (queue s) ->
    fg_loop fuel d s = OutOfFuel.
Proof.
  intros Hne Hall. induction fuel as [|fuel IH]; intros s Hq Hsz Hqall;
    cbn [fg_loop]; destruct (queue s) eqn:E; try congruence;
    rewrite <- E in *;
    (destruct (size (queue s) >? MAX_QUEUE_SIZE) eqn:Hcap; [lia|]);
    [reflexivity|].
  destruct (ss_fg_step_keeps_length d s Hne Hall Hqall) as [H1 H2].
  apply IH; [| |exact H2].
  - intros Hnil. rewrite Hnil in H1. rewrite E in H1. discriminate.
  - unfold size in *. rewrite H1. exact Hsz.
Qed.

Lemma ss_fg_sequence_never_returns fuel d g r :
  fg_items d <> [] -> all_retrigger_once (fg_items d) ->
  fg_sequence fuel d g r 10 = OutOfFuel.
Proof.
  intros Hne Hall. unfold fg_sequence. change (10 >? 0) with true. cbv iota.
  destruct (fg_items d) eqn:E; [congruence|]. rewrite <- E in *.
  pose proof (ss_push_draws_length (fg_items d) (Z.to_nat 10) [] g) as Hl.
  pose proof (ss_push_draws_all_retrigger_once _ Hne Hall (Z.to_nat 10) [] g
                (Forall_nil _)) as Ha.
  destruct (push_draws _ (fg_items d) [] g) as [q g1]. cbn [fst] in *.
  rewrite (ss_fg_loop_never_returns d Hne Hall fuel (mkState q g1 (triggered r)));
    cbn [queue]; try assumption; try reflexivity.
  - destruct q; [cbn in Hl; discriminate | congruence].
  - unfold size, MAX_QUEUE_SIZE. rewrite Hl. cbn. lia.
Qed.

(** *** The queue cap *)

Lemma ss_fg_step_pushes d s cur rest :
  queue s = cur :: rest -> retrigger_num cur > 0 ->
  exists drawn,
    List.length drawn = Z.to_nat (retrigger_num cur)
    /\ queue (fg_step d s) = drawn ++ rest.
Proof.
  intros Hq Hre. unfold fg_step. rewrite Hq.
  destruct (retrigger_num cur >? 0) eqn:E; [|lia].
  destruct (ss_push_draws_extends (fg_items d) (Z.to_nat (retrigger_num cur))
              rest (rng s)) as (dr & Hl & He).
  destruct (push_draws _ (fg_items d) rest (rng s)) as [q' g']. cbn [fst] in He.
  exists dr. cbn. split; assumption.
Qed.

Lemma ss_fg_loop_breaks fuel d s :
  size (queue s) > MAX_QUEUE_SIZE -> fg_loop fuel d s = Returns s.
Proof.
  intros Hsz. destruct fuel; cbn [fg_loop];
    (destruct (queue s) eqn:E; [reflexivity|]); rewrite <- E in Hsz |- *;
    (destruct (size (queue s) >? MAX_QUEUE_SIZE) eqn:Hcap; [reflexivity | lia]).
Qed.

Lemma ss_fg_loop_no_throw d fuel : forall s w, fg_loop fuel d s <> Throws w.
Proof.
  induction fuel as [|fuel IH]; intros s w; cbn [fg_loop];
    destruct (queue s); try discriminate;
    destruct (size _ >? MAX_QUEUE_SIZE); try discriminate. apply IH.
Qed.

Lemma ss_fg_sequence_round fuel d g r n :
  (forall w, fg_sequence fuel d g r n <> Throws w)
  /\ (forall rd, fg_sequence fuel d g r n = Returns rd -> cap_warnings rd = O).
Proof.
  unfold fg_sequence, plain.
  destruct (n >? 0); [|split; [discriminate | now intros rd [= <-]]].
  destruct (fg_items d); [split; [discriminate | now intros rd [= <-]]|].
  destruct (push_draws _ _ [] g) as [q g1].
  destruct (fg_loop fuel d _) as [s|w'|] eqn:Hrun.
  - split; [discriminate | now intros rd [= <-]].
  - now apply ss_fg_loop_no_throw in Hrun.
  - split; discriminate.
Qed.

Lemma ss_simulateGameRound_round fuel G g mode p :
  isInitialized G = true ->
  (forall w, simulateGameRound fuel G g mode p <> Throws w)
  /\ (forall rd, simulateGameRound fuel G g mode p = Returns rd ->
                 cap_warnings rd = O).
Proof.
  intros Hinit. unfold simulateGameRound. rewrite Hinit. cbn [negb].
  assert (Hplain : forall r g0,
             (forall w, plain r g0 <> Throws w)
             /\ (forall rd, plain r g0 = Returns rd -> cap_warnings rd = O)).
  { intros r g0. unfold plain. split; [discriminate | now intros rd [= <-]]. }
  destruct mode.
  - destruct (bg_items (gameData G)); [apply Hplain|].
    destruct (Rng.uniform_int _ g) as [i g1].
    destruct (trigger_num _ =? 0);
      [destruct (Qlt_le_dec 0 p);
       [destruct (Rng.uniform_real g1) as [u g']; destruct (Qlt_le_dec u p)|]|];
      apply ss_fg_sequence_round.
  - apply ss_fg_sequence_round.
  - destruct (bg_items (gameData G)); [apply Hplain|].
    destruct (Rng.uniform_int _ g) as [i g1]. apply Hplain.
Qed.

End SS03GameProps.

(** ** The round simulator: claims *)

Module RoundClaims.

(** C10.  In the pool-multiplier variant an initialised game with an empty
    base-item pool returns at once in every simulation mode, FG_ONLY
    included: every score, count and level of the result is zero, the
    feature game is not triggered, the two multiplier maxima keep their
    neutral value 1, nothing is thrown, the feature phase is not entered
    and the random stream is not consumed. *)
Theorem deepdive_empty_base_pool_gives_zero_result
        (fuel : nat) (G : DeepDive.Global) (g : Rng.t)
        (mode : SimulationMode) (p : Q) :
  DeepDive.isInitialized G = true ->
  DeepDive.bg_items (DeepDive.gameData G) = [] ->
  DeepDive.simulateGameRound fuel G g mode p
  = Returns (mkRound (mkGameResult 0 0 0 false 0 1 1 0 []) g O O).
Proof.
  intros Hinit Hbg. unfold DeepDive.simulateGameRound.
  rewrite Hinit, Hbg. reflexivity.
Qed.

Lemma deepdive_empty_base_pool_gives_zero_result_witness :
  let G := DeepDive.mkGlobal
             (DeepDive.mkData [] [DeepDive.mkFG 1 20 true 0 1] [] ∅) true in
  DeepDive.isInitialized G = true
  /\ DeepDive.bg_items (DeepDive.gameData G) = []
  /\ DeepDive.simulateGameRound 0 G (Rng.of_list []) FG_ONLY 0
     = Returns (mkRound (mkGameResult 0 0 0 false 0 1 1 0 [])
                        (Rng.of_list []) O O).
Proof.
  cbv zeta. split; [reflexivity|]. split; [reflexivity|].
  apply deepdive_empty_base_pool_gives_zero_result; reflexivity.
Defined.

(** C9.  Every result returned by [simulateGameRound], in both variants
    and in every simulation mode, has [fg_run_length] equal to the number
    of entries of [fg_levels] and [fg_nonzero_picks] at most
    [fg_run_length]. *)
Theorem returned_result_counts_one_level_per_pick :
  (forall fuel G g mode p rd,
      DeepDive.simulateGameRound fuel G g mode p = Returns rd ->
      fg_run_length (result rd) = Z.of_nat (List.length (fg_levels (result rd)))
      /\ fg_nonzero_picks (result rd) <= fg_run_length (result rd))
  /\
  (forall fuel G g mode p rd,
      SS03Game.simulateGameRound fuel G g mode p = Returns rd ->
      fg_run_length (result rd) = Z.of_nat (List.length (fg_levels (result rd)))
      /\ fg_nonzero_picks (result rd) <= fg_run_length (result rd)).
Proof.
  split; intros fuel G g mode p rd Hrun.
  - exact (DeepDiveProps.dd_simulateGameRound_ok _ _ _ _ _ _ Hrun).
  - exact (SS03GameProps.ss_simulateGameRound_ok _ _ _ _ _ _ Hrun).
Qed.

Lemma returned_result_counts_one_level_per_pick_witness :
  (exists rd,
      DeepDive.simulateGameRound 100 DeepDive.sampleData
        (Rng.of_list [0; 3; 3; 3; 3; 3; 3; 3; 3; 3; 3]) FULL_GAME 0 = Returns rd
      /\ fg_run_length (result rd) = 10
      /\ fg_run_length (result rd) = Z.of_nat (List.length (fg_levels (result rd)))
      /\ fg_nonzero_picks (result rd) <= fg_run_length (result rd))
  /\
  (exists rd,
      SS03Game.simulateGameRound 100 SS03Game.sampleData
        (Rng.of_list [3; 0; 0; 1; 0; 0; 0; 0; 2; 2; 2; 2; 2]) FULL_GAME 0
      = Returns rd
      /\ fg_run_length (result rd) = 12
      /\ fg_run_length (result rd) = Z.of_nat (List.length (fg_levels (result rd)))
      /\ fg_nonzero_picks (result rd) <= fg_run_length (result rd)).
Proof.
  destruct returned_result_counts_one_level_per_pick as [Hdd Hss].
  split.
  - eexists. split; [vm_compute; reflexivity|].
    split; [reflexivity|].
    apply (Hdd 100%nat DeepDive.sampleData
               (Rng.of_list [0; 3; 3; 3; 3; 3; 3; 3; 3; 3; 3]) FULL_GAME 0%Q).
    vm_compute. reflexivity.
  - eexists. split; [vm_compute; reflexivity|].
    split; [reflexivity|].
    apply (Hss 100%nat SS03Game.sampleData
               (Rng.of_list [3; 0; 0; 1; 0; 0; 0; 0; 2; 2; 2; 2; 2]) FULL_GAME 0%Q).
    vm_compute. reflexivity.
Defined.

(** C2.  The feature loop does not always terminate.  On a configuration
    whose only feature item continues (pool-multiplier variant), or whose
    only feature item grants exactly one further pick (trigger-count
    variant), [simulateGameRound] is still inside its [while] loop after
    any number of iterations, whatever the random stream and the
    second-chance probability, in FG_ONLY and in FULL_GAME mode. *)
Theorem feature_loop_runs_forever_on_endless_data :
  (forall fuel g p,
      DeepDive.simulateGameRound fuel DeepDive.endlessData g FG_ONLY p = OutOfFuel
      /\ DeepDive.simulateGameRound fuel DeepDive.endlessData g FULL_GAME p
         = OutOfFuel)
  /\
  (forall fuel g p,
      SS03Game.simulateGameRound fuel SS03Game.endlessData g FG_ONLY p = OutOfFuel
      /\ SS03Game.simulateGameRound fuel SS03Game.endlessData g FULL_GAME p
         = OutOfFuel).
Proof.
  split; intros fuel g p; split.
  - apply DeepDiveProps.dd_fg_stage_never_returns;
      [discriminate | repeat constructor].
  - unfold DeepDive.simulateGameRound. cbn [DeepDive.isInitialized
      DeepDive.endlessData negb DeepDive.gameData DeepDive.bg_items].
    destruct (Rng.uniform_int _ g) as [i g1] eqn:Hi.
    assert (Hflag : DeepDive.bg_flag
                      (DeepDive.at_ DeepDive.no_bg
                         [DeepDive.mkBG 1 5 true 1] i) = true).
    { unfold Rng.uniform_int in Hi. destruct (Rng.next g) as [x g'].
      injection Hi as <- <-. cbn. rewrite Z.mod_1_r. reflexivity. }
    rewrite Hflag.
    apply DeepDiveProps.dd_fg_stage_never_returns;
      [discriminate | repeat constructor].
  - apply SS03GameProps.ss_fg_sequence_never_returns;
      [discriminate | repeat constructor].
  - unfold SS03Game.simulateGameRound. cbn [SS03Game.isInitialized
      SS03Game.endlessData negb SS03Game.gameData SS03Game.bg_items].
    destruct (Rng.uniform_int _ g) as [i g1] eqn:Hi.
    assert (Hitem : SS03Game.at_ SS03Game.no_bg [SS03Game.mkBG 1 5 10 1] i
                    = SS03Game.mkBG 1 5 10 1).
    { unfold Rng.uniform_int in Hi. destruct (Rng.next g) as [x g'].
      injection Hi as <- <-. cbn. rewrite Z.mod_1_r. reflexivity. }
    rewrite Hitem. cbn [SS03Game.trigger_num]. change (10 =? 0) with false.
    cbv iota.
    apply SS03GameProps.ss_fg_sequence_never_returns;
      [discriminate | repeat constructor].
Qed.

(** C1, as stated, does not hold.  Pool-multiplier variant: after 110
    iterations on a configuration whose only feature item continues, the
    queue holds 1,000 items; the next item continues, pushing ten draws
    leaves the queue above the cap of 1,000, and yet the push is made
    (1,009 items) and nothing is reported.  Trigger-count variant: on a
    configuration whose only feature item grants two picks the round
    returns after 1,991 picks with 2,001 items still in the queue and
    without any warning. *)
Lemma queue_cap_claim_counterexample :
  (let d := DeepDive.gameData DeepDive.endlessData in
   let s := Nat.iter 110 (DeepDive.fg_step d)
              (DeepDive.fg_start d (Rng.of_list [])) in
   DeepDive.size (DeepDive.queue s) = 1000
   /\ DeepDive.flag (hd DeepDive.no_fg (DeepDive.queue s)) = true
   /\ DeepDive.size (tl (DeepDive.queue s)) + 10 > DeepDive.MAX_QUEUE_SIZE
   /\ DeepDive.queue (DeepDive.fg_step d s) <> tl (DeepDive.queue s)
   /\ DeepDive.size (DeepDive.queue (DeepDive.fg_step d s)) = 1009
   /\ DeepDive.warnings (DeepDive.fg_step d s) = O)
  /\
  match SS03Game.simulateGameRound 2000 SS03Game.growingData
          (Rng.of_list []) FG_ONLY 0 with
  | Returns rd =>
      fg_run_length (result rd) = 1991
      /\ unprocessed rd = 2001%nat
      /\ cap_warnings rd = O
  | _ => False
  end.
Proof.
  split.
  - cbv zeta. repeat split; try (vm_compute; reflexivity).
    intros Heq. apply (f_equal (@List.length _)) in Heq.
    vm_compute in Heq. discriminate.
  - vm_compute. repeat split.
Qed.

(** C1, amended.  For a round that no other thread interferes with.
    Pool-multiplier variant: when the processed item
    continues and the queue left after the pop already holds more than
    1,000 items, the ten draws are not pushed and the warning is written
    only if it was not yet written in this round; when the queue left
    after the pop holds at most 1,000 items the ten draws are pushed and
    nothing is written; at most one warning has been written after any
    number of iterations; an initialised round never throws, and when it
    returns the queue is empty.  Trigger-count variant: a processed item
    with a positive [retrigger_num] always has that many draws pushed; a
    queue of more than 2,000 items at the top of an iteration ends the
    loop at once, whatever is left in it; an initialised round never
    throws and never writes a warning. *)
Theorem queue_cap_policy :
  (forall d s cur rest,
      DeepDive.queue s = cur :: rest -> DeepDive.flag cur = true ->
      (DeepDive.size rest > 1000 ->
       DeepDive.queue (DeepDive.fg_step d s) = rest
       /\ DeepDive.warnings (DeepDive.fg_step d s)
          = if DeepDive.cap_warning_logged_this_run s
            then DeepDive.warnings s else S (DeepDive.warnings s))
      /\ (DeepDive.size rest <= 1000 ->
          exists drawn,
            List.length drawn = 10%nat
            /\ DeepDive.queue (DeepDive.fg_step d s) = drawn ++ rest
            /\ DeepDive.warnings (DeepDive.fg_step d s) = DeepDive.warnings s))
  /\ (forall d g n,
         (DeepDive.warnings
            (Nat.iter n (DeepDive.fg_step d) (DeepDive.fg_start d g)) <= 1)%nat)
  /\ (forall fuel G g mode p,
         DeepDive.isInitialized G = true ->
         (forall w, DeepDive.simulateGameRound fuel G g mode p <> Throws w)
         /\ (forall rd,
                DeepDive.simulateGameRound fuel G g mode p = Returns rd ->
                (cap_warnings rd <= 1)%nat /\ unprocessed rd = O))
  /\ (forall d s cur rest,
         SS03Game.queue s = cur :: rest -> SS03Game.retrigger_num cur > 0 ->
         exists drawn,
           List.length drawn = Z.to_nat (SS03Game.retrigger_num cur)
           /\ SS03Game.queue (SS03Game.fg_step d s) = drawn ++ rest)
  /\ (forall fuel d s,
         SS03Game.size (SS03Game.queue s) > 2000 ->
         SS03Game.fg_loop fuel d s = Returns s)
  /\ (forall fuel G g mode p,
         SS03Game.isInitialized G = true ->
         (forall w, SS03Game.simulateGameRound fuel G g mode p <> Throws w)
         /\ (forall rd,
                SS03Game.simulateGameRound fuel G g mode p = Returns rd ->
                cap_warnings rd = O)).
Proof.
  repeat apply conj.
  - intros d s cur rest Hq Hflag. split; intros Hsz.
    + destruct (DeepDiveProps.dd_fg_step_over_cap d s cur rest Hq Hflag Hsz)
        as (H1 & _ & H3). split; assumption.
    + destruct (DeepDiveProps.dd_fg_step_under_cap d s cur rest Hq Hflag Hsz)
        as (dr & H1 & H2 & _ & H4). exists dr. repeat split; assumption.
  - intros d g n. apply DeepDiveProps.dd_iterated_warned_once.
  - intros fuel G g mode p Hinit. split.
    + intros w. now apply DeepDiveProps.dd_simulateGameRound_no_throw.
    + intros rd. apply DeepDiveProps.dd_simulateGameRound_round.
  - intros d s cur rest. apply SS03GameProps.ss_fg_step_pushes.
  - intros fuel d s. apply SS03GameProps.ss_fg_loop_breaks.
  - intros fuel G g mode p. apply SS03GameProps.ss_simulateGameRound_round.
Qed.

Lemma queue_cap_policy_witness :
  (let d := DeepDive.gameData DeepDive.endlessData in
   let s := Nat.iter 111 (DeepDive.fg_step d)
              (DeepDive.fg_start d (Rng.of_list [])) in
   DeepDive.size (tl (DeepDive.queue s)) = 1008
   /\ DeepDive.queue (DeepDive.fg_step d s) = tl (DeepDive.queue s)
   /\ DeepDive.warnings (DeepDive.fg_step d s) = 1%nat)
  /\
  (let d := SS03Game.gameData SS03Game.growingData in
   let s := Nat.iter 1991 (SS03Game.fg_step d)
              (SS03Game.mkState
                 (fst (SS03Game.push_draws 10 (SS03Game.fg_items d) []
                         (Rng.of_list [])))
                 (Rng.of_list []) SS03Game.empty_result) in
   SS03Game.size (SS03Game.queue s) = 2001
   /\ SS03Game.fg_loop 0 d s = Returns s)
  /\
  (forall w,
      SS03Game.simulateGameRound 2000 SS03Game.growingData (Rng.of_list [])
        FG_ONLY 0 <> Throws w).
Proof.
  destruct queue_cap_policy as (Hstep & _ & _ & _ & Hbreak & Hround).
  cbv zeta. repeat apply conj.
  - vm_compute. reflexivity.
  - refine (proj1 (proj1 (Hstep (DeepDive.gameData DeepDive.endlessData)
             (Nat.iter 111 (DeepDive.fg_step
                              (DeepDive.gameData DeepDive.endlessData))
                (DeepDive.fg_start (DeepDive.gameData DeepDive.endlessData)
                   (Rng.of_list [])))
             (DeepDive.mkFG 1 20 true 0 1) _ _ _) _));
      vm_compute; reflexivity.
  - vm_compute. reflexivity.
  - vm_compute. reflexivity.
  - apply Hbreak. vm_compute. reflexivity.
  - apply (proj1 (Hround 2000%nat SS03Game.growingData (Rng.of_list [])
                    FG_ONLY 0%Q eq_refl)).
Defined.

End RoundClaims.

(** ** Statistics: facts *)

Module StatisticsProps.
Import Statistics.
Local Open Scope Q_scope.

Lemma ltb_false_le x y : Dbl.ltb x y = false -> y <= x.
Proof.
  unfold Dbl.ltb. intros H. apply negb_false_iff in H.
  now apply Qle_bool_iff.
Qed.

Lemma ltb_true_lt x y : Dbl.ltb x y = true -> x < y.
Proof.
  unfold Dbl.ltb. intros H. apply negb_true_iff in H.
  apply Qnot_le_lt. intros Hle. apply Qle_bool_iff in Hle. congruence.
Qed.

Lemma leb_true_le x y : Dbl.leb x y = true -> x <= y.
Proof. apply Qle_bool_iff. Qed.

Lemma leb_false_lt x y : Dbl.leb x y = false -> y < x.
Proof.
  unfold Dbl.leb. intros H. apply Qnot_le_lt. intros Hle.
  apply Qle_bool_iff in Hle. congruence.
Qed.

(** Truncation of a non-negative double is its floor. *)
Lemma trunc_nonneg q : 0 <= q -> Dbl.trunc q = Qfloor q.
Proof.
  destruct q as [n d]. unfold Qle, Dbl.trunc, Qfloor. cbn. intros H.
  apply Z.quot_div_nonneg; lia.
Qed.

Lemma trunc_fraction q :
  0 <= q ->
  (0 <= Dbl.trunc q)%Z
  /\ 0 <= q - Dbl.ofZ (Dbl.trunc q) /\ q - Dbl.ofZ (Dbl.trunc q) < 1.
Proof.
  intros Hq. rewrite (trunc_nonneg q Hq). unfold Dbl.ofZ.
  pose proof (Qfloor_le q) as H1. pose proof (Qlt_floor q) as H2.
  rewrite inject_Z_plus in H2. change (inject_Z 1) with 1 in H2.
  assert (H0 : (Qfloor 0 <= Qfloor q)%Z) by now apply Qfloor_resp_le.
  split; [exact H0|]. split; lra.
Qed.

Lemma trunc_monotone p q : 0 <= p -> p <= q -> (Dbl.trunc p <= Dbl.trunc q)%Z.
Proof.
  intros Hp Hpq. rewrite !trunc_nonneg by lra. now apply Qfloor_resp_le.
Qed.

Lemma insert_In x y l : In x (insert y l) -> x = y \/ In x l.
Proof.
  induction l as [|z l IH]; cbn [insert].
  - intros [->|[]]. now left.
  - destruct (Dbl.leb y z).
    + intros [->|H]; [now left | now right].
    + intros [->|H]; [right; now left|].
      destruct (IH H) as [->|H']; [now left | right; now right].
Qed.

Lemma sort_In x l : In x (sort l) -> In x l.
Proof.
  unfold sort. induction l as [|y l IH]; cbn [fold_right]; [tauto|].
  intros H. destruct (insert_In _ _ _ H) as [->|H']; [now left|].
  right. now apply IH.
Qed.

Lemma insert_length x l : List.length (insert x l) = S (List.length l).
Proof.
  induction l as [|y l IH]; cbn [insert]; [reflexivity|].
  destruct (Dbl.leb x y); cbn [List.length]; [reflexivity | now rewrite IH].
Qed.

Lemma sort_length l : List.length (sort l) = List.length l.
Proof.
  unfold sort.
  induction l as [|x l IH]; cbn [fold_right List.length]; [reflexivity|].
  now rewrite insert_length, IH.
Qed.

Lemma last_In (l : list Q) d : l <> [] -> In (last l d) l.
Proof.
  induction l as [|x l IH]; [congruence|]. intros _.
  destruct l as [|y l]; [now left|]. right. apply IH. discriminate.
Qed.

(** An interpolated value stays between the bounds of its end points. *)
Lemma interpolation_bounds lo hi f a b :
  lo <= a <= hi -> lo <= b <= hi -> 0 <= f -> f <= 1 ->
  lo <= a + f * (b - a) <= hi.
Proof. intros Ha Hb Hf0 Hf1. split; nra. Qed.

(** [findValueAtPercentile] returns a value between any pair of bounds
    that enclose the data. *)
Lemma findValueAtPercentile_bounds data p lo hi :
  data <> [] ->
  Dbl.ltb p 0 = false -> Dbl.ltb 100 p = false ->
  (forall x, In x data -> lo <= x <= hi) ->
  exists v, findValueAtPercentile data p = Returns (v, sort data)
            /\ lo <= v <= hi.
Proof.
  intros Hne Hp0 Hp100 Hbounds. unfold findValueAtPercentile.
  destruct data as [|d0 data']; [congruence|].
  set (data := d0 :: data') in *.
  rewrite Hp0, Hp100. cbn [orb].
  assert (Hsorted : forall x, In x (sort data) -> lo <= x <= hi)
    by (intros x Hx; apply Hbounds, sort_In, Hx).
  assert (Hsne : sort data <> []).
  { intros E. pose proof (sort_length data) as Hl. rewrite E in Hl.
    discriminate. }
  destruct (Dbl.eqb p 100).
  { eexists. split; [reflexivity|]. apply Hsorted, last_In, Hsne. }
  set (n := Z.of_nat (List.length (sort data))).
  set (rank := p / 100 * Dbl.ofZ (n - 1)).
  assert (Hn : (1 <= n)%Z).
  { unfold n. rewrite sort_length. cbn [data List.length]. lia. }
  assert (Hrank : 0 <= rank).
  { unfold rank, Dbl.ofZ. apply ltb_false_le in Hp0.
    assert (0 <= inject_Z (n - 1)).
    { rewrite <- (Zle_Qle 0). lia. }
    apply Qmult_le_0_compat; [|assumption].
    apply Qle_shift_div_l; [reflexivity | lra]. }
  destruct (trunc_fraction rank Hrank) as (Hlow & Hf0 & Hf1).
  destruct (Dbl.trunc rank + 1 >=? n)%Z eqn:Hend.
  { eexists. split; [reflexivity|]. apply Hsorted, last_In, Hsne. }
  eexists. split; [reflexivity|].
  apply interpolation_bounds; try lra;
    apply Hsorted, nth_In; unfold n in *; lia.
Qed.

End StatisticsProps.

(** ** The moment accumulator *)

Module OnlineStatsProps.
Import OnlineStats.
Local Open Scope Q_scope.

Lemma update_zero s :
  zeroed s -> zeroed (update s 0) /\ count (update s 0) = Int64.add (count s) 1.
Proof.
  intros (H1 & H2 & H3 & H4). unfold zeroed, update.
  cbn [M1 M2 M3 M4 count]. rewrite H1, H2, H3, H4. unfold Qdiv.
  repeat split; ring.
Qed.

Lemma replay_zeros_from n :
  forall s,
    zeroed s -> (0 <= count s)%Z -> (count s + Z.of_nat n < 2 ^ 63)%Z ->
    zeroed (fold_left update (repeat 0 n) s)
    /\ count (fold_left update (repeat 0 n) s) = (count s + Z.of_nat n)%Z.
Proof.
  induction n as [|n IH]; intros s Hz H0 Hn; cbn [repeat fold_left].
  - split; [exact Hz | lia].
  - destruct (update_zero s Hz) as [Hz' Hc'].
    rewrite Int64Props.add_small in Hc' by lia.
    destruct (IH (update s 0) Hz') as [I1 I2]; [lia | lia|].
    split; [exact I1 | lia].
Qed.

Lemma replay_zeros n :
  (Z.of_nat n < 2 ^ 63)%Z ->
  zeroed (replay (repeat 0 n)) /\ count (replay (repeat 0 n)) = Z.of_nat n.
Proof.
  intros Hn. unfold replay.
  destruct (replay_zeros_from n empty) as [H1 H2].
  - repeat split; reflexivity.
  - cbn. lia.
  - cbn [count empty]. lia.
  - split; [exact H1 | exact H2].
Qed.

Lemma replay_snoc l x : replay (l ++ [x]) = update (replay l) x.
Proof. unfold replay. now rewrite fold_left_app. Qed.

End OnlineStatsProps.

(** ** Agreement of [combine] with sequential replay *)

Module PowerSums.
Import OnlineStats.
Local Open Scope Q_scope.

Lemma update_sums s x :
  (0 <= count s < 2097152)%Z ->
  count (update s x) = (count s + 1)%Z
  /\ S1 (update s x) == S1 s + x
  /\ S2 (update s x) == S2 s + x * x
  /\ S3 (update s x) == S3 s + x * x * x
  /\ S4 (update s x) == S4 s + x * x * x * x.
Proof.
  intros Hc. unfold S1, S2, S3, S4, N, update.
  cbn [count M1 M2 M3 M4].
  set (c := count s) in *.
  assert (Hc1 : Int64.add c 1 = (c + 1)%Z) by (apply Int64Props.add_small; lia).
  rewrite Hc1.
  rewrite (Int64Props.sub_small (c + 1) 1) by lia.
  rewrite (Int64Props.sub_small (c + 1) 2) by lia.
  rewrite (Int64Props.mul_small (c + 1) (c + 1)) by nia.
  rewrite (Int64Props.mul_small 3 (c + 1)) by lia.
  rewrite (Int64Props.sub_small ((c + 1) * (c + 1)) (3 * (c + 1))) by nia.
  rewrite (Int64Props.add_small ((c + 1) * (c + 1) - 3 * (c + 1)) 3) by nia.
  unfold Dbl.ofZ.
  replace (c + 1 - 1)%Z with c by lia.
  replace ((c + 1) * (c + 1) - 3 * (c + 1) + 3)%Z with (c * c - c + 1)%Z by lia.
  replace (c + 1 - 2)%Z with (c - 1)%Z by lia.
  unfold Z.sub.
  repeat (rewrite inject_Z_plus || rewrite inject_Z_mult
          || rewrite inject_Z_opp).
  change (inject_Z 1) with 1.
  set (n := inject_Z c).
  assert (Hn : ~ n + 1 == 0).
  { assert (0 <= n) by (unfold n; rewrite <- (Zle_Qle 0); lia). lra. }
  split; [reflexivity|].
  repeat split; field; exact Hn.
Qed.

Lemma combine_sums a b :
  (0 < count a)%Z -> (0 < count b)%Z -> (count a + count b < 2097152)%Z ->
  count (combine a b) = (count a + count b)%Z
  /\ S1 (combine a b) == S1 a + S1 b
  /\ S2 (combine a b) == S2 a + S2 b
  /\ S3 (combine a b) == S3 a + S3 b
  /\ S4 (combine a b) == S4 a + S4 b.
Proof.
  intros Ha Hb Hab. unfold S1, S2, S3, S4, N, combine.
  destruct (count b =? 0)%Z eqn:Eb; [lia|].
  destruct (count a =? 0)%Z eqn:Ea; [lia|].
  cbn [count M1 M2 M3 M4].
  set (n := count a) in *. set (m := count b) in *.
  assert (Hbound : (2097151 * 2097151 * 2097151 < 2 ^ 63)%Z) by reflexivity.
  assert (Hnm2 : (0 < (n + m) * (n + m) <= 2097151 * 2097151)%Z) by nia.
  assert (Hnm3 : (0 < (n + m) * (n + m) * (n + m)
                  <= 2097151 * 2097151 * 2097151)%Z).
  { split; [nia|]. apply Z.mul_le_mono_nonneg; lia. }
  assert (Hn2 : (0 < n * n <= 2097151 * 2097151)%Z) by nia.
  assert (Hm2 : (0 < m * m <= 2097151 * 2097151)%Z) by nia.
  assert (Hmn : (0 < n * m <= 2097151 * 2097151)%Z) by nia.
  rewrite (Int64Props.add_small n m) by lia.
  rewrite (Int64Props.sub_small n m) by lia.
  rewrite (Int64Props.mul_small (n + m) (n + m)) by lia.
  rewrite (Int64Props.mul_small ((n + m) * (n + m)) (n + m)) by lia.
  rewrite (Int64Props.mul_small n n) by lia.
  rewrite (Int64Props.mul_small m m) by lia.
  rewrite (Int64Props.mul_small n m) by lia.
  rewrite (Int64Props.sub_small (n * n) (n * m)) by lia.
  rewrite (Int64Props.add_small (n * n - n * m) (m * m)) by lia.
  unfold Dbl.ofZ, Z.sub.
  repeat (rewrite inject_Z_plus || rewrite inject_Z_mult
          || rewrite inject_Z_opp).
  set (p := inject_Z n). set (q := inject_Z m).
  assert (Hpq : ~ p + q == 0).
  { assert (0 < p) by (unfold p; rewrite <- (Zlt_Qlt 0); lia).
    assert (0 < q) by (unfold q; rewrite <- (Zlt_Qlt 0); lia). lra. }
  split; [reflexivity|].
  repeat split; field; exact Hpq.
Qed.

(** The sums determine the accumulator. *)
Lemma sums_determine a b :
  count a = count b -> (0 < count a)%Z ->
  S1 a == S1 b -> S2 a == S2 b -> S3 a == S3 b -> S4 a == S4 b ->
  same a b.
Proof.
  unfold S1, S2, S3, S4, N, same, Dbl.ofZ. intros Hc Hpos.
  rewrite <- Hc. set (n := inject_Z (count a)).
  assert (Hn : ~ n == 0).
  { assert (0 < n) by (unfold n; rewrite <- (Zlt_Qlt 0); lia). lra. }
  intros E1 E2 E3 E4.
  assert (H1 : M1 a == M1 b) by (apply (Qmult_inj_l _ _ n Hn); exact E1).
  rewrite H1 in E2, E3, E4.
  assert (H2 : M2 a == M2 b) by lra.
  rewrite H2 in E3, E4.
  assert (H3 : M3 a == M3 b) by lra.
  rewrite H3 in E4.
  assert (H4 : M4 a == M4 b) by lra.
  repeat split; assumption.
Qed.

Lemma sums_app xs ys :
  sum1 (xs ++ ys) == sum1 xs + sum1 ys
  /\ sum2 (xs ++ ys) == sum2 xs + sum2 ys
  /\ sum3 (xs ++ ys) == sum3 xs + sum3 ys
  /\ sum4 (xs ++ ys) == sum4 xs + sum4 ys.
Proof.
  unfold sum1, sum2, sum3, sum4.
  induction xs as [|x xs (I1 & I2 & I3 & I4)]; cbn [app fold_right].
  - repeat split; ring.
  - rewrite I1, I2, I3, I4. repeat split; ring.
Qed.

Lemma replay_sums xs :
  (Z.of_nat (List.length xs) <= 2097151)%Z ->
  count (replay xs) = Z.of_nat (List.length xs)
  /\ S1 (replay xs) == sum1 xs /\ S2 (replay xs) == sum2 xs
  /\ S3 (replay xs) == sum3 xs /\ S4 (replay xs) == sum4 xs.
Proof.
  induction xs as [|x xs IH] using rev_ind; intros Hlen.
  - unfold S1, S2, S3, S4, N. cbn. repeat split; reflexivity.
  - rewrite List.length_app in Hlen. cbn [List.length] in Hlen.
    destruct IH as (Hc & I1 & I2 & I3 & I4); [lia|].
    rewrite OnlineStatsProps.replay_snoc.
    destruct (update_sums (replay xs) x) as (Uc & U1 & U2 & U3 & U4);
      [rewrite Hc; lia|].
    destruct (sums_app xs [x]) as (A1 & A2 & A3 & A4).
    unfold sum1, sum2, sum3, sum4 in A1, A2, A3, A4.
    cbn [fold_right] in A1, A2, A3, A4.
    rewrite Uc, Hc, List.length_app. cbn [List.length].
    split; [lia|].
    rewrite U1, U2, U3, U4, I1, I2, I3, I4.
    unfold sum1, sum2, sum3, sum4. rewrite A1, A2, A3, A4.
    repeat split; ring.
Qed.

(** Below the overflow of the cubed count, [combine] agrees exactly with
    replaying both observation lists in sequence. *)
Lemma combine_matches_replay xs ys :
  (Z.of_nat (List.length xs + List.length ys) <= 2097151)%Z ->
  same (combine (replay xs) (replay ys)) (replay (xs ++ ys)).
Proof.
  intros Hlen.
  destruct (replay_sums xs) as (Hcx & X1 & X2 & X3 & X4); [lia|].
  destruct (replay_sums ys) as (Hcy & Y1 & Y2 & Y3 & Y4); [lia|].
  destruct (replay_sums (xs ++ ys)) as (Hc & Z1 & Z2 & Z3 & Z4);
    [rewrite List.length_app; lia|].
  destruct (sums_app xs ys) as (A1 & A2 & A3 & A4).
  destruct ys as [|y ys].
  - rewrite app_nil_r. unfold combine. cbn [replay fold_left count empty].
    change (0 =? 0)%Z with true. cbv iota. repeat split; reflexivity.
  - destruct xs as [|x xs].
    + cbn [app]. unfold combine at 1. rewrite Hcy, Hcx. cbn [List.length].
      destruct (Z.of_nat (S (List.length ys)) =? 0)%Z eqn:E;
        [apply Z.eqb_eq in E; lia|].
      change (Z.of_nat 0 =? 0)%Z with true. cbv iota.
      repeat split; reflexivity.
    + destruct (combine_sums (replay (x :: xs)) (replay (y :: ys)))
        as (Cc & C1 & C2 & C3 & C4);
        try (rewrite ?Hcx, ?Hcy; cbn [List.length] in *; lia).
      apply sums_determine.
      * rewrite Cc, Hc, Hcx, Hcy, List.length_app. lia.
      * rewrite Cc, Hcx, Hcy. cbn [List.length]. lia.
      * rewrite C1, X1, Y1, Z1, A1. reflexivity.
      * rewrite C2, X2, Y2, Z2, A2. reflexivity.
      * rewrite C3, X3, Y3, Z3, A3. reflexivity.
      * rewrite C4, X4, Y4, Z4, A4. reflexivity.
Qed.

End PowerSums.

Module OnlineStatsClaims.
Import OnlineStats.
Local Open Scope Q_scope.

(** C3 fails once the combined count reaches 2^21 + 1.  Let A be the
    accumulator after 2,097,152 observations of 0 and B the accumulator
    after one observation of 1.  Replaying the 2,097,153 observations in
    sequence gives a positive fourth moment sum; [combine] divides by the
    cube of the combined count computed in [long long], which has wrapped
    to a negative number, and returns a negative fourth moment sum. *)
Theorem combine_diverges_from_replay_at_large_counts :
  let zeros := repeat 0 (Z.to_nat 2097152) in
  let A := replay zeros in
  let B := replay [1] in
  count A = 2097152%Z
  /\ count B = 1%Z
  /\ count (combine A B) = count (replay (zeros ++ [1]))
  /\ M4 (combine A B) < 0
  /\ 0 < M4 (replay (zeros ++ [1])).
Proof.
  cbv zeta.
  assert (Hn : Z.of_nat (Z.to_nat 2097152) = 2097152%Z)
    by (apply Z2Nat.id; discriminate).
  revert Hn. generalize (Z.to_nat 2097152). intros n Hn.
  destruct (OnlineStatsProps.replay_zeros n) as [(H1 & H2 & H3 & H4) Hc];
    [rewrite Hn; reflexivity|].
  rewrite Hn in Hc.
  rewrite OnlineStatsProps.replay_snoc.
  set (A := replay (repeat 0 n)) in *. clearbody A.
  change (replay [1]) with (update empty 1).
  repeat apply conj.
  - exact Hc.
  - reflexivity.
  - unfold combine, update. cbn [count empty M1 M2 M3 M4]. rewrite Hc.
    reflexivity.
  - unfold combine. cbn [count update empty].
    change (Int64.add 0 1 =? 0)%Z with false. rewrite Hc.
    change (2097152 =? 0)%Z with false. cbv iota.
    cbn [M1 M2 M3 M4 update empty]. rewrite H1, H2, H3, H4.
    vm_compute. reflexivity.
  - unfold update. cbn [M1 M2 M3 M4 count]. rewrite Hc, H1, H2, H3, H4.
    vm_compute. reflexivity.
Qed.

End OnlineStatsClaims.

(** ** The runner: number of rounds *)

Module RunnerClaims.
Import MonteCarloSimulator.

(** C4, as stated, does not hold for the batched [run]: with 3 batches of
    15 rounds the requested total is 45 and a tenth of it is 4, but FG_ONLY
    runs 3 rounds; with 100 batches of 5 rounds a tenth of the total is
    50, but FG_ONLY runs 100 rounds. *)
Lemma fg_only_batched_count_counterexample :
  run_batched_rounds 3 15 FG_ONLY = Returns 3
  /\ Z.max 1 (3 * 15 / 10) = 4
  /\ run_batched_rounds 100 5 FG_ONLY = Returns 100
  /\ Z.max 1 (100 * 5 / 10) = 50.
Proof. repeat split; vm_compute; reflexivity. Qed.

(** [K * max(1, floor(M / 10))] against [max(1, floor(K * M / 10))]. *)
Lemma batched_count_against_tenth k m :
  0 < k -> 0 < m ->
  (k * Z.max 1 (m / 10) = Z.max 1 (k * m / 10)
   <-> (m < 10 /\ k = 1) \/ (10 <= m /\ k * (m mod 10) < 10))
  /\ (10 <= m -> k * Z.max 1 (m / 10) <= Z.max 1 (k * m / 10))
  /\ (m < 10 -> Z.max 1 (k * m / 10) <= k * Z.max 1 (m / 10)).
Proof.
  intros Hk Hm.
  pose proof (Z.div_mod m 10 ltac:(lia)) as Hdm.
  pose proof (Z.mod_pos_bound m 10 ltac:(lia)) as Hr.
  pose proof (Z.div_pos m 10 ltac:(lia) ltac:(lia)) as Hq.
  set (q := m / 10) in *. set (r := m mod 10) in *.
  assert (Hclaimed : k * m / 10 = k * q + k * r / 10).
  { replace (k * m) with (k * q * 10 + k * r) by lia.
    apply Z.div_add_l. lia. }
  pose proof (Z.div_pos (k * r) 10 ltac:(nia) ltac:(lia)) as Hkr.
  assert (Hsmall : k * r / 10 = 0 <-> k * r < 10).
  { rewrite Z.div_small_iff by lia. split; [intros [H|H] | intros H]; nia. }
  destruct (Z.lt_ge_cases m 10) as [Hlt|Hge].
  - (* fewer than ten rounds per batch: one round per batch *)
    assert (Hq0 : q = 0) by lia.
    assert (Hlow : k * r / 10 < k).
    { apply Z.div_lt_upper_bound; nia. }
    rewrite Hclaimed, Hq0. rewrite Z.mul_0_r, Z.add_0_l.
    split; [split|split].
    + intros H. left. lia.
    + intros [[_ ->]|[H _]]; lia.
    + lia.
    + lia.
  - assert (Hq1 : 1 <= q) by lia.
    rewrite Hclaimed.
    split; [split|split].
    + intros H. right. split; [exact Hge|]. apply Hsmall. nia.
    + intros [[H _]|[_ H]]; [lia|]. apply Hsmall in H. nia.
    + intros _. nia.
    + lia.
Qed.

(** C4, amended.  In FG_ONLY mode [run(numSimulations, ...)] executes
    [floor(numSimulations / 10)] rounds, and one round when that is zero
    and the request is positive.  The batched [run(K, M, ...)] divides
    the rounds per batch, not the total: it executes
    [K * max(1, floor(M / 10))] rounds.  That is the claimed
    [max(1, floor(K * M / 10))] exactly when [M >= 10] and
    [K * (M mod 10) < 10], or [M < 10] and [K = 1]; for [M >= 10] it never
    exceeds the claimed count, for [M < 10] it is never below it. *)
Theorem fg_only_round_count :
  (forall n,
      0 <= n < 2 ^ 63 ->
      run_rounds n FG_ONLY = if n =? 0 then 0 else Z.max 1 (n / 10))
  /\
  (forall k m,
      0 < k -> 0 < m -> k * m < 2 ^ 63 ->
      run_batched_rounds k m FG_ONLY = Returns (k * Z.max 1 (m / 10))
      /\ (run_batched_rounds k m FG_ONLY = Returns (Z.max 1 (k * m / 10))
          <-> (m < 10 /\ k = 1) \/ (10 <= m /\ k * (m mod 10) < 10))
      /\ (10 <= m -> k * Z.max 1 (m / 10) <= Z.max 1 (k * m / 10))
      /\ (m < 10 -> Z.max 1 (k * m / 10) <= k * Z.max 1 (m / 10))).
Proof.
  split.
  - intros n Hn. unfold run_rounds, trips.
    rewrite Int64Props.div_small by lia.
    pose proof (Z.div_pos n 10 ltac:(lia) ltac:(lia)).
    destruct (n =? 0) eqn:E0.
    + apply Z.eqb_eq in E0. subst n. reflexivity.
    + apply Z.eqb_neq in E0.
      destruct (n / 10 =? 0) eqn:Ed; cbn [andb].
      * apply Z.eqb_eq in Ed. rewrite Ed.
        destruct (n >? 0) eqn:Eg; lia.
      * apply Z.eqb_neq in Ed. lia.
  - intros k m Hk Hm Hkm.
    assert (Hrun : run_batched_rounds k m FG_ONLY
                   = Returns (k * Z.max 1 (m / 10))).
    { unfold run_batched_rounds, trips.
      rewrite Int64Props.mul_small by (assert (0 < k * m) by nia; lia).
      destruct (k * m <=? 0) eqn:E; [apply Z.leb_le in E; nia|].
      assert (m <= k * m) by nia.
      assert (m < 2 ^ 63) by lia.
      rewrite Int64Props.div_small by lia.
      pose proof (Z.div_pos m 10 ltac:(lia) ltac:(lia)).
      rewrite (Z.max_r 0 k) by lia. do 2 apply f_equal.
      destruct (m / 10 =? 0) eqn:Ed; cbn [andb].
      + apply Z.eqb_eq in Ed. rewrite Ed.
        destruct (k * m >? 0) eqn:Eg; [lia|].
        apply Z.leb_gt in E. rewrite Z.gtb_ltb in Eg. apply Z.ltb_ge in Eg.
        lia.
      + apply Z.eqb_neq in Ed. lia. }
    destruct (batched_count_against_tenth k m Hk Hm) as (Hiff & Hge & Hlt).
    split; [exact Hrun|]. rewrite Hrun.
    split; [|split; assumption].
    split.
    + intros H. injection H as H. now apply Hiff.
    + intros H. f_equal. now apply Hiff.
Qed.

Lemma fg_only_round_count_witness :
  run_rounds 45 FG_ONLY = 4
  /\ run_rounds 7 FG_ONLY = 1
  /\ run_batched_rounds 3 15 FG_ONLY = Returns 3
  /\ run_batched_rounds 100 1000 FG_ONLY = Returns 10000
  /\ (run_batched_rounds 1 15 FG_ONLY = Returns (Z.max 1 (1 * 15 / 10))
      <-> (15 < 10 /\ 1 = 1) \/ (10 <= 15 /\ 1 * (15 mod 10) < 10)).
Proof.
  destruct fg_only_round_count as [H1 H2].
  split; [|split; [|split; [|split]]].
  - apply (H1 45). lia.
  - apply (H1 7). lia.
  - apply (proj1 (H2 3 15 ltac:(lia) ltac:(lia) ltac:(lia))).
  - apply (proj1 (H2 100 1000 ltac:(lia) ltac:(lia) ltac:(lia))).
  - apply (proj1 (proj2 (H2 1 15 ltac:(lia) ltac:(lia) ltac:(lia)))).
Defined.

End RunnerClaims.

(** ** The histogram *)

Module HistogramProps.
Import Histogram.
Local Open Scope Z_scope.

Lemma upper_bound_after_zero ds v :
  edges_ok ds -> Dbl.ltb v 0 = false -> (1 <= upper_bound ds v)%nat.
Proof.
  intros [rest ->] Hv. cbn [upper_bound]. rewrite Hv. lia.
Qed.

Lemma upper_bound_before_last ds v :
  ds <> [] -> Dbl.ltb v (last ds 0%Q) = true ->
  (upper_bound ds v < List.length ds)%nat.
Proof.
  induction ds as [|d ds IH]; [congruence|]. intros _ Hlast.
  cbn [upper_bound List.length].
  destruct (Dbl.ltb v d) eqn:Hd; [lia|].
  destruct ds as [|d' ds'].
  - cbn in Hlast. congruence.
  - assert (upper_bound (d' :: ds') v < List.length (d' :: ds'))%nat
      by (apply IH; [discriminate | exact Hlast]).
    lia.
Qed.

Lemma increment_sum bins i :
  (i < List.length bins)%nat ->
  bin_sum (increment bins i) = bin_sum bins + 1
  /\ List.length (increment bins i) = List.length bins.
Proof.
  revert i. induction bins as [|b bins IH]; intros i Hi; [cbn in Hi; lia|].
  destruct i as [|i]; cbn [increment bin_sum fold_right List.length].
  - split; lia.
  - destruct (IH i) as [H1 H2]; [cbn in Hi; lia|].
    unfold bin_sum in H1. rewrite H1, H2. split; lia.
Qed.

Lemma zero_bins_sum ds : bin_sum (zero_bins ds) = 0.
Proof.
  unfold zero_bins. induction (List.length ds - 1)%nat; cbn; [reflexivity|].
  unfold bin_sum in IHn. rewrite IHn. reflexivity.
Qed.

Lemma zero_bins_length ds :
  List.length (zero_bins ds) = (List.length ds - 1)%nat.
Proof. unfold zero_bins. apply repeat_length. Qed.

(** Every observation lands in exactly one bucket. *)
Lemma observe_total ds h v :
  edges_ok ds -> shaped ds h ->
  total (observe ds h v) = total h + 1
  /\ shaped ds (observe ds h v)
  /\ dividers (observe ds h v) = dividers h.
Proof.
  intros Hds Hsh. unfold observe, total.
  destruct (Dbl.ltb v 0) eqn:Hneg; [cbn; repeat split; [lia | exact Hsh]|].
  destruct (Dbl.leb (last ds 0%Q) v) eqn:Hover;
    [cbn; repeat split; [lia | exact Hsh]|].
  pose proof (upper_bound_after_zero ds v Hds Hneg) as Hlo.
  assert (Hhi : (upper_bound ds v < List.length ds)%nat).
  { apply upper_bound_before_last.
    - destruct Hds as [rest ->]. discriminate.
    - unfold Dbl.ltb. unfold Dbl.leb in Hover. rewrite Hover. reflexivity. }
  unfold increment_at.
  destruct (Z.of_nat (upper_bound ds v) - 1 <? 0) eqn:Hz; [lia|].
  replace (Z.to_nat (Z.of_nat (upper_bound ds v) - 1))
    with (upper_bound ds v - 1)%nat by lia.
  destruct (increment_sum (bins h) (upper_bound ds v - 1)) as [H1 H2].
  { unfold shaped in Hsh. lia. }
  cbn [bins underflow overflow dividers]. unfold bin_sum in H1.
  rewrite H1. repeat split; [lia|]. unfold shaped. cbn [bins]. now rewrite H2.
Qed.

Lemma add_bins_sum bins other :
  List.length other = List.length bins ->
  bin_sum (add_bins bins other) = bin_sum bins + bin_sum other
  /\ List.length (add_bins bins other) = List.length bins.
Proof.
  revert other. induction bins as [|b bins IH]; intros [|o other] Hlen;
    try discriminate; cbn [add_bins bin_sum fold_right List.length].
  - split; reflexivity.
  - destruct (IH other) as [H1 H2]; [cbn in Hlen; lia|].
    unfold bin_sum in H1. rewrite H1, H2. split; lia.
Qed.

Lemma absorb_total ds h th :
  shaped ds h -> shaped ds th ->
  total (absorb h th) = total h + total th
  /\ shaped ds (absorb h th)
  /\ dividers (absorb h th) = dividers h.
Proof.
  unfold shaped, absorb, total. intros Hh Hth. cbn [bins underflow overflow dividers].
  destruct (add_bins_sum (bins h) (bins th)) as [H1 H2]; [lia|].
  unfold bin_sum in H1. rewrite H1, H2. repeat split; lia.
Qed.

End HistogramProps.

Module SimulatorProps.
Import MonteCarloSimulator.
Import Histogram.
Import HistogramProps.
Local Open Scope Z_scope.

Lemma stream_from ds :
  edges_ok ds ->
  forall totals h,
    shaped ds h ->
    Histogram.total (fold_left (Histogram.observe ds) totals h)
    = Histogram.total h + Z.of_nat (List.length totals)
    /\ shaped ds (fold_left (Histogram.observe ds) totals h)
    /\ Histogram.dividers (fold_left (Histogram.observe ds) totals h)
       = Histogram.dividers h.
Proof.
  intros Hds. induction totals as [|v totals IH]; intros h Hsh;
    cbn [fold_left List.length].
  - repeat split; [lia | exact Hsh].
  - destruct (observe_total ds h v Hds Hsh) as (H1 & H2 & H3).
    destruct (IH _ H2) as (I1 & I2 & I3).
    rewrite I1, H1, I3, H3. repeat split; [lia | exact I2].
Qed.

Lemma observe_at_total ds :
  edges_ok ds ->
  forall ths tid v,
    Forall (shaped ds) ths -> (tid < List.length ths)%nat ->
    threads_total (observe_at ds ths tid v) = threads_total ths + 1
    /\ Forall (shaped ds) (observe_at ds ths tid v)
    /\ List.length (observe_at ds ths tid v) = List.length ths.
Proof.
  intros Hds. induction ths as [|th ths IH]; intros tid v Hall Htid;
    [cbn in Htid; lia|].
  inversion Hall as [|? ? Hth Hrest]; subst.
  destruct tid as [|tid]; cbn [observe_at threads_total fold_right List.length].
  - destruct (observe_total ds th v Hds Hth) as (H1 & H2 & _).
    rewrite H1. repeat split; [lia | now constructor].
  - destruct (IH tid v Hrest) as (H1 & H2 & H3); [cbn in Htid; lia|].
    unfold threads_total in H1. rewrite H1, H3.
    repeat split; [lia | now constructor].
Qed.

Lemma parallel_region ds num_threads :
  edges_ok ds ->
  forall rounds ths,
    Forall (shaped ds) ths -> List.length ths = num_threads ->
    Forall (fun r => (fst r < num_threads)%nat) rounds ->
    let ths' := fold_left (fun ths r => observe_at ds ths (fst r) (snd r))
                          rounds ths in
    threads_total ths' = threads_total ths + Z.of_nat (List.length rounds)
    /\ Forall (shaped ds) ths'.
Proof.
  intros Hds. induction rounds as [|r rounds IH]; intros ths Hall Hlen Hr;
    cbn [fold_left List.length].
  - split; [lia | exact Hall].
  - inversion Hr as [|? ? Hr1 Hr2]; subst.
    destruct (observe_at_total ds Hds ths (fst r) (snd r) Hall)
      as (H1 & H2 & H3); [lia|].
    destruct (IH _ H2 H3 Hr2) as [I1 I2].
    cbv zeta in *. rewrite I1, H1. split; [lia | exact I2].
Qed.

Lemma merge_threads ds :
  forall ths h,
    shaped ds h -> Forall (shaped ds) ths ->
    Histogram.total (fold_left Histogram.absorb ths h)
    = Histogram.total h + threads_total ths
    /\ Histogram.dividers (fold_left Histogram.absorb ths h)
       = Histogram.dividers h
    /\ shaped ds (fold_left Histogram.absorb ths h).
Proof.
  induction ths as [|th ths IH]; intros h Hh Hall;
    cbn [fold_left threads_total fold_right].
  - repeat split; [lia | exact Hh].
  - inversion Hall as [|? ? Hth Hrest]; subst.
    destruct (absorb_total ds h th Hh Hth) as (H1 & H2 & H3).
    destruct (IH _ H2 Hrest) as (I1 & I2 & I3).
    unfold threads_total in I1.
    rewrite I1, H1, I2, H3. repeat split; [lia | exact I3].
Qed.

Lemma threads_total_fresh ds n :
  threads_total (repeat (Histogram.mk [] (Histogram.zero_bins ds) 0 0) n) = 0
  /\ Forall (shaped ds)
            (repeat (Histogram.mk [] (Histogram.zero_bins ds) 0 0) n).
Proof.
  induction n as [|n [IH1 IH2]]; cbn [repeat threads_total fold_right].
  - split; [reflexivity | constructor].
  - unfold threads_total in IH1. rewrite IH1. split.
    + unfold Histogram.total. cbn [Histogram.bins Histogram.underflow
        Histogram.overflow].
      pose proof (zero_bins_sum ds) as Hz. unfold bin_sum in Hz.
      rewrite Hz. reflexivity.
    + constructor; [|exact IH2]. unfold shaped. cbn.
      apply zero_bins_length.
Qed.

Lemma setCustomHistogramBins_ok sim ds sim' :
  setCustomHistogramBins sim ds = Returns sim' ->
  m_histogram_configured sim' = true
  /\ edges_ok (Histogram.dividers (m_histogram sim'))
  /\ Histogram.bins (m_histogram sim')
     = Histogram.zero_bins (Histogram.dividers (m_histogram sim'))
  /\ Histogram.underflow (m_histogram sim')
     = Histogram.underflow (m_histogram sim)
  /\ Histogram.overflow (m_histogram sim')
     = Histogram.overflow (m_histogram sim).
Proof.
  unfold setCustomHistogramBins. destruct ds as [|front ds]; [discriminate|].
  destruct (Dbl.ltb front 1); [discriminate|]. intros [= <-].
  cbn. repeat split. now exists (front :: ds).
Qed.

Lemma progressive_accepted sim :
  exists sim', setProgressiveHistogramBins sim = Returns sim'.
Proof.
  unfold setProgressiveHistogramBins, setCustomHistogramBins.
  assert (H : exists rest, progressive_dividers = 5%Q :: rest)
    by (eexists; vm_compute; reflexivity).
  destruct H as [rest ->]. change (Dbl.ltb 5 1) with false. cbv iota.
  eexists. reflexivity.
Qed.

Lemma prepare_cleared sim :
  sim_ok sim ->
  exists sim1, prepare sim = Returns sim1
               /\ m_histogram_configured sim1 = true
               /\ cleared (m_histogram sim1).
Proof.
  unfold sim_ok, prepare, resetState. intros Hok.
  destruct (m_histogram_configured sim) eqn:Hc.
  - cbn [m_histogram_configured]. eexists. split; [reflexivity|].
    split; [reflexivity|]. unfold cleared, reset_histogram. cbn. tauto.
  - rewrite Hc. destruct (progressive_accepted sim) as [sim' Hp].
    exists sim'. split; [exact Hp|].
    destruct (setCustomHistogramBins_ok _ _ _ Hp) as (H1 & H2 & H3 & H4 & H5).
    rewrite Hok in H4, H5. split; [exact H1|]. unfold cleared. tauto.
Qed.

Lemma cleared_total h : cleared h -> Histogram.total h = 0.
Proof.
  intros (_ & Hb & Hu & Ho). unfold Histogram.total. rewrite Hb, Hu, Ho.
  pose proof (zero_bins_sum (Histogram.dividers h)) as Hz.
  unfold bin_sum in Hz. rewrite Hz. reflexivity.
Qed.

Lemma cleared_shaped h : cleared h -> shaped (Histogram.dividers h) h.
Proof.
  intros (_ & Hb & _). unfold shaped. rewrite Hb. apply zero_bins_length.
Qed.

Lemma reset_cleared h :
  edges_ok (Histogram.dividers h) -> cleared (reset_histogram h).
Proof. intros H. unfold cleared, reset_histogram. cbn. tauto. Qed.

Lemma stream_total h totals :
  cleared h ->
  Histogram.total (stream h totals) = Z.of_nat (List.length totals)
  /\ edges_ok (Histogram.dividers (stream h totals)).
Proof.
  intros Hc. unfold stream.
  destruct (stream_from (Histogram.dividers h) (proj1 Hc) totals h
              (cleared_shaped h Hc)) as (H1 & _ & H3).
  rewrite H1, H3, (cleared_total h Hc). split; [lia | exact (proj1 Hc)].
Qed.

Lemma parallel_total h num_threads rounds :
  cleared h ->
  Forall (fun r => (fst r < num_threads)%nat) rounds ->
  Histogram.total (parallel h num_threads rounds)
  = Z.of_nat (List.length rounds)
  /\ edges_ok (Histogram.dividers (parallel h num_threads rounds)).
Proof.
  intros Hc Hr. unfold parallel.
  destruct (threads_total_fresh (Histogram.dividers h) num_threads) as [F1 F2].
  destruct (parallel_region (Histogram.dividers h) num_threads (proj1 Hc)
              rounds _ F2 (repeat_length _ _) Hr) as [P1 P2].
  cbv zeta in P1, P2.
  destruct (merge_threads (Histogram.dividers h) _ h (cleared_shaped h Hc) P2)
    as (M1 & M2 & _).
  rewrite M1, M2, P1, F1, (cleared_total h Hc). split; [lia | exact (proj1 Hc)].
Qed.

Lemma run_histogram_total sim mem_mode useParallel batched num_threads rounds :
  sim_ok sim ->
  (useParallel = true -> Forall (fun r => (fst r < num_threads)%nat) rounds) ->
  exists sim',
    run_histogram sim mem_mode useParallel batched num_threads rounds
    = Returns sim'
    /\ Histogram.total (m_histogram sim') = Z.of_nat (List.length rounds)
    /\ sim_ok sim'.
Proof.
  intros Hok Hthreads. unfold run_histogram.
  destruct (prepare_cleared sim Hok) as (sim1 & -> & Hconf & Hc).
  eexists. split; [reflexivity|]. cbn [m_histogram]. unfold sim_ok.
  cbn [m_histogram_configured m_histogram].
  destruct mem_mode.
  - destruct useParallel.
    + assert (Hsame : (if batched then reset_histogram (m_histogram sim1)
                       else Histogram.mk
                              (Histogram.dividers (m_histogram sim1))
                              (Histogram.zero_bins
                                 (Histogram.dividers (m_histogram sim1)))
                              (Histogram.underflow (m_histogram sim1))
                              (Histogram.overflow (m_histogram sim1)))
                      = reset_histogram (m_histogram sim1)).
      { destruct batched; [reflexivity|]. unfold reset_histogram.
        destruct Hc as (_ & _ & -> & ->). reflexivity. }
      rewrite Hsame.
      apply parallel_total; [apply reset_cleared, Hc | now apply Hthreads].
    + rewrite <- (length_map snd rounds).
      apply stream_total, reset_cleared, Hc.
  - unfold analyzeAccurate_histogram.
    destruct (map snd rounds) as [|v vs] eqn:Hm.
    + destruct rounds; [|discriminate]. cbn [List.length].
      rewrite (cleared_total _ Hc). split; [reflexivity | exact (proj1 Hc)].
    + rewrite <- (length_map snd rounds), Hm, <- (StatisticsProps.sort_length (v :: vs)).
      apply stream_total, reset_cleared, Hc.
Qed.

Lemma reachable_ok sim : reachable sim -> sim_ok sim.
Proof.
  induction 1 as [|sim ds sim' _ IH Hset|sim sim' _ IH Hset
                  |sim mx nb sim' _ IH Hset
                  |sim mm par bt nt rounds sim' _ IH Hrun].
  - reflexivity.
  - destruct (setCustomHistogramBins_ok _ _ _ Hset) as (H1 & H2 & _).
    unfold sim_ok. now rewrite H1.
  - destruct (setCustomHistogramBins_ok _ _ _ Hset) as (H1 & H2 & _).
    unfold sim_ok. now rewrite H1.
  - unfold setFixedWidthHistogramBins in Hset.
    destruct (_ || _); [discriminate|].
    destruct (setCustomHistogramBins_ok _ _ _ Hset) as (H1 & H2 & _).
    unfold sim_ok. now rewrite H1.
  - unfold run_histogram in Hrun.
    destruct (prepare_cleared sim IH) as (sim1 & Hp & Hconf & Hc).
    rewrite Hp in Hrun. injection Hrun as <-.
    unfold sim_ok. cbn [m_histogram_configured m_histogram].
    destruct mm; [destruct par|].
    + unfold parallel.
      match goal with
      | |- edges_ok (Histogram.dividers (fold_left _ ?ths ?h)) =>
          assert (Hd : forall l x, Histogram.dividers
                                     (fold_left Histogram.absorb l x)
                                   = Histogram.dividers x)
      end.
      { induction l as [|a l IHl]; intros x; cbn [fold_left];
          [reflexivity | now rewrite IHl]. }
      rewrite Hd. destruct bt; cbn; exact (proj1 Hc).
    + apply stream_total, reset_cleared, Hc.
    + unfold analyzeAccurate_histogram. destruct (map snd rounds).
      * exact (proj1 Hc).
      * apply stream_total, reset_cleared, Hc.
Qed.

End SimulatorProps.

(** ** Percentiles read from the histogram *)

Module PercentileProps.
Import MonteCarloSimulator.
Import StatisticsProps.
Local Open Scope Q_scope.

Lemma nondecreasing_nth l :
  nondecreasing l = true ->
  forall i j, (i <= j < List.length l)%nat -> nth i l 0 <= nth j l 0.
Proof.
  induction l as [|x l IH]; intros Hs i j Hij; [cbn in Hij; lia|].
  assert (Htail : nondecreasing l = true).
  { cbn [nondecreasing] in Hs. destruct l; [reflexivity|].
    apply andb_true_iff in Hs. tauto. }
  assert (Hhead : forall k, (k < List.length l)%nat -> x <= nth k l 0).
  { intros k Hk. destruct l as [|y l']; [cbn in Hk; lia|].
    cbn [nondecreasing] in Hs. apply andb_true_iff in Hs.
    destruct Hs as [Hxy _]. apply leb_true_le in Hxy.
    eapply Qle_trans; [exact Hxy|].
    apply (IH Htail 0%nat k). cbn [List.length] in *. lia. }
  destruct i as [|i], j as [|j]; cbn [nth].
  - apply Qle_refl.
  - apply Hhead. cbn [List.length] in Hij. lia.
  - lia.
  - apply IH; [exact Htail|]. cbn [List.length] in Hij. lia.
Qed.

Lemma last_as_nth (l : list Q) :
  l <> [] -> last l 0 = nth (List.length l - 1) l 0.
Proof.
  induction l as [|x l IH]; [congruence|]. intros _.
  destruct l as [|y l]; [reflexivity|].
  change (last (x :: y :: l) 0) with (last (y :: l) 0).
  rewrite IH by discriminate. cbn [List.length].
  replace (S (S (List.length l)) - 1)%nat
    with (S (S (List.length l) - 1)) by lia.
  reflexivity.
Qed.

Lemma ratio_le x y w : 0 < w -> x <= y -> x / w <= y / w.
Proof.
  intros Hw Hxy. unfold Qdiv. apply Qmult_le_compat_r; [exact Hxy|].
  apply Qinv_le_0_compat. lra.
Qed.

Lemma ratio_bounds x w : 0 < w -> 0 <= x -> x <= w -> 0 <= x / w <= 1.
Proof.
  intros Hw Hx Hxw. split.
  - apply Qle_shift_div_l; [exact Hw | lra].
  - apply Qle_shift_div_r; [exact Hw | lra].
Qed.

Section Walk.

Variable ds : list Q.
Hypothesis ds_sorted : nondecreasing ds = true.

(** Inside a bin the interpolated value lies between its two edges. *)
Lemma in_bin i (cur T b : Z) :
  (S i < List.length ds)%nat -> (cur < T)%Z -> (T <= cur + b)%Z ->
  let fraction :=
    if (b >? 0)%Z then Dbl.ofZ (T - (cur + b - b)) / Dbl.ofZ b else 0 in
  nth i ds 0 <= nth i ds 0 + fraction * (nth (S i) ds 0 - nth i ds 0)
  /\ nth i ds 0 + fraction * (nth (S i) ds 0 - nth i ds 0) <= nth (S i) ds 0.
Proof.
  intros Hi Hlt Hle. cbv zeta.
  assert (Hb : (0 < b)%Z) by lia.
  destruct (b >? 0)%Z eqn:E; [|lia].
  replace (cur + b - b)%Z with cur by lia.
  pose proof (nondecreasing_nth ds ds_sorted i (S i) ltac:(lia)) as Hd.
  unfold Dbl.ofZ.
  destruct (ratio_bounds (inject_Z (T - cur)) (inject_Z b)) as [F0 F1].
  - rewrite <- (Zlt_Qlt 0). exact Hb.
  - rewrite <- (Zle_Qle 0). lia.
  - rewrite <- Zle_Qle. lia.
  - split; nra.
Qed.

Lemma walk_lower bins :
  forall i cur T,
    fits ds bins i -> counts bins -> (cur < T)%Z ->
    nth i ds 0 <= percentile_walk ds bins i cur T.
Proof.
  induction bins as [|b bins IH]; intros i cur T Hfit Hc Hlt;
    cbn [percentile_walk].
  - unfold fits in Hfit. cbn [List.length] in Hfit.
    rewrite last_as_nth by (destruct ds; [cbn in Hfit; lia | discriminate]).
    replace (List.length ds - 1)%nat with i by lia. apply Qle_refl.
  - unfold fits in Hfit. cbn [List.length] in Hfit.
    inversion Hc as [|? ? Hb Hrest]; subst.
    destruct (cur + b >=? T)%Z eqn:E.
    + apply in_bin; lia.
    + eapply Qle_trans;
        [apply (nondecreasing_nth ds ds_sorted i (S i)); lia|].
      apply IH; [unfold fits; lia | exact Hrest | lia].
Qed.

Lemma walk_monotone bins :
  forall i cur T1 T2,
    fits ds bins i -> counts bins -> (cur < T1)%Z -> (T1 <= T2)%Z ->
    percentile_walk ds bins i cur T1 <= percentile_walk ds bins i cur T2.
Proof.
  induction bins as [|b bins IH]; intros i cur T1 T2 Hfit Hc H1 H12;
    cbn [percentile_walk]; [apply Qle_refl|].
  unfold fits in Hfit. cbn [List.length] in Hfit.
  inversion Hc as [|? ? Hb Hrest]; subst.
  destruct (cur + b >=? T1)%Z eqn:E1; destruct (cur + b >=? T2)%Z eqn:E2.
  - (* both ranks fall into this bin *)
    assert (Hbpos : (0 < b)%Z) by lia.
    destruct (b >? 0)%Z eqn:E; [|lia].
    replace (cur + b - b)%Z with cur by lia.
    pose proof (nondecreasing_nth ds ds_sorted i (S i) ltac:(lia)) as Hd.
    assert (Hf : Dbl.ofZ (T1 - cur) / Dbl.ofZ b
                 <= Dbl.ofZ (T2 - cur) / Dbl.ofZ b).
    { unfold Dbl.ofZ. apply ratio_le.
      - rewrite <- (Zlt_Qlt 0). exact Hbpos.
      - rewrite <- Zle_Qle. lia. }
    nra.
  - (* the lower rank here, the higher one further on *)
    eapply Qle_trans; [apply (in_bin i cur T1 b); lia|].
    apply walk_lower; [unfold fits; lia | exact Hrest | lia].
  - lia.
  - apply IH; [unfold fits; lia | exact Hrest | lia | lia].
Qed.

(** A rank above every cumulative count runs off the last bin. *)
Lemma walk_past_all bins :
  forall i cur T,
    counts bins -> (cur + fold_right Z.add 0 bins < T)%Z ->
    percentile_walk ds bins i cur T = last ds 0.
Proof.
  induction bins as [|b bins IH]; intros i cur T Hc Hlt;
    cbn [percentile_walk]; [reflexivity|].
  inversion Hc as [|? ? Hb Hrest]; subst. cbn [fold_right] in Hlt.
  assert (0 <= fold_right Z.add 0 bins)%Z.
  { clear -Hrest. induction Hrest; cbn; lia. }
  destruct (cur + b >=? T)%Z eqn:E; [lia|].
  apply IH; [exact Hrest | lia].
Qed.

(** The rank of the last observation, when it sits in the last bin. *)
Lemma walk_to_last_bin front :
  forall i cur b,
    fits ds (front ++ [b]) i -> counts front -> (0 < b)%Z ->
    percentile_walk ds (front ++ [b]) i cur
                    (cur + fold_right Z.add 0%Z (front ++ [b]))%Z
    == last ds 0.
Proof.
  induction front as [|f front IH]; intros i cur b Hfit Hc Hb.
  - unfold fits in Hfit. cbn [List.length app] in Hfit.
    cbn [app percentile_walk fold_right].
    destruct (cur + b >=? cur + (b + 0))%Z eqn:E; [|lia].
    destruct (b >? 0)%Z eqn:E'; [|lia].
    rewrite last_as_nth by (destruct ds; [cbn in Hfit; lia | discriminate]).
    replace (List.length ds - 1)%nat with (S i) by lia.
    replace (cur + (b + 0) - (cur + b - b))%Z with b by lia.
    unfold Dbl.ofZ.
    assert (Hw : ~ inject_Z b == 0).
    { assert (0 < inject_Z b) by (rewrite <- (Zlt_Qlt 0); exact Hb). lra. }
    field. exact Hw.
  - unfold fits in Hfit. cbn [List.length app] in Hfit.
    inversion Hc as [|? ? Hf Hrest]; subst.
    cbn [app percentile_walk fold_right].
    assert (0 <= fold_right Z.add 0 (front ++ [b]))%Z.
    { rewrite fold_right_app. cbn [fold_right].
      clear -Hrest Hb. induction Hrest; cbn; lia. }
    assert (0 < fold_right Z.add 0 (front ++ [b]))%Z.
    { rewrite fold_right_app. cbn [fold_right].
      clear -Hrest Hb. induction Hrest; cbn; lia. }
    destruct (cur + f >=? cur + (f + fold_right Z.add 0 (front ++ [b])))%Z
      eqn:E; [lia|].
    replace (cur + (f + fold_right Z.add 0 (front ++ [b])))%Z
      with (cur + f + fold_right Z.add 0 (front ++ [b]))%Z by lia.
    apply IH; [unfold fits; rewrite List.length_app in *; cbn in *; lia
              | exact Hrest | exact Hb].
Qed.

End Walk.

Lemma target_monotone count p1 p2 :
  (0 < count)%Z -> 0 <= p1 -> p1 <= p2 ->
  (Dbl.trunc (Dbl.ofZ count * (p1 / 100))
   <= Dbl.trunc (Dbl.ofZ count * (p2 / 100)))%Z.
Proof.
  intros Hc Hp1 H12. unfold Dbl.ofZ.
  assert (0 < inject_Z count) by (rewrite <- (Zlt_Qlt 0); exact Hc).
  assert (0 <= p1 / 100) by (apply Qle_shift_div_l; [reflexivity | lra]).
  assert (p1 / 100 <= p2 / 100) by (apply ratio_le; [reflexivity | exact H12]).
  apply trunc_monotone; nra.
Qed.

Lemma target_at_100 count :
  (0 < count)%Z -> Dbl.trunc (Dbl.ofZ count * (100 / 100)) = count.
Proof.
  intros Hc. unfold Dbl.ofZ.
  assert (0 < inject_Z count) by (rewrite <- (Zlt_Qlt 0); exact Hc).
  rewrite trunc_nonneg by (assert (100 / 100 == 1) by reflexivity; nra).
  rewrite (Qfloor_comp _ (inject_Z count)); [apply Qfloor_Z|].
  field.
Qed.

Lemma percentile_monotone count h p1 p2 :
  (0 < count)%Z -> well_formed h -> 0 <= p1 -> p1 <= p2 ->
  getPercentileFromHistogram count h p1
  <= getPercentileFromHistogram count h p2.
Proof.
  intros Hc (Hs & Hlen & Hb) Hp1 H12. unfold getPercentileFromHistogram.
  destruct (count =? 0)%Z eqn:E0; [lia|].
  pose proof (target_monotone count p1 p2 Hc Hp1 H12) as HT.
  set (T1 := Dbl.trunc (Dbl.ofZ count * (p1 / 100))) in *.
  set (T2 := Dbl.trunc (Dbl.ofZ count * (p2 / 100))) in *.
  assert (Hfit : fits (Histogram.dividers h) (Histogram.bins h) 0)
    by (unfold fits; lia).
  destruct (T1 <=? Histogram.underflow h)%Z eqn:E1;
    destruct (T2 <=? Histogram.underflow h)%Z eqn:E2.
  - apply Qle_refl.
  - replace (hd 0 (Histogram.dividers h))
      with (nth 0 (Histogram.dividers h) 0)
      by (destruct (Histogram.dividers h); reflexivity).
    apply walk_lower; [exact Hs | exact Hfit | exact Hb | lia].
  - lia.
  - apply walk_monotone; [exact Hs | exact Hfit | exact Hb | lia | lia].
Qed.

Lemma percentile_first_edge count h p :
  (0 < count)%Z ->
  (Dbl.trunc (Dbl.ofZ count * (p / 100)) <= Histogram.underflow h)%Z ->
  getPercentileFromHistogram count h p = hd 0 (Histogram.dividers h).
Proof.
  intros Hc HT. unfold getPercentileFromHistogram.
  destruct (count =? 0)%Z eqn:E0; [lia|].
  destruct (_ <=? Histogram.underflow h)%Z eqn:E; [reflexivity | lia].
Qed.

Lemma bins_nonneg_sum bins :
  Forall (fun b => (0 <= b)%Z) bins -> (0 <= fold_right Z.add 0 bins)%Z.
Proof. induction 1; cbn; lia. Qed.

Lemma percentile_100_overflow count h :
  (0 < count)%Z -> well_formed h ->
  count = Histogram.total h -> (0 < Histogram.overflow h)%Z ->
  getPercentileFromHistogram count h 100 = last (Histogram.dividers h) 0.
Proof.
  intros Hc (Hs & Hlen & Hb) Htot Hov. unfold getPercentileFromHistogram.
  destruct (count =? 0)%Z eqn:E0; [lia|].
  rewrite (target_at_100 count Hc).
  pose proof (bins_nonneg_sum _ Hb) as Hsum.
  unfold Histogram.total in Htot.
  destruct (count <=? Histogram.underflow h)%Z eqn:E; [lia|].
  apply walk_past_all; [exact Hb | lia].
Qed.

Lemma percentile_100_last_bin count h :
  (0 < count)%Z -> well_formed h ->
  count = Histogram.total h -> Histogram.overflow h = 0%Z ->
  (0 < last (Histogram.bins h) 0)%Z ->
  getPercentileFromHistogram count h 100 == last (Histogram.dividers h) 0.
Proof.
  intros Hc (Hs & Hlen & Hb) Htot Hov Hlast.
  unfold getPercentileFromHistogram.
  destruct (count =? 0)%Z eqn:E0; [lia|].
  rewrite (target_at_100 count Hc).
  assert (Hne : Histogram.bins h <> [])
    by (intros E; rewrite E in Hlast; cbn in Hlast; lia).
  destruct (exists_last Hne) as (front & b & Hsplit).
  rewrite Hsplit in *. rewrite last_last in Hlast.
  assert (Hfront : Forall (fun b => (0 <= b)%Z) front).
  { apply Forall_app in Hb. tauto. }
  pose proof (bins_nonneg_sum _ Hfront) as Hsum.
  unfold Histogram.total in Htot. rewrite Hsplit in Htot.
  assert (Hall : (fold_right Z.add 0 (front ++ [b])
                  = fold_right Z.add 0 front + b)%Z).
  { clear. induction front; cbn; lia. }
  destruct (count <=? Histogram.underflow h)%Z eqn:E; [lia|].
  replace count
    with (Histogram.underflow h + fold_right Z.add 0 (front ++ [b]))%Z by lia.
  apply walk_to_last_bin; [exact Hs | | exact Hfront | exact Hlast].
  unfold fits. rewrite Hlen. lia.
Qed.

End PercentileProps.

(** ** binary64 rounding is a rounding *)

Module Binary64Props.
Import Dbl.
Local Open Scope Q_scope.

Lemma nearest_even_bounds x :
  (Qfloor x <= nearest_even x <= Qfloor x + 1)%Z.
Proof.
  unfold nearest_even.
  destruct (Qcompare (x - inject_Z (Qfloor x)) (1 # 2)); [|lia|lia].
  destruct (Z.even (Qfloor x)); lia.
Qed.

Lemma nearest_even_int n : nearest_even (inject_Z n) = n.
Proof.
  unfold nearest_even. rewrite Qfloor_Z.
  assert (H : Qcompare (inject_Z n - inject_Z n) (1 # 2) = Lt).
  { apply Qlt_alt.
    assert (E : inject_Z n - inject_Z n == 0) by ring. rewrite E. reflexivity. }
  now rewrite H.
Qed.

Lemma nearest_even_comp x y : x == y -> nearest_even x = nearest_even y.
Proof.
  intros Hxy. unfold nearest_even.
  rewrite (Qfloor_comp x y Hxy).
  assert (E : x - inject_Z (Qfloor y) == y - inject_Z (Qfloor y))
    by (rewrite Hxy; reflexivity).
  now rewrite (Qcompare_comp _ _ E _ _ (Qeq_refl (1 # 2))).
Qed.

Lemma nearest_even_monotone x y :
  x <= y -> (nearest_even x <= nearest_even y)%Z.
Proof.
  intros Hxy.
  pose proof (Qfloor_resp_le x y Hxy) as Hf.
  destruct (Z.eq_dec (Qfloor x) (Qfloor y)) as [E|E].
  - unfold nearest_even. rewrite <- E.
    set (f := Qfloor x).
    destruct (Qcompare_spec (x - inject_Z f) (1 # 2)) as [Cx|Cx|Cx];
      destruct (Qcompare_spec (y - inject_Z f) (1 # 2)) as [Cy|Cy|Cy];
      try (destruct (Z.even f)); try lia; lra.
  - pose proof (nearest_even_bounds x). pose proof (nearest_even_bounds y).
    lia.
Qed.

Lemma pow2_pos q : 0 < 2 ^ q.
Proof. apply Qpower_0_lt. reflexivity. Qed.

Lemma pow2_nz q : ~ 2 ^ q == 0.
Proof. pose proof (pow2_pos q). lra. Qed.

Lemma pow2_Z k : (0 <= k)%Z -> inject_Z (2 ^ k) == 2 ^ k.
Proof. intros Hk. apply (Zpower_Qpower 2 k Hk). Qed.

Lemma pow2_plus a b : 2 ^ (a + b) == 2 ^ a * 2 ^ b.
Proof. apply Qpower_plus. discriminate. Qed.

Lemma pow2_le a b : (a <= b)%Z -> 2 ^ a <= 2 ^ b.
Proof. intros H. apply Qpower_le_compat_l; [exact H | discriminate]. Qed.

Lemma pow2_lt a b : (a < b)%Z -> 2 ^ a < 2 ^ b.
Proof. intros H. apply Qpower_lt_compat_l; [exact H | reflexivity]. Qed.

Lemma pow2_lt_inv a b : 2 ^ a < 2 ^ b -> (a < b)%Z.
Proof. intros H. apply (Qpower_lt_compat_l_inv 2); [exact H | reflexivity]. Qed.

Lemma log2_bounds n :
  (0 < n)%Z ->
  2 ^ Z.log2 n <= inject_Z n /\ inject_Z n < 2 ^ (Z.log2 n + 1).
Proof.
  intros Hn. pose proof (Z.log2_spec n Hn) as [H1 H2].
  pose proof (Z.log2_nonneg n) as H0.
  rewrite <- !pow2_Z by lia. rewrite <- Zle_Qle, <- Zlt_Qlt.
  split; [exact H1|]. rewrite <- Z.add_1_r in H2. exact H2.
Qed.

Lemma exponent_spec x :
  0 < x -> 2 ^ exponent x <= x /\ x < 2 ^ (exponent x + 1).
Proof.
  intros Hx. unfold exponent.
  assert (Hn : (0 < Qnum x)%Z).
  { destruct x as [n d]. unfold Qlt in Hx. cbn in *. lia. }
  destruct (log2_bounds (Qnum x) Hn) as [N1 N2].
  destruct (log2_bounds (Zpos (Qden x)) eq_refl) as [D1 D2].
  set (a := Z.log2 (Qnum x)) in *. set (b := Z.log2 (Zpos (Qden x))) in *.
  assert (Ex : x == inject_Z (Qnum x) / inject_Z (Zpos (Qden x))).
  { destruct x as [n d]. cbn [Qnum Qden]. apply Qmake_Qdiv. }
  set (N := inject_Z (Qnum x)) in *. set (D := inject_Z (Zpos (Qden x))) in *.
  pose proof (pow2_pos b) as Pb.
  assert (HD : 0 < D) by lra.
  assert (Hup : x < 2 ^ (a - b + 1)).
  { rewrite Ex. apply Qlt_shift_div_r; [exact HD|].
    pose proof (pow2_pos (a - b + 1)) as P.
    assert (E : 2 ^ (a + 1) == 2 ^ (a - b + 1) * 2 ^ b).
    { rewrite <- pow2_plus. replace (a - b + 1 + b)%Z with (a + 1)%Z by lia.
      reflexivity. }
    nra. }
  assert (Hlow : 2 ^ (a - b - 1) < x).
  { rewrite Ex. apply Qlt_shift_div_l; [exact HD|].
    pose proof (pow2_pos (a - b - 1)) as P.
    assert (E : 2 ^ a == 2 ^ (a - b - 1) * 2 ^ (b + 1)).
    { rewrite <- pow2_plus. replace (a - b - 1 + (b + 1))%Z with a by lia.
      reflexivity. }
    nra. }
  destruct (Qle_bool (2 ^ (a - b)) x) eqn:E.
  - apply Qle_bool_iff in E. split; [exact E | exact Hup].
  - assert (Hlt : x < 2 ^ (a - b)).
    { apply Qnot_le_lt. intros H. apply Qle_bool_iff in H. congruence. }
    split; [now apply Qlt_le_weak|].
    replace (a - b - 1 + 1)%Z with (a - b)%Z by lia. exact Hlt.
Qed.

Lemma exponent_unique x e :
  2 ^ e <= x -> x < 2 ^ (e + 1) -> exponent x = e.
Proof.
  intros H1 H2.
  assert (Hx : 0 < x) by (pose proof (pow2_pos e); lra).
  destruct (exponent_spec x Hx) as [S1 S2].
  assert ((exponent x < e + 1)%Z) by (apply pow2_lt_inv; lra).
  assert ((e < exponent x + 1)%Z) by (apply pow2_lt_inv; lra).
  lia.
Qed.

Lemma exponent_monotone x y :
  0 < x -> x <= y -> (exponent x <= exponent y)%Z.
Proof.
  intros Hx Hxy.
  destruct (exponent_spec x Hx) as [S1 S2].
  destruct (exponent_spec y ltac:(lra)) as [T1 T2].
  assert ((exponent x < exponent y + 1)%Z) by (apply pow2_lt_inv; lra).
  lia.
Qed.

Lemma exponent_comp x y : 0 < x -> x == y -> exponent x = exponent y.
Proof.
  intros Hx Hxy. destruct (exponent_spec x Hx) as [S1 S2].
  symmetry. apply exponent_unique; rewrite <- Hxy; assumption.
Qed.

Lemma to_grid_monotone q x y : x <= y -> to_grid q x <= to_grid q y.
Proof.
  intros Hxy. unfold to_grid. pose proof (pow2_pos q) as P.
  apply Qmult_le_compat_r; [|lra].
  rewrite <- Zle_Qle. apply nearest_even_monotone.
  apply Qmult_le_compat_r; [exact Hxy|].
  apply Qlt_le_weak, Qinv_lt_0_compat, P.
Qed.

Lemma to_grid_comp q x y : x == y -> to_grid q x == to_grid q y.
Proof.
  intros Hxy. unfold to_grid.
  rewrite (nearest_even_comp (x / 2 ^ q) (y / 2 ^ q)); [reflexivity|].
  now rewrite Hxy.
Qed.

Lemma to_grid_fix q k x : x == inject_Z k * 2 ^ q -> to_grid q x == x.
Proof.
  intros Hx. unfold to_grid.
  rewrite (nearest_even_comp (x / 2 ^ q) (inject_Z k)).
  - rewrite nearest_even_int. now rewrite Hx.
  - rewrite Hx. field. apply pow2_nz.
Qed.

Lemma pow2_on_grid q m : (q <= m)%Z -> 2 ^ m == inject_Z (2 ^ (m - q)) * 2 ^ q.
Proof.
  intros H. rewrite pow2_Z by lia. rewrite <- pow2_plus.
  replace (m - q + q)%Z with m by lia. reflexivity.
Qed.

Lemma to_grid_pow2 q m : (q <= m)%Z -> to_grid q (2 ^ m) == 2 ^ m.
Proof. intros H. apply (to_grid_fix q (2 ^ (m - q))), pow2_on_grid, H. Qed.

Lemma to_grid_0 q : to_grid q 0 == 0.
Proof. apply (to_grid_fix q 0). ring. Qed.

Lemma to_grid_nonneg q x : 0 <= x -> 0 <= to_grid q x.
Proof.
  intros Hx. rewrite <- (to_grid_0 q). now apply to_grid_monotone.
Qed.

Lemma round_pos_nonneg x : 0 <= x -> 0 <= round_pos x.
Proof. apply to_grid_nonneg. Qed.

Lemma round_pos_comp x y : 0 < x -> x == y -> round_pos x == round_pos y.
Proof.
  intros Hx Hxy. unfold round_pos, spacing.
  rewrite (exponent_comp x y Hx Hxy). now apply to_grid_comp.
Qed.

Lemma round_pos_monotone x y :
  0 < x -> x <= y -> round_pos x <= round_pos y.
Proof.
  intros Hx Hxy. unfold round_pos, spacing.
  pose proof (exponent_monotone x y Hx Hxy) as He.
  destruct (exponent_spec x Hx) as [X1 X2].
  destruct (exponent_spec y ltac:(lra)) as [Y1 Y2].
  set (ex := exponent x) in *. set (ey := exponent y) in *.
  destruct (Z.eq_dec (Z.max (ex - 52) (-1074)) (Z.max (ey - 52) (-1074)))
    as [E|E].
  - rewrite E. now apply to_grid_monotone.
  - (* the power of two between them is on both grids *)
    assert (Hlt : (ex < ey)%Z) by lia.
    pose proof (pow2_le (ex + 1) ey ltac:(lia)) as Hp.
    apply Qle_trans with (2 ^ ey).
    + rewrite <- (to_grid_pow2 (Z.max (ex - 52) (-1074)) ey) by lia.
      apply to_grid_monotone. lra.
    + rewrite <- (to_grid_pow2 (Z.max (ey - 52) (-1074)) ey) at 1 by lia.
      apply to_grid_monotone. exact Y1.
Qed.

Lemma exponent_int n : (0 < n)%Z -> exponent (inject_Z n) = Z.log2 n.
Proof.
  intros Hn. destruct (log2_bounds n Hn) as [H1 H2].
  now apply exponent_unique.
Qed.

Lemma round_pos_int n :
  (0 < n <= 2 ^ 53)%Z -> round_pos (inject_Z n) == inject_Z n.
Proof.
  intros Hn. unfold round_pos, spacing. rewrite exponent_int by lia.
  pose proof (Z.log2_nonneg n) as H0.
  assert (H53 : (Z.log2 n <= 53)%Z).
  { rewrite <- (Z.log2_pow2 53) by lia. apply Z.log2_le_mono. lia. }
  set (q := Z.max (Z.log2 n - 52) (-1074)).
  destruct (Z_le_gt_dec q 0) as [Hq|Hq].
  - apply (to_grid_fix q (n * 2 ^ (- q))).
    rewrite inject_Z_mult, pow2_Z by lia.
    rewrite <- Qmult_assoc, <- pow2_plus.
    replace (- q + q)%Z with 0%Z by lia. change (2 ^ 0) with 1. ring.
  - assert (Hl : Z.log2 n = 53%Z) by lia.
    assert (Hn53 : n = (2 ^ 53)%Z).
    { pose proof (Z.log2_spec n ltac:(lia)) as [L1 _]. rewrite Hl in L1. lia. }
    assert (Hq1 : q = 1%Z) by lia.
    rewrite Hq1, Hn53. apply (to_grid_fix 1 (2 ^ 52)). reflexivity.
Qed.

Lemma significand_bound x :
  0 < x -> (0 <= nearest_even (x / 2 ^ spacing x) <= 2 ^ 53)%Z.
Proof.
  intros Hx. destruct (exponent_spec x Hx) as [X1 X2].
  pose proof (pow2_pos (spacing x)) as P.
  split.
  - rewrite <- (nearest_even_int 0) at 1. apply nearest_even_monotone.
    change (inject_Z 0) with 0.
    apply Qle_shift_div_l; [exact P | lra].
  - rewrite <- (nearest_even_int (2 ^ 53)). apply nearest_even_monotone.
    rewrite pow2_Z by lia.
    apply Qle_shift_div_r; [exact P|].
    rewrite <- pow2_plus.
    apply Qle_trans with (2 ^ (exponent x + 1)); [lra|].
    apply pow2_le. unfold spacing. lia.
Qed.

Lemma round_pos_idempotent x :
  0 < x -> 0 < round_pos x -> round_pos (round_pos x) == round_pos x.
Proof.
  intros Hx Hv.
  pose proof (significand_bound x Hx) as [K0 K53].
  assert (Ev : round_pos x
               = inject_Z (nearest_even (x / 2 ^ spacing x)) * 2 ^ spacing x)
    by reflexivity.
  assert (Hq : (-1074 <= spacing x)%Z) by (unfold spacing; lia).
  set (q := spacing x) in *. set (k := nearest_even (x / 2 ^ q)) in *.
  set (v := round_pos x) in *.
  pose proof (pow2_pos q) as P.
  assert (Hk : (0 < k)%Z).
  { destruct (Z.eq_dec k 0) as [E|E]; [|lia].
    rewrite Ev, E in Hv. change (inject_Z 0) with 0 in Hv. lra. }
  destruct (log2_bounds k Hk) as [L1 L2].
  pose proof (Z.log2_nonneg k) as L0.
  assert (L53 : (Z.log2 k <= 53)%Z).
  { rewrite <- (Z.log2_pow2 53) by lia. apply Z.log2_le_mono. lia. }
  assert (Ee : exponent v = (Z.log2 k + q)%Z).
  { apply exponent_unique; rewrite Ev.
    - rewrite pow2_plus. apply Qmult_le_compat_r; [exact L1 | lra].
    - replace (Z.log2 k + q + 1)%Z with (Z.log2 k + 1 + q)%Z by lia.
      rewrite pow2_plus. apply Qmult_lt_compat_r; [exact P | exact L2]. }
  unfold round_pos at 1. unfold spacing. rewrite Ee.
  set (q' := Z.max (Z.log2 k + q - 52) (-1074)).
  destruct (Z_le_gt_dec q' q) as [Hle|Hgt].
  - apply (to_grid_fix q' (k * 2 ^ (q - q'))). rewrite Ev.
    rewrite inject_Z_mult, pow2_Z by lia.
    rewrite <- Qmult_assoc, <- pow2_plus.
    replace (q - q' + q')%Z with q by lia. reflexivity.
  - assert (Hl : Z.log2 k = 53%Z) by lia.
    assert (Hk53 : k = (2 ^ 53)%Z).
    { pose proof (Z.log2_spec k Hk) as [S1 _]. rewrite Hl in S1. lia. }
    assert (Hq' : q' = (q + 1)%Z) by lia.
    rewrite Hq'. apply (to_grid_fix (q + 1) (2 ^ 52)). rewrite Ev.
    rewrite Hk53, pow2_plus.
    change (inject_Z (2 ^ 53)) with (inject_Z (2 ^ 52) * 2 ^ 1). ring.
Qed.

Lemma binary64_monotone x y : x <= y -> binary64 x <= binary64 y.
Proof.
  intros Hxy. unfold binary64.
  destruct (Qcompare_spec x 0) as [Hx|Hx|Hx];
    destruct (Qcompare_spec y 0) as [Hy|Hy|Hy]; try lra.
  - apply round_pos_nonneg. lra.
  - assert (0 <= round_pos (- x)) by (apply round_pos_nonneg; lra). lra.
  - assert (round_pos (- y) <= round_pos (- x))
      by (apply round_pos_monotone; lra).
    lra.
  - assert (0 <= round_pos (- x)) by (apply round_pos_nonneg; lra).
    assert (0 <= round_pos y) by (apply round_pos_nonneg; lra).
    lra.
  - now apply round_pos_monotone.
Qed.

Lemma binary64_int n :
  (Z.abs n <= 2 ^ 53)%Z -> binary64 (inject_Z n) == inject_Z n.
Proof.
  intros Hn. unfold binary64.
  destruct (Qcompare_spec (inject_Z n) 0) as [H|H|H].
  - now rewrite H.
  - change 0 with (inject_Z 0) in H. rewrite <- Zlt_Qlt in H.
    change (- inject_Z n) with (inject_Z (- n)).
    rewrite round_pos_int by lia. rewrite inject_Z_opp. ring.
  - change 0 with (inject_Z 0) in H. rewrite <- Zlt_Qlt in H.
    apply round_pos_int. lia.
Qed.

Lemma binary64_pos x : 0 < x -> binary64 x = round_pos x.
Proof.
  intros Hx. unfold binary64.
  destruct (Qcompare_spec x 0) as [H|H|H]; [lra | lra | reflexivity].
Qed.

Lemma binary64_0 x : x == 0 -> binary64 x = 0.
Proof.
  intros Hx. unfold binary64.
  destruct (Qcompare_spec x 0) as [H|H|H]; [reflexivity | lra | lra].
Qed.

Lemma binary64_neg x : x < 0 -> binary64 x = - round_pos (- x).
Proof.
  intros Hx. unfold binary64.
  destruct (Qcompare_spec x 0) as [H|H|H]; [lra | reflexivity | lra].
Qed.

Lemma binary64_idempotent x : binary64 (binary64 x) == binary64 x.
Proof.
  destruct (Qcompare_spec x 0) as [Hx|Hx|Hx].
  - rewrite (binary64_0 x Hx). reflexivity.
  - rewrite (binary64_neg x Hx).
    assert (Hw : 0 <= round_pos (- x)) by (apply round_pos_nonneg; lra).
    destruct (Qle_lt_or_eq _ _ Hw) as [Hpos|Hzero].
    + rewrite binary64_neg by lra.
      rewrite (round_pos_comp (- - round_pos (- x)) (round_pos (- x)))
        by (try ring; lra).
      rewrite round_pos_idempotent by lra. reflexivity.
    + rewrite binary64_0 by lra. lra.
  - rewrite (binary64_pos x Hx).
    assert (Hw : 0 <= round_pos x) by (apply round_pos_nonneg; lra).
    destruct (Qle_lt_or_eq _ _ Hw) as [Hpos|Hzero].
    + rewrite binary64_pos by exact Hpos.
      now apply round_pos_idempotent.
    + rewrite binary64_0 by lra. lra.
Qed.

Theorem binary64_rounding : rounding binary64.
Proof.
  split; [exact binary64_monotone|].
  split; [exact binary64_int | exact binary64_idempotent].
Qed.

(** Two computations in doubles: 100 * (57 / 100.0) falls short of 57, and
    1.0 + 7 * ((30 - 1.0) / 7) exceeds 30 by one unit in the last place. *)
Lemma binary64_examples :
  binary64 (binary64 100 * binary64 (57 / 100)) < 57
  /\ binary64 (1 + binary64 (7 * binary64 (binary64 (30 - 1) / 7)))
     == 30 + 2 ^ (-48)
  /\ binary64 (binary64 (1 / 10) + binary64 (2 / 10))
     == 5404319552844596 / 2 ^ 54.
Proof. repeat split; vm_compute; reflexivity. Qed.

End Binary64Props.

(** ** The percentile with the roundings written out *)

Module RoundedPercentile.
Import MonteCarloSimulator.
Import StatisticsProps PercentileProps.
Local Open Scope Q_scope.

Lemma rounding_compat rnd x y : Dbl.rounding rnd -> x == y -> rnd x == rnd y.
Proof.
  intros [Hmono _] Hxy. apply Qle_antisym; apply Hmono; rewrite Hxy;
    apply Qle_refl.
Qed.

Lemma rounding_nonneg rnd x : Dbl.rounding rnd -> 0 <= x -> 0 <= rnd x.
Proof.
  intros (Hmono & Hint & _) Hx.
  assert (H0 : rnd (inject_Z 0) == inject_Z 0) by (apply Hint; cbn; lia).
  change (inject_Z 0) with 0 in H0. rewrite <- H0. now apply Hmono.
Qed.

Lemma rounding_one rnd : Dbl.rounding rnd -> rnd 1 == 1.
Proof. intros (_ & Hint & _). apply (Hint 1%Z). cbn. lia. Qed.

Lemma product_compat rnd fused x y :
  Dbl.rounding rnd -> x == y ->
  Dbl.product rnd fused x == Dbl.product rnd fused y.
Proof.
  intros Hr Hxy. unfold Dbl.product.
  destruct fused; [exact Hxy | now apply rounding_compat].
Qed.

Lemma product_monotone rnd fused x y :
  Dbl.rounding rnd -> x <= y ->
  Dbl.product rnd fused x <= Dbl.product rnd fused y.
Proof.
  intros Hr Hxy. unfold Dbl.product.
  destruct fused; [exact Hxy | now apply (proj1 Hr)].
Qed.

Lemma product_nonneg rnd fused x :
  Dbl.rounding rnd -> 0 <= x -> 0 <= Dbl.product rnd fused x.
Proof.
  intros Hr Hx. unfold Dbl.product.
  destruct fused; [exact Hx | now apply rounding_nonneg].
Qed.

Lemma product_of_rounded rnd fused x :
  Dbl.rounding rnd -> Dbl.product rnd fused (rnd x) == rnd x.
Proof.
  intros Hr. unfold Dbl.product.
  destruct fused; [reflexivity | apply (proj2 (proj2 Hr))].
Qed.

(** The identity is a rounding. *)
Lemma exact_rounding : Dbl.rounding (fun x => x).
Proof.
  split; [intros x y H; exact H|].
  split; [intros n _; reflexivity | intros x; reflexivity].
Qed.

Lemma target_count_monotone rnd count p1 p2 :
  Dbl.rounding rnd -> (0 < count)%Z -> 0 <= p1 -> p1 <= p2 ->
  (target_count rnd count p1 <= target_count rnd count p2)%Z.
Proof.
  intros Hr Hc Hp1 H12. unfold target_count, Dbl.ofZ.
  assert (Hcount : 0 <= rnd (inject_Z count)).
  { apply rounding_nonneg; [exact Hr|]. rewrite <- (Zle_Qle 0). lia. }
  assert (H1 : 0 <= p1 / 100) by (apply Qle_shift_div_l; [reflexivity | lra]).
  assert (H2 : p1 / 100 <= p2 / 100)
    by (apply ratio_le; [reflexivity | exact H12]).
  pose proof (rounding_nonneg rnd _ Hr H1) as Hq1.
  pose proof (proj1 Hr _ _ H2) as Hq2.
  apply trunc_monotone.
  - apply rounding_nonneg; [exact Hr | nra].
  - apply (proj1 Hr). nra.
Qed.

Lemma target_count_at_100 rnd count :
  Dbl.rounding rnd -> (0 < count <= 2 ^ 53)%Z ->
  target_count rnd count 100 = count.
Proof.
  intros Hr Hc. unfold target_count, Dbl.ofZ.
  assert (Hcount : rnd (inject_Z count) == inject_Z count)
    by (apply (proj1 (proj2 Hr)); lia).
  assert (Hone : rnd (100 / 100) == 1).
  { rewrite (rounding_compat rnd (100 / 100) 1 Hr) by reflexivity.
    now apply rounding_one. }
  assert (Hprod : rnd (rnd (inject_Z count) * rnd (100 / 100))
                  == inject_Z count).
  { rewrite (rounding_compat rnd _ (inject_Z count) Hr).
    - apply (proj1 (proj2 Hr)). lia.
    - rewrite Hcount, Hone. ring. }
  assert (Hnn : 0 <= rnd (rnd (inject_Z count) * rnd (100 / 100))).
  { rewrite Hprod. rewrite <- (Zle_Qle 0). lia. }
  rewrite trunc_nonneg by exact Hnn.
  rewrite (Qfloor_comp _ _ Hprod). apply Qfloor_Z.
Qed.

(** The rounding shows in the rank: 57 percent of 100 observations is
    rank 57 exactly, and rank 56 in doubles. *)
Lemma rank_depends_on_rounding :
  target_count (fun x => x) 100 57 = 57%Z
  /\ target_count Dbl.binary64 100 57 = 56%Z.
Proof. split; vm_compute; reflexivity. Qed.

(** Integer edges are exact edges. *)
Lemma integer_edges_exact rnd ds :
  Dbl.rounding rnd -> integer_edges ds -> exact_edges rnd ds.
Proof.
  intros Hr Hint. unfold integer_edges in Hint. split.
  - eapply Forall_impl; [|exact Hint].
    intros d (z & Hz & Ez).
    rewrite (rounding_compat rnd d (inject_Z z) Hr Ez), Ez.
    apply (proj1 (proj2 Hr)). lia.
  - intros i Hi. rewrite Forall_forall in Hint.
    destruct (Hint (nth i ds 0)) as (z & Hz & Ez); [apply nth_In; lia|].
    destruct (Hint (nth (S i) ds 0)) as (z' & Hz' & Ez'); [apply nth_In; lia|].
    assert (Hgap : rnd (nth (S i) ds 0 - nth i ds 0) == inject_Z (z' - z)).
    { rewrite (rounding_compat rnd _ (inject_Z (z' - z)) Hr).
      - apply (proj1 (proj2 Hr)). lia.
      - rewrite Ez, Ez'. unfold Z.sub, Qminus.
        rewrite inject_Z_plus, inject_Z_opp. reflexivity. }
    rewrite (rounding_compat rnd _ (inject_Z z') Hr).
    + rewrite Ez'. apply (proj1 (proj2 Hr)). lia.
    + rewrite Hgap, Ez. unfold Z.sub.
      rewrite inject_Z_plus, inject_Z_opp. ring.
Qed.

Lemma integer_edges_check ds :
  forallb (fun d => ((Qden d =? 1)%positive
                     && (0 <=? Qnum d)%Z && (Qnum d <=? 2 ^ 53)%Z)%bool) ds
  = true ->
  integer_edges ds.
Proof.
  intros H. rewrite forallb_forall in H. apply Forall_forall. intros d Hd.
  specialize (H d Hd). apply andb_prop in H as [H H3].
  apply andb_prop in H as [H1 H2].
  apply Pos.eqb_eq in H1. apply Z.leb_le in H2. apply Z.leb_le in H3.
  exists (Qnum d). split; [lia|].
  destruct d as [n den]. cbn in *. subst den. reflexivity.
Qed.

(** The default edges are integer edges. *)
Lemma default_edges_are_integers :
  match setProgressiveHistogramBins fresh with
  | Returns sim => integer_edges (Histogram.dividers (m_histogram sim))
  | _ => False
  end.
Proof. apply integer_edges_check. vm_compute. reflexivity. Qed.

Section Walk.

Variable rnd : Q -> Q.
Variable fused : bool.
Hypothesis rnd_rounding : Dbl.rounding rnd.
Variable ds : list Q.
Hypothesis ds_sorted : nondecreasing ds = true.
Hypothesis ds_exact : exact_edges rnd ds.

(** The fraction of a bin of [b] observations below rank [T]. *)
Lemma fraction_bounds (cur T b : Z) :
  (cur < T)%Z -> (T <= cur + b)%Z ->
  0 <= rnd (rnd (Dbl.ofZ (T - cur)) / rnd (Dbl.ofZ b))
  /\ rnd (rnd (Dbl.ofZ (T - cur)) / rnd (Dbl.ofZ b)) <= 1.
Proof.
  intros Hlt Hle. unfold Dbl.ofZ.
  assert (Hnum : 0 <= rnd (inject_Z (T - cur))).
  { apply rounding_nonneg; [exact rnd_rounding|].
    rewrite <- (Zle_Qle 0). lia. }
  assert (Hden : 1 <= rnd (inject_Z b)).
  { rewrite <- (rounding_one rnd rnd_rounding).
    apply (proj1 rnd_rounding). rewrite <- (Zle_Qle 1). lia. }
  assert (Hnd : rnd (inject_Z (T - cur)) <= rnd (inject_Z b)).
  { apply (proj1 rnd_rounding). rewrite <- Zle_Qle. lia. }
  destruct (ratio_bounds (rnd (inject_Z (T - cur))) (rnd (inject_Z b)))
    as [F0 F1]; [lra | exact Hnum | exact Hnd |].
  split.
  - now apply rounding_nonneg.
  - rewrite <- (rounding_one rnd rnd_rounding).
    now apply (proj1 rnd_rounding).
Qed.

Lemma fraction_monotone (cur T1 T2 b : Z) :
  (cur < T1)%Z -> (T1 <= T2)%Z -> (0 < b)%Z ->
  rnd (rnd (Dbl.ofZ (T1 - cur)) / rnd (Dbl.ofZ b))
  <= rnd (rnd (Dbl.ofZ (T2 - cur)) / rnd (Dbl.ofZ b)).
Proof.
  intros Hlt H12 Hb. unfold Dbl.ofZ.
  assert (Hden : 1 <= rnd (inject_Z b)).
  { rewrite <- (rounding_one rnd rnd_rounding).
    apply (proj1 rnd_rounding). rewrite <- (Zle_Qle 1). lia. }
  apply (proj1 rnd_rounding). apply ratio_le; [lra|].
  apply (proj1 rnd_rounding). rewrite <- Zle_Qle. lia.
Qed.

(** The interpolated value at fraction [f] of bin [i]. *)
Lemma rounded_interpolation_bounds i f :
  (S i < List.length ds)%nat -> 0 <= f -> f <= 1 ->
  nth i ds 0
  <= rnd (nth i ds 0
          + Dbl.product rnd fused (f * rnd (nth (S i) ds 0 - nth i ds 0)))
  /\ rnd (nth i ds 0
          + Dbl.product rnd fused (f * rnd (nth (S i) ds 0 - nth i ds 0)))
     <= nth (S i) ds 0.
Proof.
  intros Hi Hf0 Hf1.
  pose proof (nondecreasing_nth ds ds_sorted i (S i) ltac:(lia)) as Hd.
  destruct ds_exact as [Hfix Hgap].
  assert (Hdi : rnd (nth i ds 0) == nth i ds 0).
  { rewrite Forall_forall in Hfix. apply Hfix, nth_In. lia. }
  set (D := rnd (nth (S i) ds 0 - nth i ds 0)).
  assert (HD : 0 <= D) by (apply rounding_nonneg; [exact rnd_rounding | lra]).
  assert (HP0 : 0 <= Dbl.product rnd fused (f * D)).
  { apply product_nonneg; [exact rnd_rounding|].
    now apply Qmult_le_0_compat. }
  assert (HP1 : Dbl.product rnd fused (f * D) <= D).
  { unfold D at 2.
    rewrite <- (product_of_rounded rnd fused _ rnd_rounding). fold D.
    apply product_monotone; [exact rnd_rounding | nra]. }
  split.
  - rewrite <- Hdi at 1. apply (proj1 rnd_rounding). lra.
  - rewrite <- (Hgap i Hi). fold D. apply (proj1 rnd_rounding). lra.
Qed.

Lemma rounded_interpolation_monotone i f1 f2 :
  (S i < List.length ds)%nat -> f1 <= f2 ->
  rnd (nth i ds 0
       + Dbl.product rnd fused (f1 * rnd (nth (S i) ds 0 - nth i ds 0)))
  <= rnd (nth i ds 0
          + Dbl.product rnd fused (f2 * rnd (nth (S i) ds 0 - nth i ds 0))).
Proof.
  intros Hi Hf.
  pose proof (nondecreasing_nth ds ds_sorted i (S i) ltac:(lia)) as Hd.
  set (D := rnd (nth (S i) ds 0 - nth i ds 0)).
  assert (HD : 0 <= D) by (apply rounding_nonneg; [exact rnd_rounding | lra]).
  apply (proj1 rnd_rounding). apply Qplus_le_r.
  apply product_monotone; [exact rnd_rounding | nra].
Qed.

(** At fraction 1 the interpolated value is the upper edge. *)
Lemma rounded_interpolation_at_1 i f :
  (S i < List.length ds)%nat -> f == 1 ->
  rnd (nth i ds 0
       + Dbl.product rnd fused (f * rnd (nth (S i) ds 0 - nth i ds 0)))
  == nth (S i) ds 0.
Proof.
  intros Hi Hf. destruct ds_exact as [_ Hgap].
  rewrite <- (Hgap i Hi) at 2. apply rounding_compat; [exact rnd_rounding|].
  apply Qplus_comp; [reflexivity|].
  eapply Qeq_trans;
    [|apply (product_of_rounded rnd fused (nth (S i) ds 0 - nth i ds 0)
               rnd_rounding)].
  apply product_compat; [exact rnd_rounding|]. rewrite Hf. ring.
Qed.

Lemma walk_lower_rounded bins :
  forall i cur T,
    fits ds bins i -> counts bins -> (cur < T)%Z ->
    nth i ds 0 <= percentile_walk_rounded rnd fused ds bins i cur T.
Proof.
  induction bins as [|b bins IH]; intros i cur T Hfit Hc Hlt;
    cbn [percentile_walk_rounded].
  - unfold fits in Hfit. cbn [List.length] in Hfit.
    rewrite last_as_nth by (destruct ds; [cbn in Hfit; lia | discriminate]).
    replace (List.length ds - 1)%nat with i by lia. apply Qle_refl.
  - unfold fits in Hfit. cbn [List.length] in Hfit.
    inversion Hc as [|? ? Hb Hrest]; subst.
    destruct (cur + b >=? T)%Z eqn:E.
    + assert (Hbpos : (0 < b)%Z) by lia.
      destruct (b >? 0)%Z eqn:E'; [|lia].
      replace (cur + b - b)%Z with cur by lia.
      destruct (fraction_bounds cur T b) as [F0 F1]; [lia | lia |].
      apply rounded_interpolation_bounds; [lia | exact F0 | exact F1].
    + eapply Qle_trans;
        [apply (nondecreasing_nth ds ds_sorted i (S i)); lia|].
      apply IH; [unfold fits; lia | exact Hrest | lia].
Qed.

Lemma walk_monotone_rounded bins :
  forall i cur T1 T2,
    fits ds bins i -> counts bins -> (cur < T1)%Z -> (T1 <= T2)%Z ->
    percentile_walk_rounded rnd fused ds bins i cur T1
    <= percentile_walk_rounded rnd fused ds bins i cur T2.
Proof.
  induction bins as [|b bins IH]; intros i cur T1 T2 Hfit Hc H1 H12;
    cbn [percentile_walk_rounded]; [apply Qle_refl|].
  unfold fits in Hfit. cbn [List.length] in Hfit.
  inversion Hc as [|? ? Hb Hrest]; subst.
  destruct (cur + b >=? T1)%Z eqn:E1; destruct (cur + b >=? T2)%Z eqn:E2.
  - (* both ranks fall into this bin *)
    assert (Hbpos : (0 < b)%Z) by lia.
    destruct (b >? 0)%Z eqn:E; [|lia].
    replace (cur + b - b)%Z with cur by lia.
    apply rounded_interpolation_monotone; [lia|].
    apply fraction_monotone; lia.
  - (* the lower rank here, the higher one further on *)
    assert (Hbpos : (0 < b)%Z) by lia.
    destruct (b >? 0)%Z eqn:E; [|lia].
    replace (cur + b - b)%Z with cur by lia.
    destruct (fraction_bounds cur T1 b) as [F0 F1]; [lia | lia |].
    eapply Qle_trans;
      [apply (proj2 (rounded_interpolation_bounds i _ ltac:(lia) F0 F1))|].
    apply walk_lower_rounded; [unfold fits; lia | exact Hrest | lia].
  - lia.
  - apply IH; [unfold fits; lia | exact Hrest | lia | lia].
Qed.

(** The rank of the last observation, when it sits in the bin after
    [front] and the bins after that one are empty. *)
Lemma walk_to_highest_bin_rounded front :
  forall i cur b zeros,
    (S (i + List.length front) < List.length ds)%nat ->
    counts front -> (0 < b)%Z ->
    percentile_walk_rounded rnd fused ds (front ++ b :: zeros) i cur
                            (cur + fold_right Z.add 0%Z front + b)%Z
    == nth (S (i + List.length front)) ds 0.
Proof.
  induction front as [|f front IH]; intros i cur b zeros Hi Hc Hb.
  - cbn [app percentile_walk_rounded fold_right List.length] in *.
    rewrite Nat.add_0_r in *.
    destruct (cur + b >=? cur + 0 + b)%Z eqn:E; [|lia].
    destruct (b >? 0)%Z eqn:E'; [|lia].
    replace (cur + 0 + b - (cur + b - b))%Z with b by lia.
    apply rounded_interpolation_at_1; [exact Hi|].
    rewrite (rounding_compat rnd _ 1 rnd_rounding);
      [now apply rounding_one|].
    assert (Hden : 1 <= rnd (Dbl.ofZ b)).
    { rewrite <- (rounding_one rnd rnd_rounding).
      apply (proj1 rnd_rounding). unfold Dbl.ofZ.
      rewrite <- (Zle_Qle 1). lia. }
    field. lra.
  - inversion Hc as [|? ? Hf Hrest]; subst.
    cbn [app percentile_walk_rounded fold_right List.length] in *.
    pose proof (bins_nonneg_sum _ Hrest) as Hsum.
    destruct (cur + f >=? cur + (f + fold_right Z.add 0 front) + b)%Z
      eqn:E; [lia|].
    replace (cur + (f + fold_right Z.add 0 front) + b)%Z
      with (cur + f + fold_right Z.add 0 front + b)%Z by lia.
    rewrite (IH (S i) (cur + f)%Z b zeros);
      [|lia | exact Hrest | exact Hb].
    replace (S (S i + List.length front))
      with (S (i + S (List.length front))) by lia.
    reflexivity.
Qed.

End Walk.

(** A rank above every cumulative count runs off the last bin. *)
Lemma walk_past_all_rounded rnd fused ds bins :
  forall i cur T,
    counts bins -> (cur + fold_right Z.add 0 bins < T)%Z ->
    percentile_walk_rounded rnd fused ds bins i cur T = last ds 0.
Proof.
  induction bins as [|b bins IH]; intros i cur T Hc Hlt;
    cbn [percentile_walk_rounded]; [reflexivity|].
  inversion Hc as [|? ? Hb Hrest]; subst. cbn [fold_right] in Hlt.
  pose proof (bins_nonneg_sum _ Hrest).
  destruct (cur + b >=? T)%Z eqn:E; [lia|].
  apply IH; [exact Hrest | lia].
Qed.

(** With the identity for the rounding the function is the exact one. *)
Lemma walk_rounded_exact fused ds bins :
  forall i cur T,
    percentile_walk_rounded (fun x => x) fused ds bins i cur T
    = percentile_walk ds bins i cur T.
Proof.
  induction bins as [|b bins IH]; intros i cur T;
    cbn [percentile_walk_rounded percentile_walk]; [reflexivity|].
  rewrite IH. unfold Dbl.product. destruct fused; reflexivity.
Qed.

Lemma rounded_exact fused count h p :
  getPercentileFromHistogram_rounded (fun x => x) fused count h p
  = getPercentileFromHistogram count h p.
Proof.
  unfold getPercentileFromHistogram_rounded, getPercentileFromHistogram.
  rewrite walk_rounded_exact. reflexivity.
Qed.

Lemma rounded_monotone rnd fused count h p1 p2 :
  Dbl.rounding rnd -> (0 < count)%Z -> well_formed h ->
  exact_edges rnd (Histogram.dividers h) ->
  0 <= p1 -> p1 <= p2 ->
  getPercentileFromHistogram_rounded rnd fused count h p1
  <= getPercentileFromHistogram_rounded rnd fused count h p2.
Proof.
  intros Hr Hc (Hs & Hlen & Hb) Hex Hp1 H12.
  unfold getPercentileFromHistogram_rounded.
  destruct (count =? 0)%Z eqn:E0; [lia|].
  pose proof (target_count_monotone rnd count p1 p2 Hr Hc Hp1 H12) as HT.
  set (T1 := target_count rnd count p1) in *.
  set (T2 := target_count rnd count p2) in *.
  assert (Hfit : fits (Histogram.dividers h) (Histogram.bins h) 0)
    by (unfold fits; lia).
  destruct (T1 <=? Histogram.underflow h)%Z eqn:E1;
    destruct (T2 <=? Histogram.underflow h)%Z eqn:E2.
  - apply Qle_refl.
  - replace (hd 0 (Histogram.dividers h))
      with (nth 0 (Histogram.dividers h) 0)
      by (destruct (Histogram.dividers h); reflexivity).
    apply walk_lower_rounded; try assumption. lia.
  - lia.
  - apply walk_monotone_rounded; try assumption; lia.
Qed.

Lemma rounded_first_edge rnd fused count h p :
  (0 < count)%Z ->
  (target_count rnd count p <= Histogram.underflow h)%Z ->
  getPercentileFromHistogram_rounded rnd fused count h p
  = hd 0 (Histogram.dividers h).
Proof.
  intros Hc HT. unfold getPercentileFromHistogram_rounded.
  destruct (count =? 0)%Z eqn:E0; [lia|].
  destruct (_ <=? Histogram.underflow h)%Z eqn:E; [reflexivity | lia].
Qed.

Lemma zeros_sum zeros :
  Forall (fun b => b = 0%Z) zeros -> fold_right Z.add 0%Z zeros = 0%Z.
Proof. induction 1 as [|b zeros -> _ IH]; cbn; lia. Qed.

Lemma split_at_bin (bins : list Z) i :
  (i < List.length bins)%nat ->
  bins = firstn i bins ++ nth i bins 0%Z :: skipn (S i) bins.
Proof.
  revert i. induction bins as [|b bins IH]; intros i Hi; [cbn in Hi; lia|].
  destruct i as [|i]; [reflexivity|].
  cbn [firstn nth skipn app]. f_equal. apply IH. cbn in Hi. lia.
Qed.

Lemma rounded_100_overflow rnd fused count h :
  Dbl.rounding rnd -> (0 < count <= 2 ^ 53)%Z -> well_formed h ->
  count = Histogram.total h -> (0 < Histogram.overflow h)%Z ->
  getPercentileFromHistogram_rounded rnd fused count h 100
  = last (Histogram.dividers h) 0.
Proof.
  intros Hr Hc (Hs & Hlen & Hb) Htot Hov.
  unfold getPercentileFromHistogram_rounded.
  destruct (count =? 0)%Z eqn:E0; [lia|].
  rewrite (target_count_at_100 rnd count Hr Hc).
  pose proof (bins_nonneg_sum _ Hb) as Hsum.
  unfold Histogram.total in Htot.
  destruct (count <=? Histogram.underflow h)%Z eqn:E; [lia|].
  apply walk_past_all_rounded; [exact Hb | lia].
Qed.

Lemma rounded_100_highest_bin rnd fused count h i :
  Dbl.rounding rnd -> (0 < count <= 2 ^ 53)%Z -> well_formed h ->
  exact_edges rnd (Histogram.dividers h) ->
  count = Histogram.total h -> Histogram.overflow h = 0%Z ->
  (i < List.length (Histogram.bins h))%nat ->
  (0 < nth i (Histogram.bins h) 0)%Z ->
  (forall j, (i < j)%nat -> nth j (Histogram.bins h) 0%Z = 0%Z) ->
  getPercentileFromHistogram_rounded rnd fused count h 100
  == nth (S i) (Histogram.dividers h) 0.
Proof.
  intros Hr Hc (Hs & Hlen & Hb) Hex Htot Hov Hi Hbin Hzero.
  unfold getPercentileFromHistogram_rounded.
  destruct (count =? 0)%Z eqn:E0; [lia|].
  rewrite (target_count_at_100 rnd count Hr Hc).
  pose proof (split_at_bin (Histogram.bins h) i Hi) as Hsplit.
  set (front := firstn i (Histogram.bins h)) in *.
  set (b := nth i (Histogram.bins h) 0%Z) in *.
  set (zeros := skipn (S i) (Histogram.bins h)) in *.
  assert (Hfront : counts front).
  { unfold counts, front. apply Forall_forall. intros x Hx.
    rewrite Forall_forall in Hb. apply Hb.
    rewrite <- (firstn_skipn i (Histogram.bins h)). apply in_or_app.
    now left. }
  assert (Hz : Forall (fun x => x = 0%Z) zeros).
  { apply Forall_forall. intros x Hx.
    destruct (In_nth _ _ 0%Z Hx) as (j & Hj & <-).
    unfold zeros. rewrite nth_skipn. apply Hzero. lia. }
  assert (Hlf : List.length front = i).
  { unfold front. rewrite List.length_firstn. lia. }
  pose proof (bins_nonneg_sum _ Hfront) as Hsum.
  assert (Hall : (fold_right Z.add 0 (Histogram.bins h)
                  = fold_right Z.add 0 front + b)%Z).
  { rewrite Hsplit, fold_right_app. cbn [fold_right].
    rewrite (zeros_sum zeros Hz).
    rewrite Z.add_0_r. generalize front as l. generalize b as c.
    intros c l. induction l as [|f l IH]; cbn; lia. }
  unfold Histogram.total in Htot.
  destruct (count <=? Histogram.underflow h)%Z eqn:E; [lia|].
  replace count
    with (Histogram.underflow h + fold_right Z.add 0 front + b)%Z by lia.
  rewrite Hsplit.
  rewrite (walk_to_highest_bin_rounded rnd fused Hr (Histogram.dividers h)
             Hex front 0 (Histogram.underflow h) b zeros);
    [|lia | exact Hfront | exact Hbin].
  rewrite Hlf. reflexivity.
Qed.

Lemma rounded_100_last_bin rnd fused count h :
  Dbl.rounding rnd -> (0 < count <= 2 ^ 53)%Z -> well_formed h ->
  exact_edges rnd (Histogram.dividers h) ->
  count = Histogram.total h -> Histogram.overflow h = 0%Z ->
  (0 < last (Histogram.bins h) 0)%Z ->
  getPercentileFromHistogram_rounded rnd fused count h 100
  == last (Histogram.dividers h) 0.
Proof.
  intros Hr Hc Hwf Hex Htot Hov Hlast.
  pose proof Hwf as (Hs & Hlen & Hb).
  assert (Hne : Histogram.bins h <> [])
    by (intros E; rewrite E in Hlast; cbn in Hlast; lia).
  assert (Hn : (0 < List.length (Histogram.bins h))%nat)
    by (destruct (Histogram.bins h); [congruence | cbn; lia]).
  rewrite (last_as_nth (Histogram.dividers h))
    by (destruct (Histogram.dividers h); [cbn in Hlen; lia | discriminate]).
  rewrite Hlen.
  replace (S (List.length (Histogram.bins h)) - 1)%nat
    with (S (List.length (Histogram.bins h) - 1)) by lia.
  apply rounded_100_highest_bin; try assumption.
  - lia.
  - destruct (exists_last Hne) as (front & b & Hsplit).
    rewrite Hsplit in *. rewrite last_last in Hlast.
    rewrite List.length_app. cbn [List.length].
    replace (List.length front + 1 - 1)%nat with (List.length front) by lia.
    rewrite nth_middle. exact Hlast.
  - intros j Hj. apply nth_overflow. lia.
Qed.

End RoundedPercentile.

Module HistogramClaims.
Import MonteCarloSimulator.
Local Open Scope Q_scope.

(** C5.  Whatever simulator the program holds (fresh, or configured and run
    before), [run] succeeds in either memory mode, single-threaded or with
    any assignment of the rounds to existing threads, and leaves a
    histogram whose bin counts, underflow count and overflow count add up
    to the number of rounds it observed: every round total increments
    exactly one bucket, inside the bins vector, and the merge of the
    per-thread histograms neither loses nor repeats a count. *)
Theorem histogram_counts_every_round
        (sim : t) (mem_mode : MemoryMode) (useParallel batched : bool)
        (num_threads : nat) (rounds : list (nat * Q)) :
  reachable sim ->
  (useParallel = true ->
   Forall (fun r => (fst r < num_threads)%nat) rounds) ->
  exists sim',
    run_histogram sim mem_mode useParallel batched num_threads rounds
    = Returns sim'
    /\ (fold_right Z.add 0 (Histogram.bins (m_histogram sim'))
        + Histogram.underflow (m_histogram sim')
        + Histogram.overflow (m_histogram sim')
        = Z.of_nat (List.length rounds))%Z.
Proof.
  intros Hreach Hthreads.
  destruct (SimulatorProps.run_histogram_total sim mem_mode useParallel
              batched num_threads rounds
              (SimulatorProps.reachable_ok sim Hreach) Hthreads)
    as (sim' & Hrun & Htotal & _).
  exists sim'. split; [exact Hrun | exact Htotal].
Qed.

Lemma histogram_counts_every_round_witness :
  exists sim',
    run_histogram fresh EFFICIENT true false 3
      [(0%nat, 3); (2%nat, 7.5); (1%nat, 30000); (1%nat, -2); (0%nat, 0)]
    = Returns sim'
    /\ (fold_right Z.add 0 (Histogram.bins (m_histogram sim'))
        + Histogram.underflow (m_histogram sim')
        + Histogram.overflow (m_histogram sim')
        = 5)%Z.
Proof.
  apply (histogram_counts_every_round fresh EFFICIENT true false 3
           [(0%nat, 3); (2%nat, 7.5); (1%nat, 30000); (1%nat, -2); (0%nat, 0)]).
  - constructor.
  - intros _. repeat constructor.
Defined.

(** C7, as stated, does not hold at percentile 100.  A fresh simulator
    that observes three rounds paying 0, 3 and 7 files them in the first
    three bins of the default edges; the percentile-100 value read back is
    10, the upper edge of the last non-empty bin, while the last bin edge
    is 20000. *)
Lemma percentile_100_counterexample :
  match run_histogram fresh EFFICIENT false false 1
          [(0%nat, 0); (0%nat, 3); (0%nat, 7)] with
  | Returns sim' =>
      let h := m_histogram sim' in
      Histogram.total h = 3%Z
      /\ getPercentileFromHistogram 3 h 100 == 10
      /\ last (Histogram.dividers h) 0 == 20000
      /\ ~ getPercentileFromHistogram 3 h 100 == last (Histogram.dividers h) 0
  | _ => False
  end.
Proof.
  vm_compute. repeat split; try reflexivity. intros H. discriminate H.
Qed.

(** C7, amended.  Every [double] operation of
    [getPercentileFromHistogram] is rounded, by binary64 rounding to
    nearest or any other rounding, and the product in the interpolation is
    rounded on its own or fused into the sum.  For a
    histogram with non-decreasing edges, one more edge than bins,
    non-negative bin counts and at least one observation, the function
    returns the first edge whenever the target rank, as it computes it, is
    at most the underflow count.  At percentile 100, when the counts add up
    to the number of observations (at most 2^53), it returns the first edge
    if every observation is in the underflow bucket and the last edge if
    the overflow bucket is non-empty.  When the edges are doubles whose
    gaps are computed without error, it is non-decreasing in its
    percentile argument over [0, 100], and at percentile 100 with an empty
    overflow bucket it returns the upper edge of the highest non-empty bin,
    which is the last edge when that is the last bin. *)
Theorem percentile_from_histogram_properties
        (rnd : Q -> Q) (fused : bool) (count : Z) (h : Histogram.t) :
  Dbl.rounding rnd ->
  (0 < count)%Z ->
  nondecreasing (Histogram.dividers h) = true ->
  List.length (Histogram.dividers h) = S (List.length (Histogram.bins h)) ->
  Forall (fun b => (0 <= b)%Z) (Histogram.bins h) ->
  (forall p,
      (target_count rnd count p <= Histogram.underflow h)%Z ->
      getPercentileFromHistogram_rounded rnd fused count h p
      = hd 0 (Histogram.dividers h))
  /\ ((count <= 2 ^ 53)%Z -> count = Histogram.total h ->
      (Histogram.underflow h = count ->
       getPercentileFromHistogram_rounded rnd fused count h 100
       = hd 0 (Histogram.dividers h))
      /\ ((0 < Histogram.overflow h)%Z ->
          getPercentileFromHistogram_rounded rnd fused count h 100
          = last (Histogram.dividers h) 0))
  /\ (exact_edges rnd (Histogram.dividers h) ->
      (forall p1 p2,
          0 <= p1 -> p1 <= p2 -> p2 <= 100 ->
          getPercentileFromHistogram_rounded rnd fused count h p1
          <= getPercentileFromHistogram_rounded rnd fused count h p2)
      /\ ((count <= 2 ^ 53)%Z -> count = Histogram.total h ->
          Histogram.overflow h = 0%Z ->
          (forall i,
              (i < List.length (Histogram.bins h))%nat ->
              (0 < nth i (Histogram.bins h) 0)%Z ->
              (forall j, (i < j)%nat ->
                         nth j (Histogram.bins h) 0%Z = 0%Z) ->
              getPercentileFromHistogram_rounded rnd fused count h 100
              == nth (S i) (Histogram.dividers h) 0)
          /\ ((0 < last (Histogram.bins h) 0)%Z ->
              getPercentileFromHistogram_rounded rnd fused count h 100
              == last (Histogram.dividers h) 0))).
Proof.
  intros Hr Hc Hs Hlen Hb.
  assert (Hwf : well_formed h) by (repeat split; assumption).
  split; [|split].
  - intros p. now apply RoundedPercentile.rounded_first_edge.
  - intros H53 Htot. split.
    + intros Hu. apply RoundedPercentile.rounded_first_edge; [exact Hc|].
      rewrite (RoundedPercentile.target_count_at_100 rnd count Hr) by lia.
      lia.
    + intros Hov.
      apply RoundedPercentile.rounded_100_overflow; try assumption. lia.
  - intros Hex. split.
    + intros p1 p2 Hp1 H12 _.
      now apply RoundedPercentile.rounded_monotone.
    + intros H53 Htot Hov. split.
      * intros i Hi Hbin Hzero.
        apply RoundedPercentile.rounded_100_highest_bin; try assumption.
        lia.
      * intros Hlast.
        apply RoundedPercentile.rounded_100_last_bin; try assumption. lia.
Qed.

Lemma percentile_from_histogram_properties_witness :
  let h := Histogram.mk [0; 1; 5; 10] [2; 0; 1]%Z 1 1 in
  let h' := Histogram.mk [0; 1; 5; 10] [2; 1; 0]%Z 1 0 in
  getPercentileFromHistogram_rounded Dbl.binary64 false 5 h 40
  <= getPercentileFromHistogram_rounded Dbl.binary64 false 5 h 90
  /\ getPercentileFromHistogram_rounded Dbl.binary64 false 5 h 20 = 0
  /\ getPercentileFromHistogram_rounded Dbl.binary64 false 5 h 100 = 10
  /\ getPercentileFromHistogram_rounded Dbl.binary64 false 4 h' 100 == 5.
Proof.
  cbv zeta.
  assert (Hwf : forall bins u o,
             bins = [2; 0; 1]%Z \/ bins = [2; 1; 0]%Z ->
             nondecreasing
               (Histogram.dividers (Histogram.mk [0; 1; 5; 10] bins u o))
             = true
             /\ List.length
                  (Histogram.dividers (Histogram.mk [0; 1; 5; 10] bins u o))
                = S (List.length
                       (Histogram.bins (Histogram.mk [0; 1; 5; 10] bins u o)))
             /\ Forall (fun b => (0 <= b)%Z)
                       (Histogram.bins (Histogram.mk [0; 1; 5; 10] bins u o))).
  { intros bins u o [-> | ->]; repeat split; try reflexivity;
      repeat constructor; discriminate. }
  assert (Hex : exact_edges Dbl.binary64 [0; 1; 5; 10]).
  { apply RoundedPercentile.integer_edges_exact;
      [exact Binary64Props.binary64_rounding|].
    repeat constructor;
      [exists 0%Z | exists 1%Z | exists 5%Z | exists 10%Z];
      (split; [lia | reflexivity]). }
  destruct (Hwf [2; 0; 1]%Z 1%Z 1%Z (or_introl eq_refl)) as (Hs & Hl & Hb).
  destruct (percentile_from_histogram_properties Dbl.binary64 false 5
              (Histogram.mk [0; 1; 5; 10] [2; 0; 1]%Z 1 1)
              Binary64Props.binary64_rounding eq_refl Hs Hl Hb)
    as (Hfirst & Hfull & Hexact).
  destruct (Hexact Hex) as (Hmono & _).
  destruct (Hwf [2; 1; 0]%Z 1%Z 0%Z (or_intror eq_refl)) as (Hs' & Hl' & Hb').
  destruct (percentile_from_histogram_properties Dbl.binary64 false 4
              (Histogram.mk [0; 1; 5; 10] [2; 1; 0]%Z 1 0)
              Binary64Props.binary64_rounding eq_refl Hs' Hl' Hb')
    as (_ & _ & Hexact').
  destruct (Hexact' Hex) as (_ & Hhigh).
  split; [|split; [|split]].
  - apply Hmono; [discriminate | discriminate | discriminate].
  - apply Hfirst. vm_compute. discriminate.
  - apply Hfull; [discriminate | reflexivity | reflexivity].
  - destruct Hhigh as (Hbin & _); [discriminate | reflexivity | reflexivity |].
    apply (Hbin 1%nat).
    + cbn. lia.
    + reflexivity.
    + intros [|[|[|[|j]]]] Hj; try lia; reflexivity.
Defined.

End HistogramClaims.

(** ** Critical values *)

Module CriticalValueProps.
Import Statistics.
Local Open Scope Q_scope.

Lemma lower_bound_is_find table df :
  lower_bound table df = find (fun row => (df <=? fst row)%Z) table.
Proof.
  induction table as [|row table IH]; cbn [lower_bound find]; [reflexivity|].
  destruct (df <=? fst row)%Z; [reflexivity | exact IH].
Qed.

Lemma table_covers df :
  (df <= 100)%Z -> lower_bound t_table df <> None.
Proof.
  intros Hdf. rewrite lower_bound_is_find. intros Hnone.
  assert (Hin : In (100%Z, (1.660, 1.984, 2.626)) t_table)
    by (unfold t_table; repeat (first [left; reflexivity | right])).
  pose proof (find_none _ _ Hnone _ Hin) as Hrow. cbn [fst] in Hrow.
  apply Z.leb_gt in Hrow. lia.
Qed.

(** For the three supported levels [findTValue] reads the table up to 100
    degrees of freedom and the normal constants above. *)
Lemma findTValue_spec confidence df :
  (1 <= df)%Z ->
  confidence = 90 \/ confidence = 95 \/ confidence = 99 ->
  findTValue confidence df = BatchedMeansSpec.t confidence df.
Proof.
  intros Hdf Hc. unfold findTValue, BatchedMeansSpec.t.
  destruct (df <? 1)%Z eqn:E1; [lia|].
  destruct (df >? 100)%Z eqn:E2; destruct (df <=? 100)%Z eqn:E3; try lia.
  - destruct Hc as [->|[->| ->]]; reflexivity.
  - unfold BatchedMeansSpec.table_value.
    pose proof (table_covers df ltac:(lia)) as Hcov.
    rewrite <- lower_bound_is_find.
    destruct (lower_bound t_table df) as [[key [[t90 t95] t99]]|];
      [|congruence].
    destruct Hc as [->|[->| ->]]; reflexivity.
Qed.

End CriticalValueProps.

(** ** The batched-means estimator: code against specification *)

Module BatchedMeansProps.
Import Statistics.
Local Open Scope Q_scope.

Lemma sum_from_total xs : forall acc,
  fold_left Qplus xs acc == acc + BatchedMeansSpec.total xs.
Proof.
  induction xs as [|x xs IH]; intros acc;
    cbn [fold_left BatchedMeansSpec.total].
  - ring.
  - rewrite IH. ring.
Qed.

Lemma calculateMean_is_mean xs :
  xs <> [] -> calculateMean xs == BatchedMeansSpec.mean xs.
Proof.
  intros Hne. unfold calculateMean, BatchedMeansSpec.mean, Dbl.sum, Dbl.ofZ.
  destruct xs as [|x xs]; [congruence|].
  rewrite sum_from_total. now rewrite Qplus_0_l.
Qed.

Lemma squares_from_total xs m m' : forall acc,
  m == m' ->
  fold_left (fun acc val => acc + (val - m) * (val - m)) xs acc
  == acc + BatchedMeansSpec.total
             (map (fun x => (x - m') * (x - m')) xs).
Proof.
  induction xs as [|x xs IH]; intros acc Hm;
    cbn [fold_left map BatchedMeansSpec.total].
  - ring.
  - rewrite IH by exact Hm. rewrite Hm. ring.
Qed.

Lemma calculateVariance_is_variance xs :
  (2 <= List.length xs)%nat ->
  calculateVariance xs (calculateMean xs) == BatchedMeansSpec.variance xs.
Proof.
  intros Hlen. unfold calculateVariance, BatchedMeansSpec.variance, Dbl.ofZ.
  destruct (List.length xs <? 2)%nat eqn:E; [apply Nat.ltb_lt in E; lia|].
  rewrite (squares_from_total xs (calculateMean xs) (BatchedMeansSpec.mean xs)).
  - now rewrite Qplus_0_l.
  - apply calculateMean_is_mean. intros ->. cbn in Hlen. lia.
Qed.

Lemma newton_sqrt_compat x y : x == y -> Dbl.newton_sqrt x == Dbl.newton_sqrt y.
Proof.
  intros Hxy. unfold Dbl.newton_sqrt.
  generalize 6%nat as n. induction n as [|n IH].
  - reflexivity.
  - rewrite !Nat.iter_succ. erewrite Qred_complete; [reflexivity|].
    rewrite IH, Hxy. reflexivity.
Qed.

End BatchedMeansProps.

Module BatchedMeansClaims.
Import MonteCarloSimulator.
Local Open Scope Q_scope.

(** C6.  After a run that observed at least one round, the intervals
    computed by [analyzeEfficientResults(k)] are those of the batched-means
    method as the specification words it: none for fewer than two batch
    means; otherwise, with K batch means, their mean (the sum over K) and
    their variance (the mean squared deviation from that mean), standard
    error [sqrt (variance / K)] and [K - 1] degrees of freedom, the three
    intervals [mean -/+ t * standard_error] for 90, 95 and 99 percent, [t]
    read from the table up to 100 degrees of freedom and from the normal
    constants above.  [sqrt] is any function of the value of its
    argument; levels and bounds are compared as numbers. *)
Theorem batched_means_intervals_follow_the_method
        (sqrt : Q -> Q) (count : Z) (m_batch_means : list Q) :
  (forall x y, x == y -> sqrt x == sqrt y) ->
  count <> 0%Z ->
  Forall2 BatchedMeansSpec.same_interval
          (batched_means_intervals sqrt count m_batch_means)
          (BatchedMeansSpec.intervals sqrt m_batch_means).
Proof.
  intros Hsqrt Hcount.
  unfold batched_means_intervals, BatchedMeansSpec.intervals.
  destruct (count =? 0)%Z eqn:E0; [lia|].
  destruct (List.length m_batch_means <? 2)%nat eqn:E2;
    destruct (2 <=? List.length m_batch_means)%nat eqn:E2';
    try (apply Nat.ltb_lt in E2; apply Nat.leb_le in E2'; lia);
    try (apply Nat.ltb_ge in E2; apply Nat.leb_gt in E2'; lia);
    [constructor|].
  apply Nat.leb_le in E2'.
  assert (Hmean : Statistics.calculateMean m_batch_means
                  == BatchedMeansSpec.mean m_batch_means).
  { apply BatchedMeansProps.calculateMean_is_mean.
    intros ->. cbn in E2'. lia. }
  assert (Hse :
    sqrt (Statistics.calculateVariance m_batch_means
            (Statistics.calculateMean m_batch_means)
          / Dbl.ofZ (Z.of_nat (List.length m_batch_means)))
    == sqrt (BatchedMeansSpec.variance m_batch_means
             / inject_Z (Z.of_nat (List.length m_batch_means)))).
  { apply Hsqrt. unfold Dbl.ofZ.
    now rewrite BatchedMeansProps.calculateVariance_is_variance. }
  cbn [map]. unfold interval, BatchedMeansSpec.interval_at.
  rewrite !CriticalValueProps.findTValue_spec by (lia || tauto).
  set (df := (Z.of_nat (List.length m_batch_means) - 1)%Z).
  apply Forall2_cons; [|apply Forall2_cons; [|apply Forall2_cons;
                                               [|apply Forall2_nil]]];
    (split; [reflexivity|]);
    cbn [lower_bound upper_bound];
    (split;
     match goal with
     | |- BatchedMeansSpec.same_bound (option_map _ ?t) _ =>
         destruct t; cbn [option_map BatchedMeansSpec.same_bound];
         [rewrite Hse, Hmean; reflexivity | exact I]
     end).
Qed.

Lemma batched_means_intervals_follow_the_method_witness :
  Forall2 BatchedMeansSpec.same_interval
          (batched_means_intervals Dbl.newton_sqrt 120 [10; 12; 11; 13])
          (BatchedMeansSpec.intervals Dbl.newton_sqrt [10; 12; 11; 13])
  /\ List.length (batched_means_intervals Dbl.newton_sqrt 120 [10; 12; 11; 13])
     = 3%nat
  /\ batched_means_intervals Dbl.newton_sqrt 30 [10] = [].
Proof.
  split; [|split; reflexivity].
  apply batched_means_intervals_follow_the_method.
  - exact BatchedMeansProps.newton_sqrt_compat.
  - discriminate.
Defined.

End BatchedMeansClaims.

(** ** The bootstrap estimator *)

Module BootstrapProps.
Import MonteCarloSimulator.
Import StatisticsProps.
Local Open Scope Q_scope.

Lemma list_min_le l : forall x, In x l -> list_min l <= x.
Proof.
  unfold list_min. generalize (hd 0 l) as a.
  induction l as [|y l IH]; intros a x; [intros []|].
  cbn [fold_right]. intros [->|H].
  - apply Q.le_min_l.
  - eapply Qle_trans; [apply Q.le_min_r | now apply IH].
Qed.

Lemma list_max_ge l : forall x, In x l -> x <= list_max l.
Proof.
  unfold list_max. generalize (hd 0 l) as a.
  induction l as [|y l IH]; intros a x; [intros []|].
  cbn [fold_right]. intros [->|H].
  - apply Q.le_max_l.
  - eapply Qle_trans; [now apply IH | apply Q.le_max_r].
Qed.

Lemma percentile_bound_within means p :
  means <> [] ->
  Dbl.ltb p 0 = false -> Dbl.ltb 100 p = false ->
  exists v, percentile_bound (Statistics.sort means) p = Returns v
            /\ list_min means <= v <= list_max means.
Proof.
  intros Hne Hp0 Hp100. unfold percentile_bound.
  destruct (findValueAtPercentile_bounds (Statistics.sort means) p
              (list_min means) (list_max means)) as (v & Hv & Hb);
    try assumption.
  - intros E. pose proof (sort_length means) as Hl. rewrite E in Hl.
    destruct means; [congruence | discriminate].
  - intros x Hx. apply sort_In in Hx.
    split; [now apply list_min_le | now apply list_max_ge].
  - exists v. rewrite Hv. split; [reflexivity | exact Hb].
Qed.

Lemma bootstrap_interval_within lvl means lo hi :
  means <> [] ->
  Dbl.ltb lo 0 = false -> Dbl.ltb 100 lo = false ->
  Dbl.ltb hi 0 = false -> Dbl.ltb 100 hi = false ->
  exists l u,
    bootstrap_interval lvl (Statistics.sort means) lo hi
    = Returns (mkCI lvl (Some l) (Some u))
    /\ list_min means <= l <= list_max means
    /\ list_min means <= u <= list_max means.
Proof.
  intros Hne H1 H2 H3 H4. unfold bootstrap_interval.
  destruct (percentile_bound_within means lo Hne H1 H2) as (l & -> & Hl).
  destruct (percentile_bound_within means hi Hne H3 H4) as (u & -> & Hu).
  exists l, u. repeat split; tauto.
Qed.

(** For every non-empty list of means the three intervals are produced and
    their bounds lie between the smallest and the largest mean. *)
Lemma bootstrap_intervals_within (means : list Q) :
  means <> [] ->
  exists l90 u90 l95 u95 l99 u99,
    bootstrap_intervals means
    = Returns [mkCI 90 (Some l90) (Some u90);
               mkCI 95 (Some l95) (Some u95);
               mkCI 99 (Some l99) (Some u99)]
    /\ Forall (fun b => list_min means <= b /\ b <= list_max means)
              [l90; u90; l95; u95; l99; u99].
Proof.
  intros Hne. unfold bootstrap_intervals.
  destruct (bootstrap_interval_within 90 means 5 95 Hne)
    as (l90 & u90 & -> & H90l & H90u); try reflexivity.
  destruct (bootstrap_interval_within 95 means 2.5 97.5 Hne)
    as (l95 & u95 & -> & H95l & H95u); try reflexivity.
  destruct (bootstrap_interval_within 99 means 0.5 99.5 Hne)
    as (l99 & u99 & -> & H99l & H99u); try reflexivity.
  exists l90, u90, l95, u95, l99, u99. split; [reflexivity|].
  repeat constructor; tauto.
Qed.

End BootstrapProps.

Module EstimatorClaims.
Import MonteCarloSimulator.
Local Open Scope Q_scope.

(** C8.  In Accurate mode, with at least one resample of at least one draw
    from a non-empty set of round totals, the bootstrap stage returns three
    intervals, for 90, 95 and 99 percent, and each of their lower and upper
    bounds lies between the smallest and the largest resample mean. *)
Theorem bootstrap_bounds_within_resample_means
        (k : nat) (m : Z) (m_results : list Q) (g : Rng.t) :
  (0 < k)%nat -> (0 < m)%Z -> m_results <> [] ->
  let m_bootstrap_means := bootstrap_means k m m_results g in
  exists l90 u90 l95 u95 l99 u99,
    bootstrap_intervals m_bootstrap_means
    = Returns [mkCI 90 (Some l90) (Some u90);
               mkCI 95 (Some l95) (Some u95);
               mkCI 99 (Some l99) (Some u99)]
    /\ Forall (fun b => list_min m_bootstrap_means <= b
                        /\ b <= list_max m_bootstrap_means)
              [l90; u90; l95; u95; l99; u99].
Proof.
  intros Hk _ _. cbv zeta.
  apply BootstrapProps.bootstrap_intervals_within.
  destruct k as [|k]; [lia|]. cbn [bootstrap_means].
  destruct (resample_sum (Z.to_nat m) m_results 0 g). discriminate.
Qed.

Lemma bootstrap_bounds_within_resample_means_witness :
  let means := bootstrap_means 4 2 [10; 0; 30; 20]
                               (Rng.of_list [0; 1; 2; 3; 1; 1; 3; 2]%Z) in
  means = [10 # 2; 50 # 2; 0 # 2; 50 # 2]
  /\ exists l90 u90 l95 u95 l99 u99,
    bootstrap_intervals means
    = Returns [mkCI 90 (Some l90) (Some u90);
               mkCI 95 (Some l95) (Some u95);
               mkCI 99 (Some l99) (Some u99)]
    /\ Forall (fun b => list_min means <= b /\ b <= list_max means)
              [l90; u90; l95; u95; l99; u99].
Proof.
  cbv zeta. split; [vm_compute; reflexivity|].
  apply (bootstrap_bounds_within_resample_means 4 2 [10; 0; 30; 20]
           (Rng.of_list [0; 1; 2; 3; 1; 1; 3; 2]%Z)).
  - lia.
  - lia.
  - discriminate.
Defined.

End EstimatorClaims.

(** ** The random stream: facts *)

Module RngProps.

(** [std::uniform_real_distribution<double>(0.0, 1.0)] never returns 1. *)
Lemma uniform_real_below_one g : (fst (Rng.uniform_real g) < 1)%Q.
Proof.
  unfold Rng.uniform_real. destruct (Rng.next g) as [x g']. cbn [fst].
  unfold Qlt. cbn [Qnum Qden].
  assert (0 <= x mod 2 ^ 32 < 2 ^ 32) by (apply Z.mod_pos_bound; lia).
  change (Z.pos (2 ^ 32)) with (2 ^ 32). lia.
Qed.

End RngProps.

(** ** The pool-multiplier variant: further properties *)

Module DeepDiveRounds.
Import DeepDive.
Import DeepDiveProps.

(** *** Invariants of the loop, generically *)

Section LoopInvariant.

Variable d : DeepDiveData.
Variable Inv : FgState -> Prop.
Hypothesis Inv_step : forall s, Inv s -> Inv (fg_step d s).

Lemma dd_iter_inv n s : Inv s -> Inv (Nat.iter n (fg_step d) s).
Proof.
  intros Hs. induction n as [|n IH]; cbn [Nat.iter];
    [exact Hs | apply Inv_step, IH].
Qed.

Lemma dd_fg_loop_inv fuel :
  forall s s', Inv s -> fg_loop fuel d s = Returns s' -> Inv s'.
Proof.
  induction fuel as [|fuel IH]; intros s s' Hs; cbn [fg_loop].
  - destruct (queue s); [intros [= <-]; exact Hs | discriminate].
  - destruct (queue s) eqn:Hq; [intros [= <-]; exact Hs|].
    intros Hrun. eapply IH; [|exact Hrun]. now apply Inv_step.
Qed.

End LoopInvariant.

Lemma dd_push_draws_size items n q g :
  size (fst (push_draws n items q g)) = Z.of_nat n + size q.
Proof.
  destruct (dd_push_draws_extends items n q g) as (dr & Hl & He).
  rewrite He. unfold size. rewrite List.length_app, Hl. lia.
Qed.

Lemma dd_push_draws_in items :
  items <> [] ->
  forall n q g, Forall (fun it => In it items) q ->
    Forall (fun it => In it items) (fst (push_draws n items q g)).
Proof.
  intros Hne. induction n as [|n IH]; intros q g Hq; cbn [push_draws].
  - exact Hq.
  - unfold Rng.uniform_int. destruct (Rng.next g) as [x g'].
    apply IH. constructor; [|exact Hq].
    unfold at_, size. now apply drawn_item_in.
Qed.

(** *** The size of the queue *)

Lemma dd_fg_step_queue_bound d s :
  size (queue s) <= MAX_QUEUE_SIZE + 10 ->
  size (queue (fg_step d s)) <= MAX_QUEUE_SIZE + 10.
Proof.
  intros Hs. unfold fg_step.
  destruct (queue s) as [|cur rest] eqn:E; [rewrite E; exact Hs|].
  assert (Hrest : size rest = size (cur :: rest) - 1)
    by (unfold size; cbn [List.length]; lia).
  destruct (total_multiplier_of d cur (rng s)) as [tm g1].
  destruct (flag cur); [|cbn [queue]; lia].
  destruct (size rest >? MAX_QUEUE_SIZE) eqn:Hcap; [cbn [queue]; lia|].
  pose proof (dd_push_draws_size (fg_items d) 10 rest g1) as Hp.
  destruct (push_draws 10 (fg_items d) rest g1) as [q' g2].
  cbn [queue fst] in *. rewrite Z.gtb_ltb in Hcap. apply Z.ltb_ge in Hcap. lia.
Qed.

Lemma dd_fg_start_queue_size d g : size (queue (fg_start d g)) = 10.
Proof.
  unfold fg_start.
  pose proof (dd_push_draws_size (fg_items d) 10 [] g) as Hp.
  destruct (push_draws 10 (fg_items d) [] g) as [q g']. cbn [queue fst] in *.
  rewrite Hp. reflexivity.
Qed.

(** X1.  The feature queue never holds more than 1,010 items: the cap of 1,000
    is tested on the queue left after the pop, and a push adds ten. *)
Theorem deepdive_queue_never_exceeds_1010 d g n :
  size (queue (Nat.iter n (fg_step d) (fg_start d g))) <= 1010.
Proof.
  change 1010 with (MAX_QUEUE_SIZE + 10).
  apply (dd_iter_inv d (fun s => size (queue s) <= MAX_QUEUE_SIZE + 10)).
  - intros s. apply dd_fg_step_queue_bound.
  - rewrite dd_fg_start_queue_size. unfold MAX_QUEUE_SIZE. lia.
Qed.

(** *** Rounds whose feature items never continue *)

Lemma dd_push_draws_forall (P : FG_Item -> Prop) items :
  items <> [] -> Forall P items ->
  forall n q g, Forall P q -> Forall P (fst (push_draws n items q g)).
Proof.
  intros Hne Hall. induction n as [|n IH]; intros q g Hq; cbn [push_draws].
  - exact Hq.
  - unfold Rng.uniform_int. destruct (Rng.next g) as [x g'].
    apply IH. constructor; [|exact Hq].
    rewrite Forall_forall in Hall. apply Hall.
    unfold at_, size. now apply drawn_item_in.
Qed.

Lemma dd_fg_loop_calm d fuel :
  forall s,
    Forall (fun it => flag it = false) (queue s) ->
    (List.length (queue s) <= fuel)%nat ->
    exists s',
      fg_loop fuel d s = Returns s' /\ queue s' = []
      /\ fg_items_processed s' = fg_items_processed s + size (queue s).
Proof.
  induction fuel as [|fuel IH]; intros s Hq Hfuel; cbn [fg_loop].
  - destruct (queue s) eqn:E; [|cbn in Hfuel; lia].
    exists s. rewrite E. unfold size. cbn. repeat split; try assumption; lia.
  - destruct (queue s) as [|cur rest] eqn:E.
    + exists s. rewrite E. unfold size. cbn. repeat split; try assumption; lia.
    + inversion Hq as [|? ? Hcur Hrest]; subst.
      assert (Hstep : queue (fg_step d s) = rest
                      /\ fg_items_processed (fg_step d s)
                         = fg_items_processed s + 1).
      { unfold fg_step. rewrite E.
        destruct (total_multiplier_of d cur (rng s)) as [tm g1].
        rewrite Hcur. cbn. split; reflexivity. }
      destruct Hstep as [Hq' Hp'].
      destruct (IH (fg_step d s)) as (s' & Hrun & Hnil & Hcount).
      * rewrite Hq'. exact Hrest.
      * rewrite Hq'. cbn [List.length] in Hfuel. lia.
      * exists s'. repeat split; [exact Hrun | exact Hnil|].
        rewrite Hcount, Hp', Hq'. unfold size. cbn [List.length]. lia.
Qed.

Lemma dd_fg_stage_calm fuel d g b l :
  Forall (fun it => flag it = false) (fg_items d) -> (10 <= fuel)%nat ->
  exists rd,
    fg_stage fuel d g b l = Returns rd
    /\ fg_run_length (result rd)
       = match fg_items d with [] => 0 | _ :: _ => 10 end.
Proof.
  intros Hcalm Hfuel. unfold fg_stage, plain.
  destruct (fg_items d) eqn:E; [eexists; split; reflexivity|].
  rewrite <- E in *.
  assert (Hne : fg_items d <> []) by (rewrite E; discriminate).
  assert (Hstart : Forall (fun it => flag it = false) (queue (fg_start d g))
                   /\ List.length (queue (fg_start d g)) = 10%nat
                   /\ fg_items_processed (fg_start d g) = 0).
  { unfold fg_start.
    pose proof (dd_push_draws_forall _ _ Hne Hcalm 10 [] g (Forall_nil _)) as H1.
    destruct (dd_push_draws_extends (fg_items d) 10 [] g) as (dr & Hl & He).
    destruct (push_draws 10 (fg_items d) [] g) as [q g']. cbn [queue fst] in *.
    repeat split; [exact H1|].
    rewrite He, List.length_app, Hl. reflexivity. }
  destruct Hstart as (H1 & H2 & H3).
  destruct (dd_fg_loop_calm d fuel (fg_start d g) H1) as (s' & Hrun & _ & Hc);
    [lia|].
  rewrite Hrun. eexists. split; [reflexivity|]. cbn [result fg_run_length].
  rewrite Hc, H3. unfold size. rewrite H2. reflexivity.
Qed.

(** X2.  When no feature item has its continuation flag set, every round of an
    initialised game returns within ten iterations of the feature loop,
    and a feature game that is played makes exactly the ten initial
    picks. *)
Theorem deepdive_round_without_continuation_makes_ten_picks
        fuel G g mode p :
  isInitialized G = true ->
  Forall (fun it => flag it = false) (fg_items (gameData G)) ->
  (10 <= fuel)%nat ->
  exists rd,
    simulateGameRound fuel G g mode p = Returns rd
    /\ (fg_run_length (result rd) = 0 \/ fg_run_length (result rd) = 10)
    /\ (mode = FG_ONLY -> bg_items (gameData G) <> [] ->
        fg_items (gameData G) <> [] -> fg_run_length (result rd) = 10).
Proof.
  intros Hinit Hcalm Hfuel. unfold simulateGameRound. rewrite Hinit. cbn [negb].
  assert (Hstage : forall g0 b l,
             exists rd,
               fg_stage fuel (gameData G) g0 b l = Returns rd
               /\ (fg_run_length (result rd) = 0
                   \/ fg_run_length (result rd) = 10)
               /\ (fg_items (gameData G) <> [] ->
                   fg_run_length (result rd) = 10)).
  { intros g0 b l.
    destruct (dd_fg_stage_calm fuel (gameData G) g0 b l Hcalm Hfuel)
      as (rd & Hrun & Hlen).
    exists rd. split; [exact Hrun|].
    destruct (fg_items (gameData G)); [split; [now left | congruence]|].
    split; [now right | intros _; exact Hlen]. }
  assert (Hplain : forall r g0,
             fg_run_length r = 0 -> mode <> FG_ONLY ->
             exists rd,
               plain r g0 = Returns rd
               /\ (fg_run_length (result rd) = 0
                   \/ fg_run_length (result rd) = 10)
               /\ (mode = FG_ONLY -> bg_items (gameData G) <> [] ->
                   fg_items (gameData G) <> [] ->
                   fg_run_length (result rd) = 10)).
  { intros r g0 Hr Hm. eexists. split; [reflexivity|]. cbn [result].
    split; [now left | congruence]. }
  destruct (bg_items (gameData G)) eqn:Hbg.
  - eexists. split; [reflexivity|]. cbn. split; [now left | congruence].
  - destruct mode.
    + destruct (Rng.uniform_int _ g) as [i g1].
      destruct (bg_flag _).
      * destruct (Hstage g1 (bg_value (at_ no_bg (b :: l) i))
                    (bg_item_levels (at_ no_bg (b :: l) i)))
          as (rd & H1 & H2 & _).
        exists rd. repeat split; [exact H1 | exact H2 | discriminate].
      * destruct (Qlt_le_dec 0 p).
        -- destruct (Rng.uniform_real g1) as [u g'].
           destruct (Qlt_le_dec u p).
           ++ destruct (Hstage g' (bg_value (at_ no_bg (b :: l) i))
                          (bg_item_levels (at_ no_bg (b :: l) i)))
                as (rd & H1 & H2 & _).
              exists rd. repeat split; [exact H1 | exact H2 | discriminate].
           ++ apply Hplain; [reflexivity | discriminate].
        -- apply Hplain; [reflexivity | discriminate].
    + destruct (Hstage g 0 0) as (rd & H1 & H2 & H3).
      exists rd. repeat split; [exact H1 | exact H2|]. intros _ _. exact H3.
    + destruct (Rng.uniform_int _ g) as [i g1].
      apply Hplain; [reflexivity | discriminate].
Qed.

Lemma deepdive_round_without_continuation_makes_ten_picks_witness :
  exists rd,
    simulateGameRound 10
      (mkGlobal (mkData [mkBG 1 5 false 1] [mkFG 7 20 false 0 3] [] ∅) true)
      (Rng.of_list []) FG_ONLY 0 = Returns rd
    /\ fg_run_length (result rd) = 10.
Proof.
  destruct (deepdive_round_without_continuation_makes_ten_picks 10
              (mkGlobal (mkData [mkBG 1 5 false 1] [mkFG 7 20 false 0 3] [] ∅)
                        true)
              (Rng.of_list []) FG_ONLY 0%Q)
    as (rd & Hrun & _ & Hten).
  - reflexivity.
  - repeat constructor.
  - lia.
  - exists rd. split; [exact Hrun|].
    apply Hten; [reflexivity | discriminate | discriminate].
Defined.

(** *** Results of rounds *)

Lemma dd_fg_stage_triggered fuel d g b l rd :
  fg_stage fuel d g b l = Returns rd -> fg_was_triggered (result rd) = true.
Proof.
  unfold fg_stage, plain. destruct (fg_items d); [now intros [= <-]|].
  destruct (fg_loop fuel d (fg_start d g)); try discriminate.
  now intros [= <-].
Qed.

Lemma dd_untriggered_round fuel G g mode p rd :
  simulateGameRound fuel G g mode p = Returns rd ->
  fg_was_triggered (result rd) = false ->
  fg_score (result rd) = 0 /\ fg_run_length (result rd) = 0
  /\ fg_nonzero_picks (result rd) = 0 /\ fg_levels (result rd) = []
  /\ max_fg_multiplier (result rd) = 1.
Proof.
  unfold simulateGameRound, plain.
  destruct (isInitialized G); cbn [negb]; [|discriminate].
  assert (Hstage : forall g0 b l,
             fg_stage fuel (gameData G) g0 b l = Returns rd ->
             fg_was_triggered (result rd) = false ->
             fg_score (result rd) = 0 /\ fg_run_length (result rd) = 0
             /\ fg_nonzero_picks (result rd) = 0 /\ fg_levels (result rd) = []
             /\ max_fg_multiplier (result rd) = 1).
  { intros g0 b l Hrun Hno. apply dd_fg_stage_triggered in Hrun. congruence. }
  destruct (bg_items (gameData G)); [intros [= <-]; cbn; tauto|].
  destruct mode.
  - destruct (Rng.uniform_int _ g) as [i g1].
    destruct (bg_flag _); [apply Hstage|].
    destruct (Qlt_le_dec 0 p); [|intros [= <-]; cbn; tauto].
    destruct (Rng.uniform_real g1) as [u g'].
    destruct (Qlt_le_dec u p); [apply Hstage | intros [= <-]; cbn; tauto].
  - apply Hstage.
  - destruct (Rng.uniform_int _ g) as [i g1]. intros [= <-]; cbn; tauto.
Qed.

(** *** The second chance *)

(** X3.  In FULL_GAME mode a round whose base item does not trigger the
    feature game is given a second chance: with a probability of 1 or more
    every returned round has played the feature game, with a probability of
    0 or less the feature game is played exactly when the drawn base item
    has its flag set. *)
Theorem deepdive_second_chance_extremes fuel G g p rd :
  bg_items (gameData G) <> [] ->
  simulateGameRound fuel G g FULL_GAME p = Returns rd ->
  ((1 <= p)%Q -> fg_was_triggered (result rd) = true)
  /\ ((p <= 0)%Q ->
      fg_was_triggered (result rd)
      = bg_flag (at_ no_bg (bg_items (gameData G))
                   (fst (Rng.uniform_int (size (bg_items (gameData G))) g)))).
Proof.
  intros Hbg. unfold simulateGameRound, plain.
  destruct (isInitialized G); cbn [negb]; [|discriminate].
  destruct (bg_items (gameData G)) as [|b0 bs] eqn:E; [congruence|].
  destruct (Rng.uniform_int _ g) as [i g1]. cbn [fst].
  destruct (bg_flag _) eqn:Hflag.
  - intros Hrun. apply dd_fg_stage_triggered in Hrun. now rewrite Hrun.
  - destruct (Qlt_le_dec 0 p) as [Hpos|Hnonpos].
    + pose proof (RngProps.uniform_real_below_one g1) as Hu.
      destruct (Rng.uniform_real g1) as [u g']. cbn [fst] in Hu.
      destruct (Qlt_le_dec u p) as [Hlt|Hge].
      * intros Hrun. apply dd_fg_stage_triggered in Hrun. rewrite Hrun.
        split; [reflexivity|]. intros Hp. exfalso.
        apply (Qlt_irrefl 0). eapply Qlt_le_trans; eassumption.
      * intros [= <-]. cbn. split; [|reflexivity]. intros Hp. exfalso.
        apply (Qlt_irrefl u). eapply Qlt_le_trans; [exact Hu|].
        eapply Qle_trans; eassumption.
    + intros [= <-]. cbn. split; [|reflexivity]. intros Hp. exfalso.
      apply (Qlt_irrefl 0). eapply Qlt_le_trans; [|exact Hnonpos].
      eapply Qlt_le_trans; [|exact Hp]. reflexivity.
Qed.

Lemma deepdive_second_chance_extremes_witness :
  exists rd,
    simulateGameRound 10
      (mkGlobal (mkData [mkBG 1 5 false 1] [mkFG 7 20 false 0 3] [] ∅) true)
      (Rng.of_list []) FULL_GAME 1 = Returns rd
    /\ fg_was_triggered (result rd) = true.
Proof.
  eexists. split; [vm_compute; reflexivity|].
  refine (proj1 (deepdive_second_chance_extremes 10
            (mkGlobal (mkData [mkBG 1 5 false 1] [mkFG 7 20 false 0 3] [] ∅)
                      true)
            (Rng.of_list []) 1%Q _ _ _) _).
  - discriminate.
  - vm_compute. reflexivity.
  - discriminate.
Defined.

(** *** Items without a pool *)

Lemma dd_total_multiplier_unpooled d it g :
  count it <> 0 -> item_to_pool_map d !! index it = None ->
  total_multiplier_of d it g = (0, g).
Proof.
  intros Hc Hm. unfold total_multiplier_of.
  destruct (count it =? 0) eqn:E; [apply Z.eqb_eq in E; congruence|].
  now rewrite Hm.
Qed.

Lemma dd_fg_step_unpooled d s :
  fg_items d <> [] ->
  Forall (fun it => count it <> 0 /\ item_to_pool_map d !! index it = None)
         (fg_items d) ->
  Forall (fun it => count it <> 0 /\ item_to_pool_map d !! index it = None)
         (queue s)
  /\ st_fg_score s = 0 /\ st_fg_nonzero_picks s = 0
  /\ st_max_fg_multiplier s = 1 ->
  Forall (fun it => count it <> 0 /\ item_to_pool_map d !! index it = None)
         (queue (fg_step d s))
  /\ st_fg_score (fg_step d s) = 0 /\ st_fg_nonzero_picks (fg_step d s) = 0
  /\ st_max_fg_multiplier (fg_step d s) = 1.
Proof.
  intros Hne Hall (Hq & Hs & Hn & Hm). unfold fg_step.
  destruct (queue s) as [|cur rest] eqn:E; [rewrite E; tauto|].
  inversion Hq as [|? ? [Hc Hp] Hrest]; subst.
  rewrite (dd_total_multiplier_unpooled d cur (rng s) Hc Hp).
  rewrite Hs, Hn, Hm.
  replace (Int64.mul (value cur) 0) with 0
    by (unfold Int64.mul; rewrite Z.mul_0_r; reflexivity).
  change (0 >=? 1) with false. change (0 =? 0) with true. cbv iota.
  destruct (flag cur); [destruct (size rest >? MAX_QUEUE_SIZE)|];
    try (cbn; tauto).
  pose proof (dd_push_draws_forall _ _ Hne Hall 10 rest (rng s) Hrest) as Hpush.
  destruct (push_draws 10 (fg_items d) rest (rng s)) as [q' g2].
  cbn [fst] in Hpush. cbn. tauto.
Qed.

(** X4.  A feature item that asks for multipliers ([count] not 0) but has no
    entry in [item_to_pool_map] gets the total multiplier 0.  When every
    feature item is of this kind, every returned round has a feature score
    of 0, no non-zero pick and the neutral maximum multiplier 1, whatever
    the values of the items. *)
Theorem deepdive_items_without_pool_pay_nothing fuel G g mode p rd :
  Forall (fun it => count it <> 0
                    /\ item_to_pool_map (gameData G) !! index it = None)
         (fg_items (gameData G)) ->
  simulateGameRound fuel G g mode p = Returns rd ->
  fg_score (result rd) = 0 /\ fg_nonzero_picks (result rd) = 0
  /\ max_fg_multiplier (result rd) = 1.
Proof.
  intros Hall. unfold simulateGameRound, plain.
  destruct (isInitialized G); cbn [negb]; [|discriminate].
  assert (Hstage : forall g0 b l,
             fg_stage fuel (gameData G) g0 b l = Returns rd ->
             fg_score (result rd) = 0 /\ fg_nonzero_picks (result rd) = 0
             /\ max_fg_multiplier (result rd) = 1).
  { intros g0 b l. unfold fg_stage, plain.
    destruct (fg_items (gameData G)) eqn:E; [intros [= <-]; cbn; tauto|].
    rewrite <- E in *.
    assert (Hne : fg_items (gameData G) <> []) by (rewrite E; discriminate).
    destruct (fg_loop fuel (gameData G) (fg_start (gameData G) g0))
      as [s'| |] eqn:Hrun; try discriminate.
    intros [= <-]. cbn [result fg_score fg_nonzero_picks max_fg_multiplier].
    pose proof (dd_fg_loop_inv (gameData G) _
                  (fun s => dd_fg_step_unpooled (gameData G) s Hne Hall)
                  fuel (fg_start (gameData G) g0) s') as Hinv.
    refine ((fun H => proj2 (Hinv H Hrun)) _).
    unfold fg_start.
    pose proof (dd_push_draws_forall _ _ Hne Hall 10 [] g0 (Forall_nil _)) as Hp.
    destruct (push_draws 10 (fg_items (gameData G)) [] g0) as [q g'].
    cbn [fst] in Hp. cbn. tauto. }
  destruct (bg_items (gameData G)); [intros [= <-]; cbn; tauto|].
  destruct mode.
  - destruct (Rng.uniform_int _ g) as [i g1].
    destruct (bg_flag _); [apply Hstage|].
    destruct (Qlt_le_dec 0 p); [|intros [= <-]; cbn; tauto].
    destruct (Rng.uniform_real g1) as [u g'].
    destruct (Qlt_le_dec u p); [apply Hstage | intros [= <-]; cbn; tauto].
  - apply Hstage.
  - destruct (Rng.uniform_int _ g) as [i g1]. intros [= <-]; cbn; tauto.
Qed.

Lemma deepdive_items_without_pool_pay_nothing_witness :
  exists rd,
    simulateGameRound 10
      (mkGlobal (mkData [mkBG 1 5 true 1] [mkFG 7 20 false 2 3] [[4]] ∅) true)
      (Rng.of_list []) FG_ONLY 0 = Returns rd
    /\ fg_run_length (result rd) = 10
    /\ fg_score (result rd) = 0.
Proof.
  eexists. split; [vm_compute; reflexivity|]. split; [reflexivity|].
  refine (proj1 (deepdive_items_without_pool_pay_nothing 10
            (mkGlobal (mkData [mkBG 1 5 true 1] [mkFG 7 20 false 2 3] [[4]] ∅)
                      true)
            (Rng.of_list []) FG_ONLY 0%Q _ _ _)).
  - repeat constructor. discriminate.
  - vm_compute. reflexivity.
Defined.

(** *** Where the recorded values come from *)

Lemma dd_fg_step_levels_from_pool d s :
  fg_items d <> [] ->
  Forall (fun it => In it (fg_items d)) (queue s)
  /\ Forall (fun lv => exists it, In it (fg_items d) /\ levels it = lv)
            (st_fg_levels s) ->
  Forall (fun it => In it (fg_items d)) (queue (fg_step d s))
  /\ Forall (fun lv => exists it, In it (fg_items d) /\ levels it = lv)
            (st_fg_levels (fg_step d s)).
Proof.
  intros Hne (Hq & Hl). unfold fg_step.
  destruct (queue s) as [|cur rest] eqn:E; [rewrite E; tauto|].
  inversion Hq as [|? ? Hcur Hrest]; subst.
  destruct (total_multiplier_of d cur (rng s)) as [tm g1].
  pose proof (dd_push_draws_forall (fun it => In it (fg_items d)) _ Hne
                (proj2 (Forall_forall _ _) (fun x H => H))
                10 rest g1 Hrest) as Hpush.
  assert (Hl' : Forall (fun lv => exists it, In it (fg_items d)
                                             /\ levels it = lv)
                       (st_fg_levels s ++ [levels cur])).
  { apply Forall_app. split; [exact Hl|]. constructor; [|constructor].
    exists cur. split; [exact Hcur | reflexivity]. }
  destruct (flag cur);
    [destruct (size rest >? MAX_QUEUE_SIZE);
     [|destruct (push_draws 10 (fg_items d) rest g1) as [q' g2]]|];
    cbn [queue st_fg_levels fst] in *; tauto.
Qed.

Lemma dd_fg_stage_from_pools fuel d g b l rd :
  fg_stage fuel d g b l = Returns rd ->
  bg_score (result rd) = b /\ bg_levels (result rd) = l
  /\ max_bg_multiplier (result rd) = 1
  /\ Forall (fun lv => exists it, In it (fg_items d) /\ levels it = lv)
            (fg_levels (result rd)).
Proof.
  unfold fg_stage, plain.
  destruct (fg_items d) eqn:E; [intros [= <-]; cbn; repeat split; constructor|].
  rewrite <- E.
  assert (Hne : fg_items d <> []) by (rewrite E; discriminate).
  destruct (fg_loop fuel d (fg_start d g)) as [s'| |] eqn:Hrun;
    try discriminate.
  intros [= <-]. cbn. repeat split.
  pose proof (dd_fg_loop_inv d _
                (fun s0 => dd_fg_step_levels_from_pool d s0 Hne)
                fuel (fg_start d g) s') as Hinv.
  refine (proj2 (Hinv _ Hrun)). unfold fg_start.
  pose proof (dd_push_draws_forall (fun it => In it (fg_items d)) _ Hne
                (proj2 (Forall_forall _ _) (fun x H => H))
                10 [] g (Forall_nil _)) as Hpush.
  destruct (push_draws 10 (fg_items d) [] g) as [q g'].
  cbn [fst] in Hpush. cbn. split; [exact Hpush | constructor].
Qed.

Lemma dd_round_from_pools fuel G g mode p rd :
  simulateGameRound fuel G g mode p = Returns rd ->
  ((bg_score (result rd) = 0 /\ bg_levels (result rd) = 0)
   \/ exists b, In b (bg_items (gameData G))
                /\ bg_score (result rd) = bg_value b
                /\ bg_levels (result rd) = bg_item_levels b)
  /\ (mode = FG_ONLY -> bg_score (result rd) = 0 /\ bg_levels (result rd) = 0)
  /\ max_bg_multiplier (result rd) = 1
  /\ Forall (fun lv => exists it, In it (fg_items (gameData G))
                                  /\ levels it = lv)
            (fg_levels (result rd)).
Proof.
  unfold simulateGameRound, plain.
  destruct (isInitialized G); cbn [negb]; [|discriminate].
  destruct (bg_items (gameData G)) as [|b0 bs] eqn:E.
  { intros [= <-]. cbn. split; [left; tauto|]. split; [tauto|].
    split; [reflexivity | constructor]. }
  assert (Hin : In (at_ no_bg (b0 :: bs)
                      (fst (Rng.uniform_int (size (b0 :: bs)) g)))
                   (b0 :: bs)).
  { unfold Rng.uniform_int. destruct (Rng.next g) as [y x']. cbn [fst].
    unfold at_, size. apply drawn_item_in. discriminate. }
  assert (Hstage : forall g0 b,
             In b (b0 :: bs) ->
             fg_stage fuel (gameData G) g0 (bg_value b) (bg_item_levels b)
             = Returns rd ->
             ((bg_score (result rd) = 0 /\ bg_levels (result rd) = 0)
              \/ exists b, In b (b0 :: bs)
                           /\ bg_score (result rd) = bg_value b
                           /\ bg_levels (result rd) = bg_item_levels b)
             /\ (FULL_GAME = FG_ONLY ->
                 bg_score (result rd) = 0 /\ bg_levels (result rd) = 0)
             /\ max_bg_multiplier (result rd) = 1
             /\ Forall (fun lv => exists it, In it (fg_items (gameData G))
                                             /\ levels it = lv)
                       (fg_levels (result rd))).
  { intros g0 b Hb Hrun.
    destruct (dd_fg_stage_from_pools _ _ _ _ _ _ Hrun) as (H1 & H2 & H3 & H4).
    split; [right; exists b; tauto|]. split; [discriminate|].
    split; [exact H3 | exact H4]. }
  destruct mode.
  - destruct (Rng.uniform_int _ g) as [i g1]. cbn [fst] in Hin.
    destruct (bg_flag _); [now apply Hstage|].
    destruct (Qlt_le_dec 0 p).
    + destruct (Rng.uniform_real g1) as [u g'].
      destruct (Qlt_le_dec u p); [now apply Hstage|].
      intros [= <-]. cbn.
      split; [right; eexists; split; [exact Hin | split; reflexivity]|].
      split; [discriminate|]. split; [reflexivity | constructor].
    + intros [= <-]. cbn.
      split; [right; eexists; split; [exact Hin | split; reflexivity]|].
      split; [discriminate|]. split; [reflexivity | constructor].
  - intros Hrun.
    destruct (dd_fg_stage_from_pools _ _ _ _ _ _ Hrun) as (H1 & H2 & H3 & H4).
    split; [left; tauto|]. split; [tauto|]. split; [exact H3 | exact H4].
  - destruct (Rng.uniform_int _ g) as [i g1]. cbn [fst] in Hin.
    intros [= <-]. cbn.
    split; [right; eexists; split; [exact Hin | split; reflexivity]|].
    split; [discriminate|]. split; [reflexivity | constructor].
Qed.

End DeepDiveRounds.

(** ** The trigger-count variant: further properties *)

Module SS03GameRounds.
Import SS03Game.
Import SS03GameProps.

(** *** Invariants of the loop, generically *)

Section LoopInvariant.

Variable d : GameData.
Variable Inv : FgState -> Prop.
Hypothesis Inv_step : forall s, Inv s -> Inv (fg_step d s).

Lemma ss_fg_loop_inv fuel :
  forall s s', Inv s -> fg_loop fuel d s = Returns s' -> Inv s'.
Proof.
  induction fuel as [|fuel IH]; intros s s' Hs; cbn [fg_loop].
  - destruct (queue s); [intros [= <-]; exact Hs|].
    destruct (size _ >? MAX_QUEUE_SIZE); [intros [= <-]; exact Hs | discriminate].
  - destruct (queue s) eqn:Hq; [intros [= <-]; exact Hs|].
    destruct (size _ >? MAX_QUEUE_SIZE); [intros [= <-]; exact Hs|].
    intros Hrun. eapply IH; [|exact Hrun]. now apply Inv_step.
Qed.

End LoopInvariant.

Lemma ss_push_draws_forall (P : FG_Item -> Prop) items :
  items <> [] -> Forall P items ->
  forall n q g, Forall P q -> Forall P (fst (push_draws n items q g)).
Proof.
  intros Hne Hall. induction n as [|n IH]; intros q g Hq; cbn [push_draws].
  - exact Hq.
  - unfold Rng.uniform_int. destruct (Rng.next g) as [x g'].
    apply IH. constructor; [|exact Hq].
    rewrite Forall_forall in Hall. apply Hall.
    unfold at_, size. now apply drawn_item_in.
Qed.

(** *** The shape of a round *)

(** What [fg_sequence] returns: the result it was given, that result
    marked as triggered, or the result of a loop started on a queue of
    [n] drawn items. *)
Lemma ss_fg_sequence_cases fuel d g r n rd :
  fg_sequence fuel d g r n = Returns rd ->
  (n <= 0 /\ result rd = r /\ unprocessed rd = O)
  \/ (n > 0 /\ fg_items d = [] /\ result rd = triggered r
      /\ unprocessed rd = O)
  \/ (n > 0 /\ fg_items d <> []
      /\ exists q g1 s,
          List.length q = Z.to_nat n
          /\ Forall (fun it => In it (fg_items d)) q
          /\ fg_loop fuel d (mkState q g1 (triggered r)) = Returns s
          /\ result rd = res s
          /\ unprocessed rd = List.length (queue s)).
Proof.
  unfold fg_sequence, plain.
  destruct (n >? 0) eqn:Hn.
  - rewrite Z.gtb_ltb in Hn. apply Z.ltb_lt in Hn.
    destruct (fg_items d) eqn:E.
    + intros [= <-]. right; left. split; [lia|]. repeat split.
    + rewrite <- E.
      assert (Hne : fg_items d <> []) by (rewrite E; discriminate).
      pose proof (ss_push_draws_length (fg_items d) (Z.to_nat n) [] g) as Hl.
      pose proof (ss_push_draws_forall (fun it => In it (fg_items d))
                    (fg_items d) Hne (proj2 (Forall_forall _ _) (fun x H => H))
                    (Z.to_nat n) [] g (Forall_nil _)) as Hin.
      destruct (push_draws _ (fg_items d) [] g) as [q g1].
      cbn [fst List.length] in Hl, Hin. rewrite Nat.add_0_r in Hl.
      destruct (fg_loop fuel d _) as [s| |] eqn:Hrun; try discriminate.
      intros [= <-]. right; right.
      split; [lia|]. split; [exact Hne|].
      exists q, g1, s. repeat split; [exact Hl | exact Hin | exact Hrun].
  - rewrite Z.gtb_ltb in Hn. apply Z.ltb_ge in Hn.
    intros [= <-]. left. split; [lia|]. repeat split.
Qed.

(** Every returned round is the outcome of [fg_sequence] on one of four
    starting results. *)
Lemma ss_round_cases fuel G g mode p rd :
  simulateGameRound fuel G g mode p = Returns rd ->
  exists r g0 n,
    fg_sequence fuel (gameData G) g0 r n = Returns rd
    /\ ((r = empty_result /\ n = 0)
        \/ (mode = FG_ONLY /\ r = triggered empty_result /\ n = 10)
        \/ (mode = BG_ONLY /\ n = 0
            /\ exists b, In b (bg_items (gameData G))
                         /\ r = with_bg empty_result b)
        \/ (mode = FULL_GAME
            /\ exists b, In b (bg_items (gameData G))
                         /\ r = with_bg empty_result b
                         /\ (n = trigger_num b
                             \/ (trigger_num b = 0 /\ n = 10)))).
Proof.
  unfold simulateGameRound.
  destruct (isInitialized G); cbn [negb]; [|discriminate].
  assert (Hplain : forall r g0, plain r g0
                                = fg_sequence fuel (gameData G) g0 r 0).
  { intros r g0. unfold fg_sequence. reflexivity. }
  assert (Hin : forall x b0 bs,
             bg_items (gameData G) = b0 :: bs ->
             In (at_ no_bg (b0 :: bs)
                     (fst (Rng.uniform_int (size (b0 :: bs)) x)))
                (bg_items (gameData G))).
  { intros x b0 bs E. rewrite E. unfold Rng.uniform_int.
    destruct (Rng.next x) as [y x']. cbn [fst]. unfold at_, size.
    apply drawn_item_in. discriminate. }
  destruct mode.
  - destruct (bg_items (gameData G)) as [|b0 bs] eqn:E.
    + rewrite Hplain. intros Hrun.
      exists empty_result, g, 0. split; [exact Hrun | now left].
    + specialize (Hin g b0 bs eq_refl).
      destruct (Rng.uniform_int _ g) as [i g1]. cbn [fst] in Hin.
      set (b := at_ no_bg (b0 :: bs) i) in *.
      destruct (trigger_num b =? 0) eqn:Ht.
      * apply Z.eqb_eq in Ht.
        destruct (Qlt_le_dec 0 p).
        -- destruct (Rng.uniform_real g1) as [u g'].
           destruct (Qlt_le_dec u p); intros Hrun.
           ++ exists (with_bg empty_result b), g', 10.
              split; [exact Hrun|]. right; right; right.
              split; [reflexivity|]. exists b. tauto.
           ++ exists (with_bg empty_result b), g', (trigger_num b).
              split; [exact Hrun|]. right; right; right.
              split; [reflexivity|]. exists b. tauto.
        -- intros Hrun. exists (with_bg empty_result b), g1, (trigger_num b).
           split; [exact Hrun|]. right; right; right.
           split; [reflexivity|]. exists b. tauto.
      * intros Hrun. exists (with_bg empty_result b), g1, (trigger_num b).
        split; [exact Hrun|]. right; right; right.
        split; [reflexivity|]. exists b. tauto.
  - intros Hrun. exists (triggered empty_result), g, 10.
    split; [exact Hrun|]. right; left. tauto.
  - destruct (bg_items (gameData G)) as [|b0 bs] eqn:E.
    + rewrite Hplain. intros Hrun.
      exists empty_result, g, 0. split; [exact Hrun | now left].
    + specialize (Hin g b0 bs eq_refl).
      destruct (Rng.uniform_int _ g) as [i g1]. cbn [fst] in Hin.
      rewrite Hplain. intros Hrun.
      exists (with_bg empty_result (at_ no_bg (b0 :: bs) i)), g1, 0.
      split; [exact Hrun|]. right; right; left.
      split; [reflexivity|]. split; [reflexivity|].
      eexists. split; [exact Hin | reflexivity].
Qed.

(** The loop only touches the feature fields of the result. *)
Lemma ss_fg_step_frame d s :
  bg_score (res (fg_step d s)) = bg_score (res s)
  /\ fg_was_triggered (res (fg_step d s)) = fg_was_triggered (res s)
  /\ max_bg_multiplier (res (fg_step d s)) = max_bg_multiplier (res s)
  /\ bg_levels (res (fg_step d s)) = bg_levels (res s).
Proof.
  unfold fg_step. destruct (queue s) as [|cur rest]; [tauto|].
  destruct (retrigger_num cur >? 0);
    [destruct (push_draws _ (fg_items d) rest (rng s)) as [q' g']|];
    cbn; tauto.
Qed.

Lemma ss_fg_loop_frame d r0 fuel s s' :
  bg_score (res s) = bg_score r0
  /\ fg_was_triggered (res s) = fg_was_triggered r0
  /\ max_bg_multiplier (res s) = max_bg_multiplier r0
  /\ bg_levels (res s) = bg_levels r0 ->
  fg_loop fuel d s = Returns s' ->
  bg_score (res s') = bg_score r0
  /\ fg_was_triggered (res s') = fg_was_triggered r0
  /\ max_bg_multiplier (res s') = max_bg_multiplier r0
  /\ bg_levels (res s') = bg_levels r0.
Proof.
  apply (ss_fg_loop_inv d
           (fun s => bg_score (res s) = bg_score r0
                     /\ fg_was_triggered (res s) = fg_was_triggered r0
                     /\ max_bg_multiplier (res s) = max_bg_multiplier r0
                     /\ bg_levels (res s) = bg_levels r0)).
  intros s0 H. destruct (ss_fg_step_frame d s0) as (H1 & H2 & H3 & H4).
  rewrite H1, H2, H3, H4. exact H.
Qed.

(** The base fields of the result of [fg_sequence] are those it was
    given; the result is triggered when [n] is positive and keeps its flag
    otherwise. *)
Lemma ss_fg_sequence_frame fuel d g r n rd :
  fg_sequence fuel d g r n = Returns rd ->
  bg_score (result rd) = bg_score r
  /\ max_bg_multiplier (result rd) = max_bg_multiplier r
  /\ bg_levels (result rd) = bg_levels r
  /\ fg_was_triggered (result rd)
     = if n >? 0 then true else fg_was_triggered r.
Proof.
  intros Hrun.
  destruct (ss_fg_sequence_cases _ _ _ _ _ _ Hrun)
    as [(Hn & -> & _) | [(Hn & _ & -> & _) | (Hn & _ & q & g1 & s & _ & _ & Hloop & -> & _)]].
  - destruct (n >? 0) eqn:E; [rewrite Z.gtb_ltb in E; apply Z.ltb_lt in E; lia|].
    tauto.
  - destruct (n >? 0) eqn:E; [|rewrite Z.gtb_ltb in E; apply Z.ltb_ge in E; lia].
    cbn. tauto.
  - destruct (n >? 0) eqn:E; [|rewrite Z.gtb_ltb in E; apply Z.ltb_ge in E; lia].
    destruct (ss_fg_loop_frame d (triggered r) fuel
                (mkState q g1 (triggered r)) s
                (conj eq_refl (conj eq_refl (conj eq_refl eq_refl))) Hloop)
      as (H1 & H2 & H3 & H4).
    cbn in *. tauto.
Qed.

Lemma ss_untriggered_round fuel G g mode p rd :
  simulateGameRound fuel G g mode p = Returns rd ->
  fg_was_triggered (result rd) = false ->
  fg_score (result rd) = 0 /\ fg_run_length (result rd) = 0
  /\ fg_nonzero_picks (result rd) = 0 /\ fg_levels (result rd) = []
  /\ max_fg_multiplier (result rd) = 1.
Proof.
  intros Hrun Hno.
  destruct (ss_round_cases _ _ _ _ _ _ Hrun) as (r & g0 & n & Hseq & Hstart).
  destruct (ss_fg_sequence_frame _ _ _ _ _ _ Hseq) as (_ & _ & _ & Htrig).
  rewrite Hno in Htrig.
  destruct (n >? 0) eqn:E; [discriminate|].
  rewrite Z.gtb_ltb in E. apply Z.ltb_ge in E.
  destruct (ss_fg_sequence_cases _ _ _ _ _ _ Hseq)
    as [(_ & -> & _) | [(Hn & _) | (Hn & _)]]; try lia.
  destruct Hstart as [[-> _] | [(_ & -> & _) | [(_ & _ & b & _ & ->)
                                              | (_ & b & _ & -> & _)]]];
    cbn; tauto.
Qed.

(** *** The reported multipliers *)

Lemma ss_fg_step_max_multiplier d s :
  max_fg_multiplier (res s)
  = fold_left Z.max (map fg_multiplier_of (fg_levels (res s))) 1 ->
  max_fg_multiplier (res (fg_step d s))
  = fold_left Z.max (map fg_multiplier_of (fg_levels (res (fg_step d s)))) 1.
Proof.
  intros H. unfold fg_step. destruct (queue s) as [|cur rest]; [exact H|].
  assert (Hmax : (if fg_multiplier_of (levels cur) >? max_fg_multiplier (res s)
                  then fg_multiplier_of (levels cur)
                  else max_fg_multiplier (res s))
                 = fold_left Z.max
                     (map fg_multiplier_of (fg_levels (res s) ++ [levels cur]))
                     1).
  { rewrite map_app, fold_left_app, <- H. cbn [map fold_left].
    destruct (_ >? _) eqn:E; rewrite Z.gtb_ltb in E;
      [apply Z.ltb_lt in E | apply Z.ltb_ge in E]; lia. }
  destruct (retrigger_num cur >? 0);
    [destruct (push_draws _ (fg_items d) rest (rng s)) as [q' g']|];
    cbn [res max_fg_multiplier fg_levels]; exact Hmax.
Qed.

Lemma fg_multiplier_of_values lv : In (fg_multiplier_of lv) [2; 4; 6; 10].
Proof.
  unfold fg_multiplier_of.
  destruct (lv <=? 0); [cbn; tauto|].
  destruct (lv =? 1); [cbn; tauto|].
  destruct (lv =? 2); [cbn; tauto|].
  destruct (lv =? 3); cbn; tauto.
Qed.

Lemma bg_multiplier_of_values lv : In (bg_multiplier_of lv) [1; 2; 3; 5].
Proof.
  unfold bg_multiplier_of.
  destruct (lv <=? 0); [cbn; tauto|].
  destruct (lv =? 1); [cbn; tauto|].
  destruct (lv =? 2); [cbn; tauto|].
  destruct (lv =? 3); cbn; tauto.
Qed.

Lemma fold_max_multipliers lvs :
  forall a, In a [1; 2; 4; 6; 10] ->
    In (fold_left Z.max (map fg_multiplier_of lvs) a) [1; 2; 4; 6; 10]
    /\ (lvs <> [] ->
        In (fold_left Z.max (map fg_multiplier_of lvs) a) [2; 4; 6; 10]
        \/ a = fold_left Z.max (map fg_multiplier_of lvs) a /\ a <> 1).
Proof.
  induction lvs as [|lv lvs IH]; intros a Ha; cbn [map fold_left].
  - split; [exact Ha | congruence].
  - assert (Hm : In (Z.max a (fg_multiplier_of lv)) [2; 4; 6; 10]).
    { pose proof (fg_multiplier_of_values lv) as Hv. cbn in Ha, Hv |- *. lia. }
    assert (Hm' : In (Z.max a (fg_multiplier_of lv)) [1; 2; 4; 6; 10])
      by (right; exact Hm).
    destruct (IH _ Hm') as [H1 H2]. split; [exact H1|]. intros _.
    destruct lvs as [|lv' lvs']; [left; exact Hm|].
    destruct H2 as [H2 | [H2 H3]]; [discriminate | left; exact H2|].
    left. rewrite <- H2. exact Hm.
Qed.

(** X5.  The multiplier maxima of a returned result are determined by the
    levels it records: [max_bg_multiplier] is the multiplier of
    [bg_levels] (1, 2, 3 or 5) and [max_fg_multiplier] is the largest
    multiplier of the entries of [fg_levels] (2, 4, 6 or 10), or the
    neutral value 1 when no pick was made. *)
Theorem ss03_multiplier_maxima_follow_the_levels fuel G g mode p rd :
  simulateGameRound fuel G g mode p = Returns rd ->
  max_bg_multiplier (result rd) = bg_multiplier_of (bg_levels (result rd))
  /\ max_fg_multiplier (result rd)
     = fold_left Z.max (map fg_multiplier_of (fg_levels (result rd))) 1
  /\ In (max_bg_multiplier (result rd)) [1; 2; 3; 5]
  /\ (fg_levels (result rd) = [] -> max_fg_multiplier (result rd) = 1)
  /\ (fg_levels (result rd) <> [] ->
      In (max_fg_multiplier (result rd)) [2; 4; 6; 10]).
Proof.
  intros Hrun.
  destruct (ss_round_cases _ _ _ _ _ _ Hrun) as (r & g0 & n & Hseq & Hstart).
  assert (Hr : max_bg_multiplier r = bg_multiplier_of (bg_levels r)
               /\ max_fg_multiplier r = 1 /\ fg_levels r = []).
  { destruct Hstart as [[-> _] | [(_ & -> & _) | [(_ & _ & b & _ & ->)
                                                | (_ & b & _ & -> & _)]]];
      cbn; tauto. }
  destruct Hr as (Hbg & Hfg & Hlv).
  destruct (ss_fg_sequence_frame _ _ _ _ _ _ Hseq) as (_ & Hb1 & Hb2 & _).
  assert (Hmax : max_fg_multiplier (result rd)
                 = fold_left Z.max
                     (map fg_multiplier_of (fg_levels (result rd))) 1).
  { destruct (ss_fg_sequence_cases _ _ _ _ _ _ Hseq)
      as [(_ & -> & _) | [(_ & _ & -> & _)
                         | (_ & _ & q & g1 & s & _ & _ & Hloop & -> & _)]].
    - rewrite Hfg, Hlv. reflexivity.
    - cbn. rewrite Hfg, Hlv. reflexivity.
    - apply (ss_fg_loop_inv (gameData G) _
               (ss_fg_step_max_multiplier (gameData G)) fuel
               (mkState q g1 (triggered r)) s); [|exact Hloop].
      cbn. rewrite Hfg, Hlv. reflexivity. }
  split; [rewrite Hb1, Hb2; exact Hbg|]. split; [exact Hmax|].
  split; [rewrite Hb1, Hbg; apply bg_multiplier_of_values|].
  split.
  - intros Hnil. rewrite Hmax, Hnil. reflexivity.
  - intros Hne. rewrite Hmax.
    destruct (fold_max_multipliers (fg_levels (result rd)) 1) as [_ H];
      [cbn; tauto|].
    destruct (H Hne) as [H1 | [_ H1]]; [exact H1 | congruence].
Qed.

Lemma ss03_multiplier_maxima_follow_the_levels_witness :
  exists rd,
    simulateGameRound 100 sampleData
      (Rng.of_list [3; 0; 0; 1; 0; 0; 0; 0; 2; 2; 2; 2; 2]) FULL_GAME 0
    = Returns rd
    /\ max_fg_multiplier (result rd) = 6
    /\ In (max_fg_multiplier (result rd)) [2; 4; 6; 10].
Proof.
  eexists. split; [vm_compute; reflexivity|]. split; [reflexivity|].
  refine (proj2 (proj2 (proj2 (proj2
            (ss03_multiplier_maxima_follow_the_levels 100 sampleData
               (Rng.of_list [3; 0; 0; 1; 0; 0; 0; 0; 2; 2; 2; 2; 2])
               FULL_GAME 0%Q _ _)))) _).
  - vm_compute. reflexivity.
  - vm_compute. discriminate.
Defined.

(** *** Rounds whose feature items never retrigger *)

Lemma ss_fg_loop_without_retrigger d fuel :
  forall s,
    Forall (fun it => retrigger_num it <= 0) (queue s) ->
    (Nat.min (List.length (queue s)) 2000 <= fuel)%nat ->
    exists s',
      fg_loop fuel d s = Returns s'
      /\ (size (queue s) <= MAX_QUEUE_SIZE ->
          queue s' = []
          /\ fg_run_length (res s')
             = fg_run_length (res s) + size (queue s)).
Proof.
  induction fuel as [|fuel IH]; intros s Hq Hfuel; cbn [fg_loop].
  - destruct (queue s) as [|cur rest] eqn:E.
    + exists s. split; [reflexivity|]. intros _. rewrite E.
      unfold size. cbn. split; [reflexivity | lia].
    + destruct (size (cur :: rest) >? MAX_QUEUE_SIZE) eqn:Hcap.
      * exists s. split; [reflexivity|].
        rewrite Z.gtb_ltb in Hcap. apply Z.ltb_lt in Hcap. lia.
      * rewrite Z.gtb_ltb in Hcap. apply Z.ltb_ge in Hcap.
        unfold size, MAX_QUEUE_SIZE in Hcap. cbn [List.length] in *. lia.
  - destruct (queue s) as [|cur rest] eqn:E.
    + exists s. split; [reflexivity|]. intros _. rewrite E.
      unfold size. cbn. split; [reflexivity | lia].
    + destruct (size (cur :: rest) >? MAX_QUEUE_SIZE) eqn:Hcap.
      * exists s. split; [reflexivity|].
        rewrite Z.gtb_ltb in Hcap. apply Z.ltb_lt in Hcap. lia.
      * rewrite Z.gtb_ltb in Hcap. apply Z.ltb_ge in Hcap.
        inversion Hq as [|? ? Hcur Hrest]; subst.
        assert (Hstep : queue (fg_step d s) = rest
                        /\ fg_run_length (res (fg_step d s))
                           = fg_run_length (res s) + 1).
        { unfold fg_step. rewrite E.
          destruct (retrigger_num cur >? 0) eqn:Hre;
            [rewrite Z.gtb_ltb in Hre; apply Z.ltb_lt in Hre; lia|].
          cbn. split; reflexivity. }
        destruct Hstep as [Hq' Hn'].
        unfold size, MAX_QUEUE_SIZE in Hcap. cbn [List.length] in Hcap, Hfuel.
        destruct (IH (fg_step d s)) as (s' & Hrun & Hdone).
        -- rewrite Hq'. exact Hrest.
        -- rewrite Hq'. lia.
        -- exists s'. split; [exact Hrun|]. intros _.
           destruct Hdone as [Hnil Hlen].
           ++ rewrite Hq'. unfold size, MAX_QUEUE_SIZE. lia.
           ++ split; [exact Hnil|]. rewrite Hlen, Hn', Hq'.
              unfold size. cbn [List.length]. lia.
Qed.

(** X6.  When no feature item grants further picks, every round of an
    initialised game returns within 2,000 iterations of the feature loop;
    in FG_ONLY mode, with a non-empty feature pool, it makes exactly the
    ten initial picks and leaves nothing in the queue. *)
Theorem ss03_round_without_retrigger_returns fuel G g mode p :
  isInitialized G = true ->
  Forall (fun it => retrigger_num it <= 0) (fg_items (gameData G)) ->
  (2000 <= fuel)%nat ->
  exists rd,
    simulateGameRound fuel G g mode p = Returns rd
    /\ (mode = FG_ONLY -> fg_items (gameData G) <> [] ->
        fg_run_length (result rd) = 10 /\ unprocessed rd = O).
Proof.
  intros Hinit Hcalm Hfuel.
  assert (Hseq : forall g0 r n,
             exists rd,
               fg_sequence fuel (gameData G) g0 r n = Returns rd
               /\ (n = 10 -> fg_run_length r = 0 ->
                   fg_items (gameData G) <> [] ->
                   fg_run_length (result rd) = 10 /\ unprocessed rd = O)).
  { intros g0 r n. unfold fg_sequence, plain.
    destruct (n >? 0) eqn:Hn;
      [|eexists; split; [reflexivity|]; intros ->; discriminate].
    destruct (fg_items (gameData G)) eqn:E;
      [eexists; split; [reflexivity | congruence]|].
    rewrite <- E in *.
    assert (Hne : fg_items (gameData G) <> []) by (rewrite E; discriminate).
    pose proof (ss_push_draws_length (fg_items (gameData G)) (Z.to_nat n) [] g0)
      as Hl.
    pose proof (ss_push_draws_forall _ _ Hne Hcalm (Z.to_nat n) [] g0
                  (Forall_nil _)) as Hq.
    destruct (push_draws _ (fg_items (gameData G)) [] g0) as [q g1].
    cbn [fst List.length] in Hl, Hq. rewrite Nat.add_0_r in Hl.
    destruct (ss_fg_loop_without_retrigger (gameData G) fuel
                (mkState q g1 (triggered r)) Hq) as (s' & Hrun & Hdone).
    { cbn [queue]. lia. }
    rewrite Hrun. eexists. split; [reflexivity|].
    intros -> Hr0 _. cbn [result unprocessed queue res] in *.
    destruct Hdone as [Hnil Hlen].
    { unfold size, MAX_QUEUE_SIZE. rewrite Hl. cbn. lia. }
    rewrite Hnil, Hlen. cbn [triggered fg_run_length]. rewrite Hr0.
    unfold size. rewrite Hl. split; reflexivity. }
  unfold simulateGameRound. rewrite Hinit. cbn [negb].
  destruct mode.
  - destruct (bg_items (gameData G)) as [|b0 bs];
      [eexists; split; [reflexivity | discriminate]|].
    destruct (Rng.uniform_int _ g) as [i g1].
    destruct (trigger_num _ =? 0);
      [destruct (Qlt_le_dec 0 p);
       [destruct (Rng.uniform_real g1) as [u g']; destruct (Qlt_le_dec u p)|]|];
      match goal with
      | |- exists rd, fg_sequence fuel _ ?g2 ?r ?n = _ /\ _ =>
          destruct (Hseq g2 r n) as (rd & Hrun & _);
          exists rd; split; [exact Hrun | discriminate]
      end.
  - destruct (Hseq g (triggered empty_result) 10) as (rd & Hrun & Hten).
    exists rd. split; [exact Hrun|]. intros _ Hne.
    apply Hten; [reflexivity | reflexivity | exact Hne].
  - destruct (bg_items (gameData G)) as [|b0 bs];
      [eexists; split; [reflexivity | discriminate]|].
    destruct (Rng.uniform_int _ g) as [i g1].
    eexists; split; [reflexivity | discriminate].
Qed.

Lemma ss03_round_without_retrigger_returns_witness :
  exists rd,
    simulateGameRound 2000
      (mkGlobal (mkData [mkBG 1 5 0 1] [mkFG 7 20 0 3]) true)
      (Rng.of_list []) FG_ONLY 0 = Returns rd
    /\ fg_run_length (result rd) = 10 /\ unprocessed rd = O.
Proof.
  destruct (ss03_round_without_retrigger_returns 2000
              (mkGlobal (mkData [mkBG 1 5 0 1] [mkFG 7 20 0 3]) true)
              (Rng.of_list []) FG_ONLY 0%Q)
    as (rd & Hrun & Hten).
  - reflexivity.
  - repeat constructor. cbn. lia.
  - lia.
  - exists rd. split; [exact Hrun|]. apply Hten; [reflexivity | discriminate].
Defined.

(** *** The second chance *)

(** X7.  In FULL_GAME mode a base item with [trigger_num] 0 is given a second
    chance.  With a probability of 1 or more, and no negative
    [trigger_num] in the base pool, every returned round has played the
    feature game; with a probability of 0 or less the feature game is
    played exactly when the drawn base item has a positive
    [trigger_num]. *)
Theorem ss03_second_chance_extremes fuel G g p rd :
  bg_items (gameData G) <> [] ->
  simulateGameRound fuel G g FULL_GAME p = Returns rd ->
  ((1 <= p)%Q ->
   Forall (fun b => 0 <= trigger_num b) (bg_items (gameData G)) ->
   fg_was_triggered (result rd) = true)
  /\ ((p <= 0)%Q ->
      fg_was_triggered (result rd)
      = (trigger_num
           (at_ no_bg (bg_items (gameData G))
              (fst (Rng.uniform_int (size (bg_items (gameData G))) g)))
         >? 0)).
Proof.
  intros Hbg. unfold simulateGameRound.
  destruct (isInitialized G); cbn [negb]; [|discriminate].
  destruct (bg_items (gameData G)) as [|b0 bs] eqn:E; [congruence|].
  assert (Hin : In (at_ no_bg (b0 :: bs)
                      (fst (Rng.uniform_int (size (b0 :: bs)) g)))
                   (b0 :: bs)).
  { unfold Rng.uniform_int. destruct (Rng.next g) as [y x']. cbn [fst].
    unfold at_, size. apply drawn_item_in. discriminate. }
  destruct (Rng.uniform_int _ g) as [i g1]. cbn [fst] in *.
  set (b := at_ no_bg (b0 :: bs) i) in *.
  assert (Hflag : forall g0 n,
             fg_sequence fuel (gameData G) g0 (with_bg empty_result b) n
             = Returns rd ->
             fg_was_triggered (result rd) = (n >? 0)).
  { intros g0 n Hrun.
    destruct (ss_fg_sequence_frame _ _ _ _ _ _ Hrun) as (_ & _ & _ & ->).
    destruct (n >? 0); reflexivity. }
  destruct (trigger_num b =? 0) eqn:Ht.
  - apply Z.eqb_eq in Ht.
    destruct (Qlt_le_dec 0 p) as [Hpos|Hnonpos].
    + pose proof (RngProps.uniform_real_below_one g1) as Hu.
      destruct (Rng.uniform_real g1) as [u g']. cbn [fst] in Hu.
      destruct (Qlt_le_dec u p) as [Hlt|Hge]; intros Hrun;
        rewrite (Hflag _ _ Hrun).
      * split; [reflexivity|]. intros Hp. exfalso.
        apply (Qlt_irrefl 0). eapply Qlt_le_trans; eassumption.
      * split; [|reflexivity]. intros Hp _. exfalso.
        apply (Qlt_irrefl u). eapply Qlt_le_trans; [exact Hu|].
        eapply Qle_trans; eassumption.
    + intros Hrun. rewrite (Hflag _ _ Hrun). split; [|reflexivity].
      intros Hp _. exfalso.
      apply (Qlt_irrefl 0). eapply Qlt_le_trans; [|exact Hnonpos].
      eapply Qlt_le_trans; [|exact Hp]. reflexivity.
  - apply Z.eqb_neq in Ht. intros Hrun. rewrite (Hflag _ _ Hrun).
    split; [|reflexivity]. intros _ Hall.
    rewrite Forall_forall in Hall. specialize (Hall b Hin).
    rewrite Z.gtb_ltb. apply Z.ltb_lt. lia.
Qed.

Lemma ss03_second_chance_extremes_witness :
  exists rd,
    simulateGameRound 100 sampleData (Rng.of_list [0]) FULL_GAME 1
    = Returns rd
    /\ fg_was_triggered (result rd) = true.
Proof.
  eexists. split; [vm_compute; reflexivity|].
  refine (proj1 (ss03_second_chance_extremes 100 sampleData
                   (Rng.of_list [0]) 1%Q _ _ _) _ _).
  - discriminate.
  - vm_compute. reflexivity.
  - discriminate.
  - repeat constructor; cbn; lia.
Defined.

(** *** The feature score *)

Lemma ss_fg_step_score_bounds d lo hi s :
  fg_items d <> [] ->
  Forall (fun it => lo <= value it <= hi) (fg_items d) ->
  Forall (fun it => lo <= value it <= hi) (queue s)
  /\ lo * fg_run_length (res s) <= fg_score (res s)
     <= hi * fg_run_length (res s)
  /\ (0 <= fg_nonzero_picks (res s))
  /\ (fg_nonzero_picks (res s) = 0 -> fg_score (res s) = 0) ->
  Forall (fun it => lo <= value it <= hi) (queue (fg_step d s))
  /\ lo * fg_run_length (res (fg_step d s)) <= fg_score (res (fg_step d s))
     <= hi * fg_run_length (res (fg_step d s))
  /\ (0 <= fg_nonzero_picks (res (fg_step d s)))
  /\ (fg_nonzero_picks (res (fg_step d s)) = 0 ->
      fg_score (res (fg_step d s)) = 0).
Proof.
  intros Hne Hall (Hq & Hb & Hnn & Hz). unfold fg_step.
  destruct (queue s) as [|cur rest] eqn:E; [rewrite E; tauto|].
  inversion Hq as [|? ? Hcur Hrest]; subst.
  pose proof (ss_push_draws_forall _ _ Hne Hall
                (Z.to_nat (retrigger_num cur)) rest (rng s) Hrest) as Hpush.
  assert (Hres : lo * (fg_run_length (res s) + 1)
                 <= fg_score (res s) + value cur
                 <= hi * (fg_run_length (res s) + 1)) by lia.
  assert (Hnz : 0 <= (if value cur =? 0 then fg_nonzero_picks (res s)
                      else fg_nonzero_picks (res s) + 1)
                /\ ((if value cur =? 0 then fg_nonzero_picks (res s)
                     else fg_nonzero_picks (res s) + 1) = 0 ->
                    fg_score (res s) + value cur = 0)).
  { destruct (value cur =? 0) eqn:Ev; [apply Z.eqb_eq in Ev | lia].
    split; [lia|]. intros H0. rewrite (Hz H0). lia. }
  destruct (retrigger_num cur >? 0);
    [destruct (push_draws _ (fg_items d) rest (rng s)) as [q' g']|];
    cbn [queue res fg_run_length fg_score fg_nonzero_picks fst] in *; tauto.
Qed.

(** X8.  The feature score of a returned round lies between the number of
    picks times the smallest and times the largest value of a feature
    item, and it is 0 when no pick had a non-zero value. *)
Theorem ss03_feature_score_within_pick_bounds fuel G g mode p rd lo hi :
  Forall (fun it => lo <= value it <= hi) (fg_items (gameData G)) ->
  simulateGameRound fuel G g mode p = Returns rd ->
  lo * fg_run_length (result rd) <= fg_score (result rd)
  <= hi * fg_run_length (result rd)
  /\ (fg_nonzero_picks (result rd) = 0 -> fg_score (result rd) = 0).
Proof.
  intros Hall Hrun.
  destruct (ss_round_cases _ _ _ _ _ _ Hrun) as (r & g0 & n & Hseq & Hstart).
  assert (Hr : fg_score r = 0 /\ fg_run_length r = 0
               /\ fg_nonzero_picks r = 0).
  { destruct Hstart as [[-> _] | [(_ & -> & _) | [(_ & _ & b & _ & ->)
                                                | (_ & b & _ & -> & _)]]];
      cbn; tauto. }
  destruct Hr as (H1 & H2 & H3).
  destruct (ss_fg_sequence_cases _ _ _ _ _ _ Hseq)
    as [(_ & -> & _) | [(_ & _ & -> & _)
                       | (_ & Hne & q & g1 & s & _ & Hq & Hloop & -> & _)]].
  - rewrite H1, H2. lia.
  - cbn. rewrite H1, H2. lia.
  - pose proof (ss_fg_loop_inv (gameData G) _
                  (fun s0 => ss_fg_step_score_bounds (gameData G) lo hi s0
                               Hne Hall)
                  fuel (mkState q g1 (triggered r)) s) as Hinv.
    refine ((fun H => _) (Hinv _ Hloop)); [tauto|].
    cbn. rewrite H1, H2, H3. repeat split; try lia.
    rewrite Forall_forall in Hall |- *. rewrite Forall_forall in Hq.
    intros x Hx. apply Hall, Hq, Hx.
Qed.

Lemma ss03_feature_score_within_pick_bounds_witness :
  exists rd,
    simulateGameRound 100 sampleData
      (Rng.of_list [3; 0; 0; 1; 0; 0; 0; 0; 2; 2; 2; 2; 2]) FULL_GAME 0
    = Returns rd
    /\ fg_run_length (result rd) = 12
    /\ 50 * fg_run_length (result rd) <= fg_score (result rd)
       <= 250 * fg_run_length (result rd).
Proof.
  eexists. split; [vm_compute; reflexivity|]. split; [reflexivity|].
  refine (proj1 (ss03_feature_score_within_pick_bounds 100 sampleData
            (Rng.of_list [3; 0; 0; 1; 0; 0; 0; 0; 2; 2; 2; 2; 2])
            FULL_GAME 0%Q _ 50 250 _ _)).
  - repeat constructor; cbn; lia.
  - vm_compute. reflexivity.
Defined.

(** *** What is left in the queue *)

Lemma ss_fg_loop_leftover d fuel :
  forall s s', fg_loop fuel d s = Returns s' ->
               queue s' = [] \/ size (queue s') > MAX_QUEUE_SIZE.
Proof.
  induction fuel as [|fuel IH]; intros s s'; cbn [fg_loop];
    (destruct (queue s) eqn:E; [intros [= <-]; now left|]);
    rewrite <- E;
    (destruct (size (queue s) >? MAX_QUEUE_SIZE) eqn:Hcap;
     [intros [= <-]; right; rewrite Z.gtb_ltb in Hcap;
      apply Z.ltb_lt in Hcap; lia|]);
    [discriminate | apply IH].
Qed.

(** X9.  The only way out of the feature loop are an empty queue and a queue
    of more than 2,000 items: a returned round has processed every queued
    item or has left more than 2,000 of them unprocessed. *)
Theorem ss03_round_leaves_nothing_or_more_than_2000 fuel G g mode p rd :
  simulateGameRound fuel G g mode p = Returns rd ->
  unprocessed rd = O \/ (2000 < unprocessed rd)%nat.
Proof.
  intros Hrun.
  destruct (ss_round_cases _ _ _ _ _ _ Hrun) as (r & g0 & n & Hseq & _).
  destruct (ss_fg_sequence_cases _ _ _ _ _ _ Hseq)
    as [(_ & _ & ->) | [(_ & _ & _ & ->)
                       | (_ & _ & q & g1 & s & _ & _ & Hloop & _ & ->)]];
    try (now left).
  destruct (ss_fg_loop_leftover _ _ _ _ Hloop) as [-> | Hbig];
    [now left | right].
  unfold size, MAX_QUEUE_SIZE in Hbig. lia.
Qed.

Lemma ss03_round_leaves_nothing_or_more_than_2000_witness :
  exists rd,
    simulateGameRound 2000 growingData (Rng.of_list []) FG_ONLY 0 = Returns rd
    /\ unprocessed rd = 2001%nat
    /\ (unprocessed rd = O \/ (2000 < unprocessed rd)%nat).
Proof.
  eexists. split; [vm_compute; reflexivity|]. split; [reflexivity|].
  apply (ss03_round_leaves_nothing_or_more_than_2000 2000 growingData
           (Rng.of_list []) FG_ONLY 0%Q).
  vm_compute. reflexivity.
Defined.

(** *** Where the recorded values come from *)

Lemma ss_fg_step_levels_from_pool d s :
  fg_items d <> [] ->
  Forall (fun it => In it (fg_items d)) (queue s)
  /\ Forall (fun lv => exists it, In it (fg_items d) /\ levels it = lv)
            (fg_levels (res s)) ->
  Forall (fun it => In it (fg_items d)) (queue (fg_step d s))
  /\ Forall (fun lv => exists it, In it (fg_items d) /\ levels it = lv)
            (fg_levels (res (fg_step d s))).
Proof.
  intros Hne (Hq & Hl). unfold fg_step.
  destruct (queue s) as [|cur rest] eqn:E; [rewrite E; tauto|].
  inversion Hq as [|? ? Hcur Hrest]; subst.
  pose proof (ss_push_draws_forall (fun it => In it (fg_items d)) _ Hne
                (proj2 (Forall_forall _ _) (fun x H => H))
                (Z.to_nat (retrigger_num cur)) rest (rng s) Hrest) as Hpush.
  assert (Hl' : Forall (fun lv => exists it, In it (fg_items d)
                                             /\ levels it = lv)
                       (fg_levels (res s) ++ [levels cur])).
  { apply Forall_app. split; [exact Hl|]. constructor; [|constructor].
    exists cur. split; [exact Hcur | reflexivity]. }
  destruct (retrigger_num cur >? 0);
    [destruct (push_draws _ (fg_items d) rest (rng s)) as [q' g']|];
    cbn [queue res fg_levels fst] in *; tauto.
Qed.

Lemma ss_round_from_pools fuel G g mode p rd :
  simulateGameRound fuel G g mode p = Returns rd ->
  ((bg_score (result rd) = 0 /\ bg_levels (result rd) = 0)
   \/ exists b, In b (bg_items (gameData G))
                /\ bg_score (result rd) = bg_value b
                /\ bg_levels (result rd) = bg_item_levels b)
  /\ (mode = FG_ONLY -> bg_score (result rd) = 0 /\ bg_levels (result rd) = 0)
  /\ Forall (fun lv => exists it, In it (fg_items (gameData G))
                                  /\ levels it = lv)
            (fg_levels (result rd)).
Proof.
  intros Hrun.
  destruct (ss_round_cases _ _ _ _ _ _ Hrun) as (r & g0 & n & Hseq & Hstart).
  destruct (ss_fg_sequence_frame _ _ _ _ _ _ Hseq) as (Hb1 & _ & Hb2 & _).
  rewrite Hb1, Hb2.
  assert (Hlv : fg_levels r = []).
  { destruct Hstart as [[-> _] | [(_ & -> & _) | [(_ & _ & b & _ & ->)
                                                | (_ & b & _ & -> & _)]]];
      reflexivity. }
  split; [|split].
  - destruct Hstart as [[-> _] | [(_ & -> & _) | [(_ & _ & b & Hb & ->)
                                                | (_ & b & Hb & -> & _)]]];
      try (left; cbn; tauto); right; exists b; cbn; tauto.
  - intros ->.
    destruct Hstart as [[-> _] | [(_ & -> & _) | [(Hm & _)
                                                | (Hm & _)]]];
      try discriminate; cbn; tauto.
  - destruct (ss_fg_sequence_cases _ _ _ _ _ _ Hseq)
      as [(_ & -> & _) | [(_ & _ & -> & _)
                         | (_ & Hne & q & g1 & s & _ & Hq & Hloop & -> & _)]].
    + rewrite Hlv. constructor.
    + cbn. rewrite Hlv. constructor.
    + pose proof (ss_fg_loop_inv (gameData G) _
                    (fun s0 => ss_fg_step_levels_from_pool (gameData G) s0 Hne)
                    fuel (mkState q g1 (triggered r)) s) as Hinv.
      refine (proj2 (Hinv _ Hloop)). cbn. rewrite Hlv.
      split; [exact Hq | constructor].
Qed.

End SS03GameRounds.

(** ** Both variants: what a result can hold *)

Module RoundResults.

(** X10.  A result that is not marked as triggered carries no feature data: in
    both variants its feature score, pick counts and level list are empty
    and its feature multiplier is the neutral 1.  So a result with a
    non-zero [fg_run_length] always has [fg_was_triggered] set. *)
Theorem untriggered_result_has_no_feature_data :
  (forall fuel G g mode p rd,
      DeepDive.simulateGameRound fuel G g mode p = Returns rd ->
      fg_was_triggered (result rd) = false ->
      fg_score (result rd) = 0 /\ fg_run_length (result rd) = 0
      /\ fg_nonzero_picks (result rd) = 0 /\ fg_levels (result rd) = []
      /\ max_fg_multiplier (result rd) = 1)
  /\
  (forall fuel G g mode p rd,
      SS03Game.simulateGameRound fuel G g mode p = Returns rd ->
      fg_was_triggered (result rd) = false ->
      fg_score (result rd) = 0 /\ fg_run_length (result rd) = 0
      /\ fg_nonzero_picks (result rd) = 0 /\ fg_levels (result rd) = []
      /\ max_fg_multiplier (result rd) = 1).
Proof.
  split; intros fuel G g mode p rd.
  - apply DeepDiveRounds.dd_untriggered_round.
  - apply SS03GameRounds.ss_untriggered_round.
Qed.

Lemma untriggered_result_has_no_feature_data_witness :
  (exists rd,
      DeepDive.simulateGameRound 100 DeepDive.sampleData
        (Rng.of_list [1]) FULL_GAME 0 = Returns rd
      /\ fg_was_triggered (result rd) = false
      /\ fg_run_length (result rd) = 0)
  /\
  (exists rd,
      SS03Game.simulateGameRound 100 SS03Game.sampleData
        (Rng.of_list [1]) FULL_GAME 0 = Returns rd
      /\ fg_was_triggered (result rd) = false
      /\ fg_run_length (result rd) = 0).
Proof.
  destruct untriggered_result_has_no_feature_data as [Hdd Hss].
  split.
  - eexists. split; [vm_compute; reflexivity|]. split; [reflexivity|].
    refine (proj1 (proj2 (Hdd 100%nat DeepDive.sampleData (Rng.of_list [1])
                            FULL_GAME 0%Q _ _ _)));
      vm_compute; reflexivity.
  - eexists. split; [vm_compute; reflexivity|]. split; [reflexivity|].
    refine (proj1 (proj2 (Hss 100%nat SS03Game.sampleData (Rng.of_list [1])
                            FULL_GAME 0%Q _ _ _)));
      vm_compute; reflexivity.
Defined.

(** X11.  Every value a returned result records was read inside the loaded
    pools: the base score and base level are those of one item of
    [bg_items] (or both 0 when no base item was drawn, as in FG_ONLY
    mode), and every entry of [fg_levels] is the level of an item of
    [fg_items]. *)
Theorem recorded_values_come_from_the_pools :
  (forall fuel G g mode p rd,
      DeepDive.simulateGameRound fuel G g mode p = Returns rd ->
      ((bg_score (result rd) = 0 /\ bg_levels (result rd) = 0)
       \/ exists b, In b (DeepDive.bg_items (DeepDive.gameData G))
                    /\ bg_score (result rd) = DeepDive.bg_value b
                    /\ bg_levels (result rd) = DeepDive.bg_item_levels b)
      /\ (mode = FG_ONLY ->
          bg_score (result rd) = 0 /\ bg_levels (result rd) = 0)
      /\ Forall (fun lv =>
                   exists it, In it (DeepDive.fg_items (DeepDive.gameData G))
                              /\ DeepDive.levels it = lv)
                (fg_levels (result rd)))
  /\
  (forall fuel G g mode p rd,
      SS03Game.simulateGameRound fuel G g mode p = Returns rd ->
      ((bg_score (result rd) = 0 /\ bg_levels (result rd) = 0)
       \/ exists b, In b (SS03Game.bg_items (SS03Game.gameData G))
                    /\ bg_score (result rd) = SS03Game.bg_value b
                    /\ bg_levels (result rd) = SS03Game.bg_item_levels b)
      /\ (mode = FG_ONLY ->
          bg_score (result rd) = 0 /\ bg_levels (result rd) = 0)
      /\ Forall (fun lv =>
                   exists it, In it (SS03Game.fg_items (SS03Game.gameData G))
                              /\ SS03Game.levels it = lv)
                (fg_levels (result rd))).
Proof.
  split; intros fuel G g mode p rd Hrun.
  - destruct (DeepDiveRounds.dd_round_from_pools _ _ _ _ _ _ Hrun)
      as (H1 & H2 & _ & H4).
    split; [exact H1|]. split; [exact H2 | exact H4].
  - exact (SS03GameRounds.ss_round_from_pools _ _ _ _ _ _ Hrun).
Qed.

Lemma recorded_values_come_from_the_pools_witness :
  exists rd,
    SS03Game.simulateGameRound 100 SS03Game.sampleData
      (Rng.of_list [3; 0; 0; 1; 0; 0; 0; 0; 2; 2; 2; 2; 2]) FULL_GAME 0
    = Returns rd
    /\ fg_levels (result rd) = [1; 1; 1; 2; 2; 2; 2; 3; 1; 1; 2; 2]
    /\ Forall (fun lv =>
                 exists it,
                   In it (SS03Game.fg_items (SS03Game.gameData
                                               SS03Game.sampleData))
                   /\ SS03Game.levels it = lv)
              (fg_levels (result rd)).
Proof.
  eexists. split; [vm_compute; reflexivity|]. split; [reflexivity|].
  refine (proj2 (proj2 (proj2 recorded_values_come_from_the_pools 100%nat
            SS03Game.sampleData
            (Rng.of_list [3; 0; 0; 1; 0; 0; 0; 0; 2; 2; 2; 2; 2])
            FULL_GAME 0%Q _ _))).
  vm_compute. reflexivity.
Defined.

End RoundResults.

(** ** Statistics.cpp: further properties *)

Module StatisticsMore.
Import Statistics.
Import StatisticsProps.
Import MonteCarloSimulator.
Import PercentileProps.
Local Open Scope Q_scope.

Lemma le_ltb_false x y : y <= x -> Dbl.ltb x y = false.
Proof.
  intros H. unfold Dbl.ltb. apply negb_false_iff. now apply Qle_bool_iff.
Qed.

Lemma lt_ltb_true x y : x < y -> Dbl.ltb x y = true.
Proof.
  intros H. unfold Dbl.ltb. apply negb_true_iff.
  destruct (Qle_bool y x) eqn:E; [|reflexivity].
  apply Qle_bool_iff in E. lra.
Qed.

(** *** [std::sort], as modelled, sorts *)

Lemma nondecreasing_tail x l :
  nondecreasing (x :: l) = true -> nondecreasing l = true.
Proof.
  cbn [nondecreasing]. destruct l; [reflexivity|].
  intros H. apply andb_true_iff in H. tauto.
Qed.

Lemma nondecreasing_cons x l :
  (forall y, In y l -> x <= y) -> nondecreasing l = true ->
  nondecreasing (x :: l) = true.
Proof.
  intros Hx Hl. cbn [nondecreasing]. destruct l as [|y l']; [reflexivity|].
  apply andb_true_iff. split; [|exact Hl].
  apply Qle_bool_iff, Hx. now left.
Qed.

Lemma nondecreasing_head x l :
  nondecreasing (x :: l) = true -> forall y, In y l -> x <= y.
Proof.
  intros Hs y Hy. destruct (In_nth l y 0 Hy) as (k & Hk & <-).
  apply (nondecreasing_nth (x :: l) Hs 0%nat (S k)). cbn [List.length]. lia.
Qed.

Lemma nondecreasing_from_nth l :
  (forall i, (S i < List.length l)%nat -> nth i l 0 <= nth (S i) l 0) ->
  nondecreasing l = true.
Proof.
  induction l as [|x l IH]; intros H; [reflexivity|].
  cbn [nondecreasing]. destruct l as [|y l']; [reflexivity|].
  apply andb_true_iff. split.
  - apply Qle_bool_iff. apply (H 0%nat). cbn. lia.
  - apply IH. intros i Hi. apply (H (S i)). cbn [List.length] in *. lia.
Qed.

Lemma insert_sorted x l :
  nondecreasing l = true -> nondecreasing (insert x l) = true.
Proof.
  induction l as [|y l IH]; intros Hl; cbn [insert]; [reflexivity|].
  destruct (Dbl.leb x y) eqn:E.
  - apply leb_true_le in E. apply nondecreasing_cons; [|exact Hl].
    intros z [<-|Hz]; [exact E|].
    eapply Qle_trans; [exact E|]. now apply (nondecreasing_head y l).
  - apply leb_false_lt in E. apply nondecreasing_cons.
    + intros z Hz. destruct (insert_In _ _ _ Hz) as [->|Hz'];
        [lra | now apply (nondecreasing_head y l)].
    + apply IH. eapply nondecreasing_tail, Hl.
Qed.

Lemma sort_sorted l : nondecreasing (sort l) = true.
Proof.
  unfold sort. induction l as [|x l IH]; cbn [fold_right]; [reflexivity|].
  now apply insert_sorted.
Qed.

Lemma insert_perm x l : Permutation (x :: l) (insert x l).
Proof.
  induction l as [|y l IH]; cbn [insert]; [reflexivity|].
  destruct (Dbl.leb x y); [reflexivity|].
  rewrite perm_swap. now apply perm_skip.
Qed.

Lemma sort_perm l : Permutation l (sort l).
Proof.
  unfold sort. induction l as [|x l IH]; cbn [fold_right]; [reflexivity|].
  rewrite <- insert_perm. now apply perm_skip.
Qed.

Lemma sort_nonempty l : l <> [] -> sort l <> [].
Proof.
  intros Hne E. pose proof (sort_length l) as Hl. rewrite E in Hl.
  destruct l; [congruence | discriminate].
Qed.

(** *** The value at a percentile *)

Lemma rank_nonneg p (n : Z) :
  0 <= p -> (1 <= n)%Z -> 0 <= p / 100 * Dbl.ofZ (n - 1).
Proof.
  intros Hp Hn. unfold Dbl.ofZ.
  assert (0 <= inject_Z (n - 1)) by (rewrite <- (Zle_Qle 0); lia).
  apply Qmult_le_0_compat; [|assumption].
  apply Qle_shift_div_l; [reflexivity | lra].
Qed.

Lemma rank_monotone p q (n : Z) :
  p <= q -> (1 <= n)%Z ->
  p / 100 * Dbl.ofZ (n - 1) <= q / 100 * Dbl.ofZ (n - 1).
Proof.
  intros Hpq Hn. unfold Dbl.ofZ.
  assert (0 <= inject_Z (n - 1)) by (rewrite <- (Zle_Qle 0); lia).
  apply Qmult_le_compat_r; [|assumption].
  apply ratio_le; [reflexivity | exact Hpq].
Qed.

Lemma findValueAtPercentile_le data p q :
  data <> [] -> 0 <= p -> p <= q -> q <= 100 ->
  exists v w,
    findValueAtPercentile data p = Returns (v, sort data)
    /\ findValueAtPercentile data q = Returns (w, sort data)
    /\ v <= w.
Proof.
  intros Hne Hp Hpq Hq. unfold findValueAtPercentile.
  destruct data as [|d0 data']; [congruence|].
  set (data := d0 :: data') in *.
  rewrite (le_ltb_false p 0 Hp), (le_ltb_false 100 p) by lra.
  rewrite (le_ltb_false q 0), (le_ltb_false 100 q) by lra.
  cbn [orb].
  pose proof (sort_sorted data) as Hsorted.
  pose proof (sort_nonempty data Hne) as Hsne.
  set (s := sort data) in *.
  set (n := Z.of_nat (List.length s)).
  assert (Hn : (1 <= n)%Z).
  { unfold n, s. rewrite sort_length. cbn [data List.length]. lia. }
  assert (Hlast : last s 0 = nth (Z.to_nat (n - 1)) s 0).
  { rewrite last_as_nth by exact Hsne. f_equal. unfold n. lia. }
  assert (Hnth : forall i j : Z,
             (0 <= i)%Z -> (i <= j)%Z -> (j < n)%Z ->
             nth (Z.to_nat i) s 0 <= nth (Z.to_nat j) s 0).
  { intros i j Hi Hij Hj. apply nondecreasing_nth; [exact Hsorted|].
    unfold n in Hj. lia. }
  set (rp := p / 100 * Dbl.ofZ (n - 1)).
  set (rq := q / 100 * Dbl.ofZ (n - 1)).
  assert (Hrp : 0 <= rp) by (apply rank_nonneg; [exact Hp | exact Hn]).
  assert (Hrq : 0 <= rq) by (apply rank_nonneg; [lra | exact Hn]).
  assert (Hrpq : rp <= rq) by (apply rank_monotone; [exact Hpq | exact Hn]).
  destruct (trunc_fraction rp Hrp) as (Hlp & Hfp0 & Hfp1).
  destruct (trunc_fraction rq Hrq) as (Hlq & Hfq0 & Hfq1).
  pose proof (trunc_monotone rp rq Hrp Hrpq) as Hlpq.
  set (lp := Dbl.trunc rp) in *. set (lq := Dbl.trunc rq) in *.
  (* the value found for [p] never exceeds the last element *)
  assert (Hv_last :
            forall v, (Dbl.eqb p 100 = true /\ v = last s 0)
                      \/ ((lp + 1 >=? n)%Z = true /\ v = last s 0)
                      \/ ((lp + 1 >=? n)%Z = false
                          /\ v = nth (Z.to_nat lp) s 0
                                 + (rp - Dbl.ofZ lp)
                                   * (nth (Z.to_nat (lp + 1)) s 0
                                      - nth (Z.to_nat lp) s 0)) ->
                      v <= last s 0).
  { intros v [[_ ->] | [[_ ->] | [Hend ->]]]; try apply Qle_refl.
    rewrite Z.geb_leb in Hend. apply Z.leb_gt in Hend.
    rewrite Hlast.
    pose proof (Hnth lp (n - 1)%Z Hlp ltac:(lia) ltac:(lia)) as H1.
    pose proof (Hnth (lp + 1)%Z (n - 1)%Z ltac:(lia) ltac:(lia) ltac:(lia))
      as H2.
    pose proof (Hnth lp (lp + 1)%Z Hlp ltac:(lia) ltac:(lia)) as H3.
    nra. }
  destruct (Dbl.eqb q 100) eqn:Eq.
  { destruct (Dbl.eqb p 100) eqn:Ep.
    - do 2 eexists. repeat split. apply Qle_refl.
    - destruct (lp + 1 >=? n)%Z eqn:Hend.
      + do 2 eexists. repeat split. apply Qle_refl.
      + do 2 eexists. split; [reflexivity|]. split; [reflexivity|].
        apply Hv_last. right; right. split; reflexivity. }
  assert (Ep : Dbl.eqb p 100 = false).
  { destruct (Dbl.eqb p 100) eqn:Ep; [|reflexivity].
    apply Qeq_bool_iff in Ep.
    assert (Hq100 : q == 100) by lra.
    apply Qeq_bool_iff in Hq100. unfold Dbl.eqb in Eq. congruence. }
  rewrite Ep.
  destruct (lq + 1 >=? n)%Z eqn:Hendq.
  { destruct (lp + 1 >=? n)%Z eqn:Hendp.
    - do 2 eexists. repeat split. apply Qle_refl.
    - do 2 eexists. split; [reflexivity|]. split; [reflexivity|].
      apply Hv_last. right; right. split; reflexivity. }
  rewrite Z.geb_leb in Hendq. apply Z.leb_gt in Hendq.
  destruct (lp + 1 >=? n)%Z eqn:Hendp.
  { rewrite Z.geb_leb in Hendp. apply Z.leb_le in Hendp. lia. }
  do 2 eexists. split; [reflexivity|]. split; [reflexivity|].
  pose proof (Hnth lp (lp + 1)%Z Hlp ltac:(lia) ltac:(lia)) as Hp1.
  pose proof (Hnth lq (lq + 1)%Z Hlq ltac:(lia) ltac:(lia)) as Hq1.
  destruct (Z.eq_dec lp lq) as [Heq|Hneq].
  - rewrite <- Heq in *.
    assert (rp - Dbl.ofZ lp <= rq - Dbl.ofZ lp) by lra.
    nra.
  - pose proof (Hnth (lp + 1)%Z lq ltac:(lia) ltac:(lia) ltac:(lia)) as Hmid.
    nra.
Qed.

(** X12.  [findValueAtPercentile] is monotone in the percentile: on the same
    data a larger percentile never gives a smaller value, so the reported
    95th percentile is at most the 99th. *)
Theorem findValueAtPercentile_monotone data p q :
  data <> [] -> 0 <= p -> p <= q -> q <= 100 ->
  exists v w,
    findValueAtPercentile data p = Returns (v, sort data)
    /\ findValueAtPercentile data q = Returns (w, sort data)
    /\ v <= w.
Proof. apply findValueAtPercentile_le. Qed.

Lemma findValueAtPercentile_monotone_witness :
  exists v w,
    findValueAtPercentile [3; 1; 2] 25 = Returns (v, [1; 2; 3])
    /\ findValueAtPercentile [3; 1; 2] 75 = Returns (w, [1; 2; 3])
    /\ v <= w.
Proof.
  apply (findValueAtPercentile_monotone [3; 1; 2] 25 75).
  - discriminate.
  - unfold Qle; cbn; lia.
  - unfold Qle; cbn; lia.
  - unfold Qle; cbn; lia.
Defined.

(** X13.  At percentile 0 [findValueAtPercentile] returns the smallest element
    of the data and at percentile 100 the largest. *)
Theorem findValueAtPercentile_extremes data :
  data <> [] ->
  exists lo hi,
    findValueAtPercentile data 0 = Returns (lo, sort data)
    /\ findValueAtPercentile data 100 = Returns (hi, sort data)
    /\ (forall x, In x data -> lo <= x <= hi)
    /\ (exists a, In a data /\ lo == a)
    /\ In hi data.
Proof.
  intros Hne. unfold findValueAtPercentile.
  destruct data as [|d0 data']; [congruence|].
  set (data := d0 :: data') in *.
  change (Dbl.ltb 0 0) with false. change (Dbl.ltb 100 0) with false.
  change (Dbl.ltb 100 100) with false. change (Dbl.eqb 0 100) with false.
  change (Dbl.eqb 100 100) with true. cbn [orb].
  pose proof (sort_sorted data) as Hsorted.
  pose proof (sort_nonempty data Hne) as Hsne.
  pose proof (sort_perm data) as Hperm.
  set (s := sort data) in *.
  set (n := Z.of_nat (List.length s)).
  assert (Hn : (1 <= n)%Z).
  { unfold n, s. rewrite sort_length. cbn [data List.length]. lia. }
  assert (Hlast : last s 0 = nth (Z.to_nat (n - 1)) s 0).
  { rewrite last_as_nth by exact Hsne. f_equal. unfold n. lia. }
  assert (Hbounds : forall x, In x data ->
                              nth 0 s 0 <= x <= nth (Z.to_nat (n - 1)) s 0).
  { intros x Hx. apply (Permutation_in _ Hperm) in Hx.
    destruct (In_nth s x 0 Hx) as (k & Hk & <-).
    split; apply nondecreasing_nth; try exact Hsorted; unfold n; lia. }
  set (r0 := 0 / 100 * Dbl.ofZ (n - 1)).
  assert (Hr0 : r0 == 0) by (unfold r0; field).
  assert (Ht0 : Dbl.trunc r0 = 0%Z).
  { rewrite trunc_nonneg by (rewrite Hr0; apply Qle_refl).
    rewrite (Qfloor_comp _ _ Hr0). reflexivity. }
  rewrite Ht0.
  assert (Hlo : exists lo,
             (if (0 + 1 >=? n)%Z then Returns (last s 0, s)
              else Returns (nth (Z.to_nat 0) s 0
                            + (r0 - Dbl.ofZ 0)
                              * (nth (Z.to_nat (0 + 1)) s 0
                                 - nth (Z.to_nat 0) s 0), s))
             = Returns (lo, s) /\ lo == nth 0 s 0).
  { destruct (0 + 1 >=? n)%Z eqn:Hend.
    - rewrite Z.geb_leb in Hend. apply Z.leb_le in Hend.
      exists (last s 0). split; [reflexivity|]. rewrite Hlast.
      replace (n - 1)%Z with 0%Z by lia. reflexivity.
    - eexists. split; [reflexivity|]. change (Z.to_nat 0) with 0%nat.
      rewrite Hr0. unfold Dbl.ofZ. change (inject_Z 0) with 0. ring. }
  destruct Hlo as (lo & Hrun & Hlo).
  exists lo, (last s 0). split; [exact Hrun|]. split; [reflexivity|].
  split; [|split].
  - intros x Hx. rewrite Hlo, Hlast. now apply Hbounds.
  - exists (nth 0 s 0). split; [|exact Hlo].
    apply (Permutation_in _ (Permutation_sym Hperm)).
    apply nth_In. unfold n in Hn. lia.
  - apply (Permutation_in _ (Permutation_sym Hperm)).
    now apply last_In.
Qed.

Lemma findValueAtPercentile_extremes_witness :
  exists lo hi,
    findValueAtPercentile [3; 1; 2] 0 = Returns (lo, [1; 2; 3])
    /\ findValueAtPercentile [3; 1; 2] 100 = Returns (hi, [1; 2; 3])
    /\ lo == 1 /\ hi = 3.
Proof.
  destruct (findValueAtPercentile_extremes [3; 1; 2]) as
    (lo & hi & H0 & H100 & _); [discriminate|].
  exists lo, hi. split; [exact H0|]. split; [exact H100|].
  vm_compute in H0, H100.
  injection H0 as <-. injection H100 as <-. split; reflexivity.
Defined.

(** *** The percentile of a value *)

Lemma first_not_less_le_first_greater data v :
  (first_not_less data v <= first_greater data v <= List.length data)%nat.
Proof.
  induction data as [|x data IH]; cbn [first_not_less first_greater List.length];
    [lia|].
  destruct (Dbl.ltb x v) eqn:E1; destruct (Dbl.ltb v x) eqn:E2; try lia.
  apply ltb_true_lt in E1. apply ltb_true_lt in E2. lra.
Qed.

Lemma first_not_less_all_greater data v :
  (forall x, In x data -> v < x) -> first_not_less data v = O.
Proof.
  destruct data as [|x data]; [reflexivity|]. intros H. cbn [first_not_less].
  rewrite le_ltb_false; [reflexivity|].
  apply Qlt_le_weak, H. now left.
Qed.

Lemma first_not_less_all_less data v :
  (forall x, In x data -> x < v) -> first_not_less data v = List.length data.
Proof.
  induction data as [|x data IH]; intros H; cbn [first_not_less List.length];
    [reflexivity|].
  rewrite lt_ltb_true by (apply H; now left).
  f_equal. apply IH. intros y Hy. apply H. now right.
Qed.

(** X14.  [findPercentileOfValue] throws only on empty data; on sorted data it
    returns a percentage between 0 and 100, which is 0 for a value below
    every element and 100 for a value above every element. *)
Theorem findPercentileOfValue_range sortedData value :
  sortedData <> [] -> nondecreasing sortedData = true ->
  exists q,
    findPercentileOfValue sortedData value = Returns q
    /\ 0 <= q <= 100
    /\ ((forall x, In x sortedData -> value < x) -> q == 0)
    /\ ((forall x, In x sortedData -> x < value) -> q == 100).
Proof.
  intros Hne _. unfold findPercentileOfValue.
  destruct sortedData as [|d0 data']; [congruence|].
  set (data := d0 :: data') in *.
  pose proof (first_not_less_le_first_greater data value) as Hpos.
  set (it := first_not_less data value) in *.
  set (upper_it := first_greater data value) in *.
  set (n := List.length data) in *.
  assert (Hn : (1 <= n)%nat) by (unfold n; cbn; lia).
  set (count := if (it <? n)%nat && Dbl.eqb (nth it data 0) value
                then (Z.of_nat it
                      + Z.quot (Z.of_nat upper_it - Z.of_nat it) 2)%Z
                else Z.of_nat it).
  assert (Hcount : (Z.of_nat it <= count <= Z.of_nat n)%Z).
  { unfold count. destruct ((it <? n)%nat && _); [|lia].
    assert (0 <= Z.quot (Z.of_nat upper_it - Z.of_nat it) 2
            <= Z.of_nat upper_it - Z.of_nat it)%Z.
    { rewrite Z.quot_div_nonneg by lia.
      split; [apply Z.div_pos; lia|].
      apply Z.div_le_upper_bound; lia. }
    lia. }
  assert (Hnq : 0 < Dbl.ofZ (Z.of_nat n)).
  { unfold Dbl.ofZ. rewrite <- (Zlt_Qlt 0). lia. }
  eexists. split; [reflexivity|]. fold count.
  assert (Hratio : 0 <= Dbl.ofZ count / Dbl.ofZ (Z.of_nat n) <= 1).
  { apply ratio_bounds; [exact Hnq| |]; unfold Dbl.ofZ.
    - rewrite <- (Zle_Qle 0). lia.
    - rewrite <- Zle_Qle. lia. }
  split; [lra|]. split.
  - intros Hall.
    assert (Hit : it = O) by (apply first_not_less_all_greater, Hall).
    assert (Hc : count = 0%Z).
    { unfold count. rewrite Hit.
      assert (Hhd : Dbl.eqb (nth 0 data 0) value = false).
      { destruct (Dbl.eqb (nth 0 data 0) value) eqn:E; [|reflexivity].
        apply Qeq_bool_iff in E.
        assert (value < nth 0 data 0) by (apply Hall; now left). lra. }
      rewrite Hhd, andb_false_r. reflexivity. }
    rewrite Hc. unfold Dbl.ofZ. change (inject_Z 0) with 0.
    field. intros Hz. rewrite Hz in Hnq. now apply Qlt_irrefl in Hnq.
  - intros Hall.
    assert (Hit : it = n) by (apply first_not_less_all_less, Hall).
    assert (Hc : count = Z.of_nat n).
    { unfold count. rewrite Hit, Nat.ltb_irrefl. reflexivity. }
    rewrite Hc. field. intros Hz. rewrite Hz in Hnq.
    now apply Qlt_irrefl in Hnq.
Qed.

Lemma findPercentileOfValue_range_witness :
  exists q,
    findPercentileOfValue [1; 2; 2; 3] 2 = Returns q /\ q == 50
    /\ 0 <= q <= 100.
Proof.
  destruct (findPercentileOfValue_range [1; 2; 2; 3] 2) as (q & Hq & Hr & _).
  - discriminate.
  - reflexivity.
  - exists q. split; [exact Hq|]. split; [|exact Hr].
    vm_compute in Hq. injection Hq as <-. reflexivity.
Defined.

(** *** Mean and variance *)







(** *** Critical values *)

Lemma findTValue_above_100 confidence df :
  (100 < df)%Z -> In confidence [90; 95; 99] ->
  findTValue confidence df = pick confidence (1.645, 1.960, 2.576)
  /\ findTValue confidence df = findTValue confidence 101.
Proof.
  intros Hdf Hc. unfold findTValue.
  destruct (df <? 1)%Z eqn:E1; [apply Z.ltb_lt in E1; lia|].
  destruct (df >? 100)%Z eqn:E2;
    [|rewrite Z.gtb_ltb in E2; apply Z.ltb_ge in E2; lia].
  destruct Hc as [<-|[<-|[<-|[]]]]; split; reflexivity.
Qed.

(** One more degree of freedom never raises the critical value. *)
Lemma findTValue_step confidence k :
  In confidence [90; 95; 99] -> (1 <= k <= 100)%nat ->
  exists a b,
    findTValue confidence (Z.of_nat k) = Some a
    /\ findTValue confidence (Z.of_nat (S k)) = Some b
    /\ b <= a.
Proof.
  intros Hc Hk.
  assert (Hall : forallb
                   (fun k =>
                      match findTValue confidence (Z.of_nat k),
                            findTValue confidence (Z.of_nat (S k)) with
                      | Some a, Some b => Qle_bool b a
                      | _, _ => false
                      end) (seq 1 100) = true)
    by (destruct Hc as [<-|[<-|[<-|[]]]]; vm_compute; reflexivity).
  rewrite forallb_forall in Hall. specialize (Hall k).
  rewrite in_seq in Hall. specialize (Hall ltac:(lia)).
  destruct (findTValue confidence (Z.of_nat k)) as [a|]; [|discriminate].
  destruct (findTValue confidence (Z.of_nat (S k))) as [b|]; [|discriminate].
  exists a, b. repeat split. now apply Qle_bool_iff.
Qed.

Lemma findTValue_defined confidence k :
  In confidence [90; 95; 99] -> (1 <= k <= 101)%nat ->
  exists a, findTValue confidence (Z.of_nat k) = Some a.
Proof.
  intros Hc Hk.
  assert (Hall : forallb
                   (fun k =>
                      match findTValue confidence (Z.of_nat k) with
                      | Some _ => true
                      | None => false
                      end) (seq 1 101) = true)
    by (destruct Hc as [<-|[<-|[<-|[]]]]; vm_compute; reflexivity).
  rewrite forallb_forall in Hall. specialize (Hall k).
  rewrite in_seq in Hall. specialize (Hall ltac:(lia)).
  destruct (findTValue confidence (Z.of_nat k)) as [a|]; [|discriminate].
  now exists a.
Qed.

Lemma findTValue_chain confidence :
  In confidence [90; 95; 99] ->
  forall j i, (1 <= i <= j)%nat -> (j <= 101)%nat ->
    exists a b,
      findTValue confidence (Z.of_nat i) = Some a
      /\ findTValue confidence (Z.of_nat j) = Some b
      /\ b <= a.
Proof.
  intros Hc. induction j as [|j IH]; intros i Hij Hj; [lia|].
  destruct (Nat.eq_dec i (S j)) as [->|Hne].
  - destruct (findTValue_defined confidence (S j) Hc ltac:(lia)) as (a & Ha).
    exists a, a. repeat split; try assumption. apply Qle_refl.
  - destruct (IH i ltac:(lia) ltac:(lia)) as (a & b & Ha & Hb & Hab).
    destruct (findTValue_step confidence j Hc ltac:(lia))
      as (b' & c & Hb' & Hc' & Hcb).
    rewrite Hb in Hb'. injection Hb' as <-.
    exists a, c. repeat split; try assumption. lra.
Qed.

Lemma findTValue_monotone confidence df1 df2 :
  In confidence [90; 95; 99] -> (1 <= df1)%Z -> (df1 <= df2)%Z ->
  exists t1 t2 z,
    findTValue confidence df1 = Some t1
    /\ findTValue confidence df2 = Some t2
    /\ pick confidence (1.645, 1.960, 2.576) = Some z
    /\ z <= t2 /\ t2 <= t1.
Proof.
  intros Hc H1 H12.
  assert (Hz : exists z, pick confidence (1.645, 1.960, 2.576) = Some z
                         /\ findTValue confidence 101 = Some z).
  { destruct Hc as [<-|[<-|[<-|[]]]]; eexists; split; reflexivity. }
  destruct Hz as (z & Hz & H101).
  assert (Hcap : forall df, (1 <= df)%Z ->
             exists k, (1 <= k <= 101)%nat
                       /\ findTValue confidence df
                          = findTValue confidence (Z.of_nat k)
                       /\ (df <= 101 -> Z.of_nat k = df)%Z
                       /\ (101 < df -> k = 101%nat)%Z).
  { intros df Hdf. destruct (Z_le_gt_dec df 101) as [Hle|Hgt].
    - exists (Z.to_nat df). rewrite Z2Nat.id by lia.
      repeat split; try lia.
    - exists 101%nat. split; [lia|].
      split; [apply (findTValue_above_100 confidence df ltac:(lia) Hc)|].
      split; lia. }
  destruct (Hcap df1 H1) as (k1 & Hk1 & E1 & Hk1a & Hk1b).
  destruct (Hcap df2 ltac:(lia)) as (k2 & Hk2 & E2 & Hk2a & Hk2b).
  assert (Hk12 : (k1 <= k2)%nat).
  { destruct (Z_le_gt_dec df2 101); [|lia].
    specialize (Hk2a ltac:(lia)). specialize (Hk1a ltac:(lia)). lia. }
  destruct (findTValue_chain confidence Hc k2 k1 ltac:(lia) ltac:(lia))
    as (a & b & Ha & Hb & Hab).
  destruct (findTValue_chain confidence Hc 101 k2 ltac:(lia) ltac:(lia))
    as (b' & z' & Hb' & Hz' & Hzb).
  rewrite Hb in Hb'. injection Hb' as <-.
  change (Z.of_nat 101) with 101%Z in Hz'. rewrite H101 in Hz'.
  injection Hz' as <-.
  exists a, b, z. rewrite E1, E2. repeat split; assumption.
Qed.

Lemma findTValue_levels df :
  (1 <= df)%Z ->
  exists t90 t95 t99,
    findTValue 90 df = Some t90 /\ findTValue 95 df = Some t95
    /\ findTValue 99 df = Some t99
    /\ 0 < t90 /\ t90 < t95 /\ t95 < t99.
Proof.
  intros Hdf.
  assert (Hall : forallb
                   (fun k =>
                      match findTValue 90 (Z.of_nat k),
                            findTValue 95 (Z.of_nat k),
                            findTValue 99 (Z.of_nat k) with
                      | Some a, Some b, Some c =>
                          Dbl.ltb 0 a && Dbl.ltb a b && Dbl.ltb b c
                      | _, _, _ => false
                      end) (seq 1 101) = true)
    by (vm_compute; reflexivity).
  rewrite forallb_forall in Hall.
  assert (Hk : exists k, (1 <= k <= 101)%nat
                         /\ (forall c, In c [90; 95; 99] ->
                                       findTValue c df
                                       = findTValue c (Z.of_nat k))).
  { destruct (Z_le_gt_dec df 101) as [Hle|Hgt].
    - exists (Z.to_nat df). rewrite Z2Nat.id by lia. split; [lia | auto].
    - exists 101%nat. split; [lia|]. intros c Hc.
      apply (findTValue_above_100 c df ltac:(lia) Hc). }
  destruct Hk as (k & Hk & Heq).
  specialize (Hall k). rewrite in_seq in Hall. specialize (Hall ltac:(lia)).
  rewrite !Heq by (cbn; tauto).
  destruct (findTValue 90 (Z.of_nat k)) as [a|]; [|discriminate].
  destruct (findTValue 95 (Z.of_nat k)) as [b|]; [|discriminate].
  destruct (findTValue 99 (Z.of_nat k)) as [c|]; [|discriminate].
  apply andb_true_iff in Hall. destruct Hall as [Hab Hbc].
  apply andb_true_iff in Hab. destruct Hab as [H0a Hab].
  exists a, b, c. repeat split; now apply ltb_true_lt.
Qed.

(** X16.  [findTValue] returns a number exactly for the levels 90, 95 and 99
    with at least one degree of freedom.  The number never grows with the
    degrees of freedom, it never falls below the constant used above 100
    degrees of freedom, and at equal degrees of freedom it grows with the
    level. *)
Theorem findTValue_is_ordered :
  (forall confidence df1 df2,
      In confidence [90; 95; 99] -> (1 <= df1)%Z -> (df1 <= df2)%Z ->
      exists t1 t2 z,
        findTValue confidence df1 = Some t1
        /\ findTValue confidence df2 = Some t2
        /\ pick confidence (1.645, 1.960, 2.576) = Some z
        /\ z <= t2 /\ t2 <= t1)
  /\ (forall df,
         (1 <= df)%Z ->
         exists t90 t95 t99,
           findTValue 90 df = Some t90 /\ findTValue 95 df = Some t95
           /\ findTValue 99 df = Some t99 /\ t90 < t95 /\ t95 < t99)
  /\ (forall confidence df,
         (df < 1)%Z
         \/ (Dbl.eqb confidence 90 = false /\ Dbl.eqb confidence 95 = false
             /\ Dbl.eqb confidence 99 = false) ->
         findTValue confidence df = None).
Proof.
  split; [|split].
  - apply findTValue_monotone.
  - intros df Hdf.
    destruct (findTValue_levels df Hdf)
      as (t90 & t95 & t99 & H1 & H2 & H3 & _ & H4 & H5).
    exists t90, t95, t99. repeat split; assumption.
  - intros c df Hdf. unfold findTValue.
    destruct (df <? 1)%Z eqn:E; [reflexivity|]. apply Z.ltb_ge in E.
    destruct Hdf as [Hdf | (H90 & H95 & H99)]; [lia|].
    assert (Hpick : forall row, pick c row = None).
    { intros [[t90 t95] t99]. unfold pick. now rewrite H90, H95, H99. }
    rewrite !Hpick. destruct (df >? 100)%Z; reflexivity.
Qed.

Lemma findTValue_is_ordered_witness :
  exists t1 t2 z,
    findTValue 95 7 = Some t1 /\ findTValue 95 33 = Some t2
    /\ pick 95 (1.645, 1.960, 2.576) = Some z
    /\ t1 = 2.365 /\ t2 = 2.021 /\ z <= t2 /\ t2 <= t1.
Proof.
  destruct (proj1 findTValue_is_ordered 95 7%Z 33%Z)
    as (t1 & t2 & z & H1 & H2 & Hz & Hzt & Ht); [cbn; tauto | lia | lia |].
  exists t1, t2, z. repeat split; try assumption.
  - vm_compute in H1. now injection H1 as <-.
  - vm_compute in H2. now injection H2 as <-.
Defined.

End StatisticsMore.

(** ** The batched-means intervals: further properties *)

Module BatchedMeansMore.
Import MonteCarloSimulator.
Local Open Scope Q_scope.



End BatchedMeansMore.

(** ** The moment accumulator: further properties *)

Module OnlineStatsMore.
Import OnlineStats.
Import MonteCarloSimulator.
Local Open Scope Z_scope.

(** [combine] with an accumulator that saw nothing changes nothing. *)
Lemma combine_idle a b : count b = 0 -> combine a b = a.
Proof. intros Hb. unfold combine. rewrite Hb. reflexivity. Qed.

Lemma combine_count a b :
  0 <= count a -> 0 <= count b -> count a + count b < 2 ^ 63 ->
  count (combine a b) = count a + count b.
Proof.
  intros Ha Hb Hsum. unfold combine.
  destruct (count b =? 0) eqn:Eb; [apply Z.eqb_eq in Eb; lia|].
  destruct (count a =? 0) eqn:Ea; [apply Z.eqb_eq in Ea; lia|].
  cbn [count]. apply Int64Props.add_small. lia.
Qed.

Lemma fold_combine_played others :
  forall a, fold_left combine others a
            = fold_left combine (filter played others) a.
Proof.
  induction others as [|s others IH]; intros a; cbn [fold_left filter];
    [reflexivity|].
  unfold played at 1. destruct (count s =? 0) eqn:Es; cbn [negb fold_left].
  - apply Z.eqb_eq in Es. rewrite (combine_idle a s Es). apply IH.
  - apply IH.
Qed.

Lemma fold_combine_from_empty others :
  fold_left combine others empty = merge_thread_stats (filter played others).
Proof.
  induction others as [|s others IH]; cbn [fold_left filter];
    [reflexivity|].
  unfold played at 1.
  destruct (count s =? 0) eqn:Es; cbn [negb merge_thread_stats].
  - apply Z.eqb_eq in Es. rewrite (combine_idle empty s Es). exact IH.
  - unfold combine at 2. rewrite Es. cbn [count empty].
    change (0 =? 0) with true. cbv iota. apply fold_combine_played.
Qed.

Lemma fold_combine_count others :
  forall a,
    0 <= count a ->
    Forall (fun s => 0 <= count s) others ->
    count a + fold_right Z.add 0 (map count others) < 2 ^ 63 ->
    count (fold_left combine others a)
    = count a + fold_right Z.add 0 (map count others).
Proof.
  induction others as [|s others IH]; intros a Ha Hall Hsum;
    cbn [fold_left map fold_right] in *; [lia|].
  inversion Hall as [|? ? Hs Hrest]; subst.
  assert (0 <= fold_right Z.add 0 (map count others)).
  { clear -Hrest. induction Hrest; cbn; lia. }
  rewrite IH; rewrite ?combine_count; try lia. exact Hrest.
Qed.

(** X18.  Threads that played no round do not show in the merged
    accumulator: merging the per-thread accumulators as the parallel
    efficient runners do (thread 0 first, then [combine] with the others
    in order) gives exactly what merging only the accumulators of the
    threads that played gives, in the same order; a single thread that
    played hands its accumulator over unchanged.  The merged count is the
    sum of the per-thread counts as long as that sum fits a
    [long long]. *)
Theorem idle_threads_do_not_show_in_the_merge thread_stats :
  Forall (fun s => 0 <= count s /\ (count s = 0 -> s = empty)) thread_stats ->
  merge_thread_stats thread_stats
  = merge_thread_stats (filter played thread_stats)
  /\ (forall s, filter played thread_stats = [s] ->
                merge_thread_stats thread_stats = s)
  /\ (fold_right Z.add 0 (map count thread_stats) < 2 ^ 63 ->
      count (merge_thread_stats thread_stats)
      = fold_right Z.add 0 (map count thread_stats)).
Proof.
  intros Hall.
  assert (Hmerge : merge_thread_stats thread_stats
                   = merge_thread_stats (filter played thread_stats)).
  { destruct thread_stats as [|first others]; [reflexivity|].
    inversion Hall as [|? ? [Hf Hidle] Hrest]; subst.
    cbn [merge_thread_stats filter].
    unfold played at 1. destruct (count first =? 0) eqn:Ef; cbn [negb merge_thread_stats].
    - apply Z.eqb_eq in Ef. rewrite (Hidle Ef).
      apply fold_combine_from_empty.
    - apply fold_combine_played. }
  split; [exact Hmerge|]. split.
  - intros s Hs. rewrite Hmerge, Hs. reflexivity.
  - intros Hsum. destruct thread_stats as [|first others]; [reflexivity|].
    inversion Hall as [|? ? [Hf _] Hrest]; subst.
    cbn [merge_thread_stats map fold_right] in *.
    apply fold_combine_count; [exact Hf | | exact Hsum].
    eapply Forall_impl; [|exact Hrest]. intros s [Hs _]. exact Hs.
Qed.

Lemma idle_threads_do_not_show_in_the_merge_witness :
  merge_thread_stats (map replay [[]; [1; 2]; []; [4]]%Q)
  = merge_thread_stats (map replay [[1; 2]; [4]]%Q)
  /\ merge_thread_stats (map replay [[]; [3; 5]; []]%Q) = replay [3; 5]%Q
  /\ count (merge_thread_stats (map replay [[]; [1; 2]; []; [4]]%Q)) = 3.
Proof.
  assert (Hall : forall chunks,
             Forall (fun xs => (List.length xs < 3)%nat) chunks ->
             Forall (fun s => 0 <= count s /\ (count s = 0 -> s = empty))
                    (map replay chunks)).
  { intros chunks Hc. apply Forall_map. eapply Forall_impl; [|exact Hc].
    intros [|x [|y [|z xs]]] Hlen; cbn [List.length] in Hlen; try lia;
      (split; [cbv; discriminate | intros H; try reflexivity;
                                   cbv in H; discriminate H]). }
  destruct (idle_threads_do_not_show_in_the_merge
              (map replay [[]; [1; 2]; []; [4]]%Q)) as (H1 & _ & H3).
  { apply Hall. repeat constructor. }
  destruct (idle_threads_do_not_show_in_the_merge
              (map replay [[]; [3; 5]; []]%Q)) as (_ & H2 & _).
  { apply Hall. repeat constructor. }
  split; [exact H1|]. split.
  - apply H2. reflexivity.
  - apply H3. cbv. reflexivity.
Defined.

End OnlineStatsMore.

(** ** The histogram: further properties *)

Module HistogramMore.
Import Histogram.
Import HistogramProps.
Import MonteCarloSimulator.
Import SimulatorProps.
Local Open Scope Z_scope.

(** *** Counting commutes with merging *)

Lemma increment_length bins i :
  List.length (increment bins i) = List.length bins.
Proof.
  revert i. induction bins as [|b bins IH]; intros [|i]; cbn; auto.
Qed.

Lemma increment_at_length bins i :
  List.length (increment_at bins i) = List.length bins.
Proof.
  unfold increment_at. destruct (i <? 0); [reflexivity|].
  apply increment_length.
Qed.

Lemma add_bins_length bins other :
  List.length (add_bins bins other) = List.length bins.
Proof.
  revert other. induction bins as [|b bins IH]; intros [|o other]; cbn; auto.
Qed.

Lemma add_bins_increment_right bins other i :
  List.length other = List.length bins ->
  add_bins bins (increment other i) = increment (add_bins bins other) i.
Proof.
  revert other i. induction bins as [|b bins IH]; intros [|o other] [|i] Hl;
    cbn in *; try reflexivity; try discriminate.
  - f_equal. lia.
  - f_equal. apply IH. lia.
Qed.

Lemma add_bins_increment_left bins other i :
  List.length other = List.length bins ->
  add_bins (increment bins i) other = increment (add_bins bins other) i.
Proof.
  revert other i. induction bins as [|b bins IH]; intros [|o other] [|i] Hl;
    cbn in *; try reflexivity; try discriminate.
  - f_equal. lia.
  - f_equal. apply IH. lia.
Qed.

Lemma absorb_observe_right ds h th v :
  List.length (bins th) = List.length (bins h) ->
  absorb h (observe ds th v) = observe ds (absorb h th) v.
Proof.
  intros Hl. unfold absorb, observe.
  destruct (Dbl.ltb v 0); [cbn; f_equal; lia|].
  destruct (Dbl.leb (last ds 0%Q) v); [cbn; f_equal; lia|].
  cbn. f_equal. unfold increment_at.
  destruct (_ <? 0); [reflexivity|]. now apply add_bins_increment_right.
Qed.

Lemma absorb_observe_left ds h th v :
  List.length (bins th) = List.length (bins h) ->
  absorb (observe ds h v) th = observe ds (absorb h th) v.
Proof.
  intros Hl. unfold absorb, observe.
  destruct (Dbl.ltb v 0); [cbn; f_equal; lia|].
  destruct (Dbl.leb (last ds 0%Q) v); [cbn; f_equal; lia|].
  cbn. f_equal. unfold increment_at.
  destruct (_ <? 0); [reflexivity|]. now apply add_bins_increment_left.
Qed.

Lemma observe_bins_length ds h v :
  List.length (bins (observe ds h v)) = List.length (bins h).
Proof.
  unfold observe.
  destruct (Dbl.ltb v 0); [reflexivity|].
  destruct (Dbl.leb (last ds 0%Q) v); [reflexivity|].
  cbn. apply increment_at_length.
Qed.

Lemma absorb_bins_length h th :
  List.length (bins (absorb h th)) = List.length (bins h).
Proof. unfold absorb. cbn. apply add_bins_length. Qed.

(** Merging the threads after one more observation by the first thread
    that is merged, or into the histogram that receives them. *)
Lemma merge_after_observe ds n ths :
  forall h v,
    List.length (bins h) = n ->
    Forall (fun th => List.length (bins th) = n) ths ->
    fold_left absorb ths (observe ds h v)
    = observe ds (fold_left absorb ths h) v.
Proof.
  induction ths as [|th ths IH]; intros h v Hh Hths; cbn [fold_left];
    [reflexivity|].
  inversion Hths as [|? ? Hth Hrest]; subst.
  rewrite absorb_observe_left by congruence.
  apply IH; [|exact Hrest]. now rewrite absorb_bins_length.
Qed.

Lemma merge_observe_at ds n ths :
  forall h tid v,
    List.length (bins h) = n ->
    Forall (fun th => List.length (bins th) = n) ths ->
    (tid < List.length ths)%nat ->
    fold_left absorb (observe_at ds ths tid v) h
    = observe ds (fold_left absorb ths h) v
    /\ Forall (fun th => List.length (bins th) = n) (observe_at ds ths tid v)
    /\ List.length (observe_at ds ths tid v) = List.length ths.
Proof.
  induction ths as [|th ths IH]; intros h tid v Hh Hths Htid;
    [cbn in Htid; lia|].
  inversion Hths as [|? ? Hth Hrest]; subst.
  destruct tid as [|tid]; cbn [observe_at fold_left List.length].
  - rewrite absorb_observe_right by congruence.
    split; [|split; [|reflexivity]].
    + apply (merge_after_observe ds (List.length (bins h)));
        [now rewrite absorb_bins_length | exact Hrest].
    + constructor; [|exact Hrest]. now rewrite observe_bins_length.
  - destruct (IH (absorb h th) tid v) as (H1 & H2 & H3);
      [now rewrite absorb_bins_length | exact Hrest
       | cbn [List.length] in Htid; lia|].
    split; [exact H1|]. split; [constructor; assumption | now rewrite H3].
Qed.

Lemma merge_region ds n rounds :
  forall ths h,
    List.length (bins h) = n ->
    Forall (fun th => List.length (bins th) = n) ths ->
    Forall (fun r => (fst r < List.length ths)%nat) rounds ->
    fold_left absorb
      (fold_left (fun ths r => observe_at ds ths (fst r) (snd r)) rounds ths) h
    = fold_left (observe ds) (map snd rounds) (fold_left absorb ths h).
Proof.
  induction rounds as [|[tid v] rounds IH]; intros ths h Hh Hths Hr;
    cbn [fold_left map fst snd]; [reflexivity|].
  inversion Hr as [|? ? Htid Hrest]; subst. cbn [fst] in Htid.
  destruct (merge_observe_at ds (List.length (bins h)) ths h tid v
              eq_refl Hths Htid) as (H1 & H2 & H3).
  rewrite IH; [now rewrite H1 | reflexivity | exact H2|].
  rewrite H3. exact Hrest.
Qed.

Lemma add_zero_bins bins n :
  add_bins bins (repeat 0 n) = bins.
Proof.
  revert n. induction bins as [|b bins IH]; intros [|n]; cbn; try reflexivity.
  rewrite IH. f_equal. lia.
Qed.

Lemma merge_fresh_threads ds k h :
  fold_left absorb (repeat (Histogram.mk [] (zero_bins ds) 0 0) k) h = h.
Proof.
  induction k as [|k IH]; cbn [repeat fold_left]; [reflexivity|].
  assert (E : absorb h (Histogram.mk [] (zero_bins ds) 0 0) = h).
  { destruct h as [d b u o]. unfold absorb, zero_bins. cbn.
    rewrite add_zero_bins. f_equal; lia. }
  rewrite E. exact IH.
Qed.

Lemma parallel_is_stream h num_threads rounds :
  shaped (dividers h) h ->
  Forall (fun r => (fst r < num_threads)%nat) rounds ->
  parallel h num_threads rounds = stream h (map snd rounds).
Proof.
  intros Hshape Hr. unfold parallel, stream.
  rewrite (merge_region (dividers h) (List.length (bins h))).
  - now rewrite merge_fresh_threads.
  - reflexivity.
  - apply Forall_forall. intros th Hth. apply repeat_spec in Hth. subst th.
    cbn. rewrite zero_bins_length. symmetry. exact Hshape.
  - now rewrite repeat_length.
Qed.

(** X20.  The histogram that the parallel efficient runners merge from the
    per-thread histograms is, bin by bin, the histogram a single thread
    would have built from the same rounds, whichever thread ran which
    round and in whatever order. *)
Theorem parallel_histogram_is_the_sequential_histogram
        h num_threads rounds :
  shaped (dividers h) h ->
  Forall (fun r => (fst r < num_threads)%nat) rounds ->
  parallel h num_threads rounds = stream h (map snd rounds).
Proof. apply parallel_is_stream. Qed.

Lemma parallel_histogram_is_the_sequential_histogram_witness :
  parallel (Histogram.mk [0; 1; 5; 10]%Q [0; 0; 0] 0 0) 3
    [(2%nat, 3%Q); (0%nat, 7.5%Q); (1%nat, 30%Q); (2%nat, (-2)%Q); (0%nat, 0%Q)]
  = Histogram.mk [0; 1; 5; 10]%Q [1; 1; 1] 1 1.
Proof.
  rewrite (parallel_histogram_is_the_sequential_histogram
             (Histogram.mk [0; 1; 5; 10]%Q [0; 0; 0] 0 0) 3
             [(2%nat, 3%Q); (0%nat, 7.5%Q); (1%nat, 30%Q); (2%nat, (-2)%Q);
              (0%nat, 0%Q)]).
  - vm_compute. reflexivity.
  - reflexivity.
  - repeat constructor.
Defined.

(** *** The order of the observations does not matter *)

Lemma increment_comm bins i j :
  increment (increment bins i) j = increment (increment bins j) i.
Proof.
  revert i j. induction bins as [|b bins IH]; intros [|i] [|j]; cbn;
    try reflexivity.
  f_equal. apply IH.
Qed.

Lemma increment_at_comm bins i j :
  increment_at (increment_at bins i) j = increment_at (increment_at bins j) i.
Proof.
  unfold increment_at. destruct (i <? 0), (j <? 0); try reflexivity.
  apply increment_comm.
Qed.

Lemma observe_comm ds h a b :
  observe ds (observe ds h a) b = observe ds (observe ds h b) a.
Proof.
  unfold observe.
  destruct (Dbl.ltb a 0), (Dbl.ltb b 0),
    (Dbl.leb (last ds 0%Q) a), (Dbl.leb (last ds 0%Q) b); cbn;
    try reflexivity.
  f_equal. apply increment_at_comm.
Qed.

Lemma fold_observe_perm ds xs ys :
  Permutation xs ys ->
  forall h, fold_left (observe ds) xs h = fold_left (observe ds) ys h.
Proof.
  induction 1 as [|x xs ys _ IH|x y xs|xs ys zs _ IH1 _ IH2]; intros h;
    cbn [fold_left].
  - reflexivity.
  - apply IH.
  - now rewrite observe_comm.
  - now rewrite IH1, IH2.
Qed.

Lemma reset_cleared_histogram h : cleared h -> reset_histogram h = h.
Proof.
  intros (_ & Hb & Hu & Ho). destruct h as [d b u o]. cbn in *.
  unfold reset_histogram. cbn. now rewrite Hb, Hu, Ho.
Qed.

Lemma run_histogram_any_mode sim mem_mode useParallel batched num_threads
      rounds :
  sim_ok sim ->
  (useParallel = true -> Forall (fun r => (fst r < num_threads)%nat) rounds) ->
  run_histogram sim mem_mode useParallel batched num_threads rounds
  = run_histogram sim EFFICIENT false false num_threads rounds.
Proof.
  intros Hok Hthreads. unfold run_histogram.
  destruct (prepare_cleared sim Hok) as (sim1 & -> & _ & Hclear).
  set (h := m_histogram sim1) in *.
  pose proof (reset_cleared_histogram h Hclear) as Hreset.
  f_equal. f_equal. rewrite Hreset.
  destruct mem_mode.
  - destruct useParallel; [|reflexivity].
    assert (Hh : Histogram.mk (dividers h) (zero_bins (dividers h))
                   (underflow h) (overflow h) = h).
    { destruct Hclear as (_ & Hb & _). destruct h as [d b u o]. cbn in *.
      now rewrite Hb. }
    rewrite Hh. destruct batched; apply parallel_is_stream;
      try (apply cleared_shaped, Hclear); now apply Hthreads.
  - unfold analyzeAccurate_histogram.
    destruct (map snd rounds) as [|x xs] eqn:E; [reflexivity|].
    rewrite Hreset. unfold stream. symmetry.
    apply fold_observe_perm, StatisticsMore.sort_perm.
Qed.

(** X21.  Every runner builds the same histogram from the same rounds: the
    histogram left by [run] does not depend on the memory mode, on the use
    of threads, on the assignment of rounds to threads, or on the overload
    of [run] that was called.  (The accurate mode bins the sorted scores;
    binning does not depend on the order.) *)
Theorem every_runner_builds_the_same_histogram
        sim mem_mode useParallel batched num_threads rounds :
  reachable sim ->
  (useParallel = true -> Forall (fun r => (fst r < num_threads)%nat) rounds) ->
  run_histogram sim mem_mode useParallel batched num_threads rounds
  = run_histogram sim EFFICIENT false false num_threads rounds.
Proof.
  intros Hreach. apply run_histogram_any_mode. now apply reachable_ok.
Qed.

Lemma every_runner_builds_the_same_histogram_witness :
  run_histogram fresh ACCURATE true true 2
    [(1%nat, 7.5%Q); (0%nat, 3%Q); (1%nat, 30000%Q); (0%nat, 0%Q)]
  = run_histogram fresh EFFICIENT false false 2
      [(1%nat, 7.5%Q); (0%nat, 3%Q); (1%nat, 30000%Q); (0%nat, 0%Q)].
Proof.
  apply every_runner_builds_the_same_histogram.
  - constructor.
  - intros _. repeat constructor.
Defined.

(** *** The bin of a score *)

Local Open Scope Q_scope.

Lemma upper_bound_brackets ds v :
  (forall i, (i < upper_bound ds v)%nat -> nth i ds 0 <= v)
  /\ ((upper_bound ds v < List.length ds)%nat ->
      v < nth (upper_bound ds v) ds 0).
Proof.
  induction ds as [|d ds [IH1 IH2]]; cbn [upper_bound List.length].
  - split; intros; lia.
  - destruct (Dbl.ltb v d) eqn:E.
    + split; [intros i Hi; lia|]. intros _. cbn.
      now apply StatisticsProps.ltb_true_lt.
    + apply StatisticsProps.ltb_false_le in E. split.
      * intros [|i] Hi; cbn [nth]; [exact E | apply IH1; lia].
      * intros Hlt. cbn [nth]. apply IH2. lia.
Qed.

Lemma increment_nth bins j :
  (j < List.length bins)%nat ->
  nth j (increment bins j) 0%Z = (nth j bins 0 + 1)%Z
  /\ forall i, i <> j -> nth i (increment bins j) 0%Z = nth i bins 0%Z.
Proof.
  revert j. induction bins as [|b bins IH]; intros [|j] Hj;
    cbn [List.length] in Hj; try lia; cbn [increment nth].
  - split; [reflexivity|]. intros [|i] Hi; [congruence | reflexivity].
  - destruct (IH j ltac:(lia)) as [H1 H2]. split; [exact H1|].
    intros [|i] Hi; [reflexivity|]. apply H2. congruence.
Qed.

(** X22.  A score from 0 up to, but not including, the last edge is counted in
    exactly one bin, the one whose edges enclose it: the lower edge is at
    most the score and the upper edge is above it.  No other bin and
    neither outer bucket changes. *)
Theorem observed_score_is_counted_between_its_edges ds h v :
  edges_ok ds -> nondecreasing ds = true -> shaped ds h ->
  0 <= v -> v < last ds 0 ->
  exists j,
    (j < List.length (bins h))%nat
    /\ nth j ds 0 <= v /\ v < nth (S j) ds 0
    /\ nth j (bins (observe ds h v)) 0%Z = (nth j (bins h) 0 + 1)%Z
    /\ (forall i, i <> j ->
                  nth i (bins (observe ds h v)) 0%Z = nth i (bins h) 0%Z)
    /\ underflow (observe ds h v) = underflow h
    /\ overflow (observe ds h v) = overflow h.
Proof.
  intros Hedges _ Hshape Hv0 Hvlast.
  assert (Hne : ds <> []).
  { destruct Hedges as (rest & ->). discriminate. }
  pose proof (upper_bound_after_zero ds v Hedges
                (StatisticsMore.le_ltb_false v 0 Hv0)) as Hub1.
  pose proof (upper_bound_before_last ds v Hne
                (StatisticsMore.lt_ltb_true v (last ds 0) Hvlast)) as Hub2.
  destruct (upper_bound_brackets ds v) as [Hlow Hhigh].
  set (k := upper_bound ds v) in *.
  exists (k - 1)%nat.
  assert (Hj : (k - 1 < List.length (bins h))%nat).
  { unfold shaped in Hshape. lia. }
  unfold observe.
  rewrite (StatisticsMore.le_ltb_false v 0 Hv0).
  assert (Hleb : Dbl.leb (last ds 0) v = false).
  { unfold Dbl.leb. destruct (Qle_bool (last ds 0) v) eqn:E; [|reflexivity].
    apply Qle_bool_iff in E. lra. }
  rewrite Hleb. cbn [bins underflow overflow]. fold k.
  unfold increment_at.
  destruct (Z.of_nat k - 1 <? 0)%Z eqn:Eneg; [apply Z.ltb_lt in Eneg; lia|].
  replace (Z.to_nat (Z.of_nat k - 1)) with (k - 1)%nat by lia.
  destruct (increment_nth (bins h) (k - 1) Hj) as [H1 H2].
  split; [exact Hj|]. split; [apply Hlow; lia|].
  split; [replace (S (k - 1)) with k by lia; apply Hhigh, Hub2|].
  split; [exact H1|]. split; [exact H2|]. split; reflexivity.
Qed.

Lemma observed_score_is_counted_between_its_edges_witness :
  exists j,
    nth j [0; 1; 5; 10] 0 <= 7.5 /\ 7.5 < nth (S j) [0; 1; 5; 10] 0
    /\ nth j (bins (observe [0; 1; 5; 10]
                      (Histogram.mk [0; 1; 5; 10] [4; 0; 2]%Z 0 0) 7.5)) 0%Z
       = 3%Z.
Proof.
  destruct (observed_score_is_counted_between_its_edges [0; 1; 5; 10]
              (Histogram.mk [0; 1; 5; 10] [4; 0; 2]%Z 0 0) 7.5)
    as (j & Hj & Hlo & Hhi & Hcount & _).
  - exists [5; 10]. reflexivity.
  - reflexivity.
  - reflexivity.
  - unfold Qle; cbn; lia.
  - unfold Qlt; cbn; lia.
  - exists j. split; [exact Hlo|]. split; [exact Hhi|].
    cbn [bins List.length] in Hj.
    destruct j as [|[|[|j]]]; try lia; cbn [nth] in Hlo, Hhi.
    + exfalso. revert Hhi. unfold Qlt; cbn; lia.
    + exfalso. revert Hhi. unfold Qlt; cbn; lia.
    + rewrite Hcount. reflexivity.
Defined.

(** *** Fixed-width bins *)

Section FixedWidth.

Variable rnd : Q -> Q.
Variable fused : bool.
Hypothesis rnd_rounding : Dbl.rounding rnd.
Variable bin_width : Q.
Hypothesis bin_width_nonneg : 0 <= bin_width.

Lemma fixed_width_edge_at_least_1 (i : nat) :
  1 <= rnd (1 + Dbl.product rnd fused
                  (Dbl.ofZ (Z.of_nat i + 1) * bin_width)).
Proof.
  rewrite <- (RoundedPercentile.rounding_one rnd rnd_rounding) at 1.
  apply (proj1 rnd_rounding).
  assert (0 <= Dbl.product rnd fused (Dbl.ofZ (Z.of_nat i + 1) * bin_width)).
  { apply RoundedPercentile.product_nonneg; [exact rnd_rounding|].
    apply Qmult_le_0_compat; [|exact bin_width_nonneg].
    unfold Dbl.ofZ. rewrite <- (Zle_Qle 0). lia. }
  lra.
Qed.

Lemma fixed_width_edge_monotone (i j : nat) :
  (i <= j)%nat ->
  rnd (1 + Dbl.product rnd fused (Dbl.ofZ (Z.of_nat i + 1) * bin_width))
  <= rnd (1 + Dbl.product rnd fused (Dbl.ofZ (Z.of_nat j + 1) * bin_width)).
Proof.
  intros Hij. apply (proj1 rnd_rounding). apply Qplus_le_r.
  apply RoundedPercentile.product_monotone; [exact rnd_rounding|].
  apply Qmult_le_compat_r; [|exact bin_width_nonneg].
  unfold Dbl.ofZ. rewrite <- Zle_Qle. lia.
Qed.

Lemma fixed_width_edges_nth (n k : nat) :
  (k < n)%nat ->
  nth (S (S k))
      (0 :: 1
         :: map (fun i => rnd (1 + Dbl.product rnd fused
                                     (Dbl.ofZ (Z.of_nat i + 1) * bin_width)))
                (seq 0 n)) 0
  = rnd (1 + Dbl.product rnd fused (Dbl.ofZ (Z.of_nat k + 1) * bin_width)).
Proof.
  intros Hk. cbn [nth].
  set (edge := fun i => rnd (1 + Dbl.product rnd fused
                                   (Dbl.ofZ (Z.of_nat i + 1) * bin_width))).
  rewrite (nth_indep _ 0 (edge 0%nat)) by (rewrite length_map, length_seq; lia).
  rewrite map_nth, seq_nth by lia. reflexivity.
Qed.

Lemma fixed_width_edges_sorted (n : nat) :
  nondecreasing
    (0 :: 1
       :: map (fun i => rnd (1 + Dbl.product rnd fused
                                   (Dbl.ofZ (Z.of_nat i + 1) * bin_width)))
              (seq 0 n))
  = true.
Proof.
  apply StatisticsMore.nondecreasing_from_nth. intros i Hi.
  cbn [List.length] in Hi. rewrite length_map, length_seq in Hi.
  destruct i as [|[|i]].
  - cbn. unfold Qle; cbn; lia.
  - rewrite (fixed_width_edges_nth n 0) by lia. cbn [nth].
    apply fixed_width_edge_at_least_1.
  - rewrite (fixed_width_edges_nth n i), (fixed_width_edges_nth n (S i))
      by lia.
    apply fixed_width_edge_monotone. lia.
Qed.

End FixedWidth.

(** X23.  [setFixedWidthHistogramBins] throws when [max_val] is at most 1 or
    [num_bins] is below 1.  Otherwise, whatever the rounding of its
    arithmetic, it succeeds and lays out [num_bins + 2] non-decreasing
    edges, the first two being 0 and 1 and none of the others below 1,
    with [num_bins + 1] empty bins.  (The last edge is [max_val] only up
    to rounding.) *)
Theorem fixed_width_bins_layout rnd fused sim max_val num_bins :
  Dbl.rounding rnd ->
  (1 < max_val -> (1 <= num_bins)%Z ->
   exists sim',
     setFixedWidthHistogramBins_rounded rnd fused sim max_val num_bins
     = Returns sim'
     /\ m_histogram_configured sim' = true
     /\ bins (m_histogram sim') = repeat 0%Z (S (Z.to_nat num_bins))
     /\ List.length (dividers (m_histogram sim')) = S (S (Z.to_nat num_bins))
     /\ nth 0 (dividers (m_histogram sim')) 0 = 0
     /\ nth 1 (dividers (m_histogram sim')) 0 = 1
     /\ (forall i, (2 <= i < List.length (dividers (m_histogram sim')))%nat ->
                   1 <= nth i (dividers (m_histogram sim')) 0)
     /\ nondecreasing (dividers (m_histogram sim')) = true)
  /\ (max_val <= 1 \/ (num_bins < 1)%Z ->
      setFixedWidthHistogramBins_rounded rnd fused sim max_val num_bins
      = Throws "Max value must be > 1 and num_bins must be > 0.").
Proof.
  intros Hr. split.
  - intros Hmax Hnum. unfold setFixedWidthHistogramBins_rounded.
    assert (E1 : Dbl.leb max_val 1 = false).
    { unfold Dbl.leb. destruct (Qle_bool max_val 1) eqn:E; [|reflexivity].
      apply Qle_bool_iff in E. lra. }
    assert (E2 : (num_bins <? 1)%Z = false) by (apply Z.ltb_ge; lia).
    rewrite E1, E2. cbn [orb]. cbv zeta.
    set (w := rnd (rnd (max_val - 1) / Dbl.ofZ num_bins)).
    assert (Hw : 0 <= w).
    { unfold w. apply RoundedPercentile.rounding_nonneg; [exact Hr|].
      apply Qle_shift_div_l.
      - unfold Dbl.ofZ. rewrite <- (Zlt_Qlt 0). lia.
      - rewrite Qmult_0_l.
        apply RoundedPercentile.rounding_nonneg; [exact Hr | lra]. }
    set (n := Z.to_nat num_bins).
    assert (Hn1 : (1 <= n)%nat) by (unfold n; lia).
    clearbody n.
    set (edge := fun i => rnd (1 + Dbl.product rnd fused
                                     (Dbl.ofZ (Z.of_nat i + 1) * w))).
    unfold setCustomHistogramBins.
    destruct n as [|n']; [lia|]. cbn [seq map].
    assert (E3 : Dbl.ltb (edge 0%nat) 1 = false).
    { apply StatisticsMore.le_ltb_false.
      apply (fixed_width_edge_at_least_1 rnd fused Hr w Hw). }
    rewrite E3.
    change (edge 0%nat :: map edge (seq 1 n'))
      with (map edge (seq 0 (S n'))).
    set (ds := 0 :: 1 :: map edge (seq 0 (S n'))).
    assert (Hlen : List.length ds = S (S (S n'))).
    { unfold ds. cbn [List.length]. now rewrite length_map, length_seq. }
    eexists. split; [reflexivity|].
    cbn [m_histogram_configured m_histogram dividers bins]. fold ds.
    split; [reflexivity|]. split.
    { unfold zero_bins. rewrite Hlen. f_equal; lia. }
    split; [exact Hlen|]. split; [reflexivity|]. split; [reflexivity|].
    split.
    + intros i Hi. rewrite Hlen in Hi.
      destruct i as [|[|i]]; try lia.
      unfold ds, edge.
      rewrite (fixed_width_edges_nth rnd fused w (S n') i) by lia.
      apply (fixed_width_edge_at_least_1 rnd fused Hr w Hw).
    + apply (fixed_width_edges_sorted rnd fused Hr w Hw).
  - intros Hbad. unfold setFixedWidthHistogramBins_rounded.
    destruct Hbad as [Hmax|Hnum].
    + assert (E : Dbl.leb max_val 1 = true) by now apply Qle_bool_iff.
      now rewrite E.
    + apply Z.ltb_lt in Hnum. rewrite Hnum, orb_true_r. reflexivity.
Qed.

Lemma fixed_width_bins_layout_witness :
  exists sim',
    setFixedWidthHistogramBins_rounded Dbl.binary64 false fresh 30 7
    = Returns sim'
    /\ bins (m_histogram sim') = [0; 0; 0; 0; 0; 0; 0; 0]%Z
    /\ nondecreasing (dividers (m_histogram sim')) = true
    /\ last (dividers (m_histogram sim')) 0 == 30 + 2 ^ (-48).
Proof.
  destruct (proj1 (fixed_width_bins_layout Dbl.binary64 false fresh 30 7
                     Binary64Props.binary64_rounding))
    as (sim' & Hrun & _ & Hbins & _ & _ & _ & _ & Hsorted).
  - reflexivity.
  - lia.
  - exists sim'. split; [exact Hrun|]. split; [exact Hbins|].
    split; [exact Hsorted|].
    vm_compute in Hrun. injection Hrun as <-. reflexivity.
Defined.

(** Without rounding the function is the exact one. *)
Lemma fixed_width_rounded_exact fused sim max_val num_bins :
  setFixedWidthHistogramBins_rounded (fun x => x) fused sim max_val num_bins
  = setFixedWidthHistogramBins sim max_val num_bins.
Proof. destruct fused; reflexivity. Qed.

(** *** The percentile read from the histogram *)

Section WalkUpper.

Variable ds : list Q.
Hypothesis ds_sorted : nondecreasing ds = true.


End WalkUpper.



End HistogramMore.

(** ** The largest values *)

Module TopValues.
Import MonteCarloSimulator.
Import StatisticsProps.
Import StatisticsMore.
Local Open Scope Q_scope.

Lemma sorted_front_least front rest :
  nondecreasing (front :: rest) = true ->
  forall t, In t (front :: rest) -> front <= t.
Proof.
  intros Hs t [<-|Ht]; [apply Qle_refl|].
  now apply (nondecreasing_head front rest).
Qed.

(** One call of [updateTopValues 5] keeps the list sorted, holding the
    five largest values seen, or all of them while there are fewer. *)
Lemma updateTopValues_step top seen v :
  nondecreasing top = true ->
  List.length top = Nat.min 5 (List.length seen) ->
  (exists rest, Permutation seen (top ++ rest)
                /\ forall r t, In r rest -> In t top -> r <= t) ->
  nondecreasing (updateTopValues top v 5) = true
  /\ List.length (updateTopValues top v 5)
     = Nat.min 5 (List.length (seen ++ [v]))
  /\ exists rest, Permutation (seen ++ [v]) (updateTopValues top v 5 ++ rest)
                  /\ forall r t, In r rest ->
                                 In t (updateTopValues top v 5) -> r <= t.
Proof.
  intros Hsorted Hlen (rest & Hperm & Hdom).
  pose proof (Permutation_length Hperm) as Hpl.
  rewrite List.length_app in Hpl.
  unfold updateTopValues. rewrite List.length_app. cbn [List.length].
  destruct (List.length top <? 5)%nat eqn:E.
  - apply Nat.ltb_lt in E.
    assert (Hrest : rest = []) by (destruct rest; [reflexivity | cbn in Hpl; lia]).
    subst rest. rewrite app_nil_r in Hperm.
    split; [apply sort_sorted|]. split.
    + rewrite sort_length, List.length_app. cbn [List.length]. lia.
    + exists []. rewrite app_nil_r. split; [|intros r t []].
      rewrite <- sort_perm. now apply Permutation_app_tail.
  - apply Nat.ltb_ge in E.
    destruct top as [|front others]; [cbn in E; lia|].
    destruct (Dbl.ltb front v) eqn:Ev.
    + apply ltb_true_lt in Ev.
      split; [apply sort_sorted|]. split.
      * rewrite sort_length. cbn [List.length] in *. lia.
      * exists (front :: rest). split.
        -- rewrite <- sort_perm. rewrite Hperm. cbn [app].
           apply Permutation_trans with (v :: front :: others ++ rest).
           ++ apply Permutation_trans with (front :: v :: others ++ rest);
                [|apply perm_swap].
              apply perm_skip, Permutation_sym, Permutation_cons_append.
           ++ apply perm_skip, Permutation_middle.
        -- intros r t Hr Ht. apply sort_In in Ht.
           assert (Hfront : front <= t).
           { destruct Ht as [<-|Ht]; [lra|].
             now apply (nondecreasing_head front others). }
           destruct Hr as [<-|Hr]; [exact Hfront|].
           eapply Qle_trans; [|exact Hfront]. apply Hdom; [exact Hr | now left].
    + apply ltb_false_le in Ev.
      split; [exact Hsorted|]. split.
      * cbn [List.length] in *. lia.
      * exists (v :: rest). split.
        -- rewrite Hperm. rewrite <- app_assoc.
           apply Permutation_app_head. apply Permutation_sym.
           apply Permutation_cons_append.
        -- intros r t [<-|Hr] Ht; [|now apply Hdom].
           eapply Qle_trans; [exact Ev|].
           now apply (sorted_front_least front others).
Qed.

Lemma track_from totals :
  forall top seen,
    nondecreasing top = true ->
    List.length top = Nat.min 5 (List.length seen) ->
    (exists rest, Permutation seen (top ++ rest)
                  /\ forall r t, In r rest -> In t top -> r <= t) ->
    let top' := fold_left (fun top_values total_score =>
                             updateTopValues top_values total_score 5)
                          totals top in
    nondecreasing top' = true
    /\ List.length top' = Nat.min 5 (List.length (seen ++ totals))
    /\ exists rest, Permutation (seen ++ totals) (top' ++ rest)
                    /\ forall r t, In r rest -> In t top' -> r <= t.
Proof.
  induction totals as [|v totals IH]; intros top seen Hs Hl Hp;
    cbn [fold_left].
  - rewrite app_nil_r. tauto.
  - destruct (updateTopValues_step top seen v Hs Hl Hp) as (H1 & H2 & H3).
    specialize (IH _ _ H1 H2 H3). cbv zeta in IH.
    rewrite <- app_assoc in IH. exact IH.
Qed.

(** X25.  After a single-threaded efficient run the tracker of the largest
    values is sorted in ascending order and holds the five largest round
    totals seen (all of them when there were fewer than five): the totals
    split into the tracked ones and the others, and none of the others
    exceeds a tracked one. *)
Theorem tracked_top_values_are_the_five_largest totals :
  nondecreasing (track_top_values totals) = true
  /\ List.length (track_top_values totals) = Nat.min 5 (List.length totals)
  /\ exists rest,
      Permutation totals (track_top_values totals ++ rest)
      /\ forall r t, In r rest -> In t (track_top_values totals) -> r <= t.
Proof.
  apply (track_from totals [] []).
  - reflexivity.
  - reflexivity.
  - exists []. split; [reflexivity | intros r t []].
Qed.

Lemma tracked_top_values_are_the_five_largest_witness :
  track_top_values [3; 9; 1; 7; 5; 8; 2] = [3; 5; 7; 8; 9]
  /\ nondecreasing (track_top_values [3; 9; 1; 7; 5; 8; 2]) = true
  /\ List.length (track_top_values [3; 9; 1; 7; 5; 8; 2]) = 5%nat.
Proof.
  split; [vm_compute; reflexivity|].
  destruct (tracked_top_values_are_the_five_largest [3; 9; 1; 7; 5; 8; 2])
    as (H1 & H2 & _).
  split; [exact H1 | exact H2].
Defined.

(** *** The extraction of the accurate mode *)

Lemma accurate_top_values_firstn s :
  accurate_top_values s = firstn 5 (rev s).
Proof.
  unfold accurate_top_values.
  apply (nth_ext _ _ 0 0).
  - rewrite length_map, length_seq, length_firstn, length_rev. reflexivity.
  - intros i Hi. rewrite length_map, length_seq in Hi.
    set (f := fun i => nth (List.length s - 1 - i) s 0).
    rewrite (nth_indep _ 0 (f 0%nat))
      by (rewrite length_map, length_seq; exact Hi).
    rewrite map_nth, seq_nth by exact Hi. unfold f. cbn [Nat.add].
    rewrite nth_firstn.
    destruct (i <? 5)%nat eqn:E; [|apply Nat.ltb_ge in E; lia].
    rewrite rev_nth by lia. f_equal. lia.
Qed.

(** X26.  The accurate mode reads the largest values off the end of the sorted
    scores: it reports the five largest scores (all of them when there are
    fewer), the largest first, that is in the order opposite to the one
    the tracker of the efficient single-threaded mode keeps. *)
Theorem accurate_top_values_are_the_five_largest_descending m_results :
  let top := accurate_top_values (Statistics.sort m_results) in
  top = firstn 5 (rev (Statistics.sort m_results))
  /\ nondecreasing (rev top) = true
  /\ List.length top = Nat.min 5 (List.length m_results)
  /\ exists rest,
      Permutation m_results (top ++ rest)
      /\ forall r t, In r rest -> In t top -> r <= t.
Proof.
  cbv zeta. rewrite accurate_top_values_firstn.
  pose proof (sort_sorted m_results) as Hsorted.
  pose proof (sort_perm m_results) as Hperm.
  pose proof (sort_length m_results) as Hlen.
  set (s := Statistics.sort m_results) in *.
  assert (Hrev : forall i j, (i <= j < List.length s)%nat ->
                             nth j (rev s) 0 <= nth i (rev s) 0).
  { intros i j Hij. rewrite !rev_nth by lia.
    apply (PercentileProps.nondecreasing_nth s Hsorted). lia. }
  split; [reflexivity|]. split; [|split].
  - apply nondecreasing_from_nth. intros i Hi.
    rewrite length_rev, length_firstn, length_rev in Hi.
    rewrite !rev_nth by (rewrite length_firstn, length_rev; lia).
    rewrite length_firstn, length_rev, !nth_firstn.
    set (m := Nat.min 5 (List.length s)) in *.
    destruct (m - S i <? 5)%nat eqn:E1; [|apply Nat.ltb_ge in E1; lia].
    destruct (m - S (S i) <? 5)%nat eqn:E2; [|apply Nat.ltb_ge in E2; lia].
    apply Hrev. lia.
  - rewrite length_firstn, length_rev. lia.
  - exists (skipn 5 (rev s)). split.
    + rewrite firstn_skipn. rewrite <- Permutation_rev. exact Hperm.
    + intros r t Hr Ht.
      destruct (In_nth _ _ 0 Hr) as (j & Hj & <-).
      destruct (In_nth _ _ 0 Ht) as (i & Hi & <-).
      rewrite length_skipn, length_rev in Hj.
      rewrite length_firstn, length_rev in Hi.
      rewrite nth_skipn, nth_firstn.
      destruct (i <? 5)%nat eqn:E; [|apply Nat.ltb_ge in E; lia].
      apply Hrev. lia.
Qed.

Lemma accurate_top_values_are_the_five_largest_descending_witness :
  accurate_top_values (Statistics.sort [3; 9; 1; 7; 5; 8; 2])
  = [9; 8; 7; 5; 3]
  /\ nondecreasing
       (rev (accurate_top_values (Statistics.sort [3; 9; 1; 7; 5; 8; 2])))
     = true.
Proof.
  split; [vm_compute; reflexivity|].
  exact (proj1 (proj2
           (accurate_top_values_are_the_five_largest_descending
              [3; 9; 1; 7; 5; 8; 2]))).
Defined.

End TopValues.

(** ** The bookkeeping of the runners *)

Module RunnerBookkeeping.
Import MonteCarloSimulator.

(** *** Level statistics *)

Lemma fold_add_level l :
  forall t s c,
    fold_left add_level l (t, s, c)
    = (t + levels_sum l, s + levels_nonone_sum l, c + levels_nonone_count l).
Proof.
  unfold levels_sum, levels_nonone_sum, levels_nonone_count.
  induction l as [|x l IH]; intros t s c; cbn [fold_left fold_right].
  - apply (f_equal2 pair); [apply (f_equal2 pair)|]; lia.
  - unfold add_level at 2. destruct (x =? 1); rewrite IH;
      (apply (f_equal2 pair); [apply (f_equal2 pair)|]); lia.
Qed.

Lemma levels_sum_app l1 l2 :
  levels_sum (l1 ++ l2) = levels_sum l1 + levels_sum l2
  /\ levels_nonone_sum (l1 ++ l2)
     = levels_nonone_sum l1 + levels_nonone_sum l2
  /\ levels_nonone_count (l1 ++ l2)
     = levels_nonone_count l1 + levels_nonone_count l2.
Proof.
  unfold levels_sum, levels_nonone_sum, levels_nonone_count.
  induction l1 as [|x l1 (I1 & I2 & I3)]; cbn [app fold_right]; [lia|].
  rewrite I1, I2, I3. destruct (x =? 1); lia.
Qed.

Lemma levels_sum_cons x l :
  levels_sum (x :: l) = x + levels_sum l
  /\ levels_nonone_sum (x :: l)
     = (if x =? 1 then 0 else x) + levels_nonone_sum l
  /\ levels_nonone_count (x :: l)
     = (if x =? 1 then 0 else 1) + levels_nonone_count l.
Proof.
  unfold levels_sum, levels_nonone_sum, levels_nonone_count.
  cbn [fold_right]. destruct (x =? 1); lia.
Qed.

(** The levels other than 1 are what is left of the total when the ones
    are taken away. *)
Lemma levels_ones l :
  levels_sum l - levels_nonone_sum l
  = Z.of_nat (List.length l) - levels_nonone_count l.
Proof.
  unfold levels_sum, levels_nonone_sum, levels_nonone_count.
  induction l as [|x l IH]; cbn [fold_right List.length]; [reflexivity|].
  destruct (x =? 1) eqn:E; [apply Z.eqb_eq in E|]; lia.
Qed.

(** The statistics of the round loop in closed form. *)
Lemma level_rounds_from results :
  forall st,
    fold_left level_round results st
    = let B := map bg_levels results in
      let F := List.concat (map fg_levels results) in
      mkLevelStats
        (m_total_bg_levels st + levels_sum B)
        (m_bg_nonzero_levels_sum st + levels_nonone_sum B)
        (m_bg_nonzero_levels_count st + levels_nonone_count B)
        (m_total_fg_levels st + levels_sum F)
        (m_fg_nonzero_levels_sum st + levels_nonone_sum F)
        (m_fg_nonzero_levels_count st + levels_nonone_count F)
        (m_total_run_levels st + (levels_sum B + levels_sum F))
        (m_run_nonzero_levels_sum st
         + (levels_nonone_sum B + levels_nonone_sum F))
        (m_run_nonzero_levels_count st
         + (levels_nonone_count B + levels_nonone_count F)).
Proof.
  induction results as [|r results IH]; intros st;
    cbn [fold_left map List.concat].
  - destruct st. cbv zeta. unfold levels_sum, levels_nonone_sum,
      levels_nonone_count. cbn. f_equal; lia.
  - rewrite IH. cbv zeta.
    destruct (levels_sum_app (fg_levels r)
                (List.concat (map fg_levels results))) as (A1 & A2 & A3).
    rewrite A1, A2, A3.
    destruct (levels_sum_cons (bg_levels r) (map bg_levels results))
      as (C1 & C2 & C3).
    rewrite C1, C2, C3.
    unfold level_round.
    rewrite !fold_add_level. unfold add_level.
    destruct (bg_levels r =? 1);
      cbn [m_total_bg_levels m_bg_nonzero_levels_sum
           m_bg_nonzero_levels_count m_total_fg_levels
           m_fg_nonzero_levels_sum m_fg_nonzero_levels_count
           m_total_run_levels m_run_nonzero_levels_sum
           m_run_nonzero_levels_count];
      f_equal; lia.
Qed.

Lemma store_levels_closed r :
  store_levels r
  = (bg_levels r, levels_sum (fg_levels r),
     levels_nonone_count (fg_levels r)).
Proof.
  unfold store_levels.
  assert (H : forall l t c,
             fold_left (fun '(total, count) fg_level =>
                          (total + fg_level,
                           if fg_level =? 1 then count else count + 1))
                       l (t, c)
             = (t + levels_sum l, c + levels_nonone_count l)).
  { unfold levels_sum, levels_nonone_count.
    induction l as [|x l IH]; intros t c; cbn [fold_left fold_right].
    - apply (f_equal2 pair); lia.
    - rewrite IH. destruct (x =? 1); apply (f_equal2 pair); lia. }
  rewrite H. reflexivity.
Qed.

Lemma stored_bg_from results :
  forall t s c,
    fold_left (fun acc '(level, _, _) => add_level acc level)
              (map store_levels results) (t, s, c)
    = (t + levels_sum (map bg_levels results),
       s + levels_nonone_sum (map bg_levels results),
       c + levels_nonone_count (map bg_levels results)).
Proof.
  induction results as [|r results IH]; intros t s c; cbn [map fold_left].
  - unfold levels_sum, levels_nonone_sum, levels_nonone_count. cbn.
    apply (f_equal2 pair); [apply (f_equal2 pair)|]; lia.
  - rewrite store_levels_closed.
    destruct (levels_sum_cons (bg_levels r) (map bg_levels results))
      as (C1 & C2 & C3).
    rewrite C1, C2, C3. unfold add_level.
    destruct (bg_levels r =? 1); rewrite IH;
      (apply (f_equal2 pair); [apply (f_equal2 pair)|]); lia.
Qed.

Lemma stored_fg_from results :
  forall t c,
    fold_left (fun '(total, count) '(_, fg_total, fg_nonzero) =>
                 (total + fg_total, count + fg_nonzero))
              (map store_levels results) (t, c)
    = (t + levels_sum (List.concat (map fg_levels results)),
       c + levels_nonone_count (List.concat (map fg_levels results))).
Proof.
  induction results as [|r results IH]; intros t c;
    cbn [map fold_left List.concat].
  - unfold levels_sum, levels_nonone_count. cbn. apply (f_equal2 pair); lia.
  - rewrite store_levels_closed, IH.
    destruct (levels_sum_app (fg_levels r)
                (List.concat (map fg_levels results))) as (A1 & _ & A3).
    rewrite A1, A3. apply (f_equal2 pair); lia.
Qed.

Lemma stored_run_from results :
  forall t c,
    fold_left (fun '(total, count) '(level, fg_total, fg_nonzero) =>
                 (total + (level + fg_total),
                  count + ((if level =? 1 then 0 else 1) + fg_nonzero)))
              (map store_levels results) (t, c)
    = (t + (levels_sum (map bg_levels results)
            + levels_sum (List.concat (map fg_levels results))),
       c + (levels_nonone_count (map bg_levels results)
            + levels_nonone_count (List.concat (map fg_levels results)))).
Proof.
  induction results as [|r results IH]; intros t c;
    cbn [map fold_left List.concat].
  - unfold levels_sum, levels_nonone_count. cbn. apply (f_equal2 pair); lia.
  - rewrite store_levels_closed, IH.
    destruct (levels_sum_app (fg_levels r)
                (List.concat (map fg_levels results))) as (A1 & _ & A3).
    destruct (levels_sum_cons (bg_levels r) (map bg_levels results))
      as (C1 & _ & C3).
    rewrite A1, A3, C1, C3. apply (f_equal2 pair); lia.
Qed.

Lemma stored_picks_from lengths :
  forall picks runs longest,
    fst (fst (fold_left
                (fun '(picks, runs, longest) length =>
                   if length >? 0
                   then (picks + length, runs + 1,
                         if length >? longest then length else longest)
                   else (picks + length, runs, longest))
                lengths (picks, runs, longest)))
    = picks + fold_right Z.add 0 lengths.
Proof.
  induction lengths as [|x lengths IH]; intros picks runs longest;
    cbn [fold_left fold_right fst]; [lia|].
  destruct (x >? 0); rewrite IH; lia.
Qed.

Lemma stored_picks results :
  Forall (fun r => fg_run_length r = Z.of_nat (List.length (fg_levels r)))
         results ->
  m_total_fg_picks (count_stored results)
  = Z.of_nat (List.length (List.concat (map fg_levels results))).
Proof.
  intros Hok. unfold count_stored, count_stored_flags.
  pose proof (stored_picks_from (map fg_run_length results) 0 0 0) as Hp.
  destruct (fold_left _ (map fg_run_length results) (0, 0, 0))
    as [[picks runs] longest].
  cbn [fst m_total_fg_picks] in *. rewrite Hp. clear Hp.
  induction Hok as [|r results Hr _ IH]; cbn [map fold_right List.concat];
    [reflexivity|].
  rewrite List.length_app, Hr. lia.
Qed.

(** X27.  The parallel accurate runners do not accumulate the sums of the
    levels other than 1; they derive them by subtracting the number of
    ones from the totals.  For results whose [fg_run_length] is the number
    of their level entries, every level statistic they leave agrees with
    the one the round loop of the other runners accumulates, except
    [m_run_nonzero_levels_sum]: the runner reads [m_stats.count] before
    the analysis has set it, so the base items are not counted among the
    ones and the derived sum exceeds the accumulated one by the number of
    rounds. *)
Theorem accurate_parallel_level_statistics results :
  Forall (fun r => fg_run_length r = Z.of_nat (List.length (fg_levels r)))
         results ->
  accurate_parallel_levels results
  = let direct := level_rounds results in
    mkLevelStats
      (m_total_bg_levels direct) (m_bg_nonzero_levels_sum direct)
      (m_bg_nonzero_levels_count direct)
      (m_total_fg_levels direct) (m_fg_nonzero_levels_sum direct)
      (m_fg_nonzero_levels_count direct)
      (m_total_run_levels direct)
      (m_run_nonzero_levels_sum direct + Z.of_nat (List.length results))
      (m_run_nonzero_levels_count direct).
Proof.
  intros Hok. unfold accurate_parallel_levels, level_rounds.
  rewrite (stored_picks results Hok), level_rounds_from.
  unfold levels_from_stored.
  rewrite stored_bg_from, stored_fg_from, stored_run_from.
  cbv zeta.
  cbn [levels_reset m_total_bg_levels m_bg_nonzero_levels_sum
       m_bg_nonzero_levels_count m_total_fg_levels
       m_fg_nonzero_levels_sum m_fg_nonzero_levels_count
       m_total_run_levels m_run_nonzero_levels_sum
       m_run_nonzero_levels_count].
  pose proof (levels_ones (List.concat (map fg_levels results))) as HF.
  pose proof (levels_ones (map bg_levels results)) as HB.
  rewrite length_map in HB.
  f_equal; lia.
Qed.

Lemma accurate_parallel_level_statistics_witness :
  let results :=
    [mkGameResult 5 120 3 true 3 1 4 1 [1; 2; 4];
     mkGameResult 10 0 0 false 0 2 1 2 []] in
  m_run_nonzero_levels_sum (level_rounds results) = 8
  /\ m_run_nonzero_levels_sum (accurate_parallel_levels results) = 10
  /\ m_fg_nonzero_levels_sum (accurate_parallel_levels results)
     = m_fg_nonzero_levels_sum (level_rounds results).
Proof.
  cbv zeta. split; [reflexivity|].
  rewrite (accurate_parallel_level_statistics
             [mkGameResult 5 120 3 true 3 1 4 1 [1; 2; 4];
              mkGameResult 10 0 0 false 0 2 1 2 []]).
  - split; reflexivity.
  - repeat constructor.
Defined.

(** *** Feature-game counters *)

Lemma count_stored_from results :
  forall c,
    (forall r, In r results ->
               fg_was_triggered r = false -> fg_run_length r = 0) ->
    fold_left count_round results c
    = let '(picks, runs, longest) :=
        fold_left
          (fun '(picks, runs, longest) length =>
             if length >? 0
             then (picks + length, runs + 1,
                   if length >? longest then length else longest)
             else (picks + length, runs, longest))
          (map fg_run_length results)
          (m_total_fg_picks c, m_total_fg_runs c, m_max_fg_length c) in
      mkCounters
        (fold_left (fun n (t : bool) => if t then n + 1 else n)
                   (map fg_was_triggered results) (m_fg_triggered_count c))
        runs picks longest
        (fold_left (fun n x => n + x) (map fg_nonzero_picks results)
                   (m_nonzero_fg_picks_count c)).
Proof.
  induction results as [|r results IH]; intros c Hplayed;
    cbn [fold_left map].
  - destruct c. reflexivity.
  - rewrite IH by (intros r' Hr'; apply Hplayed; now right).
    unfold count_round.
    destruct (fg_was_triggered r) eqn:Et.
    + destruct (fg_run_length r >? 0); reflexivity.
    + rewrite (Hplayed r (or_introl eq_refl) Et).
      change (0 >? 0) with false. cbv iota.
      cbn [m_total_fg_picks m_total_fg_runs m_max_fg_length
           m_fg_triggered_count m_nonzero_fg_picks_count].
      rewrite Z.add_0_r. reflexivity.
Qed.

Lemma count_rounds_bounds results :
  forall c,
    (forall r, In r results ->
               result_ok r
               /\ (fg_was_triggered r = false -> fg_run_length r = 0)) ->
    0 <= m_total_fg_runs c <= m_fg_triggered_count c ->
    m_nonzero_fg_picks_count c <= m_total_fg_picks c ->
    0 <= m_max_fg_length c <= m_total_fg_picks c ->
    let c' := fold_left count_round results c in
    0 <= m_total_fg_runs c' <= m_fg_triggered_count c'
    /\ m_fg_triggered_count c'
       <= m_fg_triggered_count c + Z.of_nat (List.length results)
    /\ m_nonzero_fg_picks_count c' <= m_total_fg_picks c'
    /\ 0 <= m_max_fg_length c' <= m_total_fg_picks c'.
Proof.
  induction results as [|r results IH]; intros c Hok H1 H2 H3;
    cbn [fold_left List.length].
  - cbv zeta. lia.
  - destruct (Hok r (or_introl eq_refl)) as [[Hlen Hnz] Hun].
    assert (Hr0 : 0 <= fg_run_length r) by lia.
    assert (Hstep : (0 <= m_total_fg_runs (count_round c r)
                     <= m_fg_triggered_count (count_round c r))
                    /\ m_fg_triggered_count (count_round c r)
                       <= m_fg_triggered_count c + 1
                    /\ m_nonzero_fg_picks_count (count_round c r)
                       <= m_total_fg_picks (count_round c r)
                    /\ (0 <= m_max_fg_length (count_round c r)
                        <= m_total_fg_picks (count_round c r))).
    { unfold count_round.
      destruct (fg_was_triggered r) eqn:Et.
      - destruct (fg_run_length r >? 0) eqn:El; cbn; [|lia].
        destruct (fg_run_length r >? m_max_fg_length c); lia.
      - specialize (Hun eq_refl). cbn. lia. }
    destruct Hstep as (S1 & S2 & S3 & S4).
    specialize (IH (count_round c r)
                   (fun r' Hr' => Hok r' (or_intror Hr')) S1 S3 S4).
    cbv zeta in IH |- *. lia.
Qed.

Lemma stored_flags_count fg_triggered :
  forall n,
    fold_left (fun n (t : bool) => if t then n + 1 else n) fg_triggered n
    = n + Z.of_nat (count_occ bool_dec fg_triggered true).
Proof.
  induction fg_triggered as [|t flags IH]; intros n;
    cbn [fold_left count_occ]; [lia|].
  rewrite IH. destruct t; destruct (bool_dec _ _); try congruence; lia.
Qed.

(** X28.  The parallel accurate runners count from the stored vectors.
    For results as the game modules return them (one level entry per
    pick, no more non-zero picks than picks, no pick without the trigger
    flag), and whatever the stored vector of trigger flags holds,
    [m_total_fg_picks], [m_total_fg_runs], [m_max_fg_length] and
    [m_nonzero_fg_picks_count] are those the round loop of the
    single-threaded runners accumulates, although only the latter looks
    at the trigger flag before it adds the picks.  [m_fg_triggered_count]
    is the number of flags set in the stored vector, which the threads
    write without synchronisation: it is the count of the round loop when
    every flag was stored as returned, and only then.  The counters of the
    round loop are consistent: there are no more feature runs than
    triggers and no more triggers than rounds, no more non-zero picks than
    picks, and the longest run is at most the number of picks. *)
Theorem stored_counters_match_the_round_loop fg_triggered results :
  Forall (fun r => result_ok r
                   /\ (fg_was_triggered r = false -> fg_run_length r = 0))
         results ->
  let stored := count_stored_flags fg_triggered results in
  let looped := count_rounds results in
  m_total_fg_picks stored = m_total_fg_picks looped
  /\ m_total_fg_runs stored = m_total_fg_runs looped
  /\ m_max_fg_length stored = m_max_fg_length looped
  /\ m_nonzero_fg_picks_count stored = m_nonzero_fg_picks_count looped
  /\ m_fg_triggered_count stored
     = Z.of_nat (count_occ bool_dec fg_triggered true)
  /\ (stored = looped
      <-> count_occ bool_dec fg_triggered true
          = count_occ bool_dec (map fg_was_triggered results) true)
  /\ 0 <= m_total_fg_runs looped
  /\ m_total_fg_runs looped <= m_fg_triggered_count looped
  /\ m_fg_triggered_count looped <= Z.of_nat (List.length results)
  /\ m_nonzero_fg_picks_count looped <= m_total_fg_picks looped
  /\ 0 <= m_max_fg_length looped
  /\ m_max_fg_length looped <= m_total_fg_picks looped.
Proof.
  intros Hok stored looped. rewrite Forall_forall in Hok.
  assert (Hloop : looped
                  = count_stored_flags (map fg_was_triggered results) results).
  { unfold looped, count_rounds.
    rewrite count_stored_from by (intros r Hr; apply (Hok r Hr)).
    reflexivity. }
  assert (Hflags : m_fg_triggered_count stored
                   = Z.of_nat (count_occ bool_dec fg_triggered true)).
  { unfold stored, count_stored_flags.
    destruct (fold_left _ (map fg_run_length results) (0, 0, 0))
      as [[picks runs] longest].
    cbn [m_fg_triggered_count]. rewrite stored_flags_count. lia. }
  assert (Hlooped : m_fg_triggered_count looped
                    = Z.of_nat (count_occ bool_dec
                                  (map fg_was_triggered results) true)).
  { rewrite Hloop. unfold count_stored_flags.
    destruct (fold_left _ (map fg_run_length results) (0, 0, 0))
      as [[picks runs] longest].
    cbn [m_fg_triggered_count]. rewrite stored_flags_count. lia. }
  assert (Hrest : m_total_fg_picks stored = m_total_fg_picks looped
                  /\ m_total_fg_runs stored = m_total_fg_runs looped
                  /\ m_max_fg_length stored = m_max_fg_length looped
                  /\ m_nonzero_fg_picks_count stored
                     = m_nonzero_fg_picks_count looped).
  { rewrite Hloop. unfold stored, count_stored_flags.
    destruct (fold_left _ (map fg_run_length results) (0, 0, 0))
      as [[picks runs] longest].
    repeat split. }
  destruct Hrest as (R1 & R2 & R3 & R4).
  split; [exact R1|]. split; [exact R2|]. split; [exact R3|].
  split; [exact R4|]. split; [exact Hflags|]. split.
  - split.
    + intros E. rewrite E in Hflags. rewrite Hlooped in Hflags. lia.
    + intros E. destruct stored, looped.
      cbn [m_total_fg_picks m_total_fg_runs m_max_fg_length
           m_nonzero_fg_picks_count m_fg_triggered_count] in *.
      rewrite E in Hflags. congruence.
  - pose proof (count_rounds_bounds results counters_reset Hok) as Hb.
    cbn [counters_reset m_total_fg_runs m_fg_triggered_count
         m_nonzero_fg_picks_count m_total_fg_picks m_max_fg_length] in Hb.
    specialize (Hb ltac:(lia) ltac:(lia) ltac:(lia)). cbv zeta in Hb.
    unfold looped, count_rounds. lia.
Qed.

Lemma stored_counters_match_the_round_loop_witness :
  let results :=
    [mkGameResult 5 120 3 true 3 1 4 1 [1; 2; 4];
     mkGameResult 10 0 0 false 0 2 1 2 [];
     mkGameResult 0 0 0 true 0 1 1 1 []] in
  m_total_fg_picks (count_stored_flags [false; false; true] results)
  = m_total_fg_picks (count_rounds results)
  /\ count_rounds results = mkCounters 2 1 3 3 3
  /\ count_stored_flags [false; false; true] results = mkCounters 1 1 3 3 3.
Proof.
  cbv zeta. split; [|split; reflexivity].
  apply (stored_counters_match_the_round_loop [false; false; true]
           [mkGameResult 5 120 3 true 3 1 4 1 [1; 2; 4];
            mkGameResult 10 0 0 false 0 2 1 2 [];
            mkGameResult 0 0 0 true 0 1 1 1 []]).
  repeat constructor; cbn; try lia; try discriminate.
Defined.

(** *** The number of rounds of a batched run *)

(** X29.  Outside FG_ONLY mode, [run(k, m, ...)] with positive [k] and [m]
    plays [k * m] rounds, and it throws when the product [k * m] is zero
    or negative.  The check is on the product only: with [k] and [m] both
    negative it passes, and the run then plays no round at all. *)
Theorem batched_run_round_count k m sim_mode :
  sim_mode <> FG_ONLY ->
  - 2 ^ 63 <= k * m < 2 ^ 63 ->
  (0 < k -> 0 < m -> run_batched_rounds k m sim_mode = Returns (k * m))
  /\ (k * m <= 0 ->
      run_batched_rounds k m sim_mode
      = Throws "Total number of simulations (k * m) must be positive.")
  /\ (k < 0 -> m < 0 -> run_batched_rounds k m sim_mode = Returns 0).
Proof.
  intros Hmode Hrange. unfold run_batched_rounds.
  rewrite Int64Props.mul_small by exact Hrange.
  repeat split.
  - intros Hk Hm.
    destruct (k * m <=? 0) eqn:E; [apply Z.leb_le in E; nia|].
    unfold trips. destruct sim_mode; try congruence; f_equal; lia.
  - intros Hneg. apply Z.leb_le in Hneg. now rewrite Hneg.
  - intros Hk Hm.
    destruct (k * m <=? 0) eqn:E; [apply Z.leb_le in E; nia|].
    unfold trips. destruct sim_mode; try congruence; f_equal; lia.
Qed.

Lemma batched_run_round_count_witness :
  run_batched_rounds 100 1000 FULL_GAME = Returns 100000
  /\ run_batched_rounds (-2) (-3) BG_ONLY = Returns 0
  /\ run_batched_rounds 5 0 FULL_GAME
     = Throws "Total number of simulations (k * m) must be positive.".
Proof.
  split; [|split].
  - apply (proj1 (batched_run_round_count 100 1000 FULL_GAME
                    ltac:(discriminate) ltac:(lia))); lia.
  - apply (proj2 (proj2 (batched_run_round_count (-2) (-3) BG_ONLY
                           ltac:(discriminate) ltac:(lia)))); lia.
  - apply (proj1 (proj2 (batched_run_round_count 5 0 FULL_GAME
                           ltac:(discriminate) ltac:(lia)))); lia.
Defined.

End RunnerBookkeeping.

(** ** The bootstrap intervals: further properties *)

Module BootstrapMore.
Import MonteCarloSimulator.
Import StatisticsMore.
Local Open Scope Q_scope.

Lemma percentile_bound_le means p q :
  means <> [] -> 0 <= p -> p <= q -> q <= 100 ->
  exists v w,
    percentile_bound means p = Returns v
    /\ percentile_bound means q = Returns w /\ v <= w.
Proof.
  intros Hne Hp Hpq Hq. unfold percentile_bound.
  destruct (findValueAtPercentile_le means p q Hne Hp Hpq Hq)
    as (v & w & -> & -> & Hvw).
  now exists v, w.
Qed.

(** X30.  With at least one bootstrap mean, the three bootstrap intervals are
    returned, each with its lower bound at most its upper bound, and they
    are nested: the 90 percent interval lies inside the 95 percent
    interval, which lies inside the 99 percent interval. *)
Theorem bootstrap_intervals_are_nested m_bootstrap_means :
  m_bootstrap_means <> [] ->
  exists l90 u90 l95 u95 l99 u99,
    bootstrap_intervals m_bootstrap_means
    = Returns [mkCI 90 (Some l90) (Some u90); mkCI 95 (Some l95) (Some u95);
               mkCI 99 (Some l99) (Some u99)]
    /\ l99 <= l95 /\ l95 <= l90 /\ l90 <= u90 /\ u90 <= u95 /\ u95 <= u99.
Proof.
  intros Hne. unfold bootstrap_intervals, bootstrap_interval.
  pose proof (sort_nonempty m_bootstrap_means Hne) as Hs.
  set (means := Statistics.sort m_bootstrap_means) in *.
  assert (Hq : forall a b : Q, Qle_bool a b = true -> a <= b)
    by (intros a b; apply Qle_bool_iff).
  destruct (percentile_bound_le means 0.5 2.5 Hs) as (l99 & l95 & E1 & E2 & H1);
    try (apply Hq; reflexivity).
  destruct (percentile_bound_le means 2.5 5 Hs) as (l95' & l90 & E2' & E3 & H2);
    try (apply Hq; reflexivity).
  destruct (percentile_bound_le means 5 95 Hs) as (l90' & u90 & E3' & E4 & H3);
    try (apply Hq; reflexivity).
  destruct (percentile_bound_le means 95 97.5 Hs) as (u90' & u95 & E4' & E5 & H4);
    try (apply Hq; reflexivity).
  destruct (percentile_bound_le means 97.5 99.5 Hs)
    as (u95' & u99 & E5' & E6 & H5);
    try (apply Hq; reflexivity).
  rewrite E2 in E2'. injection E2' as <-.
  rewrite E3 in E3'. injection E3' as <-.
  rewrite E4 in E4'. injection E4' as <-.
  rewrite E5 in E5'. injection E5' as <-.
  rewrite E1, E2, E3, E4, E5, E6.
  exists l90, u90, l95, u95, l99, u99. repeat split; assumption.
Qed.

Lemma bootstrap_intervals_are_nested_witness :
  exists l90 u90 l95 u95 l99 u99,
    bootstrap_intervals [12; 10; 11; 13]
    = Returns [mkCI 90 (Some l90) (Some u90); mkCI 95 (Some l95) (Some u95);
               mkCI 99 (Some l99) (Some u99)]
    /\ l99 <= l95 /\ l95 <= l90 /\ l90 <= u90 /\ u90 <= u95 /\ u95 <= u99.
Proof.
  apply (bootstrap_intervals_are_nested [12; 10; 11; 13]). discriminate.
Defined.

End BootstrapMore.
